(* ===== verification/_CoqProject ===== *)
-Q . S2P
Prelude.v
GoLib.v
Float64.v
Prog.v
Types.v
Kube.v
KubeSim.v
Raft.v
GoHeap.v
DeepCopy.v
RaftSystem.v
Pool.v
PoolLogic.v
RaftThreads.v
Resources.v
Replicas.v
Reconciler.v
Election.v
MasterSlave.v
Integration.v
Monitoring.v
MonitorLoops.v
Controller.v
Process.v
Flag.v
Main.v
