(* ===== verification/Prelude.v ===== *)
(** * A Raft based MySQL cluster operator, verified (root file)

    The operator under [src/] keeps one MySQL master and its slaves running as Kubernetes pods.  A
    custom resource [MysqlCluster] states the image, the number of replicas and the storage; the
    controller creates a ConfigMap, a volume claim and a pod per replica and two services, sets up
    MySQL replication by commands it executes in the pods, and puts pods, labels and replication
    right whenever something changes.  A Raft manager per process elects a leader among nodes named
    after the cluster; the process whose manager leads performs failovers.  This development is the
    operator as definitions that follow the source function by function, with theorems about them.

    ** How the program is modelled

    Code without effects is a function.  Code that talks to Kubernetes, reads the clock, draws random
    numbers, ranges over a map or starts a goroutine is a [prog] (file [Prog]): a tree of requests
    and of indivisible accesses to the memory it shares with other goroutines.  Nothing is assumed of
    the answers.  The ways to speak about a program used throughout are:
    - [run h p m w]: the program run against a handler [h], which may be any stateful function of
      requests and may also change the shared memory (the other goroutines' turn);
    - [exec p t o]: some handler makes [p] produce the trace [t] of answered requests and end in [o].
      A theorem about all [t] holds in every environment, with any failures and any interleaving;
    - program logics derived from these: [always P Q p] (every request satisfies [P], every outcome
      [Q]), [safe I An P Q p] (the same, provided the environment keeps [I] and answers in [An]),
      [within P G p] (requests in [P], memory accesses in the relation [G]), [ends p] (never out of
      fuel) and [triple G pre p post] (assertions on the trace so far and the memory).

    Two parts need more than this.  The goroutines of [raft.go] run in a [Pool]: several programs that
    share a memory and a mutex, stepping in any order.  The generated deep copies are about what
    pointers share, so they run on a heap of cells (file [GoHeap]), with slices and maps as
    references into it.

    Hypotheses on answers are explicit: [names_answered] (a Get answers with the object that was asked
    for), [executors_answered] (the executor of a command is one for the request it was made with),
    [keys_answered] (a range over a map visits its keys) and [keeps_time] ([Sleep d] moves the clock
    by at least [d]).  Each has a witness on [KubeSim], a small in-memory API server.

    What a run does to the pods is read off its trace by [attempts]: the role labels it tried to write
    and the commands it tried to run, each with whether it took effect, that is, whether the server
    accepted the update, or the stream of the command ended without an error.  A plan is carried out
    when its attempts are [accepted plan]; a call that fails [stops_in] its plan.

    Go values keep their behaviour: [int32] and [int64] wrap, [time.Since] saturates, [float64] is
    binary floating point with 53 bits (file [Float64]), a nil map is [None] and panics on assignment, a
    slice expression out of range panics, [regexp], [strings] and [strconv] functions are executable
    definitions (file [GoLib]).  The outcome of a program is a value, a Go error, a panic, or
    [OutOfFuel] for a [for] loop without a bound.

    ** Files

    - [Prelude]: record update, string and list lemmas, automation.
    - [GoLib]: integers, time, [fmt], [strings], [strconv], the pattern [mysql-(\d+)].
    - [Float64]: [float64] with what rounding does to sums and quotients that are not negative.
    - [Prog]: programs, their runs, traces, [always] and [safe], with their rules and tactics.
    - [Types]: [api/v1/mysqlcluster_types.go], records for the structs.
    - [Kube]: the objects, the requests to the world and their answers, the facts a trace confirms.
    - [KubeSim]: an API server, kubelet, clock and shell to evaluate programs on.
    - [Raft]: [raft.go], each method of [RaftManager] as a function on the manager.
    - [GoHeap]: pointers, structs and slices in a heap; [DeepCopy]: [zz_generated.deepcopy.go] on it,
      and [updateClusterStatus] of [raft.go] on references.
    - [RaftSystem]: [raft.go], a manager as interleaved critical sections and unlocked reads, the
      steps of one process ([step]) and of several side by side ([Cluster]).
    - [Pool]: goroutines under a mutex; [PoolLogic]: rely and guarantee for them; [RaftThreads]: those of [raft.go] ([Start], the two timers,
      the vote and heartbeat goroutines), statement by statement.
    - [Resources]: [utlis.go] (ConfigMaps, claims, pods, services, labels, commands in pods, the
      set up of replication) and the listing of the pods in [reconcile_replicas.go].
    - [Replicas]: [reconcile_replicas.go], the numbers of the replicas and creating missing ones.
    - [Reconciler]: the fields of [MysqlClusterReconciler] that change, the shared memory.
    - [Election]: [elect_new_master.go], scores of slaves and the election by score.
    - [MasterSlave]: [reconcile_master_slave.go], checks and repair of master and slaves.
    - [Integration]: [raft_mysql_integration.go], the failover driven by Raft.
    - [Monitoring]: [raft_monitoring.go], metrics, health, and the status written back;
      [MonitorLoops]: its three goroutines.
    - [Controller]: [initialization.go] and [mysqlcluster_controller.go], [Reconcile] as a whole.
    - [Process]: the worker that calls [Reconcile] with every goroutine it starts, in one pool.
    - [Flag]: the command line syntax of package [flag]; [Main]: [cmd/main.go], the registration in
      [groupversion_info.go] and [SetupWithManager].

    A call of one component by another is a call of its program: [Reconcile] calls [init],
    [reconcileReplicas], [initializeRaft] and the two ways of repairing master and slaves; those call
    [Resources].  A client's theorem uses the callee's [always], [safe] or [exec] lemma, not its
    definition.  The monitor, the integration and [Reconcile] share the manager and the cluster object
    through [Reconciler.MysqlClusterReconciler].

    ** What is shown

    - Raft goroutines: every interleaving of the programs in [RaftThreads] is a run of [RaftSystem]
      (a refinement, with what each goroutine is about to do as ghost state), so the theorems on runs
      hold of them; they write under the mutex only, do not deadlock and do not panic.
    - Raft: [HandleVoteRequest] and [HandleAppendEntries] on every branch against the rules they
      implement; the log and the commit index after accepted entries; the state diagram of the roles,
      and the elections that start a candidacy; terms that never decrease, votes kept within a term with
      the one exception the code makes; behind a leader there is an election with its own vote and vote
      requests to different other nodes that make a majority ([majority_requested]). The code counts
      requests made, not votes granted, and theorems show the consequences: two leaders of one term, a
      leader by requests of an older term, two votes in one term, a commit index beyond the log, a one-
      node cluster without leader.
    - Resources: what [createPod] has done when it returns, and that it returns exactly when a round
      of its wait finds the pod healthy; the set up of replication as a script of actions that took
      effect in order, in which a failing call stops; selectors of services.
    - Replicas: names and numbers are inverse; a reconciliation that succeeds leaves no expected
      replica missing and writes nothing else.
    - Failover: the slave elected by score is a best one, what an election can fail of, and that the
      size of the data decides it; the labels a failover writes, in order; the wait for a leader
      ends; the requests a Raft failover makes.  A label counts when the server accepted it.
    - Reconcile: what an initialisation that succeeds has made and waited for before it sets up
      replication, that it ends unless a pod does not come up, that a cluster is marked exactly when it
      succeeded, what reconciling an initialised cluster may write, that the goroutines of a process are
      started once, that a manager which does not lead leaves a live master alone.
    - Monitoring: quorum is the majority test; what the health report and the written status say; what
      the loops may write, and that no error ends them.
    - The whole process: what the parts rely on of each other holds when they run together, whatever
      the interleaving: the manager keeps its node and its cluster, no goroutine fails or panics, and
      each kind of object is written by the goroutine that should.  What can bring the process down
      besides a call of [Reconcile] is the runtime, when the monitor sends the status without the lock
      while the manager records its state in the same map ([map_race]); a concrete run gets there.
    - Deep copies: a copy reads as its original, lies in new memory and is well typed; what it still
      shares, and that recording the status in a copy therefore shows in the original; recording on
      references refines the function [statusOf] on values.
    - The process: the command line round trip, servers that are secure by default, and how the
      process ends at the step of its set up that failed.

    ** Bounds and fuel

    Three loops have no bound in the source.  The wait of [createPod] runs until the pod is healthy:
    its fuel is an argument, and the theorem on it says which fuel is enough and that none is while
    the pod never gets healthy.  The wait for an election ends after 30 seconds in rounds of 100 ms:
    301 rounds are proved to be enough on every clock that keeps time.  The counting loops of the
    initialisation run in [int32]; fuel of one more than the replicas is proved enough below the
    largest [int32].  The loops of the endless goroutines, the timers of [raft.go] and
    the tickers of the monitor, take the number of rounds that are looked at; their theorems hold for
    every number.  The snapshot loop is one round of it in [Election], and a
    number of rounds in [Process].  The goroutines of a pool are
    not bounded; a step of the pool of [RaftThreads] requires that the term is not the largest [int64].

    ** What is not modelled

    Logging, except where a log line is the only result of a computation (the health check returns
    its warnings, the loop of the metrics logs them) or the last thing a process says. The copy
    functions of the metadata, the servers and the manager of controller-runtime and the flags of
    other packages are parameters. [HandleVoteRequest] and [HandleAppendEntries] are called by no
    goroutine of the operator: they are events of [RaftSystem], and so are the writes of the
    monitor; [RaftThreads] has neither. In [Process] the queue holds one cluster, and the
    controller's and the monitor's accesses to the manager do not wait for the mutex, so it has the
    interleavings of the code and more. The assignments of a critical section between two requests
    are one access, and so are those of [startElection] after it has read the clock and a random
    number. An access to the memory is indivisible; of the data races the code has, the one on the map
    of nodes, on which the Go runtime aborts the process, is modelled in [Process] and the others,
    on integers, strings and pointers, are not. The client, the REST executor, the random generator and the scheduler are the handler.
    Times are printed in UTC. A method that reads several fields of the manager without the lock is
    a single reading. Where the committed source names a field that its struct does not declare
    ([RaftManager.Client], [RaftNodeInfo.LastContact] and a few more), the model has the field as
    its uses have it. *)

From stdpp Require Export base tactics strings gmap list fin_maps sets relations pretty.
From Stdlib Require Export ZArith Lia.
From Stdlib Require Export Ascii.

#[global] Open Scope Z_scope.
#[global] Open Scope list_scope.

(** ** Functional record update

    Go assigns to one field of a struct at a time.  [r <| f := v |>] is the record [r] with the
    field [f] replaced; the setter is computed from the eta expansion registered by the record's
    [Eta] instance. *)

Class Eta (R : Type) := eta : R -> R.

Class FieldUpdate {R T : Type} (proj : R -> T) := field_update : (T -> T) -> R -> R.

Ltac derive_field_update :=
  lazymatch goal with
  | |- @FieldUpdate ?R ?T ?proj =>
      let body := eval hnf in (@eta R _) in
      lazymatch eval pattern proj in body with
      | ?ctx _ => let u := constr:(fun (g : T -> T) => ctx (fun r => g (proj r))) in
                  let u := eval cbv beta in u in exact u
      end
  end.

#[export] Hint Extern 0 (FieldUpdate _) => derive_field_update : typeclass_instances.

Notation "r <| f := v |>" := (field_update (proj := f) (fun _ => v) r)
  (at level 1, left associativity, f constr, v constr at level 200,
   format "r  <| f  :=  v |>").

(** ** Errors, results and outcomes

    A Go [error] keeps the structure of the calls that built it: [Errorf] is an error made by the
    program, [Wrapf p e] is [fmt.Errorf("p: %v", e)], [NumError] is what [strconv] returns and
    [LibraryError] is an error made by code outside the program (the API server, the REST
    client). *)

Inductive error : Type :=
| Errorf (msg : string)
| Wrapf (prefix : string) (cause : error)
| NumError (func num cause : string)
| LibraryError (reason msg : string).

#[export] Instance error_eq_dec : EqDecision error.
Proof. solve_decision. Defined.

Definition dq : string := String (Ascii.ascii_of_nat 34) EmptyString.

(** [err.Error()].  [strconv] quotes the number; its escapes of non printable bytes are left
    out. *)
Fixpoint Error (e : error) : string :=
  match e with
  | Errorf msg => msg
  | Wrapf prefix cause => prefix +:+ ": " +:+ Error cause
  | NumError func num cause => "strconv." +:+ func +:+ ": parsing " +:+ dq +:+ num +:+ dq +:+ ": " +:+ cause
  | LibraryError _ msg => msg
  end.

(** A Go pair [(T, error)] of which the caller uses one half. *)
Inductive result (A : Type) : Type :=
| Success (a : A)
| Failure (e : error).
Arguments Success {A} a.
Arguments Failure {A} e.

Definition is_success {A} (r : result A) : bool :=
  match r with Success _ => true | Failure _ => false end.

(** How a call ends: it returns a value, it returns an error, the goroutine panics, or the fuel
    given to an unbounded loop of the program is used up. *)
Inductive outcome (A : Type) : Type :=
| Ok (a : A)
| Err (e : error)
| Panic (msg : string)
| OutOfFuel.
Arguments Ok {A} a.
Arguments Err {A} e.
Arguments Panic {A} msg.
Arguments OutOfFuel {A}.

Definition of_result {A} (r : result A) : outcome A :=
  match r with Success a => Ok a | Failure e => Err e end.

(** ** Tactics *)

(** Case analysis on every test of the goal, with the outcome as a proposition. *)
Ltac case_test :=
  match goal with
  | |- context [decide ?P] => destruct (decide P)
  | |- context [bool_decide ?P] =>
      let H := fresh in destruct (bool_decide P) eqn:H;
      [apply bool_decide_eq_true in H|apply bool_decide_eq_false in H]
  | |- context [Z.ltb ?a ?b] => destruct (Z.ltb_spec a b)
  | |- context [Z.leb ?a ?b] => destruct (Z.leb_spec a b)
  | |- context [Z.eqb ?a ?b] => destruct (Z.eqb_spec a b)
  end.
Ltac case_tests := repeat (case_test; cbn in *).

(** The hint databases of the development. *)
Create HintDb go.
Create Rewrite HintDb go.

(** ** Lists *)

Lemma length_filter_delete {A} (P : A -> Prop) `{!forall x, Decision (P x)} (l : list A) i x :
  l !! i = Some x ->
  Z.of_nat (length (filter P l)) =
  Z.of_nat (length (filter P (delete i l))) + (if decide (P x) then 1 else 0).
Proof.
  intros Hi.
  assert (Permutation (filter P l) (filter P (x :: delete i l))) as ->%Permutation_length
    by by rewrite <-(delete_Permutation l i x Hi).
  rewrite filter_cons. case_decide; cbn; lia.
Qed.

Lemma length_filter_insert {A} (P : A -> Prop) `{!forall x, Decision (P x)} (l : list A) i x y :
  l !! i = Some x -> (P y <-> P x) -> length (filter P (<[i := y]> l)) = length (filter P l).
Proof.
  intros Hi Hxy. rewrite insert_take_drop by (by eapply lookup_lt_Some).
  rewrite <-(take_drop_middle l i x Hi) at 3. rewrite !filter_app, !length_app, !filter_cons.
  repeat case_decide; cbn; lia || tauto.
Qed.

Lemma length_delete_Z {A} (l : list A) i x :
  l !! i = Some x -> Z.of_nat (length l) = Z.of_nat (length (delete i l)) + 1.
Proof.
  intros Hi%delete_Permutation%Permutation_length. rewrite Hi. cbn [length]. lia.
Qed.

Lemma filter_none {A} (P : A -> Prop) `{!forall x, Decision (P x)} (l : list A) :
  Forall (fun x => ~ P x) l -> filter P l = [].
Proof. induction 1 as [|x l Hx _ IH]; [done|]. by rewrite filter_cons_False. Qed.

Lemma filter_all {A} (P : A -> Prop) `{!forall x, Decision (P x)} (l : list A) :
  Forall P l -> filter P l = l.
Proof. induction 1 as [|x l Hx _ IH]; [done|]. rewrite filter_cons_True by done. by rewrite IH. Qed.

(** ** Plans

    A plan is a list of actions; what was attempted is a list of actions with whether each was
    accepted.  A plan is carried out when all of it was accepted in order; an attempt stops in the
    plan when a part from its start was accepted and then nothing followed, or the next action was
    tried, refused, and nothing followed. *)

Definition accepted {A} (plan : list A) : list (A * bool) := (fun a => (a, true)) <$> plan.

Inductive stops_in {A} : list A -> list (A * bool) -> Prop :=
| stops_here plan : stops_in plan []
| stops_refused a plan : stops_in (a :: plan) [(a, false)]
| stops_later a plan l : stops_in plan l -> stops_in (a :: plan) ((a, true) :: l).

#[export] Hint Constructors stops_in : go.

Lemma accepted_app {A} (s1 s2 : list A) : accepted (s1 ++ s2) = accepted s1 ++ accepted s2.
Proof. apply fmap_app. Qed.

Lemma stops_in_app_r {A} (s1 s2 : list A) l : stops_in s1 l -> stops_in (s1 ++ s2) l.
Proof. induction 1; cbn; auto with go. Qed.

Lemma stops_in_app {A} (s1 s2 : list A) l : stops_in s2 l -> stops_in (s1 ++ s2) (accepted s1 ++ l).
Proof. intros H. induction s1 as [|a s1 IH]; [done|]. cbn. by constructor. Qed.

(** The actions of one sort, with whether each was accepted. *)
Definition attempts_of {A B} (f : A -> option B) (l : list (A * bool)) : list (B * bool) :=
  omap (fun p => (fun b => (b, snd p)) <$> f (fst p)) l.

Lemma attempts_of_app {A B} (f : A -> option B) l1 l2 :
  attempts_of f (l1 ++ l2) = attempts_of f l1 ++ attempts_of f l2.
Proof. apply omap_app. Qed.

Lemma attempts_of_accepted {A B} (f : A -> option B) plan :
  attempts_of f (accepted plan) = accepted (omap f plan).
Proof.
  induction plan as [|a plan IH]; [done|]. unfold attempts_of, accepted in *. cbn.
  destruct (f a); cbn; [f_equal|]; exact IH.
Qed.

Lemma attempts_of_stops {A B} (f : A -> option B) plan l :
  stops_in plan l -> stops_in (omap f plan) (attempts_of f l).
Proof.
  unfold attempts_of. induction 1; cbn; [constructor|destruct (f a); constructor|].
  destruct (f a); cbn; [by constructor|done].
Qed.
