(* ===== verification/GoLib.v ===== *)
(** * The parts of Go and its standard library that the operator uses

    Integers at their width, the saturating [time.Since], [fmt]'s [%d] and [%02d], [strings],
    [strconv] and the one regular expression of the program, as executable functions with the
    lemmas the components share. *)

From S2P Require Import Prelude.

(** ** Integers *)

Definition wrap (w : Z) (z : Z) : Z := (z + 2 ^ (w - 1)) mod 2 ^ w - 2 ^ (w - 1).
Definition int64 : Z -> Z := wrap 64.
Definition int32 : Z -> Z := wrap 32.

Definition in_int64 (z : Z) : Prop := - 2 ^ 63 <= z < 2 ^ 63.
Definition in_int32 (z : Z) : Prop := - 2 ^ 31 <= z < 2 ^ 31.

Lemma int64_id z : in_int64 z -> int64 z = z.
Proof. unfold in_int64, int64, wrap. intros. rewrite Z.mod_small; lia. Qed.

Lemma int32_id z : in_int32 z -> int32 z = z.
Proof. unfold in_int32, int32, wrap. intros. rewrite Z.mod_small; lia. Qed.

Lemma int64_range z : in_int64 (int64 z).
Proof.
  unfold in_int64, int64, wrap. pose proof (Z.mod_pos_bound (z + 2 ^ (64 - 1)) (2 ^ 64)). lia.
Qed.

#[export] Hint Resolve int64_range : go.

(** ** Time

    A [time.Time] is a number of nanoseconds since the Unix epoch and a [time.Duration] a number
    of nanoseconds; [time.Since] saturates at the ends of [int64]. *)

Definition Time := Z.
Definition Duration := Z.

Definition Millisecond : Duration := 1000000.
Definition Second : Duration := 1000 * Millisecond.
Definition Minute : Duration := 60 * Second.

(** The zero [time.Time{}]: January 1, year 1. *)
Definition zero_time : Time := - 62135596800 * Second.

Definition Since (now t : Time) : Duration := Z.max (- 2 ^ 63) (Z.min (now - t) (2 ^ 63 - 1)).

(** The date of a day counted from 1970-01-01, as year, month and day (Gregorian). *)
Definition civil_of_days (days : Z) : Z * Z * Z :=
  let z := days + 719468 in
  let era := z / 146097 in
  let doe := z mod 146097 in
  let yoe := (doe - doe / 1460 + doe / 36524 - doe / 146096) / 365 in
  let doy := doe - (365 * yoe + yoe / 4 - yoe / 100) in
  let mp := (5 * doy + 2) / 153 in
  let d := doy - (153 * mp + 2) / 5 + 1 in
  let m := if mp <? 10 then mp + 3 else mp - 9 in
  ((if m <=? 2 then 1 else 0) + yoe + era * 400, m, d).

(** ** Strings *)

Section string_lemmas.
Implicit Types s t u : string.

Lemma string_app_cons c s t : String c s +:+ t = String c (s +:+ t).
Proof. done. Qed.

Lemma string_app_nil_r s : s +:+ "" = s.
Proof. induction s as [|c s IH]; [done|]. by rewrite string_app_cons, IH. Qed.

Lemma string_app_assoc s t u : (s +:+ t) +:+ u = s +:+ (t +:+ u).
Proof. induction s; [done|]. rewrite !string_app_cons. by f_equal. Qed.

Lemma string_app_length s t :
  String.length (s +:+ t) = (String.length s + String.length t)%nat.
Proof. induction s; [done|]. rewrite string_app_cons. cbn. lia. Qed.

#[global] Instance string_app_inj s : Inj (=) (=) (String.append s).
Proof.
  induction s as [|c s IH]; intros t u H; [done|].
  rewrite !string_app_cons in H. injection H. apply IH.
Qed.

Lemma string_app_inj_r s t u : s +:+ u = t +:+ u -> s = t.
Proof.
  revert t. induction s as [|c s IH]; intros [|d t] H; [done| | |].
  - apply (f_equal String.length) in H. rewrite !string_app_length in H. cbn in H. lia.
  - apply (f_equal String.length) in H. rewrite !string_app_length in H. cbn in H. lia.
  - rewrite !string_app_cons in H. injection H as -> H. by rewrite (IH t).
Qed.
End string_lemmas.

#[export] Hint Rewrite string_app_cons string_app_assoc string_app_nil_r string_app_length : go.

(** [fmt.Sprintf("%d", z)] and [fmt.Sprintf("%02d", z)]: the second pads to two characters with
    zeros, the sign counting as one. *)
Definition fmt_d (z : Z) : string := pretty z.
Definition fmt_02d (z : Z) : string :=
  if decide (0 <= z < 10) then "0" +:+ fmt_d z else fmt_d z.

(** [t.Format(time.RFC3339)] of a time in UTC and a year of four digits. *)
Definition Format_RFC3339 (t : Time) : string :=
  let seconds := t / Second in
  let '(y, m, d) := civil_of_days (seconds / 86400) in
  let s := seconds mod 86400 in
  fmt_d y +:+ "-" +:+ fmt_02d m +:+ "-" +:+ fmt_02d d +:+ "T" +:+
  fmt_02d (s / 3600) +:+ ":" +:+ fmt_02d (s / 60 mod 60) +:+ ":" +:+ fmt_02d (s mod 60) +:+ "Z".

(** [strings.HasPrefix] *)
Fixpoint HasPrefix (s prefix : string) : bool :=
  match prefix, s with
  | EmptyString, _ => true
  | String p prefix', String c s' => bool_decide (p = c) && HasPrefix s' prefix'
  | String _ _, EmptyString => false
  end.

Arguments HasPrefix : simpl nomatch.

(** [strings.Contains] *)
Fixpoint Contains (s substr : string) : bool :=
  HasPrefix s substr ||
  match s with
  | EmptyString => false
  | String _ s' => Contains s' substr
  end.

Lemma HasPrefix_spec s p : HasPrefix s p = true <-> exists t, s = p +:+ t.
Proof.
  revert s. induction p as [|c p IH]; intros [|d s]; cbn.
  - naive_solver.
  - naive_solver.
  - split; [done|]. by intros [t ?].
  - rewrite andb_true_iff, bool_decide_eq_true, IH. split.
    + intros [-> [t ->]]. by exists t.
    + intros [t ?]. rewrite string_app_cons in *. simplify_eq. eauto.
Qed.

Lemma Contains_spec s p : Contains s p = true <-> exists t u, s = t +:+ p +:+ u.
Proof.
  induction s as [|c s IH]; simpl; rewrite orb_true_iff, HasPrefix_spec.
  - split.
    + intros [[u ->]|?]; [|done]. by exists "", u.
    + intros ([|d t] & u & H); [left; by exists u|done].
  - rewrite IH. split.
    + intros [[u ->]|(t & u & ->)]; [by exists "", u|by exists (String c t), u].
    + intros ([|d t] & u & H); [left; by exists u|right].
      rewrite string_app_cons in H. injection H as _ ->. by exists t, u.
Qed.

(** [strings.Split(s, sep)] for a separator of one byte. *)
Fixpoint Split (s : string) (sep : ascii) : list string :=
  match s with
  | EmptyString => [EmptyString]
  | String c s' =>
      if decide (c = sep) then EmptyString :: Split s' sep
      else match Split s' sep with
           | hd :: tl => String c hd :: tl
           | [] => [String c EmptyString]
           end
  end.

(** [strings.Join], the inverse that states what [Split] does. *)
Fixpoint Join (l : list string) (sep : ascii) : string :=
  match l with
  | [] => EmptyString
  | [s] => s
  | s :: l' => s +:+ String sep (Join l' sep)
  end.

Lemma Split_not_nil s sep : Split s sep <> [].
Proof. destruct s; cbn; [done|]. case_decide; [done|]. by destruct (Split s sep). Qed.

Lemma length_Split s sep : (length (Split s sep) <= S (String.length s))%nat.
Proof.
  induction s as [|c s IH]; cbn; [done|]. case_decide; cbn; [lia|].
  destruct (Split s sep); cbn in *; lia.
Qed.

Lemma Join_Split s sep : Join (Split s sep) sep = s.
Proof.
  induction s as [|c s IH]; cbn; [done|].
  pose proof (Split_not_nil s sep). case_decide as Hc.
  - subst. destruct (Split s sep); [done|]. cbn in *. by rewrite IH.
  - destruct (Split s sep) as [|hd [|hd' tl]]; [done|..]; cbn in *; by rewrite <-IH.
Qed.

(** [strings.TrimSpace]: the white space runes of [unicode.IsSpace], in UTF-8. *)
Definition bytes (l : list nat) : string := String.string_of_list_ascii (Ascii.ascii_of_nat <$> l).

Definition space_runes : list string :=
  bytes <$> [[9]; [10]; [11]; [12]; [13]; [32]; [194; 133]; [194; 160]; [225; 154; 128];
             [226; 128; 128]; [226; 128; 129]; [226; 128; 130]; [226; 128; 131]; [226; 128; 132];
             [226; 128; 133]; [226; 128; 134]; [226; 128; 135]; [226; 128; 136]; [226; 128; 137];
             [226; 128; 138]; [226; 128; 168]; [226; 128; 169]; [226; 128; 175]; [226; 129; 159];
             [227; 128; 128]]%nat.

Fixpoint drop_bytes (n : nat) (s : string) : string :=
  match n, s with
  | S n', String _ s' => drop_bytes n' s'
  | _, _ => s
  end.

Fixpoint trim_left (fuel : nat) (s : string) : string :=
  match fuel, list_find (fun p => HasPrefix s p = true) space_runes with
  | S fuel', Some (_, p) => trim_left fuel' (drop_bytes (String.length p) s)
  | _, _ => s
  end.

Definition TrimLeft (s : string) : string := trim_left (String.length s) s.

Fixpoint TrimRight (s : string) : string :=
  match s with
  | EmptyString => EmptyString
  | String c s' => if decide (TrimLeft s = "") then "" else String c (TrimRight s')
  end.

Definition TrimSpace (s : string) : string := TrimRight (TrimLeft s).

Example TrimSpace_du : TrimSpace (" 4096" +:+ bytes [9; 10]%nat) = "4096".
Proof. vm_compute. reflexivity. Qed.

(** ** [strconv]

    The digits are read from the left; a byte that is no digit is a syntax error and an overflow of
    [uint64] a range error, whichever comes first. *)

Definition digit_of (c : ascii) : option Z :=
  let n := Z.of_nat (Ascii.nat_of_ascii c) in
  if decide (48 <= n <= 57) then Some (n - 48) else None.

Inductive parse_error := ErrSyntax | ErrRange.

Definition parse_error_text (e : parse_error) : string :=
  match e with ErrSyntax => "invalid syntax" | ErrRange => "value out of range" end.

Definition max_uint64 : Z := 2 ^ 64 - 1.

Fixpoint parse_digits (n : Z) (s : string) : Z + parse_error :=
  match s with
  | EmptyString => inl n
  | String c s' =>
      match digit_of c with
      | None => inr ErrSyntax
      | Some d =>
          if max_uint64 / 10 + 1 <=? n then inr ErrRange
          else if max_uint64 <? n * 10 + d then inr ErrRange
          else parse_digits (n * 10 + d) s'
      end
  end.

Definition ParseUint (s : string) : Z + parse_error :=
  match s with EmptyString => inr ErrSyntax | _ => parse_digits 0 s end.

(** The value comes with the error: [0] for a syntax error, the nearest [int64] for a number out
    of range. *)
Definition parse_int64 (s : string) : Z * option parse_error :=
  let '(neg, digits) :=
    match s with
    | String c s' =>
        if decide (c = "-"%char) then (true, s')
        else if decide (c = "+"%char) then (false, s') else (false, s)
    | EmptyString => (false, s)
    end in
  match ParseUint digits with
  | inr ErrSyntax => (0, Some ErrSyntax)
  | inr ErrRange => (if neg then - 2 ^ 63 else 2 ^ 63 - 1, Some ErrRange)
  | inl un =>
      if neg then if 2 ^ 63 <? un then (- 2 ^ 63, Some ErrRange) else (- un, None)
      else if 2 ^ 63 <=? un then (2 ^ 63 - 1, Some ErrRange) else (un, None)
  end.

Definition strconv_call (func s : string) : Z * option error :=
  let '(n, e) := parse_int64 s in (n, (fun e => NumError func s (parse_error_text e)) <$> e).

(** [strconv.ParseInt(s, 10, 64)] and [strconv.Atoi(s)]. *)
Definition ParseInt : string -> Z * option error := strconv_call "ParseInt".
Definition Atoi : string -> Z * option error := strconv_call "Atoi".

(** ** Decimal numbers: printing and reading back *)

Definition is_digit (c : ascii) : bool := bool_decide (is_Some (digit_of c)).

Fixpoint all_digits (s : string) : bool :=
  match s with
  | EmptyString => true
  | String c s' => is_digit c && all_digits s'
  end.

Lemma digit_of_pretty_char x : (x < 10)%N -> digit_of (pretty_N_char x) = Some (Z.of_N x).
Proof.
  intros Hx. assert (x ∈ [0; 1; 2; 3; 4; 5; 6; 7; 8; 9]%N) as Hin by (rewrite !elem_of_cons; lia).
  rewrite !elem_of_cons in Hin. by destruct_or!; subst; try done; set_solver.
Qed.

Lemma parse_digits_pretty_go x s :
  Z.of_N x <= max_uint64 -> parse_digits 0 (pretty_N_go x s) = parse_digits (Z.of_N x) s.
Proof.
  revert s. induction (N.lt_wf_0 x) as [x _ IH]; intros s Hx.
  destruct (decide (x = 0%N)) as [->|Hnz]; [by rewrite pretty_N_go_0|].
  assert (x `mod` 10 < 10)%N as Hmod by (apply N.mod_lt; lia).
  pose proof (N.Div0.div_mod x 10) as Hdiv. apply (f_equal Z.of_N) in Hdiv.
  rewrite N2Z.inj_add, N2Z.inj_mul in Hdiv. change (Z.of_N 10) with 10 in Hdiv.
  rewrite pretty_N_go_step by lia.
  set (q := (x `div` 10)%N) in *. set (r := (x `mod` 10)%N) in *.
  rewrite IH; [|apply N.div_lt; lia|lia].
  cbn [parse_digits]. rewrite digit_of_pretty_char by done.
  change (max_uint64 / 10 + 1) with 1844674407370955162.
  change max_uint64 with 18446744073709551615 in *.
  destruct (Z.leb_spec 1844674407370955162 (Z.of_N q)) as [Hle|_]; [lia|].
  destruct (Z.ltb_spec 18446744073709551615 (Z.of_N q * 10 + Z.of_N r)); [lia|].
  f_equal. lia.
Qed.

Lemma all_digits_pretty_go x s : all_digits (pretty_N_go x s) = all_digits s.
Proof.
  revert s. induction (N.lt_wf_0 x) as [x _ IH]; intros s.
  destruct (decide (x = 0%N)) as [->|Hnz]; [by rewrite pretty_N_go_0|].
  rewrite pretty_N_go_step by lia. rewrite IH by (apply N.div_lt; lia). cbn. unfold is_digit.
  rewrite digit_of_pretty_char by (apply N.mod_lt; lia). done.
Qed.

Lemma pretty_go_not_empty x s : s <> "" \/ (0 < x)%N -> pretty_N_go x s <> "".
Proof.
  revert s. induction (N.lt_wf_0 x) as [x _ IH]; intros s Hs.
  destruct (decide (x = 0%N)) as [->|Hnz]; [rewrite pretty_N_go_0; destruct Hs; [done|lia]|].
  rewrite pretty_N_go_step by lia. apply IH; [apply N.div_lt; lia|by left].
Qed.

Lemma fmt_d_pos z : 0 < z -> fmt_d z = pretty_N_go (Z.to_N z) "".
Proof. by destruct z. Qed.

Lemma all_digits_fmt_d z : 0 <= z -> all_digits (fmt_d z) = true.
Proof.
  intros. destruct (decide (z = 0)) as [->|]; [done|].
  by rewrite fmt_d_pos, all_digits_pretty_go by lia.
Qed.

Lemma fmt_d_not_empty z : 0 <= z -> fmt_d z <> "".
Proof.
  intros. destruct (decide (z = 0)) as [->|]; [done|].
  rewrite fmt_d_pos by lia. apply pretty_go_not_empty. lia.
Qed.

Lemma parse_digits_fmt_d z : 0 <= z <= max_uint64 -> parse_digits 0 (fmt_d z) = inl z.
Proof.
  intros. destruct (decide (z = 0)) as [->|]; [done|].
  rewrite fmt_d_pos, parse_digits_pretty_go by lia. cbn. by rewrite Z2N.id by lia.
Qed.

Lemma all_digits_fmt_02d z : 0 <= z -> all_digits (fmt_02d z) = true.
Proof.
  intros. unfold fmt_02d. case_decide; [rewrite string_app_cons; cbn|]; by apply all_digits_fmt_d.
Qed.

Lemma fmt_02d_not_empty z : 0 <= z -> fmt_02d z <> "".
Proof. intros. unfold fmt_02d. case_decide; [done|by apply fmt_d_not_empty]. Qed.

Lemma parse_digits_fmt_02d z : 0 <= z <= max_uint64 -> parse_digits 0 (fmt_02d z) = inl z.
Proof.
  intros. unfold fmt_02d. case_decide; [rewrite string_app_cons; cbn|]; by apply parse_digits_fmt_d.
Qed.

Lemma parse_int64_digits s z :
  all_digits s = true -> s <> "" -> parse_digits 0 s = inl z -> z < 2 ^ 63 ->
  parse_int64 s = (z, None).
Proof.
  intros Hd Hne Hp Hz. destruct s as [|c s]; [done|].
  assert (is_digit c = true) as Hc by (cbn in Hd; by destruct (is_digit c)).
  unfold parse_int64. rewrite decide_False by (by intros ->). rewrite decide_False by (by intros ->).
  cbn [ParseUint]. rewrite Hp. destruct (Z.leb_spec (2 ^ 63) z); [lia|done].
Qed.

Lemma parse_int64_fmt_02d z : 0 <= z < 2 ^ 63 -> parse_int64 (fmt_02d z) = (z, None).
Proof.
  intros. apply parse_int64_digits; [apply all_digits_fmt_02d|apply fmt_02d_not_empty| |]; try lia.
  apply parse_digits_fmt_02d. unfold max_uint64. lia.
Qed.

Lemma parse_int64_fmt_d z : in_int64 z -> parse_int64 (fmt_d z) = (z, None).
Proof.
  unfold in_int64. intros Hz. destruct (decide (0 <= z)).
  - apply parse_int64_digits; [apply all_digits_fmt_d|apply fmt_d_not_empty| |]; try lia.
    apply parse_digits_fmt_d. unfold max_uint64. lia.
  - destruct z as [|p|p]; try lia.
    assert (fmt_d (Z.neg p) = String "-" (fmt_d (Z.pos p))) as -> by done.
    unfold parse_int64. rewrite decide_True by done. unfold ParseUint.
    pose proof (fmt_d_not_empty (Z.pos p)). destruct (fmt_d (Z.pos p)) eqn:E; [naive_solver lia|].
    rewrite <-E, parse_digits_fmt_d by (unfold max_uint64; lia).
    by destruct (Z.ltb_spec (2 ^ 63) (Z.pos p)); [lia|].
Qed.

Lemma fmt_02d_inj x y :
  0 <= x < 2 ^ 63 -> 0 <= y < 2 ^ 63 -> fmt_02d x = fmt_02d y -> x = y.
Proof.
  intros Hx Hy E. apply (f_equal parse_int64) in E. rewrite !parse_int64_fmt_02d in E by done.
  by injection E.
Qed.

(** The longest prefix of decimal digits, what [\d+] matches. *)
Fixpoint take_digits (s : string) : string :=
  match s with
  | EmptyString => EmptyString
  | String c s' => if is_digit c then String c (take_digits s') else EmptyString
  end.

Lemma take_digits_all s : all_digits s = true -> take_digits s = s.
Proof.
  induction s as [|c s IH]; cbn; [done|]. rewrite andb_true_iff. intros [-> ?]. by rewrite IH.
Qed.

Lemma take_digits_spec s :
  all_digits (take_digits s) = true /\
  exists t, s = take_digits s +:+ t /\ forall c u, t = String c u -> is_digit c = false.
Proof.
  induction s as [|c s (IHd & t & IHt & Hc)]; cbn.
  { split; [done|]. exists "". naive_solver. }
  destruct (is_digit c) eqn:E; cbn.
  - rewrite E, IHd. split; [done|]. exists t. rewrite string_app_cons. split; [congruence|done].
  - split; [done|]. exists (String c s). split; [done|]. naive_solver.
Qed.

Lemma all_digits_app s t : all_digits (s +:+ t) = all_digits s && all_digits t.
Proof.
  induction s as [|c s IH]; [done|]. rewrite string_app_cons. cbn. by rewrite IH, andb_assoc.
Qed.
