(* ===== verification/Float64.v ===== *)
(** * The [float64] of the scores

    [float64] is binary floating point with 53 bits and exponents to 1024, as specified by the Standard
    Library's [SpecFloat].  The lemmas say what rounding does to numbers that are not negative: the
    result lies between the same multiples of its unit as the number itself, and the order of floats
    is the order of the numbers. *)

From Stdlib Require Import SpecFloat.
From S2P Require Import Prelude.

Definition float64 : Type := spec_float.

Definition float_of_int (n : Z) : float64 := binary_normalize 53 1024 n 0 false.
Definition float_add : float64 -> float64 -> float64 := SFadd 53 1024.
Definition float_div : float64 -> float64 -> float64 := SFdiv 53 1024.
Definition float_ltb : float64 -> float64 -> bool := SFltb.

Arguments float_of_int : simpl never.
Arguments float_add : simpl never.
Arguments float_div : simpl never.
Arguments float_ltb : simpl never.

(** ** The order of floats *)

(** A number's place: negative infinity, negative, zero, positive, infinity; then exponent and
    mantissa. *)
Definition float_key (f : float64) : option (Z * Z * Z) :=
  match f with
  | S754_nan => None
  | S754_infinity true => Some (-2, 0, 0)
  | S754_finite true m e => Some (-1, - e, Z.neg m)
  | S754_zero _ => Some (0, 0, 0)
  | S754_finite false m e => Some (1, e, Z.pos m)
  | S754_infinity false => Some (2, 0, 0)
  end.

Definition key_lt (a b : Z * Z * Z) : Prop :=
  let '(a1, a2, a3) := a in let '(b1, b2, b3) := b in
  a1 < b1 \/ (a1 = b1 /\ (a2 < b2 \/ (a2 = b2 /\ a3 < b3))).

Lemma float_ltb_key f g :
  float_ltb f g = true <->
  match float_key f, float_key g with
  | Some a, Some b => key_lt a b
  | _, _ => False
  end.
Proof.
  unfold float_ltb, SFltb, SFcompare.
  destruct f as [[]|[]| |[] m1 e1], g as [[]|[]| |[] m2 e2]; cbn;
    try (split; [done|lia]); try (split; [lia|done]);
    destruct (Z.compare_spec e1 e2);
    change (Pos.compare_cont Eq m1 m2) with (Pos.compare m1 m2);
    try (destruct (Pos.compare_spec m1 m2)); cbn; split; try done; lia.
Qed.

Lemma float_ltb_trans f g k : float_ltb f g = true -> float_ltb g k = true -> float_ltb f k = true.
Proof.
  rewrite !float_ltb_key. destruct (float_key f) as [[[]]|], (float_key g) as [[[]]|],
    (float_key k) as [[[]]|]; cbn; try done. lia.
Qed.

Lemma float_ltb_irrefl f : float_ltb f f = false.
Proof.
  apply not_true_iff_false. rewrite float_ltb_key. destruct (float_key f) as [[[]]|]; cbn; lia.
Qed.

(** ** Digits *)

Lemma fexp_eq e : fexp 53 1024 e = Z.max (e - 53) (-1074).
Proof. reflexivity. Qed.

Lemma digits2_pos_bounds p : 2 ^ (Zpos (digits2_pos p) - 1) <= Zpos p < 2 ^ Zpos (digits2_pos p).
Proof.
  induction p as [p IH|p IH|]; cbn [digits2_pos]; [..|lia];
    rewrite Pos2Z.inj_succ; replace (Z.succ (Zpos (digits2_pos p)) - 1) with (Zpos (digits2_pos p)) by lia;
    rewrite Z.pow_succ_r by lia;
    replace (2 ^ Zpos (digits2_pos p)) with (2 * 2 ^ (Zpos (digits2_pos p) - 1)) in *
      by (rewrite <-Z.pow_succ_r by lia; f_equal; lia); lia.
Qed.

Lemma Zdigits2_bounds m : 0 < m -> 2 ^ (Zdigits2 m - 1) <= m < 2 ^ Zdigits2 m.
Proof. destruct m; try lia. intros _. apply digits2_pos_bounds. Qed.

Lemma Zdigits2_nonneg m : 0 <= Zdigits2 m.
Proof. destruct m; cbn; lia. Qed.

Lemma Zdigits2_le m d : 0 <= d -> 0 <= m < 2 ^ d -> Zdigits2 m <= d.
Proof.
  intros Hd Hm. destruct (decide (m = 0)) as [->|]; [done|].
  destruct (Zdigits2_bounds m) as [Hl _]; [lia|].
  assert (Zdigits2 m - 1 < d); [|lia]. apply (Z.pow_lt_mono_r_iff 2); lia.
Qed.

Lemma Zdigits2_ge m d : 0 <= d -> 2 ^ d <= m -> d < Zdigits2 m.
Proof.
  intros Hd Hm. pose proof (Z.pow_pos_nonneg 2 d ltac:(lia) Hd).
  destruct (Zdigits2_bounds m) as [_ Hu]; [lia|].
  apply (Z.pow_lt_mono_r_iff 2); [lia| |lia]. pose proof (Zdigits2_nonneg m). lia.
Qed.

(** ** Shifting right *)

Definition inexact (r : shr_record) : bool := shr_r r || shr_s r.

(** [r'] is [r] shifted by [n] places; what is lost is remembered. *)
Record shifted (n : Z) (r r' : shr_record) : Prop := {
  shifted_nonneg : 0 <= shr_m r';
  shifted_value : shr_m r' * 2 ^ n <= shr_m r < (shr_m r' + 1) * 2 ^ n;
  shifted_exact : inexact r' = false <-> inexact r = false /\ shr_m r = shr_m r' * 2 ^ n;
}.

Lemma shifted_0 r : 0 <= shr_m r -> shifted 0 r r.
Proof. intros H. split; [done|lia|]. rewrite Z.mul_1_r. naive_solver. Qed.

Lemma shifted_1 r : 0 <= shr_m r -> shifted 1 r (shr_1 r).
Proof.
  destruct r as [m b s]. cbn [shr_m]. intros Hm. change (2 ^ 1) with 2.
  destruct m as [|[p|p|]|p]; [..|lia]; destruct b, s;
    (split; cbn [shr_1 shr_m inexact shr_r shr_s orb]; [lia|lia|]);
    (split; [intros ?; split; [done|try done; lia]|intros [? ?]; try done; lia]).
Qed.

Lemma shifted_trans a b r1 r2 r3 :
  0 <= a -> 0 <= b -> shifted a r1 r2 -> shifted b r2 r3 -> shifted (a + b) r1 r3.
Proof.
  intros Ha Hb [_ Hv1 He1] [Hn Hv2 He2].
  pose proof (Z.pow_pos_nonneg 2 a ltac:(lia) Ha). pose proof (Z.pow_pos_nonneg 2 b ltac:(lia) Hb).
  assert (2 ^ (a + b) = 2 ^ b * 2 ^ a) as E by (rewrite Z.pow_add_r by lia; lia).
  split; [done| |]; rewrite E, !Z.mul_assoc; [nia|].
  rewrite He2, He1. split.
  - intros [[? ?] ?]. split; [done|]. nia.
  - intros [? ?]. assert (shr_m r2 = shr_m r3 * 2 ^ b) by nia. split; [split; [done|nia]|done].
Qed.

Lemma shifted_iter p r : 0 <= shr_m r -> shifted (Zpos p) r (SpecFloat.iter_pos shr_1 p r).
Proof.
  revert r. induction p as [p IH|p IH|]; intros r Hr; cbn [SpecFloat.iter_pos].
  - replace (Zpos p~1) with (1 + (Zpos p + Zpos p)) by lia.
    pose proof (shifted_1 r Hr) as H1.
    eapply shifted_trans; [lia|lia|exact H1|]. pose proof (IH _ (shifted_nonneg _ _ _ H1)) as H2.
    eapply shifted_trans; [lia|lia|exact H2|]. apply IH, (shifted_nonneg _ _ _ H2).
  - replace (Zpos p~0) with (Zpos p + Zpos p) by lia.
    pose proof (IH r Hr) as H2.
    eapply shifted_trans; [lia|lia|exact H2|]. apply IH, (shifted_nonneg _ _ _ H2).
  - by apply shifted_1.
Qed.

(** How far [shr_fexp] shifts. *)
Definition excess (m e : Z) : Z := Z.max 0 (fexp 53 1024 (Zdigits2 m + e) - e).

Lemma shr_fexp_shifted m e l :
  0 <= m ->
  exists r, shr_fexp 53 1024 m e l = (r, e + excess m e) /\
    shifted (excess m e) (shr_record_of_loc m l) r.
Proof.
  intros Hm. unfold shr_fexp, excess.
  assert (shr_m (shr_record_of_loc m l) = m) as Hs by (by destruct l as [|[]]).
  destruct (fexp 53 1024 (Zdigits2 m + e) - e) as [|p|p] eqn:E; cbn [shr].
  - eexists. split; [f_equal; lia|]. apply shifted_0. lia.
  - eexists. split; [f_equal; lia|]. rewrite Z.max_r by lia. apply shifted_iter. lia.
  - eexists. split; [f_equal; lia|]. rewrite Z.max_l by lia. apply shifted_0. lia.
Qed.

(** ** Rounding *)

(** [f] is the float of the number [m * 2 ^ e], in its canonical form. *)
Inductive is_float (m e : Z) : float64 -> Prop :=
| is_zero : m = 0 -> is_float m e (S754_zero false)
| is_finite p e' :
    e <= e' -> m = Zpos p * 2 ^ (e' - e) -> fexp 53 1024 (Zpos (digits2_pos p) + e') = e' ->
    is_float m e (S754_finite false p e').

Lemma round_nearest_even_spec r :
  let m := round_nearest_even (shr_m r) (loc_of_shr_record r) in
  shr_m r <= m <= shr_m r + 1 /\ (inexact r = false -> m = shr_m r).
Proof.
  destruct r as [m [] []]; cbn; [| |split; [lia|done]..]; [split; [lia|done]|].
  destruct (Z.even m); split; done || lia.
Qed.

Lemma excess_top m e : 2 ^ 52 <= m < 2 ^ 53 -> -1074 <= e -> excess m e = 0.
Proof.
  intros Hm He. unfold excess. rewrite fexp_eq.
  pose proof (Zdigits2_le m 53 ltac:(lia) ltac:(lia)). pose proof (Zdigits2_ge m 52 ltac:(lia) ltac:(lia)).
  lia.
Qed.

(** The second pass: a mantissa that is full, or at the smallest exponent, is not shifted unless rounding
    carried it to the next power of two. *)
Lemma round_finish m e :
  0 <= m <= 2 ^ 53 -> -1074 <= e <= 900 -> 2 ^ 52 <= m \/ e = -1074 ->
  is_float m e
    (let '(r, e') := shr_fexp 53 1024 m e loc_Exact in
     match shr_m r with
     | Z0 => S754_zero false
     | Zpos p => if e' <=? 1024 - 53 then S754_finite false p e' else S754_infinity false
     | Zneg _ => S754_nan
     end).
Proof.
  intros Hm He Hfull.
  destruct (shr_fexp_shifted m e loc_Exact) as (r & -> & [Hn Hv Hx]); [lia|]. cbn [shr_record_of_loc shr_m inexact shr_r shr_s orb] in *.
  destruct (decide (m = 2 ^ 53)) as [->|Hlt].
  - assert (excess (2 ^ 53) e = 1) as E by (unfold excess; rewrite fexp_eq; change (Zdigits2 (2 ^ 53)) with 54; lia).
    rewrite E in *. change (2 ^ 53) with 9007199254740992 in *. change (2 ^ 1) with 2 in *.
    assert (shr_m r = 4503599627370496) as -> by lia.
    rewrite (proj2 (Z.leb_le _ _)) by lia. apply is_finite; [lia| |].
    + replace (e + 1 - e) with 1 by lia. reflexivity.
    + rewrite fexp_eq. cbn [digits2_pos]. change (Zpos (digits2_pos 4503599627370496)) with 53. lia.
  - assert (excess m e = 0) as E.
    { destruct (decide (2 ^ 52 <= m)); [apply excess_top; lia|]. unfold excess. rewrite fexp_eq.
      pose proof (Zdigits2_le m 53 ltac:(lia) ltac:(lia)). lia. }
    rewrite E in *. change (2 ^ 0) with 1 in *. assert (shr_m r = m) as -> by lia.
    destruct m as [|p|p]; [by apply is_zero| |lia].
    rewrite (proj2 (Z.leb_le _ _)) by lia. apply is_finite; [lia| |].
    + replace (e + 0 - e) with 0 by lia. lia.
    + rewrite fexp_eq. change (Zpos (digits2_pos p)) with (Zdigits2 (Zpos p)).
      pose proof (Zdigits2_le (Zpos p) 53 ltac:(lia) ltac:(lia)).
      destruct Hfull as [Hf|Hf]; [pose proof (Zdigits2_ge (Zpos p) 52 ltac:(lia) ltac:(lia))|]; lia.
Qed.

(** A number between two multiples of the unit it is rounded to stays between them. *)
Definition encloses (n m : Z) (exact : Prop) (m1 : Z) : Prop :=
  (forall lo, lo * 2 ^ n <= m -> lo <= m1) /\
  (forall hi, m < hi * 2 ^ n \/ (m = hi * 2 ^ n /\ exact) -> m1 <= hi).

Lemma encloses_shifted n m l r :
  0 <= n -> shifted n (shr_record_of_loc m l) r ->
  encloses n m (l = loc_Exact) (round_nearest_even (shr_m r) (loc_of_shr_record r)).
Proof.
  intros Hn [_ Hv Hx]. destruct (round_nearest_even_spec r) as [Hr He].
  pose proof (Z.pow_pos_nonneg 2 n ltac:(lia) Hn).
  assert (shr_m (shr_record_of_loc m l) = m) as Hs by (by destruct l as [|[]]). rewrite Hs in *.
  split.
  - intros lo Hlo. assert (lo < shr_m r + 1); [|lia]. apply (Z.mul_lt_mono_pos_r (2 ^ n)); lia.
  - intros hi [Hhi|[Hhi ->]].
    + assert (shr_m r < hi); [|lia]. apply (Z.mul_lt_mono_pos_r (2 ^ n)); lia.
    + assert (shr_m r = hi) as <- by nia. rewrite He; [done|]. apply Hx. done.
Qed.

Lemma binary_round_aux_spec m e l :
  0 <= m -> -1074 <= e -> e <= fexp 53 1024 (Zdigits2 m + e) -> Zdigits2 m + e <= 900 ->
  exists m1, is_float m1 (e + excess m e) (binary_round_aux 53 1024 false m e l) /\
    encloses (excess m e) m (l = loc_Exact) m1.
Proof.
  intros Hm He Hal Hov. unfold binary_round_aux.
  destruct (shr_fexp_shifted m e l Hm) as (r & -> & Hsh).
  assert (0 <= excess m e) as Hn by (unfold excess; lia).
  pose proof (encloses_shifted _ _ _ _ Hn Hsh) as Henc.
  eexists. split; [|exact Henc].
  assert (e + excess m e = fexp 53 1024 (Zdigits2 m + e)) as E by (unfold excess; lia).
  rewrite fexp_eq in E. destruct (round_nearest_even_spec r) as [Hr _].
  destruct Hsh as [Hr0 _ _]. destruct Henc as [Hlo Hhi].
  pose proof (Zdigits2_nonneg m). rewrite (Z.add_comm e). rewrite (Z.add_comm (excess m e)).
  apply round_finish; [split; [lia|]|lia|].
  - apply Hhi. left. rewrite <-Z.pow_add_r by lia. destruct (decide (m = 0)) as [->|].
    + apply Z.pow_pos_nonneg; lia.
    + eapply Z.lt_le_trans; [by apply Zdigits2_bounds; lia|]. apply Z.pow_le_mono_r; lia.
  - destruct (decide (e + excess m e = -1074)); [by right|left]. apply Hlo.
    rewrite <-Z.pow_add_r by lia. destruct (decide (m = 0)) as [->|]; [cbn in *; lia|].
    eapply Z.le_trans; [|by apply Zdigits2_bounds; lia]. apply Z.pow_le_mono_r; lia.
Qed.

(** ** Values

    The value of a float in units of the smallest one, [2 ^ -1074]. *)

Definition value (m e : Z) : Z := m * 2 ^ (e + 1074).

Lemma canonical_full p e :
  fexp 53 1024 (Zpos (digits2_pos p) + e) = e -> -1074 <= e /\ Zpos p < 2 ^ 53 /\ (-1074 < e -> 2 ^ 52 <= Zpos p).
Proof.
  rewrite fexp_eq. intros H. pose proof (digits2_pos_bounds p) as [Hl Hu]. split_and!; [lia| |intros Hgt].
  - eapply Z.lt_le_trans; [exact Hu|]. apply Z.pow_le_mono_r; lia.
  - eapply Z.le_trans; [|exact Hl]. apply Z.pow_le_mono_r; lia.
Qed.

Lemma value_shift p e e' : -1074 <= e <= e' -> value (Zpos p * 2 ^ (e' - e)) e = value (Zpos p) e'.
Proof.
  intros He. unfold value. rewrite <-Z.mul_assoc, <-Z.pow_add_r by lia. do 2 f_equal. lia.
Qed.

(** The order of canonical floats is the order of their values. *)
Lemma float_ltb_value m1 e1 f m2 e2 g :
  is_float m1 e1 f -> is_float m2 e2 g -> -1074 <= e1 -> -1074 <= e2 ->
  value m1 e1 < value m2 e2 -> float_ltb f g = true.
Proof.
  intros Hf Hg He1 He2 Hlt.
  destruct Hf as [->|p1 f1 H1 -> Hc1], Hg as [->|p2 f2 H2 -> Hc2]; [unfold value in Hlt; lia|done| |].
  { assert (0 <= value (Zpos p1 * 2 ^ (f1 - e1)) e1); [|unfold value in Hlt at 2; lia].
    unfold value. repeat apply Z.mul_nonneg_nonneg; try lia; apply Z.pow_nonneg; lia. }
  rewrite !value_shift in Hlt by lia. unfold value in Hlt.
  apply canonical_full in Hc1 as (? & Hb1 & Hf1), Hc2 as (? & Hb2 & Hf2).
  unfold float_ltb, SFltb, SFcompare. destruct (Z.compare_spec f1 f2) as [->|Hf|Hf]; [|done|].
  - apply Z.mul_lt_mono_pos_r in Hlt; [|apply Z.pow_pos_nonneg; lia].
    change (Pos.compare_cont Eq p1 p2) with (Pos.compare p1 p2).
    by rewrite (proj2 (Pos.compare_lt_iff p1 p2)) by lia.
  - exfalso. specialize (Hf1 ltac:(lia)).
    assert (2 ^ 52 * 2 ^ (f1 + 1074) <= Zpos p1 * 2 ^ (f1 + 1074))
      by (apply Z.mul_le_mono_nonneg_r; [apply Z.pow_nonneg|]; lia).
    assert (Zpos p2 * 2 ^ (f2 + 1074) < 2 ^ 53 * 2 ^ (f2 + 1074))
      by (apply Z.mul_lt_mono_pos_r; [apply Z.pow_pos_nonneg|]; lia).
    assert (2 ^ 53 * 2 ^ (f2 + 1074) <= 2 ^ 52 * 2 ^ (f1 + 1074)); [|lia].
    rewrite <-!Z.pow_add_r by lia. apply Z.pow_le_mono_r; lia.
Qed.

(** ** Numbers between integers *)

(** A float that is not negative, from [lo] to [hi]. *)
Definition between (lo hi : Z) (f : float64) : Prop :=
  exists m e, is_float m e f /\ -1074 <= e <= 0 /\ lo * 2 ^ (- e) <= m <= hi * 2 ^ (- e).

Lemma between_lt a b c d f g :
  between a b f -> between c d g -> b < c -> float_ltb f g = true.
Proof.
  intros (m1 & e1 & Hf & He1 & H1) (m2 & e2 & Hg & He2 & H2) Hlt.
  eapply (float_ltb_value m1 e1 _ m2 e2); [done|done|lia|lia|]. unfold value.
  assert (forall e, -1074 <= e <= 0 -> 2 ^ 1074 = 2 ^ (- e) * 2 ^ (e + 1074)) as E
    by (intros e He; rewrite <-Z.pow_add_r by lia; f_equal; lia).
  assert (forall e, -1074 <= e -> 0 < 2 ^ (e + 1074)) as Hp by (intros e He; apply Z.pow_pos_nonneg; lia).
  pose proof (Hp e1 ltac:(lia)). pose proof (Hp e2 ltac:(lia)).
  apply (Z.le_lt_trans _ (b * 2 ^ 1074)).
  - rewrite (E e1) by lia. rewrite Z.mul_assoc. apply Z.mul_le_mono_nonneg_r; lia.
  - apply (Z.lt_le_trans _ (c * 2 ^ 1074)).
    + apply Z.mul_lt_mono_pos_r; [apply Z.pow_pos_nonneg; lia|lia].
    + rewrite (E e2) by lia. rewrite Z.mul_assoc. apply Z.mul_le_mono_nonneg_r; lia.
Qed.

(** Rounding keeps a number between integers when its unit is at most one. *)
Lemma binary_round_aux_between lo hi m e l :
  0 <= m -> -1074 <= e <= 0 -> e <= fexp 53 1024 (Zdigits2 m + e) -> Zdigits2 m + e <= 53 ->
  lo * 2 ^ (- e) <= m -> m < hi * 2 ^ (- e) \/ (m = hi * 2 ^ (- e) /\ l = loc_Exact) ->
  between lo hi (binary_round_aux 53 1024 false m e l).
Proof.
  intros Hm He Hal Hd Hlo Hhi.
  destruct (binary_round_aux_spec m e l) as (m1 & Hf & Henc); [lia..|].
  assert (e <= e + excess m e <= 0) as He1.
  { unfold excess in *. rewrite fexp_eq in *. lia. }
  exists m1, (e + excess m e). split; [done|]. split; [lia|]. destruct Henc as [Hl Hh].
  assert (2 ^ (- e) = 2 ^ (- (e + excess m e)) * 2 ^ excess m e) as E
    by (rewrite <-Z.pow_add_r by lia; f_equal; lia).
  rewrite E, !Z.mul_assoc in *. split; [by apply Hl|by apply Hh].
Qed.

(** ** Integers, sums and quotients *)

Lemma Zdigits2_shift p k : 0 <= k -> Zdigits2 (Zpos p * 2 ^ k) = Zdigits2 (Zpos p) + k.
Proof.
  intros Hk. pose proof (Z.pow_pos_nonneg 2 k ltac:(lia) Hk).
  destruct (Zdigits2_bounds (Zpos p)) as [Hl Hu]; [lia|].
  assert (0 < Zdigits2 (Zpos p)) by (cbn; lia). apply Z.le_antisymm.
  - apply Zdigits2_le; [lia|]. rewrite Z.pow_add_r by lia. nia.
  - assert (Zdigits2 (Zpos p) - 1 + k < Zdigits2 (Zpos p * 2 ^ k)); [|lia].
    apply Zdigits2_ge; [lia|]. rewrite Z.pow_add_r by lia. nia.
Qed.

Lemma iter_xO p d : Zpos (Pos.iter xO p d) = Zpos p * 2 ^ Zpos d.
Proof.
  revert p. induction d as [|d IH] using Pos.peano_ind; intros p; cbn [Pos.iter]; [lia|].
  rewrite Pos.iter_succ, Pos2Z.inj_xO, IH, Pos2Z.inj_succ, Z.pow_succ_r by lia. lia.
Qed.

Lemma shl_align_spec p e e' :
  Zpos (fst (shl_align p e e')) = Zpos p * 2 ^ (e - Z.min e e') /\ snd (shl_align p e e') = Z.min e e'.
Proof.
  unfold shl_align. destruct (e' - e) as [|q|q] eqn:E; cbn [fst snd].
  - rewrite Z.min_l by lia. replace (e - e) with 0 by lia. lia.
  - rewrite Z.min_l by lia. replace (e - e) with 0 by lia. lia.
  - rewrite Z.min_r by lia. rewrite iter_xO. split; [do 2 f_equal; lia|done].
Qed.

Lemma binary_normalize_eq p e :
  binary_normalize 53 1024 (Zpos p) e false =
  let e' := Z.min e (fexp 53 1024 (Zdigits2 (Zpos p) + e)) in
  binary_round_aux 53 1024 false (Zpos p * 2 ^ (e - e')) e' loc_Exact.
Proof.
  unfold binary_normalize, binary_round. change (Zdigits2 (Zpos p)) with (Zpos (digits2_pos p)).
  destruct (shl_align_spec p e (fexp 53 1024 (Zpos (digits2_pos p) + e))) as [H1 H2].
  destruct (shl_align p e _) as [mz ez]. cbn [fst snd] in *. by rewrite H1, H2.
Qed.

Lemma binary_normalize_between lo hi m e :
  0 <= m -> -1074 <= e <= 0 -> hi < 2 ^ 53 -> lo * 2 ^ (- e) <= m <= hi * 2 ^ (- e) ->
  between lo hi (binary_normalize 53 1024 m e false).
Proof.
  intros Hm He Hhi Hb. destruct m as [|p|]; [|clear Hm|lia].
  { exists 0, e. split; [by apply is_zero|]. lia. }
  rewrite binary_normalize_eq. cbv zeta. set (e' := Z.min _ _).
  assert (Zdigits2 (Zpos p) <= 53 - e) as Hd.
  { apply Zdigits2_le; [lia|]. split; [lia|].
    eapply Z.le_lt_trans; [apply Hb|]. replace (53 - e) with (53 + - e) by lia.
    rewrite Z.pow_add_r by lia. apply Z.mul_lt_mono_pos_r; [apply Z.pow_pos_nonneg; lia|done]. }
  assert (-1074 <= e' <= e /\ e' <= fexp 53 1024 (Zdigits2 (Zpos p) + e)) as [He' Hf]
    by (unfold e'; rewrite fexp_eq; lia).
  assert (2 ^ (- e') = 2 ^ (- e) * 2 ^ (e - e')) as E
    by (rewrite <-Z.pow_add_r by lia; f_equal; lia).
  pose proof (Z.pow_pos_nonneg 2 (e - e') ltac:(lia) ltac:(lia)).
  apply binary_round_aux_between.
  - lia.
  - lia.
  - rewrite Zdigits2_shift by lia. replace (_ + (e - e') + e') with (Zdigits2 (Zpos p) + e) by lia. done.
  - rewrite Zdigits2_shift by lia. lia.
  - rewrite E, Z.mul_assoc. apply Z.mul_le_mono_nonneg_r; lia.
  - rewrite E, Z.mul_assoc. destruct (decide (Zpos p = hi * 2 ^ (- e))) as [->|]; [by right|left].
    apply Z.mul_lt_mono_pos_r; lia.
Qed.

Lemma float_of_int_between n : 0 <= n < 2 ^ 53 -> between n n (float_of_int n).
Proof. intros Hn. apply binary_normalize_between; lia. Qed.

Lemma between_cases lo hi f :
  hi < 2 ^ 53 -> between lo hi f ->
  (f = S754_zero false /\ lo <= 0 <= hi) \/
  exists p e, f = S754_finite false p e /\ -1074 <= e <= 0 /\
    fexp 53 1024 (Zpos (digits2_pos p) + e) = e /\ lo * 2 ^ (- e) <= Zpos p <= hi * 2 ^ (- e).
Proof.
  intros Hhi (m & e & Hf & He & Hb). pose proof (Z.pow_pos_nonneg 2 (- e) ltac:(lia) ltac:(lia)).
  destruct Hf as [->|p e' Hle -> Hc]; [left; split; [done|nia]|right].
  destruct (canonical_full _ _ Hc) as (Hmin & Hu & Hfull). exists p, e'.
  assert (e' <= 0) as He'.
  { destruct (decide (e' <= 0)) as [|Hgt]; [done|]. specialize (Hfull ltac:(lia)).
    assert (2 ^ 52 * 2 ^ (e' - e) <= hi * 2 ^ (- e)) as Hbig.
    { etrans; [|apply Hb]. apply Z.mul_le_mono_nonneg_r; [apply Z.pow_nonneg|]; lia. }
    assert (2 ^ 53 * 2 ^ (- e) <= 2 ^ 52 * 2 ^ (e' - e)).
    { rewrite <-!Z.pow_add_r by lia. apply Z.pow_le_mono_r; lia. }
    assert (2 ^ 53 <= hi); [|lia]. apply (Z.mul_le_mono_pos_r _ _ (2 ^ (- e))); lia. }
  split_and!; [done|lia|lia|done| |];
    apply (Z.mul_le_mono_pos_r _ _ (2 ^ (e' - e))); try (apply Z.pow_pos_nonneg; lia);
    rewrite <-Z.mul_assoc, <-Z.pow_add_r by lia; replace (- e' + (e' - e)) with (- e) by lia; lia.
Qed.

Lemma float_add_between a b c d x y :
  0 <= a -> 0 <= c -> b + d < 2 ^ 53 -> between a b x -> between c d y ->
  between (a + c) (b + d) (float_add x y).
Proof.
  intros Ha Hc Hbd Hx Hy.
  assert (0 <= b /\ 0 <= d) as [Hb Hd].
  { split.
    - destruct Hx as (m & e & _ & He & Hm). pose proof (Z.pow_pos_nonneg 2 (- e) ltac:(lia) ltac:(lia)). nia.
    - destruct Hy as (m & e & _ & He & Hm). pose proof (Z.pow_pos_nonneg 2 (- e) ltac:(lia) ltac:(lia)). nia. }
  destruct (between_cases a b x ltac:(lia) Hx) as [[-> Hx0]|(p & e & -> & He & Hcx & Hx0)];
    destruct (between_cases c d y ltac:(lia) Hy) as [[-> Hy0]|(q & f & -> & Hf & Hcy & Hy0)]; clear Hx Hy.
  - exists 0, 0. split; [by apply is_zero|]. lia.
  - exists (Zpos q), f. pose proof (Z.pow_pos_nonneg 2 (- f) ltac:(lia) ltac:(lia)).
    split; [|split; [lia|nia]]. apply is_finite; [lia| |done]. replace (f - f) with 0 by lia. lia.
  - exists (Zpos p), e. pose proof (Z.pow_pos_nonneg 2 (- e) ltac:(lia) ltac:(lia)).
    split; [|split; [lia|nia]]. apply is_finite; [lia| |done]. replace (e - e) with 0 by lia. lia.
  - unfold float_add, SFadd, cond_Zopp. destruct (shl_align_spec p e (Z.min e f)) as [-> _].
    destruct (shl_align_spec q f (Z.min e f)) as [-> _].
    replace (Z.min e (Z.min e f)) with (Z.min e f) by lia.
    replace (Z.min f (Z.min e f)) with (Z.min e f) by lia. set (g := Z.min e f).
    assert (2 ^ (- g) = 2 ^ (- e) * 2 ^ (e - g)) as E1 by (rewrite <-Z.pow_add_r by lia; f_equal; lia).
    assert (2 ^ (- g) = 2 ^ (- f) * 2 ^ (f - g)) as E2 by (rewrite <-Z.pow_add_r by lia; f_equal; lia).
    pose proof (Z.pow_pos_nonneg 2 (e - g) ltac:(lia) ltac:(lia)).
    pose proof (Z.pow_pos_nonneg 2 (f - g) ltac:(lia) ltac:(lia)).
    apply binary_normalize_between; [lia|lia|lia|]. rewrite !Z.mul_add_distr_r.
    rewrite E1 at 1 3. rewrite E2, !Z.mul_assoc.
    split; apply Z.add_le_mono; apply Z.mul_le_mono_nonneg_r; lia.
Qed.

(** The float of a positive integer has a full mantissa. *)
Lemma int_exponent k m e : 0 < m < 2 ^ 53 -> e <= 0 -> m = k * 2 ^ (- e) -> -52 <= e.
Proof.
  intros Hm He E. pose proof (Z.pow_pos_nonneg 2 (- e) ltac:(lia) ltac:(lia)).
  assert (1 <= k) by nia. assert (1 * 2 ^ (- e) <= m) by (rewrite E; apply Z.mul_le_mono_nonneg_r; lia).
  assert (2 ^ (- e) < 2 ^ 53) as Hlt by lia. apply Z.pow_lt_mono_r_iff in Hlt; lia.
Qed.

Lemma Zdigits2_full m : 2 ^ 52 <= m < 2 ^ 53 -> Zdigits2 m = 53.
Proof.
  intros Hm. pose proof (Zdigits2_le m 53 ltac:(lia) ltac:(lia)).
  pose proof (Zdigits2_ge m 52 ltac:(lia) ltac:(lia)). lia.
Qed.

(** A quotient of two numbers of which the first is not the larger one. *)
Lemma float_div_between k n :
  0 <= k <= n -> 1 <= n < 2 ^ 53 -> between 0 1 (float_div (float_of_int k) (float_of_int n)).
Proof.
  intros Hk Hn. pose proof (float_of_int_between k ltac:(lia)) as Bk.
  pose proof (float_of_int_between n ltac:(lia)) as Bn.
  destruct (between_cases n n _ ltac:(lia) Bn) as [[_ Hz]|(q & f & Eq & Hf & Hcn & Hq)]; [lia|].
  destruct (between_cases k k _ ltac:(lia) Bk) as [[Ep Hz]|(p & e & Ep & He & Hck & Hp)]; rewrite Ep, Eq.
  { exists 0, 0. split; [by apply is_zero|]. lia. }
  clear Bn Bk Ep Eq. assert (Zpos p = k * 2 ^ (- e)) as Ep by lia. assert (Zpos q = n * 2 ^ (- f)) as Eq by lia.
  apply canonical_full in Hck, Hcn.
  assert (-52 <= e) as He52 by (apply (int_exponent k (Zpos p)); lia).
  assert (-52 <= f) as Hf52 by (apply (int_exponent n (Zpos q)); lia).
  assert (2 ^ 52 <= Zpos p < 2 ^ 53 /\ 2 ^ 52 <= Zpos q < 2 ^ 53) as [Hp2 Hq2] by lia.
  unfold float_div, SFdiv, SFdiv_core_binary. rewrite !Zdigits2_full by done. rewrite fexp_eq.
  replace (Z.min (Z.max (53 + e - (53 + f) - 53) (-1074)) (e - f)) with (e - f - 53) by lia.
  replace (e - f - (e - f - 53)) with 53 by lia. rewrite Z.shiftl_mul_pow2 by lia.
  pose proof (Z_div_mod (Zpos p * 2 ^ 53) (Zpos q) ltac:(lia)) as Hdiv.
  destruct (Z.div_eucl (Zpos p * 2 ^ 53) (Zpos q)) as [Q r]. destruct Hdiv as [Hdiv Hr].
  assert (Zpos p * 2 ^ 53 <= Zpos q * 2 ^ (- (e - f - 53))) as Hle.
  { rewrite Ep, Eq, <-!Z.mul_assoc, <-!Z.pow_add_r by lia.
    replace (- f + - (e - f - 53)) with (- e + 53) by lia.
    apply Z.mul_le_mono_nonneg_r; [apply Z.pow_nonneg|]; lia. }
  assert (-1074 <= e - f - 53 < 0) as He'. { lia. }
  set (e' := e - f - 53) in *. clearbody e'. clear Ep Eq Hp Hq Hck Hcn He Hf He52 Hf52.
  assert (2 ^ 52 <= Q) as HQ by nia.
  assert (Q <= 2 ^ (- e')) as HQ2 by nia.
  pose proof (Zdigits2_ge Q 52 ltac:(lia) HQ).
  assert (Zdigits2 Q <= - e' + 1).
  { apply Zdigits2_le; [lia|]. rewrite Z.pow_add_r by lia. lia. }
  apply binary_round_aux_between; [lia|lia|rewrite fexp_eq; lia|lia|lia|].
  rewrite Z.mul_1_l. destruct (decide (Q = 2 ^ (- e'))) as [->|]; [right|left; lia].
  split; [done|]. assert (r = 0) as -> by nia. unfold new_location. by destruct (Z.even _).
Qed.

(** ** Signs *)

Definition nonneg (f : float64) : Prop :=
  match f with
  | S754_zero _ | S754_finite false _ _ => True
  | _ => False
  end.

Lemma nonneg_above f : nonneg f -> float_ltb (float_of_int (-1)) f = true.
Proof. by destruct f as [| | |[]]. Qed.

(** A positive number below [2 ^ 900] is rounded to a float with its unit in bounds. *)
Lemma binary_normalize_nonneg p e d :
  -1074 <= e -> Zdigits2 (Zpos p) + e <= d -> 0 <= d <= 900 ->
  exists f, binary_normalize 53 1024 (Zpos p) e false = f /\ nonneg f /\
    (f = S754_zero false \/ exists q g, f = S754_finite false q g /\ -1074 <= g <= d /\ Zpos q < 2 ^ 53).
Proof.
  intros He Hd Hd9. eexists. split; [done|]. rewrite binary_normalize_eq. cbv zeta. set (e' := Z.min _ _).
  assert (-1074 <= e' <= e /\ e' <= fexp 53 1024 (Zdigits2 (Zpos p) + e)) as [He' Hf]
    by (unfold e'; rewrite fexp_eq; lia).
  pose proof (Z.pow_pos_nonneg 2 (e - e') ltac:(lia) ltac:(lia)).
  pose proof (Zdigits2_shift p (e - e') ltac:(lia)) as Hs.
  set (m := Zpos p * 2 ^ (e - e')) in *. assert (0 < m) by (unfold m; lia). clearbody m.
  destruct (binary_round_aux_spec m e' loc_Exact) as (m1 & Hfl & Hlo & Hhi);
    [lia|lia|rewrite Hs; replace (_ + (e - e') + e') with (Zdigits2 (Zpos p) + e) by lia; done|lia|].
  assert (e' + excess m e' = Z.max e' (Z.max (Zdigits2 (Zpos p) + e - 53) (-1074))) as E.
  { unfold excess. rewrite fexp_eq, Hs. lia. }
  set (n := excess m e') in *. assert (0 <= n) by (unfold n, excess; lia).
  assert (m1 <= 2 ^ Z.max 0 (d - (e' + n))) as Hm1.
  { apply Hhi. left. rewrite <-Z.pow_add_r by lia. eapply Z.lt_le_trans; [by apply Zdigits2_bounds|].
    apply Z.pow_le_mono_r; lia. }
  destruct Hfl as [|q g Hle -> Hc]; [split; [done|by left]|]. split; [done|right].
  exists q, g. split; [done|]. apply canonical_full in Hc as (? & ? & ?). split; [|done]. split; [done|].
  destruct (decide (g <= d)) as [|Hgt]; [done|]. exfalso.
  assert (2 ^ Z.max 0 (d - (e' + n)) < 1 * 2 ^ (g - (e' + n))); [|nia].
  rewrite Z.mul_1_l. rewrite fexp_eq in Hf. apply Z.pow_lt_mono_r; lia.
Qed.

(** A share added to a size stays above the score an election starts from. *)
Lemma float_add_nonneg x n :
  between 0 1 x -> 0 <= n < 2 ^ 63 -> nonneg (float_add x (float_of_int n)).
Proof.
  intros Hx Hn. unfold float_of_int.
  destruct (between_cases 0 1 x ltac:(lia) Hx) as [[-> _]|(p & e & -> & He & Hc & _)].
  - destruct n as [|n|]; [done| |lia].
    destruct (binary_normalize_nonneg n 0 63) as (f & -> & Hf & _); [lia| |lia|].
    { pose proof (Zdigits2_le (Zpos n) 63 ltac:(lia) ltac:(lia)). lia. }
    unfold float_add. by destruct f as [[]|[]| |[]].
  - destruct n as [|n|]; [done| |lia].
    destruct (binary_normalize_nonneg n 0 63) as (f & -> & _ & [->|(q & g & -> & Hg & Hq)]); [lia| |lia|done|].
    { pose proof (Zdigits2_le (Zpos n) 63 ltac:(lia) ltac:(lia)). lia. }
    apply canonical_full in Hc as (_ & Hp & _).
    unfold float_add, SFadd, cond_Zopp. destruct (shl_align_spec p e (Z.min e g)) as [-> _].
    destruct (shl_align_spec q g (Z.min e g)) as [-> _].
    replace (Z.min e (Z.min e g)) with (Z.min e g) by lia.
    replace (Z.min g (Z.min e g)) with (Z.min e g) by lia. set (h := Z.min e g).
    assert (forall r k, Zpos r < 2 ^ 53 -> h <= k <= 63 -> 0 < Zpos r * 2 ^ (k - h) < 2 ^ (116 - h)) as Hb.
    { intros r k Hr Hk. pose proof (Z.pow_pos_nonneg 2 (k - h) ltac:(lia) ltac:(lia)). split; [lia|].
      apply (Z.lt_le_trans _ (2 ^ 53 * 2 ^ (k - h))); [by apply Z.mul_lt_mono_pos_r|].
      rewrite <-Z.pow_add_r by lia. apply Z.pow_le_mono_r; lia. }
    pose proof (Hb p e Hp ltac:(lia)) as Hbp. pose proof (Hb q g Hq ltac:(lia)) as Hbq.
    destruct (Zpos p * 2 ^ (e - h) + Zpos q * 2 ^ (g - h)) as [|s|s] eqn:Es; [lia| |lia].
    destruct (binary_normalize_nonneg s h 117) as (f & -> & Hf & _); [lia| |lia|done].
    assert (Zdigits2 (Zpos s) <= 117 - h); [|lia]. apply Zdigits2_le; [lia|].
    replace (117 - h) with (1 + (116 - h)) by lia. rewrite Z.pow_add_r by lia. lia.
Qed.
