(* ===== verification/Prog.v ===== *)
(** * Effectful Go code as programs over requests

    The controller talks to the world by requests (API calls, the clock, [go] statements) and to the
    other goroutines through shared memory.  A [prog] is such code: [Ask r k] makes the request
    [r] and continues with its answer, [Atomic f k] reads and writes the shared memory in one
    indivisible access, [Done] ends.  [run] executes a program against a handler, any stateful
    function that answers requests; a handler may change the shared memory, which is how other
    goroutines get their turn.  The result carries the trace: the requests made with their answers,
    in order.  [exec p t o] says that [p] can make the trace [t] and end in [o], whatever the rest of
    the world does meanwhile; a statement about all traces holds under every handler. *)

From S2P Require Import Prelude.

Section prog.
  Context {R : Type} {resp : R -> Type} {M : Type}.

Inductive prog (A : Type) : Type :=
| Done (o : outcome A)
| Ask (r : R) (k : resp r -> prog A)
| Atomic (X : Type) (f : M -> X * M) (k : X -> prog A).
  Arguments Done {A} o.
  Arguments Ask {A} r k.
  Arguments Atomic {A} X f k.

Fixpoint prog_bind {A B} (k : A -> prog B) (p : prog A) : prog B :=
  match p with
  | Done (Ok a) => k a
  | Done (Err e) => Done (Err e)
  | Done (Panic msg) => Done (Panic msg)
  | Done OutOfFuel => Done OutOfFuel
  | Ask r k' => Ask r (fun x => prog_bind k (k' x))
  | Atomic X f k' => Atomic X f (fun x => prog_bind k (k' x))
  end.

(** A request with its answer. *)
Definition event : Type := {r : R & resp r}.

(** What [if err != nil { ... }] branches on: the call's result as a value. *)
Fixpoint attempt {A} (p : prog A) : prog (result A) :=
  match p with
  | Done (Ok a) => Done (Ok (Success a))
  | Done (Err e) => Done (Ok (Failure e))
  | Done (Panic msg) => Done (Panic msg)
  | Done OutOfFuel => Done OutOfFuel
  | Ask r k => Ask r (fun x => attempt (k x))
  | Atomic X f k => Atomic X f (fun x => attempt (k x))
  end.

#[global] Instance prog_ret : MRet prog := fun A a => Done (Ok a).
#[global] Instance prog_mbind : MBind prog := fun A B => prog_bind.

Definition throw {A} (e : error) : prog A := Done (Err e).
Definition panic {A} (msg : string) : prog A := Done (Panic msg).
Definition lift {A} (r : result A) : prog A := Done (of_result r).
Definition ask (r : R) : prog (resp r) := Ask r (fun x => Done (Ok x)).
Definition atomically {X} (f : M -> X * M) : prog X := Atomic X f (fun x => Done (Ok x)).
Definition read_mem {X} (f : M -> X) : prog X := atomically (fun m => (f m, m)).
Definition write_mem (f : M -> M) : prog unit := atomically (fun m => (tt, f m)).

(** [fmt.Errorf("prefix: %v", err)] on the error path, nothing on the other ones. *)
Definition wrapf {A} (prefix : string) (p : prog A) : prog A :=
  r ← attempt p;
  match r with
  | Success a => mret a
  | Failure e => throw (Wrapf prefix e)
  end.

(** [for _, a := range l { b = f b a }] *)
Fixpoint for_range {A B} (f : B -> A -> prog B) (b : B) (l : list A) : prog B :=
  match l with
  | [] => mret b
  | a :: l' => b' ← f b a; for_range f b' l'
  end.

Definition for_each {A} (f : A -> prog unit) (l : list A) : prog unit :=
  for_range (fun _ => f) tt l.

(** [for { ... }]: the body ends the loop with [Some] value or asks for another round. *)
Fixpoint forever {A} (fuel : nat) (body : prog (option A)) : prog A :=
  match fuel with
  | O => Done OutOfFuel
  | S fuel' =>
      o ← body;
      match o with
      | Some a => mret a
      | None => forever fuel' body
      end
  end.

(** ** Running *)

Section run.
  Context {W : Type}.

Definition handler : Type := forall r : R, M * W -> resp r * (M * W).

Record run_result (A : Type) : Type := RunResult {
  out : outcome A;
  mem : M;
  world : W;
  trace : list event;
}.
  Arguments RunResult {A} out mem world trace.
  Arguments out {A} r.
  Arguments mem {A} r.
  Arguments world {A} r.
  Arguments trace {A} r.

Definition after {A} (t : list event) (res : run_result A) : run_result A :=
  RunResult (out res) (mem res) (world res) (t ++ trace res).

Fixpoint run {A} (h : handler) (p : prog A) (m : M) (w : W) : run_result A :=
  match p with
  | Done o => RunResult o m w []
  | Ask r k => let '(x, (m', w')) := h r (m, w) in after [existT r x] (run h (k x) m' w')
  | Atomic X f k => let '(x, m') := f m in run h (k x) m' w
  end.

Definition continue {A B} (h : handler) (res : run_result A) (k : A -> prog B) : run_result B :=
  match out res with
  | Ok a => after (trace res) (run h (k a) (mem res) (world res))
  | Err e => RunResult (Err e) (mem res) (world res) (trace res)
  | Panic msg => RunResult (Panic msg) (mem res) (world res) (trace res)
  | OutOfFuel => RunResult OutOfFuel (mem res) (world res) (trace res)
  end.

Lemma after_nil {A} (res : run_result A) : after [] res = res.
Proof. by destruct res. Qed.

Lemma after_app {A} t u (res : run_result A) : after t (after u res) = after (t ++ u) res.
Proof. unfold after; cbn. by rewrite app_assoc. Qed.

Lemma continue_after {A B} h t (res : run_result A) (k : A -> prog B) :
  continue h (after t res) k = after t (continue h res k).
Proof. destruct res as [[]]; unfold continue, after; cbn; by rewrite ?app_assoc. Qed.

Lemma run_bind {A B} (h : handler) (p : prog A) (k : A -> prog B) m w :
  run h (p ≫= k) m w = continue h (run h p m w) k.
Proof.
  unfold mbind, prog_mbind. revert m w. induction p as [[]|r k' IH|X f k' IH]; intros m w; cbn.
  - unfold continue; cbn. by rewrite after_nil.
  - done.
  - done.
  - done.
  - destruct (h r (m, w)) as [x [m' w']]. by rewrite IH, continue_after.
  - by destruct (f m) as [x m'].
Qed.

Lemma run_attempt {A} (h : handler) (p : prog A) m w :
  run h (attempt p) m w =
  let res := run h p m w in
  RunResult
    (match out res with
     | Ok a => Ok (Success a)
     | Err e => Ok (Failure e)
     | Panic msg => Panic msg
     | OutOfFuel => OutOfFuel
     end) (mem res) (world res) (trace res).
Proof.
  revert m w. induction p as [[]|r k' IH|X f k' IH]; intros m w; cbn; [done..| |].
  - destruct (h r (m, w)) as [x [m' w']]. rewrite IH. by unfold after.
  - by destruct (f m) as [x m'].
Qed.

Lemma run_wrapf {A} (h : handler) prefix (p : prog A) m w :
  run h (wrapf prefix p) m w =
  let res := run h p m w in
  RunResult
    (match out res with
     | Err e => Err (Wrapf prefix e)
     | o => o
     end) (mem res) (world res) (trace res).
Proof.
  unfold wrapf. rewrite run_bind, run_attempt. cbn.
  destruct (run h p m w) as [[] ???]; unfold continue, after; cbn; by rewrite ?app_nil_r.
Qed.

Lemma run_ret {A} (h : handler) (a : A) m w : run h (mret a) m w = RunResult (Ok a) m w [].
Proof. done. Qed.

End run.

  Arguments handler W : clear implicits.
  Arguments RunResult {W A} out mem world trace.
  Arguments out {W A} r.
  Arguments mem {W A} r.
  Arguments world {W A} r.
  Arguments trace {W A} r.

(** ** Programs up to their runs

    Two programs are the same when every handler runs them to the same result.  The monad laws hold
    up to this equivalence, and [bind] respects it. *)

Definition prog_equiv {A} (p q : prog A) : Prop :=
  forall (W : Type) (h : handler W) m w, run h p m w = run h q m w.

#[global] Instance prog_equivalence A : Equivalence (@prog_equiv A).
Proof.
  split.
  - by intros p W h m w.
  - by intros p q H W h m w.
  - intros p q r H1 H2 W h m w. by rewrite H1.
Qed.

#[global] Instance prog_bind_proper A B :
  Proper (pointwise_relation A prog_equiv ==> prog_equiv ==> prog_equiv) (@mbind prog _ A B).
Proof.
  intros k k' Hk p p' Hp W h m w. rewrite !run_bind, Hp. unfold continue.
  destruct (out (run h p' m w)); [|done..]. by rewrite Hk.
Qed.

Lemma prog_bind_assoc {A B C} (p : prog A) (k : A -> prog B) (j : B -> prog C) :
  prog_equiv ((p ≫= k) ≫= j) (p ≫= (fun a => k a ≫= j)).
Proof.
  intros W h m w. rewrite !run_bind. unfold continue at 2 3.
  destruct (run h p m w) as [[] m' w' t]; cbn; [|done..]. by rewrite continue_after, run_bind.
Qed.

Lemma prog_bind_ret {A} (p : prog A) : prog_equiv (p ≫= mret) p.
Proof.
  intros W h m w. rewrite run_bind. unfold continue.
  destruct (run h p m w) as [[] m' w' t]; cbn; [|done..]. unfold after; cbn. by rewrite app_nil_r.
Qed.

Lemma for_range_app {A B} (f : B -> A -> prog B) b l1 l2 :
  prog_equiv (for_range f b (l1 ++ l2)) (for_range f b l1 ≫= (fun b' => for_range f b' l2)).
Proof.
  revert b. induction l1 as [|a l1 IH]; intros b; [done|]. cbn [for_range app].
  rewrite prog_bind_assoc. apply prog_bind_proper; [|done]. intros b'. apply IH.
Qed.

(** More fuel does not change a loop that came to its end. *)
Lemma forever_more_fuel {A W} (h : handler W) (body : prog (option A)) n k m w :
  out (run h (forever n body) m w) <> OutOfFuel ->
  run h (forever (n + k) body) m w = run h (forever n body) m w.
Proof.
  revert m w. induction n as [|n IH]; intros m w; cbn [forever Nat.add]; [done|].
  rewrite !run_bind. unfold continue.
  destruct (out (run h body m w)) as [[a|]| | |]; [done| |done..].
  intros Hn. by rewrite IH.
Qed.

(** ** Traces *)

Inductive exec {A} : prog A -> list event -> outcome A -> Prop :=
| exec_done o : exec (Done o) [] o
| exec_ask r k x t o : exec (k x) t o -> exec (Ask r k) (existT r x :: t) o
| exec_atomic X f k m t o : exec (k (fst (f m))) t o -> exec (Atomic X f k) t o.

Lemma run_exec {A W} (h : handler W) (p : prog A) m w :
  exec p (trace (run h p m w)) (out (run h p m w)).
Proof.
  revert m w. induction p as [o|r k IH|X f k IH]; intros m w; cbn.
  - constructor.
  - destruct (h r (m, w)) as [x [m' w']]. constructor. apply IH.
  - destruct (f m) as [x m'] eqn:E. apply (exec_atomic _ _ _ m). rewrite E. apply IH.
Qed.

(** The outcome of a sequence whose first part did not return a value. *)
Definition raised {A B} (o : outcome A) : option (outcome B) :=
  match o with
  | Ok _ => None
  | Err e => Some (Err e)
  | Panic msg => Some (Panic msg)
  | OutOfFuel => Some OutOfFuel
  end.

Lemma exec_done_inv {A} (o o' : outcome A) t : exec (Done o) t o' -> t = [] /\ o' = o.
Proof. inversion 1. done. Qed.

Lemma exec_ret_inv {A} (a : A) t o : exec (mret a) t o -> t = [] /\ o = Ok a.
Proof. apply exec_done_inv. Qed.

Lemma exec_throw_inv {A} e t (o : outcome A) : exec (throw e) t o -> t = [] /\ o = Err e.
Proof. apply exec_done_inv. Qed.

Lemma exec_Ask_inv {A} r (k : resp r -> prog A) t o :
  exec (Ask r k) t o -> exists x t', t = existT r x :: t' /\ exec (k x) t' o.
Proof.
  intros H.
  cut (match Ask r k with
       | Ask r' k' => exists x t', t = existT r' x :: t' /\ exec (k' x) t' o
       | _ => True
       end); [done|]. destruct H; [done| |done]. eauto.
Qed.

Lemma exec_Atomic_inv {A X} (f : M -> X * M) (k : X -> prog A) t o :
  exec (Atomic X f k) t o -> exists m, exec (k (fst (f m))) t o.
Proof.
  intros H.
  cut (match Atomic X f k with
       | Atomic X' f' k' => exists m, exec (k' (fst (f' m))) t o
       | _ => True
       end); [done|]. destruct H; [done..|]. eauto.
Qed.

Lemma exec_ask_inv r t o : exec (ask r) t o -> exists x, t = [existT r x] /\ o = Ok x.
Proof. intros (x & t' & -> & [-> ->]%exec_done_inv)%exec_Ask_inv. eauto. Qed.

Lemma exec_atomically_inv {X} (f : M -> X * M) t o :
  exec (atomically f) t o -> exists m, t = [] /\ o = Ok (fst (f m)).
Proof.
  intros (m & [-> ->]%exec_done_inv)%exec_Atomic_inv. eauto.
Qed.

Lemma exec_bind_inv {A B} (p : prog A) (k : A -> prog B) t o :
  exec (p ≫= k) t o ->
  (exists a t1 t2, exec p t1 (Ok a) /\ exec (k a) t2 o /\ t = t1 ++ t2) \/
  (exists o1, exec p t o1 /\ raised o1 = Some o).
Proof.
  unfold mbind, prog_mbind. revert t. induction p as [[]|r k' IH|X f k' IH]; intros t; cbn.
  - intros H. left. exists a, [], t. split; [constructor|done].
  - intros [-> ->]%exec_done_inv. right. eexists. split; [constructor|done].
  - intros [-> ->]%exec_done_inv. right. eexists. split; [constructor|done].
  - intros [-> ->]%exec_done_inv. right. eexists. split; [constructor|done].
  - intros (x & t' & -> & H)%exec_Ask_inv. destruct (IH x t' H) as [(a & t1 & t2 & H1 & H2 & ->)|(o1 & H1 & Ho)].
    + left. exists a, (existT r x :: t1), t2. split; [by constructor|done].
    + right. exists o1. split; [by constructor|done].
  - intros [m Hm]%exec_Atomic_inv.
    destruct (IH _ t Hm) as [(a & t1 & t2 & H1 & H2 & ->)|(o1 & H1 & Ho)].
    + left. exists a, t1, t2. split; [by econstructor|done].
    + right. exists o1. split; [by econstructor|done].
Qed.

Lemma exec_bind_ok {A B} (p : prog A) (k : A -> prog B) t b :
  exec (p ≫= k) t (Ok b) ->
  exists a t1 t2, exec p t1 (Ok a) /\ exec (k a) t2 (Ok b) /\ t = t1 ++ t2.
Proof. intros [?|(o1 & _ & H)]%exec_bind_inv; [done|by destruct o1]. Qed.

Lemma exec_attempt_inv {A} (p : prog A) t o :
  exec (attempt p) t o ->
  exists o', exec p t o' /\
    o = match o' with
        | Ok a => Ok (Success a)
        | Err e => Ok (Failure e)
        | Panic msg => Panic msg
        | OutOfFuel => OutOfFuel
        end.
Proof.
  revert t. induction p as [[]|r k' IH|X f k' IH]; intros t; cbn.
  - intros [-> ->]%exec_done_inv. eexists. split; [constructor|done].
  - intros [-> ->]%exec_done_inv. eexists. split; [constructor|done].
  - intros [-> ->]%exec_done_inv. eexists. split; [constructor|done].
  - intros [-> ->]%exec_done_inv. eexists. split; [constructor|done].
  - intros (x & t' & -> & H)%exec_Ask_inv. destruct (IH x t' H) as (o' & H' & ->).
    eexists. split; [by constructor|done].
  - intros [m Hm]%exec_Atomic_inv.
    destruct (IH _ t Hm) as (o' & H' & ->). eexists. split; [by econstructor|done].
Qed.

Lemma exec_wrapf_inv {A} prefix (p : prog A) t o :
  exec (wrapf prefix p) t o ->
  exists o', exec p t o' /\ o = match o' with Err e => Err (Wrapf prefix e) | o' => o' end.
Proof.
  unfold wrapf. intros [(r & t1 & t2 & (o' & H & Ho)%exec_attempt_inv & H2 & ->)|(o1 & (o' & H & ->)%exec_attempt_inv & Ho)]%exec_bind_inv.
  - exists o'. destruct o'; simplify_eq.
    + apply exec_ret_inv in H2 as [-> ->]. by rewrite app_nil_r.
    + apply exec_throw_inv in H2 as [-> ->]. by rewrite app_nil_r.
  - exists o'. split; [done|]. by destruct o'; simplify_eq/=.
Qed.

(** A loop over a list that ends normally keeps an invariant of its state and trace. *)
Lemma exec_for_range_ok {A B} (f : B -> A -> prog B) (Inv : list A -> B -> list event -> Prop) b l b' t :
  Inv [] b [] ->
  (forall l1 a l2 b1 t1 b2 t2, l = l1 ++ a :: l2 -> Inv l1 b1 t1 -> exec (f b1 a) t2 (Ok b2) ->
     Inv (l1 ++ [a]) b2 (t1 ++ t2)) ->
  exec (for_range f b l) t (Ok b') -> Inv l b' t.
Proof.
  intros H0 Hstep.
  cut (forall l1 l2 b1 t1 t2, l = l1 ++ l2 -> Inv l1 b1 t1 -> exec (for_range f b1 l2) t2 (Ok b') ->
         Inv l b' (t1 ++ t2)).
  { intros H Hexec. exact (H [] l b [] t eq_refl H0 Hexec). }
  intros l1 l2. revert l1. induction l2 as [|a l2 IH]; intros l1 b1 t1 t2 -> Hinv.
  - intros [-> [= <-]]%exec_ret_inv. by rewrite !app_nil_r.
  - intros (b2 & u1 & u2 & H1 & H2 & ->)%exec_bind_ok. rewrite app_assoc.
    apply (IH (l1 ++ [a]) b2); [by rewrite <-app_assoc| |done]. by eapply Hstep.
Qed.

(** A loop that ends has run its body to an end, as its last act. *)
(** A loop over a list that fails does so in the round of one of its elements. *)
Lemma exec_for_range_err {A B} (f : B -> A -> prog B) b l t e :
  exec (for_range f b l) t (Err e) ->
  exists l1 a l2 b1 t1 t2, l = l1 ++ a :: l2 /\ t = t1 ++ t2 /\ exec (f b1 a) t2 (Err e).
Proof.
  revert b t. induction l as [|a l IH]; intros b t H; cbn [for_range] in H.
  { apply exec_ret_inv in H as [_ ?]. done. }
  apply exec_bind_inv in H as [(b' & t1 & t2 & H1 & H2 & ->)|(o1 & H1 & Ho)].
  - destruct (IH _ _ H2) as (l1 & a' & l2 & b1 & u1 & u2 & -> & -> & Hf).
    exists (a :: l1), a', l2, b1, (t1 ++ u1), u2. by rewrite app_assoc.
  - exists [], a, l, b, [], t. split_and!; [done|done|]. destruct o1; cbn in Ho; by simplify_eq.
Qed.

Lemma exec_forever_last {A} fuel (body : prog (option A)) t a :
  exec (forever fuel body) t (Ok a) ->
  exists t1 t2, t = t1 ++ t2 /\ exec body t2 (Ok (Some a)).
Proof.
  revert t. induction fuel as [|fuel IH]; intros t; cbn [forever].
  - intros [_ ?]%exec_done_inv. done.
  - intros ([a'|] & t1 & t2 & H1 & H2 & ->)%exec_bind_ok.
    + apply exec_ret_inv in H2 as [-> [= ->]]. exists [], t1. by rewrite app_nil_r.
    + destruct (IH t2 H2) as (u1 & u2 & -> & ?). exists (t1 ++ u1), u2. by rewrite app_assoc.
Qed.

(** ** What a program does whatever the answers are

    [always P Q p]: under every handler, every request of [p] satisfies [P] and its outcome
    satisfies [Q]. *)

Fixpoint always {A} (P : R -> Prop) (Q : outcome A -> Prop) (p : prog A) : Prop :=
  match p with
  | Done o => Q o
  | Ask r k => P r /\ forall x, always P Q (k x)
  | Atomic X f k => forall x, always P Q (k x)
  end.

Lemma always_run {A W} (h : handler W) P Q (p : prog A) m w :
  always P Q p -> Forall (fun ev => P (projT1 ev)) (trace (run h p m w)) /\ Q (out (run h p m w)).
Proof.
  revert m w. induction p as [o|r k IH|X f k IH]; intros m w; cbn.
  - done.
  - intros [Hr Hk]. destruct (h r (m, w)) as [x [m' w']].
    destruct (IH x m' w' (Hk x)) as [? ?]. split; [by constructor|done].
  - intros Hk. destruct (f m) as [x m']. by apply IH.
Qed.

Lemma always_exec {A} P Q (p : prog A) t o :
  always P Q p -> exec p t o -> Forall (fun ev => P (projT1 ev)) t /\ Q o.
Proof.
  intros H He. induction He as [o|r k x t o _ IH|X f k m t o _ IH]; cbn in *.
  - done.
  - destruct H as [Hr Hk]. destruct (IH (Hk x)). split; [by constructor|done].
  - by apply IH.
Qed.

Lemma always_mono {A} (P P' : R -> Prop) (Q Q' : outcome A -> Prop) p :
  (forall r, P r -> P' r) -> (forall o, Q o -> Q' o) -> always P Q p -> always P' Q' p.
Proof. intros HP HQ. induction p; cbn; naive_solver. Qed.

Definition bind_post {A B} P (Q : outcome B -> Prop) (k : A -> prog B) (o : outcome A) : Prop :=
  match o with
  | Ok a => always P Q (k a)
  | Err e => Q (Err e)
  | Panic msg => Q (Panic msg)
  | OutOfFuel => Q OutOfFuel
  end.

Lemma always_bind {A B} P (Q : outcome B -> Prop) (p : prog A) (k : A -> prog B) :
  always P (bind_post P Q k) p -> always P Q (p ≫= k).
Proof.
  unfold mbind, prog_mbind. induction p as [[]|r k' IH|X f k' IH]; cbn; naive_solver.
Qed.

Lemma always_ask {A} (P : R -> Prop) (Q : outcome A -> Prop) r (k : resp r -> prog A) :
  P r -> (forall x, always P Q (k x)) -> always P Q (ask r ≫= k).
Proof. by split. Qed.

Lemma always_attempt {A} P (Q : outcome (result A) -> Prop) (p : prog A) :
  always P (fun o => match o with
                     | Ok a => Q (Ok (Success a))
                     | Err e => Q (Ok (Failure e))
                     | Panic msg => Q (Panic msg)
                     | OutOfFuel => Q OutOfFuel
                     end) p ->
  always P Q (attempt p).
Proof. induction p as [[]|r k IH|X f k IH]; cbn; naive_solver. Qed.

Lemma always_wrapf {A} P (Q : outcome A -> Prop) prefix (p : prog A) :
  always P (fun o => Q (match o with Err e => Err (Wrapf prefix e) | o => o end)) p ->
  always P Q (wrapf prefix p).
Proof.
  intros H. apply always_bind, always_attempt. eapply always_mono; [done| |exact H].
  by intros [].
Qed.

(** A loop over a list keeps an invariant of its state. *)
Lemma always_for_range {A B} P (Inv : B -> Prop) (E : outcome B -> Prop) (f : B -> A -> prog B) b l :
  Inv b ->
  (forall b a, Inv b -> a ∈ l ->
     always P (fun o => match o with Ok b' => Inv b' | o => E o end) (f b a)) ->
  always P (fun o => match o with Ok b' => Inv b' | o => E o end) (for_range f b l).
Proof.
  revert b. induction l as [|a l IH]; intros b Hb Hf; cbn; [done|]. apply always_bind.
  eapply always_mono; [done| |apply (Hf b a); [done|by left]].
  intros [b'| | |]; cbn; try done. intros Hb'. apply IH; [done|].
  intros; apply Hf; [done|by right].
Qed.

Lemma always_forever {A} P (Q : outcome A -> Prop) fuel (body : prog (option A)) :
  Q OutOfFuel ->
  always P (fun o => match o with
                     | Ok (Some a) => Q (Ok a)
                     | Ok None => True
                     | Err e => Q (Err e)
                     | Panic msg => Q (Panic msg)
                     | OutOfFuel => Q OutOfFuel
                     end) body ->
  always P Q (forever fuel body).
Proof.
  intros Hfuel Hbody. induction fuel as [|fuel IH]; cbn; [done|]. apply always_bind.
  eapply always_mono; [done| |exact Hbody]. by intros [[a|]| | |].
Qed.

(** ** Rely and guarantee

    [safe I A P Q p]: while the rest of the world keeps the memory in [I] and gives answers in [A],
    the program keeps the memory in [I], makes requests in [P] and ends in [Q]. *)

Section rely.
Context (I : M -> Prop) (An : forall r, resp r -> Prop).

Fixpoint safe {A} (P : R -> Prop) (Q : outcome A -> Prop) (p : prog A) : Prop :=
  match p with
  | Done o => Q o
  | Ask r k => P r /\ forall x, An r x -> safe P Q (k x)
  | Atomic X f k => forall m, I m -> I (snd (f m)) /\ safe P Q (k (fst (f m)))
  end.

Lemma safe_run {A W} (h : handler W) P Q (p : prog A) m w :
  (forall r m w, I m -> An r (fst (h r (m, w))) /\ I (fst (snd (h r (m, w))))) ->
  safe P Q p -> I m ->
  let res := run h p m w in
  Forall (fun ev => P (projT1 ev)) (trace res) /\ Q (out res) /\ I (mem res).
Proof.
  intros Hh. revert m w. induction p as [o|r k IH|X f k IH]; intros m w Hp Hm; cbn in *.
  - done.
  - destruct Hp as [Hr Hk]. destruct (Hh r m w Hm) as [Hx Hm'].
    destruct (h r (m, w)) as [x [m' w']]. cbn in *.
    destruct (IH x m' w' (Hk x Hx) Hm') as (? & ? & ?). split; [by constructor|done].
  - destruct (Hp m Hm) as [Hm' Hk]. destruct (f m) as [x m']. by apply IH.
Qed.

Lemma safe_mono {A} (P P' : R -> Prop) (Q Q' : outcome A -> Prop) p :
  (forall r, P r -> P' r) -> (forall o, Q o -> Q' o) -> safe P Q p -> safe P' Q' p.
Proof. intros HP HQ. induction p; cbn; naive_solver. Qed.

Definition safe_post {A B} P (Q : outcome B -> Prop) (k : A -> prog B) (o : outcome A) : Prop :=
  match o with
  | Ok a => safe P Q (k a)
  | Err e => Q (Err e)
  | Panic msg => Q (Panic msg)
  | OutOfFuel => Q OutOfFuel
  end.

Lemma safe_bind {A B} P (Q : outcome B -> Prop) (p : prog A) (k : A -> prog B) :
  safe P (safe_post P Q k) p -> safe P Q (p ≫= k).
Proof.
  unfold mbind, prog_mbind. induction p as [[]|r k' IH|X f k' IH]; cbn; naive_solver.
Qed.

Lemma safe_ask {A} (P : R -> Prop) (Q : outcome A -> Prop) r (k : resp r -> prog A) :
  P r -> (forall x, An r x -> safe P Q (k x)) -> safe P Q (ask r ≫= k).
Proof. by split. Qed.

Lemma safe_attempt {A} P (Q : outcome (result A) -> Prop) (p : prog A) :
  safe P (fun o => match o with
                   | Ok a => Q (Ok (Success a))
                   | Err e => Q (Ok (Failure e))
                   | Panic msg => Q (Panic msg)
                   | OutOfFuel => Q OutOfFuel
                   end) p ->
  safe P Q (attempt p).
Proof. induction p as [[]|r k IH|X f k IH]; cbn; naive_solver. Qed.

Lemma safe_wrapf {A} P (Q : outcome A -> Prop) prefix (p : prog A) :
  safe P (fun o => Q (match o with Err e => Err (Wrapf prefix e) | o => o end)) p ->
  safe P Q (wrapf prefix p).
Proof.
  intros H. apply safe_bind, safe_attempt. eapply safe_mono; [done| |exact H]. by intros [].
Qed.

Lemma safe_forever {A} P (Q : outcome A -> Prop) fuel (body : prog (option A)) :
  Q OutOfFuel ->
  safe P (fun o => match o with
                   | Ok (Some a) => Q (Ok a)
                   | Ok None => True
                   | Err e => Q (Err e)
                   | Panic msg => Q (Panic msg)
                   | OutOfFuel => Q OutOfFuel
                   end) body ->
  safe P Q (forever fuel body).
Proof.
  intros Hfuel Hbody. induction fuel as [|fuel IH]; cbn; [done|]. apply safe_bind.
  eapply safe_mono; [done| |exact Hbody]. by intros [[a|]| | |].
Qed.

End rely.

(** Fewer answers to expect. *)
Lemma safe_weaken (I : M -> Prop) (An An' : forall r, resp r -> Prop) {A} P (Q : outcome A -> Prop) p :
  (forall r x, An' r x -> An r x) -> safe I An P Q p -> safe I An' P Q p.
Proof. intros H. induction p; cbn; naive_solver. Qed.

(** ** Guarantees

    [within P G p]: every request of [p] satisfies [P] and every access of [p] to the memory is in
    the relation [G], whatever the rest of the world does. *)

Section guarantee.
Context (P : R -> Prop) (G : relation M).

Fixpoint within {A} (p : prog A) : Prop :=
  match p with
  | Done o => True
  | Ask r k => P r /\ forall x, within (k x)
  | Atomic X f k => forall m, G m (snd (f m)) /\ within (k (fst (f m)))
  end.

Lemma within_exec {A} (p : prog A) t o :
  within p -> exec p t o -> Forall (fun ev => P (projT1 ev)) t.
Proof. intros Hp H. induction H; cbn in Hp; [done| |]; naive_solver. Qed.

Lemma within_bind {A B} (p : prog A) (k : A -> prog B) :
  within p -> (forall a, within (k a)) -> within (p ≫= k).
Proof.
  intros Hp Hk. unfold mbind, prog_mbind. induction p as [[]| |]; cbn in *; naive_solver.
Qed.

Lemma within_attempt {A} (p : prog A) : within p -> within (attempt p).
Proof. intros Hp. induction p as [[]| |]; cbn in *; naive_solver. Qed.

Lemma within_wrapf {A} prefix (p : prog A) : within p -> within (wrapf prefix p).
Proof. intros Hp. apply within_bind; [by apply within_attempt|]. by intros []. Qed.

Lemma within_ask r : P r -> within (ask r).
Proof. done. Qed.

Lemma within_atomically {X} (f : M -> X * M) : (forall m, G m (snd (f m))) -> within (atomically f).
Proof. done. Qed.

Lemma within_for_range {A B} (f : B -> A -> prog B) b l :
  (forall b a, within (f b a)) -> within (for_range f b l).
Proof.
  intros Hf. revert b. induction l as [|a l IH]; intros b; [done|]. cbn [for_range].
  by apply within_bind.
Qed.

Lemma within_forever {A} fuel (body : prog (option A)) : within body -> within (forever fuel body).
Proof.
  intros Hb. induction fuel as [|fuel IH]; [done|]. cbn [forever]. apply within_bind; [done|].
  by intros [].
Qed.

End guarantee.

Lemma within_mono (P P' : R -> Prop) (G G' : relation M) {A} (p : prog A) :
  (forall r, P r -> P' r) -> (forall m m', G m m' -> G' m m') -> within P G p -> within P' G' p.
Proof. intros HP HG. induction p; cbn; naive_solver. Qed.

(** ** Ending

    [ends p]: [p] never runs out of fuel. *)

Definition ends {A} (p : prog A) : Prop := always (fun _ => True) (fun o => o <> OutOfFuel) p.

Lemma ends_done {A} (o : outcome A) : o <> OutOfFuel -> ends (Done o).
Proof. done. Qed.

Lemma ends_exec {A} (p : prog A) t : ends p -> ~ exec p t OutOfFuel.
Proof. intros Hp H. by destruct (always_exec _ _ _ _ _ Hp H). Qed.

Lemma ends_bind {A B} (p : prog A) (k : A -> prog B) :
  ends p -> (forall a, ends (k a)) -> ends (p ≫= k).
Proof.
  intros Hp Hk. apply always_bind. eapply always_mono; [done| |exact Hp].
  intros [a|e|msg|] Ho; [apply Hk|done..].
Qed.

Lemma ends_attempt {A} (p : prog A) : ends p -> ends (attempt p).
Proof. intros Hp. apply always_attempt. eapply always_mono; [done| |exact Hp]. by intros []. Qed.

Lemma ends_wrapf {A} prefix (p : prog A) : ends p -> ends (wrapf prefix p).
Proof. intros Hp. apply always_wrapf. eapply always_mono; [done| |exact Hp]. by intros []. Qed.

Lemma ends_ask r : ends (ask r).
Proof. by split. Qed.

Lemma ends_for_range {A B} (f : B -> A -> prog B) b l :
  (forall b a, ends (f b a)) -> ends (for_range f b l).
Proof.
  intros Hf. revert b. induction l as [|a l IH]; intros b; [done|]. by apply ends_bind.
Qed.

(** A program that runs out of fuel does so in its first part or in its second one. *)
Lemma exec_bind_fuel {A B} (p : prog A) (k : A -> prog B) t :
  exec (p ≫= k) t OutOfFuel ->
  exec p t OutOfFuel \/
  exists a t1 t2, t = t1 ++ t2 /\ exec p t1 (Ok a) /\ exec (k a) t2 OutOfFuel.
Proof.
  intros [(a & t1 & t2 & H1 & H2 & ->)|(o & H & Ho)]%exec_bind_inv.
  - right. by exists a, t1, t2.
  - left. by destruct o; simplify_eq/=.
Qed.

Lemma exec_wrapf_fuel {A} prefix (p : prog A) t :
  exec (wrapf prefix p) t OutOfFuel -> exec p t OutOfFuel.
Proof. intros (o & H & Ho)%exec_wrapf_inv. by destruct o. Qed.

(** ** Assertions on the trace and the memory

    [triple G pre p post]: run from a memory and with a trace made so far that satisfy [pre], in a world
    that changes the memory within [G] only, [p] ends in an outcome, a trace and a memory that
    satisfy [post]. *)

Definition triple {A} (G : relation M) (pre : list event -> M -> Prop) (p : prog A)
    (post : outcome A -> list event -> M -> Prop) : Prop :=
  forall W (h : handler W), (forall r m w, G m (fst (snd (h r (m, w))))) ->
  forall m w t, pre t m ->
  let res := run h p m w in post (out res) (t ++ trace res) (mem res).

Section triple.
Context (G : relation M).

Lemma triple_conseq {A} (pre pre' : list event -> M -> Prop) (post post' : outcome A -> list event -> M -> Prop) p :
  (forall t m, pre t m -> pre' t m) -> (forall o t m, post' o t m -> post o t m) ->
  triple G pre' p post' -> triple G pre p post.
Proof. intros H1 H2 Hp W h Hh m w t Hm. cbv zeta. apply H2, Hp; auto. Qed.

Lemma triple_fact {A} (phi : Prop) (pre : list event -> M -> Prop) (p : prog A) post :
  (phi -> triple G pre p post) -> triple G (fun t m => phi /\ pre t m) p post.
Proof. intros Hp W h Hh m w t [H Hm]. by apply Hp. Qed.

Lemma triple_done {A} (o : outcome A) pre (post : outcome A -> list event -> M -> Prop) :
  (forall t m, pre t m -> post o t m) -> triple G pre (Done o) post.
Proof. intros H W h _ m w t Hm. cbn. rewrite app_nil_r. auto. Qed.

Lemma triple_bind {A B} pre (p : prog A) (k : A -> prog B) mid
    (post : outcome B -> list event -> M -> Prop) :
  triple G pre p (fun o => match o with
                           | Ok a => mid a
                           | Err e => post (Err e)
                           | Panic msg => post (Panic msg)
                           | OutOfFuel => post OutOfFuel
                           end) ->
  (forall a, triple G (mid a) (k a) post) -> triple G pre (p ≫= k) post.
Proof.
  intros Hp Hk W h Hh m w t Hm. cbv zeta. rewrite run_bind.
  specialize (Hp W h Hh m w t Hm). cbv zeta in Hp. unfold continue.
  destruct (run h p m w) as [[a|e|msg|] m' w' t']; cbn in *; try done.
  rewrite app_assoc. by apply Hk.
Qed.

Lemma triple_attempt {A} pre (p : prog A) (post : outcome (result A) -> list event -> M -> Prop) :
  triple G pre p (fun o => match o with
                           | Ok a => post (Ok (Success a))
                           | Err e => post (Ok (Failure e))
                           | Panic msg => post (Panic msg)
                           | OutOfFuel => post OutOfFuel
                           end) ->
  triple G pre (attempt p) post.
Proof.
  intros Hp W h Hh m w t Hm. cbv zeta. rewrite run_attempt.
  specialize (Hp W h Hh m w t Hm). cbv zeta in Hp. cbn.
  by destruct (run h p m w) as [[a|e|msg|] m' w' t'].
Qed.

Lemma triple_ask r pre (post : outcome (resp r) -> list event -> M -> Prop) :
  (forall x t m m', pre t m -> G m m' -> post (Ok x) (t ++ [existT r x]) m') ->
  triple G pre (ask r) post.
Proof.
  intros H W h Hh m w t Hm. cbn. specialize (Hh r m w).
  destruct (h r (m, w)) as [x [m' w']]. cbn in *. by eapply H.
Qed.

Lemma triple_atomically {X} (f : M -> X * M) pre (post : outcome X -> list event -> M -> Prop) :
  (forall t m, pre t m -> post (Ok (fst (f m))) t (snd (f m))) -> triple G pre (atomically f) post.
Proof.
  intros H W h _ m w t Hm. cbn. specialize (H t m Hm). destruct (f m) as [x m']. cbn in *.
  by rewrite app_nil_r.
Qed.

Lemma triple_ask_then {A} r (k : resp r -> prog A) pre (mid : resp r -> list event -> M -> Prop) post :
  (forall x t m m', pre t m -> G m m' -> mid x (t ++ [existT r x]) m') ->
  (forall x, triple G (mid x) (k x) post) -> triple G pre (ask r ≫= k) post.
Proof. intros Hr. apply triple_bind, triple_ask, Hr. Qed.

Lemma triple_atomically_then {A X} (f : M -> X * M) (k : X -> prog A) pre
    (mid : X -> list event -> M -> Prop) post :
  (forall t m, pre t m -> mid (fst (f m)) t (snd (f m))) ->
  (forall x, triple G (mid x) (k x) post) -> triple G pre (atomically f ≫= k) post.
Proof. intros Hf. apply triple_bind, triple_atomically, Hf. Qed.

(** A program within bounds that do not touch an assertion keeps it. *)
Lemma triple_frame {A} P (J : list event -> M -> Prop) (p : prog A) :
  (forall t m m', J t m -> G m m' -> J t m') ->
  (forall t m r x, J t m -> P r -> J (t ++ [existT r x]) m) ->
  within P G p -> triple G J p (fun _ => J).
Proof.
  intros HG HP Hp W h Hh. induction p as [o|r k IH|X f k IH]; intros m w t Hm; cbn.
  - by rewrite app_nil_r.
  - destruct Hp as [Hr Hk]. specialize (Hh r m w) as Hh'.
    destruct (h r (m, w)) as [x [m' w']]. cbn in *. rewrite cons_middle, app_assoc.
    apply IH; [apply Hk|]. apply HP; [|done]. by eapply HG.
  - destruct (Hp m) as [Hf Hk]. destruct (f m) as [x m']. apply IH; [apply Hk|]. by eapply HG.
Qed.

Lemma triple_for_range {A B} (J : list event -> M -> Prop) (f : B -> A -> prog B) b l :
  (forall b a, triple G J (f b a) (fun _ => J)) -> triple G J (for_range f b l) (fun _ => J).
Proof.
  intros Hf. revert b. induction l as [|a l IH]; intros b; [by apply triple_done|]. cbn [for_range].
  apply (triple_bind _ _ _ (fun _ => J)); [|intros b'; apply IH].
  eapply triple_conseq; [done| |apply Hf]. by intros [].
Qed.

End triple.

End prog.

Arguments prog {R} resp M A.
Arguments Done {R resp M A} o.
Arguments Ask {R resp M A} r k.
Arguments Atomic {R resp M A} X f k.
Arguments handler {R} resp M W.
Arguments run_result {R} resp M W A.
Arguments RunResult {R resp M W A} out mem world trace.
Arguments out {R resp M W A} r.
Arguments mem {R resp M W A} r.
Arguments world {R resp M W A} r.
Arguments trace {R resp M W A} r.
Arguments event {R} resp.
Arguments exec {R resp M A} p t o.

(** ** Programs among more requests

    [embed]: a program as part of one that can make other requests too. *)

Section embed.
Context {R1 R2 M : Type} {resp1 : R1 -> Type} {resp2 : R2 -> Type}.
Context (inj : R1 -> R2) (back : forall r, resp2 (inj r) -> resp1 r).

Fixpoint embed {A} (p : prog resp1 M A) : prog resp2 M A :=
  match p with
  | Done o => Done o
  | Ask r k => Ask (inj r) (fun x => embed (k (back r x)))
  | Atomic X f k => Atomic X f (fun x => embed (k x))
  end.

Lemma always_embed {A} (P : R2 -> Prop) (Q : outcome A -> Prop) (p : prog resp1 M A) :
  always (fun r => P (inj r)) Q p -> always P Q (embed p).
Proof. induction p; cbn; naive_solver. Qed.

Lemma safe_embed (I : M -> Prop) (An1 : forall r, resp1 r -> Prop) (An2 : forall r, resp2 r -> Prop)
    {A} (P : R2 -> Prop) (Q : outcome A -> Prop) (p : prog resp1 M A) :
  (forall r x, An2 (inj r) x -> An1 r (back r x)) ->
  safe I An1 (fun r => P (inj r)) Q p -> safe I An2 P Q (embed p).
Proof. intros Hback. induction p; cbn; naive_solver. Qed.

End embed.

(** [zoom]: a program on a part of a larger memory; where there is no such part its pointer is nil. *)

Section zoom.
Context {R M1 M2 : Type} {resp : R -> Type}.
Context (get : M2 -> option M1) (put : M1 -> M2 -> M2).

Fixpoint zoom {A} (p : prog resp M1 A) : prog resp M2 A :=
  match p with
  | Done o => Done o
  | Ask r k => Ask r (fun x => zoom (k x))
  | Atomic X f k =>
      Atomic (option X)
        (fun m => match get m with
                  | Some s => (Some (fst (f s)), put (snd (f s)) m)
                  | None => (None, m)
                  end)
        (fun o => match o with
                  | Some x => zoom (k x)
                  | None => panic "invalid memory address or nil pointer dereference"
                  end)
  end.

End zoom.

(** ** Taking an execution apart *)

Ltac exec_inv_one H :=
  lazymatch type of H with
  | exec (_ ≫= _) _ (Ok _) =>
      let a := fresh "a" in let t1 := fresh "t" in let t2 := fresh "t" in
      let H1 := fresh "Hx" in let H2 := fresh "Hx" in
      apply exec_bind_ok in H as (a & t1 & t2 & H1 & H2 & ->);
      cbv beta in H2; try exec_inv_one H1; try exec_inv_one H2
  | exec (_ ≫= _) _ _ =>
      let a := fresh "a" in let t1 := fresh "t" in let t2 := fresh "t" in
      let H1 := fresh "Hx" in let H2 := fresh "Hx" in let o := fresh "o" in let Ho := fresh "Ho" in
      apply exec_bind_inv in H as [(a & t1 & t2 & H1 & H2 & ->)|(o & H1 & Ho)];
      [cbv beta in H2; try exec_inv_one H1; try exec_inv_one H2|try exec_inv_one H1]
  | @exec ?R ?resp ?M _ (ask ?r) ?t ?o =>
      let x := fresh "x" in apply (@exec_ask_inv R resp M r t o) in H as (x & -> & H);
      first [discriminate H | injection H as -> | subst]
  | exec (mret _) _ _ => apply exec_ret_inv in H as [-> H]; first [discriminate H | injection H as -> | subst]
  | exec (throw _) _ _ => apply exec_throw_inv in H as [-> H]; first [discriminate H | injection H as -> | subst]
  | exec (Done _) _ _ => apply exec_done_inv in H as [-> H]; first [discriminate H | injection H as -> | subst]
  | exec (lift ?r) _ _ =>
      apply exec_done_inv in H as [-> H]; destruct r; cbn in H;
      first [discriminate H | injection H as -> | subst]
  | exec (panic _) _ _ => apply exec_done_inv in H as [-> H]; first [discriminate H | subst]
  | exec (read_mem _) _ _ => let m := fresh "m" in apply exec_atomically_inv in H as (m & -> & H); cbn in H; first [discriminate H | injection H as -> | subst]
  | exec (write_mem _) _ _ => let m := fresh "m" in apply exec_atomically_inv in H as (m & -> & H); cbn in H; first [discriminate H | injection H as -> | subst]
  | exec (atomically _) _ _ => let m := fresh "m" in apply exec_atomically_inv in H as (m & -> & H); cbn in H; first [discriminate H | injection H as -> | subst]
  | exec (attempt _) _ _ =>
      let o := fresh "o" in let Ho := fresh "Ho" in apply exec_attempt_inv in H as (o & H & Ho)
  | exec (wrapf _ _) _ _ =>
      let o := fresh "o" in let Ho := fresh "Ho" in apply exec_wrapf_inv in H as (o & H & Ho)
  end.

(** Break the executions in the context down to those of named programs; equations between outcomes
    are solved where they decide a case. *)
Ltac exec_inv :=
  repeat match goal with
  | H : exec _ _ _ |- _ => progress exec_inv_one H
  | H : raised _ = Some _ |- _ => progress cbn in H
  | H : Some _ = Some _ |- _ => injection H as H
  | H : None = Some _ |- _ => discriminate H
  | H : exec (match ?x with _ => _ end) _ _ |- _ =>
      first [is_var x; destruct x | let E := fresh "E" in destruct x eqn:E]
  | H : Ok _ = match ?o with _ => _ end |- _ => destruct o; try discriminate H
  | H : Ok _ = Ok _ |- _ => injection H as H
  | H : Err _ = Ok _ |- _ => discriminate H
  | H : Ok _ = Err _ |- _ => discriminate H
  end; subst.

(** Pass a request in a proof of [always]: its condition, then the continuation for every answer. *)
Ltac always_ask :=
  lazymatch goal with
  | |- @always ?R ?resp ?M ?A ?P ?Q (mbind ?k (ask ?r)) =>
      refine (@always_ask R resp M A P Q r k _ _); [|intros ?; cbv beta]
  end.

Ltac safe_ask :=
  lazymatch goal with
  | |- @safe ?R ?resp ?M ?I ?An ?A ?P ?Q (mbind ?k (ask ?r)) =>
      refine (@safe_ask R resp M I An A P Q r k _ _); [|intros ? ?; cbv beta]
  end.

(** Walk through a program in a proof of [within]: the combinators, then the programs it calls, by the
    lemmas of the database [within]. *)
Create HintDb within.

Ltac within_step :=
  lazymatch goal with
  | |- within _ _ (mret _) => exact I
  | |- within _ _ (Done _) => exact I
  | |- within _ _ (throw _) => exact I
  | |- within _ _ (panic _) => exact I
  | |- within _ _ (lift _) => exact I
  | |- within ?P ?G (ask ?r) => apply (within_ask P G r)
  | |- within _ _ (atomically _) => apply within_atomically; intros ?; cbn
  | |- within _ _ (read_mem _) => apply within_atomically; intros ?; cbn
  | |- within _ _ (write_mem _) => apply within_atomically; intros ?; cbn
  | |- within _ _ (_ ≫= _) => apply within_bind; [|intros ?]
  | |- within _ _ (wrapf _ _) => apply within_wrapf
  | |- within _ _ (attempt _) => apply within_attempt
  | |- within _ _ (for_range _ _ _) => apply within_for_range; intros ? ?
  | |- within _ _ (for_each _ _) => apply within_for_range; intros ? ?
  | |- within _ _ (forever _ _) => apply within_forever
  | |- within _ _ (match ?x with _ => _ end) => destruct x
  | |- within _ _ _ => first [progress cbv beta zeta | solve [auto 2 with within nocore]]
  end.
Ltac within := repeat within_step.

Ltac ends_step :=
  lazymatch goal with
  | |- ends (mret _) => apply ends_done; discriminate
  | |- ends (throw _) => apply ends_done; discriminate
  | |- ends (panic _) => apply ends_done; discriminate
  | |- ends (lift ?r) => apply ends_done; destruct r; discriminate
  | |- ends (ask ?r) => exact (ends_ask r)
  | |- ends (_ ≫= _) => apply ends_bind; [|intros ?]
  | |- ends (wrapf _ _) => apply ends_wrapf
  | |- ends (attempt _) => apply ends_attempt
  | |- ends (for_range _ _ _) => apply ends_for_range; intros ? ?
  | |- ends (for_each _ _) => apply ends_for_range; intros ? ?
  | |- ends (match ?x with _ => _ end) => destruct x
  | |- ends _ => progress cbv beta zeta
  end.
Ltac ends := repeat ends_step.
