(* ===== verification/Types.v ===== *)
(** * The API types ([api/v1/mysqlcluster_types.go])

    The custom resource [MysqlCluster] with its spec and status, the Raft data the status carries,
    and the metadata every Kubernetes object has.  A Go map field is an [option (gmap ...)]: [None]
    is the nil map, which reads as empty and panics when it is assigned to. *)

From S2P Require Import Prelude GoLib.

(** ** Object metadata (the fields the operator reads or writes) *)

Record OwnerReference := MkOwnerReference {
  or_APIVersion : string;
  or_Kind : string;
  or_Name : string;
  or_UID : string;
  or_Controller : bool;
}.

Record ObjectMeta := MkObjectMeta {
  om_Name : string;
  om_Namespace : string;
  om_UID : string;
  om_Labels : option (gmap string string);
  om_Annotations : option (gmap string string);
  om_OwnerReferences : list OwnerReference;
}.

#[export] Instance eta_ObjectMeta : Eta ObjectMeta := fun r =>
  MkObjectMeta (om_Name r) (om_Namespace r) (om_UID r) (om_Labels r) (om_Annotations r)
    (om_OwnerReferences r).

(** [m[k]] and [v, ok := m[k]] on a map that may be nil. *)
Definition map_index (m : option (gmap string string)) (k : string) : string :=
  default "" (m ≫= lookup k).
Definition map_has (m : option (gmap string string)) (k : string) : bool :=
  bool_decide (is_Some (m ≫= lookup k)).

(** ** Spec *)

Record StorageConfig := MkStorageConfig {
  StorageClassName : string;
  Size : string;
}.

Record ResourceRequests := MkResourceRequests {
  req_CPU : string;
  req_Memory : string;
}.

Record ResourceLimits := MkResourceLimits {
  lim_CPU : string;
  lim_Memory : string;
}.

Record ResourceRequirements := MkResourceRequirements {
  Requests : ResourceRequests;
  Limits : ResourceLimits;
}.

(** [Replicas] is an [int32]. *)
Record MysqlClusterSpec := MkMysqlClusterSpec {
  Image : string;
  Replicas : Z;
  MasterService : string;
  SlaveService : string;
  Storage : StorageConfig;
  Resources : ResourceRequirements;
}.

(** ** Raft data *)

Inductive RaftState : Type :=
| RaftStateFollower
| RaftStateCandidate
| RaftStateLeader.

#[export] Instance RaftState_eq_dec : EqDecision RaftState.
Proof. solve_decision. Defined.

(** The enum is a string type in Go; this is its text. *)
Definition RaftState_string (s : RaftState) : string :=
  match s with
  | RaftStateFollower => "follower"
  | RaftStateCandidate => "candidate"
  | RaftStateLeader => "leader"
  end.

Record RaftLogEntry := MkRaftLogEntry {
  le_Term : Z;
  le_Index : Z;
  le_Command : string;
}.

#[export] Instance RaftLogEntry_eq_dec : EqDecision RaftLogEntry.
Proof. solve_decision. Defined.

(** [LastContact] and [IsActive] are the two fields the monitor writes and the type in
    [mysqlcluster_types.go] lacks; [updateClusterStatus] of the manager leaves them zero. *)
Record RaftNodeInfo := MkRaftNodeInfo {
  ni_NodeId : string;
  ni_State : RaftState;
  ni_Term : Z;
  ni_LastContact : Time;
  ni_IsActive : bool;
}.

#[export] Instance RaftNodeInfo_eq_dec : EqDecision RaftNodeInfo.
Proof. solve_decision. Defined.

(** ** Status and the resource *)

Record MysqlClusterStatus := MkMysqlClusterStatus {
  Master : string;
  Slaves : list string;
  RaftNodes : option (gmap string RaftNodeInfo);
  RaftLeader : string;
  RaftTerm : Z;
  ClusterSize : Z;
}.

#[export] Instance eta_MysqlClusterStatus : Eta MysqlClusterStatus := fun r =>
  MkMysqlClusterStatus (Master r) (Slaves r) (RaftNodes r) (RaftLeader r) (RaftTerm r)
    (ClusterSize r).

Record MysqlCluster := MkMysqlCluster {
  mc_meta : ObjectMeta;
  Spec : MysqlClusterSpec;
  Status : MysqlClusterStatus;
}.

#[export] Instance eta_MysqlCluster : Eta MysqlCluster := fun r =>
  MkMysqlCluster (mc_meta r) (Spec r) (Status r).

Definition cluster_Name (c : MysqlCluster) : string := om_Name (mc_meta c).
Definition cluster_Namespace (c : MysqlCluster) : string := om_Namespace (mc_meta c).

(** The server accepts [spec.replicas] as an [int32]. *)
Definition valid_cluster (c : MysqlCluster) : Prop := in_int32 (Replicas (Spec c)).

(** ** A concrete cluster *)

Definition example_spec (replicas : Z) : MysqlClusterSpec := {|
  Image := "mysql:8.0";
  Replicas := replicas;
  MasterService := "mysql-master";
  SlaveService := "mysql-slave";
  Storage := {| StorageClassName := "standard"; Size := "1Gi" |};
  Resources := {| Requests := {| req_CPU := "500m"; req_Memory := "1Gi" |};
                  Limits := {| lim_CPU := "1"; lim_Memory := "2Gi" |} |};
|}.

Definition example_meta (name : string) : ObjectMeta := {|
  om_Name := name;
  om_Namespace := "default";
  om_UID := "1";
  om_Labels := None;
  om_Annotations := None;
  om_OwnerReferences := [];
|}.

Definition example_status : MysqlClusterStatus := {|
  Master := ""; Slaves := []; RaftNodes := None; RaftLeader := ""; RaftTerm := 0; ClusterSize := 0;
|}.

Definition example_cluster (replicas : Z) : MysqlCluster := {|
  mc_meta := example_meta "db";
  Spec := example_spec replicas;
  Status := example_status;
|}.
