(* ===== verification/Kube.v ===== *)
(** * The world outside the operator: Kubernetes objects and requests

    The operator's calls into controller-runtime's client, client-go's exec, the clock, the random
    generator, map iteration and the [go] statement are requests of a [prog].  Nothing here says how
    they are answered: a handler does, and what a theorem needs of the answers it states as a
    hypothesis on the trace or the handler ([names_answered], [keys_answered], [executors_answered],
    [keeps_time]). *)

From S2P Require Import Prelude GoLib Prog Types.

Record ObjectKey := MkObjectKey {
  key_Namespace : string;
  key_Name : string;
}.

#[export] Instance ObjectKey_eq_dec : EqDecision ObjectKey.
Proof. solve_decision. Defined.

(** The exec request [POST .../pods/<name>/exec?...]. *)
Record ExecRequest := MkExecRequest {
  ex_pod : ObjectKey;
  ex_params : list (string * string);
}.

#[export] Instance ExecRequest_eq_dec : EqDecision ExecRequest.
Proof. solve_decision. Defined.

(** Types and functions of the libraries the operator only calls: [resource.Quantity] with its
    parser, [errors.IsNotFound], and the client configuration of exec with the request an executor
    was made for. *)
Class Extern : Type := {
  Quantity : Type;
  ParseQuantity : string -> option Quantity;
  IsNotFound : error -> bool;
  RestConfig : Type;
  Clientset : Type;
  Executor : Type;
  ExecutorRequest : Executor -> ExecRequest;
}.

Section kube.
  Context {ext : Extern}.

(** ** Objects (the fields the operator reads or writes) *)

Record ResourceList := MkResourceList {
  rl_cpu : Quantity;
  rl_memory : Quantity;
}.

Record VolumeMount := MkVolumeMount {
  vm_Name : string;
  vm_MountPath : string;
  vm_SubPath : string;
}.

Record Container := MkContainer {
  c_Name : string;
  c_Image : string;
  c_Requests : ResourceList;
  c_Limits : ResourceList;
  c_Env : list (string * string);
  c_Ports : list (string * Z);
  c_VolumeMounts : list VolumeMount;
}.

Inductive VolumeSource : Type :=
| ConfigMapVolume (name : string)
| PersistentVolumeClaimVolume (claimName : string).

Record PodSpec := MkPodSpec {
  Containers : list Container;
  Volumes : list (string * VolumeSource);
}.

(** Of a container's status the operator reads [Ready]. *)
Record PodStatus := MkPodStatus {
  Phase : string;
  ContainerStatuses : list bool;
}.

Record Pod := MkPod {
  pod_meta : ObjectMeta;
  pod_spec : PodSpec;
  pod_status : PodStatus;
}.

#[global] Instance eta_Pod : Eta Pod := fun r => MkPod (pod_meta r) (pod_spec r) (pod_status r).

Record ConfigMap := MkConfigMap {
  cm_meta : ObjectMeta;
  cm_Data : gmap string string;
}.

#[global] Instance eta_ConfigMap : Eta ConfigMap := fun r => MkConfigMap (cm_meta r) (cm_Data r).

Record PersistentVolumeClaim := MkPVC {
  pvc_meta : ObjectMeta;
  pvc_AccessModes : list string;
  pvc_storage : Quantity;
  pvc_StorageClassName : string;
}.

Record ServicePort := MkServicePort {
  sp_Port : Z;
  sp_TargetPort : Z;
  sp_Protocol : string;
}.

Record Service := MkService {
  svc_meta : ObjectMeta;
  svc_Selector : gmap string string;
  svc_Ports : list ServicePort;
  svc_Type : string;
}.

(** A subset is its list of addresses, an address the name of its [TargetRef], a pointer. *)
Record Endpoints := MkEndpoints {
  ep_meta : ObjectMeta;
  Subsets : list (list (option string));
}.

Inductive Kind : Type :=
| KPod | KConfigMap | KPVC | KService | KEndpoints | KMysqlCluster.

Definition obj (k : Kind) : Type :=
  match k with
  | KPod => Pod
  | KConfigMap => ConfigMap
  | KPVC => PersistentVolumeClaim
  | KService => Service
  | KEndpoints => Endpoints
  | KMysqlCluster => MysqlCluster
  end.

Definition obj_meta (k : Kind) : obj k -> ObjectMeta :=
  match k with
  | KPod => pod_meta
  | KConfigMap => cm_meta
  | KPVC => pvc_meta
  | KService => svc_meta
  | KEndpoints => ep_meta
  | KMysqlCluster => mc_meta
  end.

Definition pod_Name (p : Pod) : string := om_Name (pod_meta p).
Definition pod_Labels (p : Pod) : option (gmap string string) := om_Labels (pod_meta p).

(** [pod.Labels[k] = v] on a map that is not nil. *)
Definition set_label (k v : string) (labels : gmap string string) (p : Pod) : Pod :=
  p <| pod_meta := (pod_meta p) <| om_Labels := Some (<[k := v]> labels) |> |>.

(** ** Requests *)

Definition key_of (k : Kind) (o : obj k) : ObjectKey :=
  MkObjectKey (om_Namespace (obj_meta k o)) (om_Name (obj_meta k o)).

(** The goroutines the program starts. *)
Inductive Goroutine : Type :=
| runElectionTimer
| runHeartbeatTimer
| gtidSnapshotLoop (cluster : MysqlCluster)
| collectMetrics
| updateClusterStatusLoop
| healthCheckLoop.

Inductive request : Type :=
| Get (k : Kind) (key : ObjectKey)
| ListPods (namespace : string) (selector : gmap string string)
| Create (k : Kind) (o : obj k)
| Update (k : Kind) (o : obj k)
| StatusUpdate (c : MysqlCluster)
| InClusterConfig
| NewForConfig (c : RestConfig)
| NewSPDYExecutor (c : RestConfig) (cs : Clientset) (r : ExecRequest)
| Stream (x : Executor)
| Now
| Sleep (d : Duration)
| Intn (n : Z)
| RangeKeys (keys : gset string)
| Go (g : Goroutine).

(** [Create], [Update] and [Status().Update] decode the server's object into the one they were
    given; the answer carries it.  [RangeKeys] is the order a [for range] over a map takes. *)
Definition response (r : request) : Type :=
  match r with
  | Get k _ => result (obj k)
  | ListPods _ _ => result (list Pod)
  | Create k _ => result (obj k)
  | Update k _ => result (obj k)
  | StatusUpdate _ => result MysqlCluster
  | InClusterConfig => result RestConfig
  | NewForConfig _ => result Clientset
  | NewSPDYExecutor _ _ _ => result Executor
  | Stream _ => result string
  | Now => Time
  | Sleep _ => unit
  | Intn _ => Z
  | RangeKeys _ => list string
  | Go _ => unit
  end.

(** The requests that change the cluster's state. *)
Definition is_write (r : request) : bool :=
  match r with
  | Create _ _ | Update _ _ | StatusUpdate _ => true
  | _ => false
  end.

(** Requests that run a command in a pod. *)
Definition is_exec (r : request) : bool :=
  match r with
  | Stream _ => true
  | _ => false
  end.

(** ** Traces of requests *)

Definition writes (ev : event response) : bool := is_write (projT1 ev).

(** The trace shows that the object exists: it was read, or created, with success. *)
Definition confirmed (t : list (event response)) (k : Kind) (key : ObjectKey) : Prop :=
  (exists o, existT (Get k key) (Success o) ∈ t) \/
  (exists o o', key_of k o = key /\ existT (Create k o) (Success o') ∈ t).

Lemma confirmed_app_l t u k key : confirmed t k key -> confirmed (t ++ u) k key.
Proof.
  intros [[o H]|(o & o' & Hk & H)]; [left; exists o|right; exists o, o'; split; [done|]];
    apply elem_of_app; by left.
Qed.

Lemma confirmed_app_r t u k key : confirmed u k key -> confirmed (t ++ u) k key.
Proof.
  intros [[o H]|(o & o' & Hk & H)]; [left; exists o|right; exists o, o'; split; [done|]];
    apply elem_of_app; by right.
Qed.

(** What the API documents of [Get]: the object returned is the one asked for. *)
Definition name_answered (ev : event response) : Prop :=
  match ev with
  | existT r x =>
      match r return response r -> Prop with
      | Get k key => fun x =>
          match x with
          | Success o => key_of k o = key
          | Failure _ => True
          end
      | _ => fun _ => True
      end x
  end.

#[global] Instance name_answered_dec ev : Decision (name_answered ev).
Proof. destruct ev as [[] x]; cbn; try apply _. destruct x; apply _. Defined.

Definition names_answered (t : list (event response)) : Prop := Forall name_answered t.

Lemma names_answered_app t u :
  names_answered (t ++ u) <-> names_answered t /\ names_answered u.
Proof. apply Forall_app. Qed.

Lemma names_answered_get k key o t :
  names_answered (existT (Get k key) (Success o) :: t) -> key_of k o = key /\ names_answered t.
Proof. by intros [? ?]%Forall_cons. Qed.

(** The order of a [for range] over a map: its keys, each once. *)
Definition key_answered (ev : event response) : Prop :=
  match ev with
  | existT r x =>
      match r return response r -> Prop with
      | RangeKeys keys => fun l => l ≡ₚ elements keys
      | _ => fun _ => True
      end x
  end.

#[global] Instance key_answered_dec ev : Decision (key_answered ev).
Proof. destruct ev as [[] x]; cbn; apply _. Defined.

Definition keys_answered (t : list (event response)) : Prop := Forall key_answered t.

Lemma keys_answered_app t u : keys_answered (t ++ u) <-> keys_answered t /\ keys_answered u.
Proof. apply Forall_app. Qed.

(** What client-go documents of [NewSPDYExecutor]: the executor is one for the request it was given. *)
Definition executor_answered (ev : event response) : Prop :=
  match ev with
  | existT r x =>
      match r return response r -> Prop with
      | NewSPDYExecutor _ _ req => fun x =>
          match x with
          | Success ex => ExecutorRequest ex = req
          | Failure _ => True
          end
      | _ => fun _ => True
      end x
  end.

#[global] Instance executor_answered_dec ev : Decision (executor_answered ev).
Proof. destruct ev as [[] x]; cbn; try apply _. destruct x; apply _. Defined.

Definition executors_answered (t : list (event response)) : Prop := Forall executor_answered t.

Lemma executors_answered_app t u :
  executors_answered (t ++ u) <-> executors_answered t /\ executors_answered u.
Proof. apply Forall_app. Qed.

(** ** What a run does to the pods *)

(** A pod is updated to carry a role label, or a command is run in it. *)
Inductive Action : Type :=
| SetRole (pod : ObjectKey) (role : string)
| Command (pod : ObjectKey) (command : string).

(** The action an answered request is, with whether it took effect: a label is written when the API
    server accepts the update, and a command has run when the stream of its output ended without an
    error.  A command is the last parameter of the request its executor is for. *)
Definition acted (ev : event response) : option (Action * bool) :=
  match ev with
  | existT r x =>
      match r return response r -> option (Action * bool) with
      | Update KPod pod => fun x =>
          Some (SetRole (key_of KPod pod) (map_index (pod_Labels pod) "role"), is_success x)
      | Stream ex => fun x =>
          let req := ExecutorRequest ex in
          Some (Command (ex_pod req) (default "" (snd <$> last (ex_params req))), is_success x)
      | _ => fun _ => None
      end x
  end.

Definition attempts (t : list (event response)) : list (Action * bool) := omap acted t.

Lemma attempts_app t u : attempts (t ++ u) = attempts t ++ attempts u.
Proof. apply omap_app. Qed.

(** A label selector of equalities. *)
Definition selects (selector : gmap string string) (labels : option (gmap string string)) : Prop :=
  map_Forall (fun k v => (labels ≫= lookup k) = Some v) selector.

(** ** Time

    The answers of a clock: time does not go back, [Now] is a time between the begin and the end of the
    request, and [Sleep] lasts at least as long as it was asked to. *)
Record keeps_time {M W} (h : handler response M W) (clock : W -> Time) : Prop := {
  clock_forward r m w : clock w <= clock (snd (snd (h r (m, w))));
  clock_now m w : clock w <= fst (h Now (m, w)) <= clock (snd (snd (h Now (m, w))));
  clock_sleep d m w : clock w + d <= clock (snd (snd (h (Sleep d) (m, w))));
}.

End kube.

(** On a concrete trace the conditions are computed. *)
Ltac check_answers :=
  unfold names_answered, keys_answered, executors_answered; apply (bool_decide_unpack _); vm_compute; exact I.

(** Find the answered request that confirms an object. *)
Ltac in_trace :=
  cbn; solve [repeat first [apply list_elem_of_here | apply list_elem_of_further]].
Ltac show_confirmed :=
  first
    [ left; eexists; in_trace
    | right; eexists _, _; split; [|in_trace]; reflexivity ].

#[export] Hint Resolve confirmed_app_l confirmed_app_r : go.
