(* ===== verification/KubeSim.v ===== *)
(** * A small API server

    A concrete handler to run the operator's programs against: an in-memory store of the objects, a
    clock that [Sleep] moves, a kubelet that brings every pod up during a [Sleep], an endpoints
    controller (the endpoints of a service are the healthy pods its selector matches), and a shell
    that answers commands.  It is no part of the operator; the instances of the theorems run on it. *)

From S2P Require Import Prelude GoLib Prog Types Kube.

#[export] Instance ObjectKey_countable : Countable ObjectKey.
Proof.
  refine (inj_countable' (fun k => (key_Namespace k, key_Name k)) (fun p => MkObjectKey (fst p) (snd p)) _).
  by intros [].
Defined.

Definition sim_extern : Extern := {|
  Quantity := string;
  ParseQuantity s := if decide (s = "") then None else Some s;
  IsNotFound e := match e with LibraryError reason _ => bool_decide (reason = "NotFound") | _ => false end;
  RestConfig := unit;
  Clientset := unit;
  Executor := ExecRequest;
  ExecutorRequest := id;
|}.

#[local] Existing Instance sim_extern.

Record World := MkWorld {
  w_pods : gmap ObjectKey Pod;
  w_configmaps : gmap ObjectKey ConfigMap;
  w_pvcs : gmap ObjectKey PersistentVolumeClaim;
  w_services : gmap ObjectKey Service;
  w_clusters : gmap ObjectKey MysqlCluster;
  w_now : Time;
  w_shell : string -> string -> result string;
}.

#[export] Instance eta_World : Eta World := fun r =>
  MkWorld (w_pods r) (w_configmaps r) (w_pvcs r) (w_services r) (w_clusters r) (w_now r) (w_shell r).

Definition empty_world (shell : string -> string -> result string) : World :=
  MkWorld ∅ ∅ ∅ ∅ ∅ 0 shell.

(** ** Selection *)

Definition selectsb (selector : gmap string string) (labels : option (gmap string string)) : bool :=
  forallb (fun p => bool_decide ((labels ≫= lookup (fst p)) = Some (snd p))) (map_to_list selector).

Definition ready (pod : Pod) : bool :=
  bool_decide (Phase (pod_status pod) = "Running") &&
  default false (head (ContainerStatuses (pod_status pod))).

Definition pods_matching (namespace : string) (selector : gmap string string) (w : World) : list Pod :=
  filter (fun pod => selectsb selector (pod_Labels pod) = true /\ om_Namespace (pod_meta pod) = namespace)
    (snd <$> map_to_list (w_pods w)).

Definition endpoints_of (key : ObjectKey) (w : World) : option Endpoints :=
  (fun service =>
     let pods := filter (fun pod => ready pod = true)
                   (pods_matching (key_Namespace key) (svc_Selector service) w) in
     {| ep_meta := svc_meta service;
        Subsets := if decide (pods = []) then [] else [(fun pod => Some (pod_Name pod)) <$> pods] |})
  <$> w_services w !! key.

(** ** The store *)

Definition fetch (k : Kind) (key : ObjectKey) (w : World) : option (obj k) :=
  match k with
  | KPod => w_pods w !! key
  | KConfigMap => w_configmaps w !! key
  | KPVC => w_pvcs w !! key
  | KService => w_services w !! key
  | KEndpoints => endpoints_of key w
  | KMysqlCluster => w_clusters w !! key
  end.

Definition put (k : Kind) : obj k -> World -> World :=
  match k with
  | KPod => fun o w => w <| w_pods := <[key_of KPod o := o]> (w_pods w) |>
  | KConfigMap => fun o w => w <| w_configmaps := <[key_of KConfigMap o := o]> (w_configmaps w) |>
  | KPVC => fun o w => w <| w_pvcs := <[key_of KPVC o := o]> (w_pvcs w) |>
  | KService => fun o w => w <| w_services := <[key_of KService o := o]> (w_services w) |>
  | KEndpoints => fun _ w => w
  | KMysqlCluster => fun o w => w <| w_clusters := <[key_of KMysqlCluster o := o]> (w_clusters w) |>
  end.

Definition not_found : error := LibraryError "NotFound" "not found".
Definition already_exists : error := LibraryError "AlreadyExists" "already exists".

Definition kubelet (pod : Pod) : Pod :=
  pod <| pod_status := {| Phase := "Running"; ContainerStatuses := [true] |} |>.

(** ** The handler *)

Definition sim {M : Type} : handler response M World := fun r '(m, w) =>
  match r return response r * (M * World) with
  | Get k key => (match fetch k key w with Some o => Success o | None => Failure not_found end, (m, w))
  | ListPods namespace selector => (Success (pods_matching namespace selector w), (m, w))
  | Create k o =>
      match fetch k (key_of k o) w with
      | Some _ => (Failure already_exists, (m, w))
      | None => (Success o, (m, put k o w))
      end
  | Update k o =>
      match fetch k (key_of k o) w with
      | Some _ => (Success o, (m, put k o w))
      | None => (Failure not_found, (m, w))
      end
  | StatusUpdate c =>
      match w_clusters w !! key_of KMysqlCluster c with
      | Some stored =>
          let c' := stored <| Status := Status c |> in
          (Success c', (m, put KMysqlCluster c' w))
      | None => (Failure not_found, (m, w))
      end
  | InClusterConfig => (Success tt, (m, w))
  | NewForConfig _ => (Success tt, (m, w))
  | NewSPDYExecutor _ _ req => (Success req, (m, w))
  | Stream req =>
      (w_shell w (key_Name (ex_pod req)) (default "" (snd <$> last (ex_params req))), (m, w))
  | Now => (w_now w, (m, w))
  | Sleep d => (tt, (m, w <| w_now := w_now w + Z.max 0 d |> <| w_pods := kubelet <$> w_pods w |>))
  | Intn _ => (0, (m, w))
  | RangeKeys keys => (elements keys, (m, w))
  | Go _ => (tt, (m, w))
  end.

Definition quiet_shell (pod command : string) : result string := Success "".

Lemma put_now k (o : obj k) w : w_now (put k o w) = w_now w.
Proof. by destruct k. Qed.

Lemma sim_keeps_time M : keeps_time (sim (M := M)) w_now.
Proof.
  split.
  - intros r m w. destruct r as [| |k o|k o|c| | | | | |d| | |]; cbn; try lia.
    + case_match; cbn; rewrite ?put_now; lia.
    + case_match; cbn; rewrite ?put_now; lia.
    + case_match; cbn; lia.
  - intros m w. cbn. lia.
  - intros d m w. cbn. lia.
Qed.

(** ** A server without objects

    It grants what is created or written and finds nothing; the clock says [now]. *)
Definition grant (now : Time) (r : request) : response r :=
  match r return response r with
  | Get _ _ | ListPods _ _ | InClusterConfig | NewForConfig _ | NewSPDYExecutor _ _ _ | Stream _ =>
      Failure (Errorf "unavailable")
  | Create _ o => Success o
  | Update _ o => Success o
  | StatusUpdate c => Success c
  | Now => now
  | Sleep _ => tt
  | Intn _ => 0
  | RangeKeys _ => []
  | Go _ => tt
  end.
