(* ===== verification/Raft.v ===== *)
(** * The Raft manager ([internal/controller/raft.go])

    The manager's state as a record and each method as a function on it.  What a method takes from
    its surroundings is an argument: [now] is [time.Now()], [rnd] is [rand.Intn(150)], [reply] what
    the API server answers.  Methods that start goroutines return what the goroutines are started
    with; [RaftSystem] runs them. *)

From S2P Require Import Prelude GoLib Prog Types Kube.

(** ** State *)

Record PeerInfo := MkPeerInfo {
  pi_NodeId : string;
  pi_LastContact : Time;
  pi_LastLatency : Duration;
  pi_IsActive : bool;
}.

(** [cluster] is a pointer in Go; the manager, the integration and the monitor of one operator
    process hold the same one, so the object it points to lives here. *)
Record RaftManager := MkRaftManager {
  rm_nodeId : string;
  rm_cluster : MysqlCluster;
  rm_state : RaftState;
  rm_currentTerm : Z;
  rm_votedFor : string;
  rm_log : list RaftLogEntry;
  rm_leaderId : string;
  rm_nextIndex : gmap string Z;
  rm_matchIndex : gmap string Z;
  rm_electionTimeout : Duration;
  rm_heartbeatInterval : Duration;
  rm_heartbeatTimeout : Duration;
  rm_lastHeartbeat : Time;
  rm_electionCount : Z;
  rm_lastElection : Time;
  rm_commitIndex : Z;
  rm_lastApplied : Z;
  rm_peers : gmap string PeerInfo;
  rm_heartbeatCount : Z;
}.

#[export] Instance eta_RaftManager : Eta RaftManager := fun r =>
  MkRaftManager (rm_nodeId r) (rm_cluster r) (rm_state r) (rm_currentTerm r) (rm_votedFor r)
    (rm_log r) (rm_leaderId r) (rm_nextIndex r) (rm_matchIndex r) (rm_electionTimeout r)
    (rm_heartbeatInterval r) (rm_heartbeatTimeout r) (rm_lastHeartbeat r) (rm_electionCount r)
    (rm_lastElection r) (rm_commitIndex r) (rm_lastApplied r) (rm_peers r) (rm_heartbeatCount r).

Definition NewRaftManager (nodeId : string) (cluster : MysqlCluster) (rnd : Z) (now : Time) :
    RaftManager := {|
  rm_nodeId := nodeId;
  rm_cluster := cluster;
  rm_state := RaftStateFollower;
  rm_currentTerm := 0;
  rm_votedFor := "";
  rm_log := [];
  rm_leaderId := "";
  rm_nextIndex := ∅;
  rm_matchIndex := ∅;
  rm_electionTimeout := (150 + rnd) * Millisecond;
  rm_heartbeatInterval := 0;
  rm_heartbeatTimeout := 50 * Millisecond;
  rm_lastHeartbeat := now;
  rm_electionCount := 0;
  rm_lastElection := zero_time;
  rm_commitIndex := 0;
  rm_lastApplied := 0;
  rm_peers := ∅;
  rm_heartbeatCount := 0;
|}.

(** The length and the last term of the log, as every handler reads them. *)
Definition log_len (rm : RaftManager) : Z := Z.of_nat (length (rm_log rm)).
Definition lastTerm (rm : RaftManager) : Z := default 0 (le_Term <$> last (rm_log rm)).

(** ** Operations *)

Definition node_name (cluster : MysqlCluster) (i : Z) : string :=
  cluster_Name cluster +:+ "-" +:+ fmt_d i.

Definition getClusterNodes (rm : RaftManager) : list string :=
  node_name (rm_cluster rm) <$> seqZ 0 (Replicas (Spec (rm_cluster rm))).

(** The nodes of a [for _, node := range nodes { if node != rm.nodeId ... }]. *)
Definition other_nodes (rm : RaftManager) : list string :=
  filter (fun node => node <> rm_nodeId rm) (getClusterNodes rm).

(** The test of [runElectionTimer] once its timer fired, and of [runHeartbeatTimer]. *)
Definition election_due (now : Time) (rm : RaftManager) : bool :=
  bool_decide (rm_state rm <> RaftStateLeader) &&
  (rm_electionTimeout rm <? Since now (rm_lastHeartbeat rm)).

Definition heartbeat_due (rm : RaftManager) : bool := bool_decide (rm_state rm = RaftStateLeader).

(** [startElection]: the new state, the majority the vote closures compare with, and the nodes a
    vote goroutine is started for.  [votes] starts at 1. *)
Definition startElection (now : Time) (rnd : Z) (rm : RaftManager) :
    RaftManager * (Z * list string) :=
  let rm := rm <| rm_state := RaftStateCandidate |> in
  let rm := rm <| rm_currentTerm := int64 (rm_currentTerm rm + 1) |> in
  let rm := rm <| rm_votedFor := rm_nodeId rm |> in
  let rm := rm <| rm_lastHeartbeat := now |> in
  let rm := rm <| rm_electionTimeout := (150 + rnd) * Millisecond |> in
  let nodes := getClusterNodes rm in
  (rm, (Z.of_nat (length nodes) / 2 + 1, other_nodes rm)).

(** [sendHeartbeats]: the nodes a [sendAppendEntries] goroutine is started for. *)
Definition sendHeartbeats (rm : RaftManager) : list string := other_nodes rm.

(** The status fields [updateClusterStatus] writes before it sends the object. *)
Definition statusOf (rm : RaftManager) : MysqlClusterStatus :=
  let st := Status (rm_cluster rm) in
  let nodes := default ∅ (RaftNodes st) in
  let info := {| ni_NodeId := rm_nodeId rm; ni_State := rm_state rm; ni_Term := rm_currentTerm rm;
                 ni_LastContact := zero_time; ni_IsActive := false |} in
  let st := st <| RaftNodes := Some (<[rm_nodeId rm := info]> nodes) |> in
  let st := if decide (rm_state rm = RaftStateLeader)
            then st <| RaftLeader := rm_nodeId rm |> <| RaftTerm := rm_currentTerm rm |> else st in
  st <| ClusterSize := Replicas (Spec (rm_cluster rm)) |>.

(** [reply] answers [Status().Update]: on success the object is decoded into [rm.cluster], an error
    is ignored. *)
Definition updateClusterStatus (reply : MysqlCluster -> result MysqlCluster) (rm : RaftManager) :
    RaftManager :=
  let rm := rm <| rm_cluster := (rm_cluster rm) <| Status := statusOf rm |> |> in
  match reply (rm_cluster rm) with
  | Success c => rm <| rm_cluster := c |>
  | Failure _ => rm
  end.

(** [becomeLeader]: the new state and the nodes a heartbeat goroutine is started for. *)
Definition init_follower (rm : RaftManager) (node : string) : RaftManager :=
  let rm := rm <| rm_nextIndex := <[node := int64 (log_len rm + 1)]> (rm_nextIndex rm) |> in
  rm <| rm_matchIndex := <[node := 0]> (rm_matchIndex rm) |>.

Definition becomeLeader (reply : MysqlCluster -> result MysqlCluster) (rm : RaftManager) :
    RaftManager * list string :=
  let rm := rm <| rm_state := RaftStateLeader |> in
  let rm := foldl init_follower rm (other_nodes rm) in
  (updateClusterStatus reply rm, sendHeartbeats rm).

(** The body of a vote goroutine after [sendVoteRequest] returned true: [votes++], then the
    majority test, under the lock.  [becomeLeader] if it passes. *)
Definition countVote (reply : MysqlCluster -> result MysqlCluster) (votes majority : Z)
    (rm : RaftManager) : Z * (RaftManager * list string) :=
  let votes := int64 (votes + 1) in
  if bool_decide (majority <= votes /\ rm_state rm = RaftStateCandidate)
  then (votes, becomeLeader reply rm)
  else (votes, (rm, [])).

(** ** Messages *)

(** [sendMessage]: the ConfigMap it creates; it returns whether [Create] succeeded. *)
Definition sendMessage (unixNano : Z) (rm : RaftManager) (nodeId : string)
    (message : gmap string string) : ConfigMap := {|
  cm_meta := {|
    om_Name := "raft-message-" +:+ nodeId +:+ "-" +:+ fmt_d unixNano;
    om_Namespace := cluster_Namespace (rm_cluster rm);
    om_UID := "";
    om_Labels := Some (<["raft-message" := "true"]> {["target-node" := nodeId]});
    om_Annotations := None;
    om_OwnerReferences := [];
  |};
  cm_Data := message;
|}.

Definition sendVoteRequest (rm : RaftManager) (nodeId : string) : gmap string string :=
  list_to_map [
    ("type", "vote_request");
    ("from", rm_nodeId rm);
    ("to", nodeId);
    ("term", fmt_d (rm_currentTerm rm));
    ("candidateId", rm_nodeId rm);
    ("lastLogIndex", fmt_d (log_len rm));
    ("lastLogTerm", fmt_d (lastTerm rm))].

(** The index expression [rm.log[prevLogIndex-1]] panics out of range. *)
Definition sendAppendEntries (rm : RaftManager) (nodeId : string) (entries : list RaftLogEntry) :
    outcome (gmap string string) :=
  let prevLogIndex := int64 (default 0 (rm_nextIndex rm !! nodeId) - 1) in
  let prevLogTerm :=
    if decide (0 < prevLogIndex /\ prevLogIndex <= log_len rm)
    then le_Term <$> rm_log rm !! Z.to_nat (prevLogIndex - 1)
    else Some 0 in
  match prevLogTerm with
  | None => Panic "index out of range"
  | Some prevLogTerm => Ok (list_to_map [
      ("type", "append_entries");
      ("from", rm_nodeId rm);
      ("to", nodeId);
      ("term", fmt_d (rm_currentTerm rm));
      ("leaderId", rm_nodeId rm);
      ("prevLogIndex", fmt_d prevLogIndex);
      ("prevLogTerm", fmt_d prevLogTerm);
      ("leaderCommit", fmt_d (rm_commitIndex rm));
      ("entriesCount", fmt_d (Z.of_nat (length entries)))])
  end.

(** ** Handlers *)

Definition HandleVoteRequest (now : Time) (candidateId : string) (term lastLogIndex lastLogTerm : Z)
    (rm : RaftManager) : bool * RaftManager :=
  if term <? rm_currentTerm rm then (false, rm) else
  let rm :=
    if rm_currentTerm rm <? term
    then rm <| rm_currentTerm := term |> <| rm_votedFor := "" |> <| rm_state := RaftStateFollower |>
    else rm in
  if bool_decide (rm_votedFor rm <> "" /\ rm_votedFor rm <> candidateId) then (false, rm) else
  let myLastLogIndex := log_len rm in
  let myLastLogTerm := lastTerm rm in
  if (lastLogTerm <? myLastLogTerm) ||
     ((lastLogTerm =? myLastLogTerm) && (lastLogIndex <? myLastLogIndex))
  then (false, rm) else
  (true, rm <| rm_votedFor := candidateId |> <| rm_lastHeartbeat := now |>).

(** The consistency check of [HandleAppendEntries]: [None] is a panic of the index expression. *)
Definition prev_entry_matches (prevLogIndex prevLogTerm : Z) (rm : RaftManager) : option bool :=
  if 0 <? prevLogIndex then
    if log_len rm <? prevLogIndex then Some false else
    (fun e => bool_decide (le_Term e = prevLogTerm)) <$> rm_log rm !! Z.to_nat (prevLogIndex - 1)
  else Some true.

(** [append(rm.log[:prevLogIndex], entries...)]: a bound below zero panics; one beyond the length
    does not get here. *)
Definition slice_append (prevLogIndex : Z) (entries : list RaftLogEntry) (rm : RaftManager) :
    option (list RaftLogEntry) :=
  if bool_decide (0 <= prevLogIndex <= log_len rm)
  then Some (take (Z.to_nat prevLogIndex) (rm_log rm) ++ entries) else None.

Definition min (a b : Z) : Z := if a <? b then a else b.

Definition HandleAppendEntries (now : Time) (leaderId : string)
    (term prevLogIndex prevLogTerm : Z) (entries : list RaftLogEntry) (leaderCommit : Z)
    (rm : RaftManager) : outcome bool * RaftManager :=
  let rm := rm <| rm_lastHeartbeat := now |> in
  if term <? rm_currentTerm rm then (Ok false, rm) else
  let rm :=
    if rm_currentTerm rm <=? term
    then rm <| rm_currentTerm := term |> <| rm_state := RaftStateFollower |> <| rm_votedFor := "" |>
    else rm in
  match prev_entry_matches prevLogIndex prevLogTerm rm with
  | None => (Panic "index out of range", rm)
  | Some false => (Ok false, rm)
  | Some true =>
      let appended :=
        if bool_decide (entries <> [])
        then (fun l => rm <| rm_log := l |>) <$> slice_append prevLogIndex entries rm
        else Some rm in
      match appended with
      | None => (Panic "slice bounds out of range", rm)
      | Some rm =>
          let rm :=
            if rm_commitIndex rm <? leaderCommit
            then rm <| rm_commitIndex := min leaderCommit (log_len rm) |> else rm in
          (Ok true, rm)
      end
  end.

(** ** The abstract rules

    What the Raft rules say of the two handlers, stated without the order of the code's tests. *)

Definition step_down (term : Z) (rm : RaftManager) : RaftManager :=
  if decide (rm_currentTerm rm < term)
  then rm <| rm_currentTerm := term |> <| rm_votedFor := "" |> <| rm_state := RaftStateFollower |>
  else rm.

Definition may_vote (candidateId : string) (term : Z) (rm : RaftManager) : Prop :=
  rm_currentTerm rm < term \/ rm_votedFor rm = "" \/ rm_votedFor rm = candidateId.

Definition up_to_date (lastLogIndex lastLogTerm : Z) (rm : RaftManager) : Prop :=
  lastTerm rm < lastLogTerm \/ (lastTerm rm = lastLogTerm /\ log_len rm <= lastLogIndex).

#[export] Instance may_vote_dec c t rm : Decision (may_vote c t rm).
Proof. unfold may_vote. apply _. Defined.
#[export] Instance up_to_date_dec i t rm : Decision (up_to_date i t rm).
Proof. unfold up_to_date. apply _. Defined.

(** The entry before the new ones is in the log, with the leader's term. *)
Definition consistent (prevLogIndex prevLogTerm : Z) (rm : RaftManager) : Prop :=
  0 < prevLogIndex ->
  exists e, rm_log rm !! Z.to_nat (prevLogIndex - 1) = Some e /\ le_Term e = prevLogTerm.

Definition follow (now : Time) (term : Z) (rm : RaftManager) : RaftManager :=
  rm <| rm_lastHeartbeat := now |> <| rm_currentTerm := term |>
     <| rm_state := RaftStateFollower |> <| rm_votedFor := "" |>.

Definition commit_to (leaderCommit : Z) (rm : RaftManager) : RaftManager :=
  if decide (rm_commitIndex rm < leaderCommit)
  then rm <| rm_commitIndex := Z.min leaderCommit (log_len rm) |> else rm.

(** ** Lemmas *)

Lemma node_name_inj c : Inj (=) (=) (node_name c).
Proof.
  intros i j H. unfold node_name in H. apply (inj _) in H. apply (inj (String.append "-")) in H.
  by apply (inj pretty) in H.
Qed.

Lemma NoDup_getClusterNodes rm : NoDup (getClusterNodes rm).
Proof. apply NoDup_fmap_2; [apply node_name_inj|apply NoDup_seqZ]. Qed.

Lemma length_getClusterNodes rm :
  Z.of_nat (length (getClusterNodes rm)) = Z.max 0 (Replicas (Spec (rm_cluster rm))).
Proof. unfold getClusterNodes. rewrite length_fmap, length_seqZ. lia. Qed.

Lemma elem_of_getClusterNodes rm node :
  node ∈ getClusterNodes rm <->
  exists i, 0 <= i < Replicas (Spec (rm_cluster rm)) /\ node = node_name (rm_cluster rm) i.
Proof.
  unfold getClusterNodes. rewrite list_elem_of_fmap. setoid_rewrite elem_of_seqZ.
  split; intros (i & ? & ?); exists i; split; done || lia.
Qed.

Lemma lastTerm_lookup rm :
  lastTerm rm = default 0 (le_Term <$> rm_log rm !! (length (rm_log rm) - 1)%nat).
Proof. unfold lastTerm. by rewrite last_lookup, Nat.sub_1_r. Qed.

Lemma prev_entry_matches_spec i t rm :
  (prev_entry_matches i t rm = Some true /\ consistent i t rm) \/
  (prev_entry_matches i t rm = Some false /\ ~ consistent i t rm).
Proof.
  unfold prev_entry_matches, consistent, log_len.
  destruct (Z.ltb_spec 0 i) as [Hi|Hi]; [|left; split; [done|lia]].
  destruct (Z.ltb_spec (Z.of_nat (length (rm_log rm))) i) as [Hl|Hl].
  - right. split; [done|]. intros H. destruct (H Hi) as (e & He & _).
    apply lookup_lt_Some in He. lia.
  - destruct (lookup_lt_is_Some_2 (rm_log rm) (Z.to_nat (i - 1))) as [e He]; [lia|].
    rewrite He; cbn. destruct (decide (le_Term e = t)) as [Ht|Ht].
    + left. rewrite bool_decide_eq_true_2 by done. split; [done|]. eauto.
    + right. rewrite bool_decide_eq_false_2 by done. split; [done|].
      intros H. destruct (H Hi) as (e' & He' & ?). congruence.
Qed.

Lemma consistent_le i t rm : consistent i t rm -> i <= log_len rm.
Proof.
  unfold log_len. intros H. destruct (decide (0 < i)) as [Hi|]; [|lia].
  destruct (H Hi) as (e & He & _). apply lookup_lt_Some in He. lia.
Qed.

Lemma min_spec a b : min a b = Z.min a b.
Proof. unfold min. destruct (Z.ltb_spec a b); lia. Qed.

Lemma stale_log_spec lli llt rm :
  (llt <? lastTerm rm) || ((llt =? lastTerm rm) && (lli <? log_len rm)) =
  bool_decide (~ up_to_date lli llt rm).
Proof.
  unfold up_to_date. apply eq_true_iff_eq.
  rewrite bool_decide_eq_true, orb_true_iff, andb_true_iff, Z.eqb_eq, !Z.ltb_lt. lia.
Qed.

(** Adopting the newer term, as both handlers start. *)
Lemma vote_refused_spec c term rm :
  rm_currentTerm rm <= term ->
  (rm_votedFor (step_down term rm) <> "" /\ rm_votedFor (step_down term rm) <> c) <->
  ~ may_vote c term rm.
Proof. unfold step_down, may_vote. case_decide; cbn; [|intros ?]; intuition lia. Qed.

Lemma step_down_log term rm : rm_log (step_down term rm) = rm_log rm.
Proof. unfold step_down. by case_decide. Qed.

Lemma commit_to_spec lc rm :
  (if rm_commitIndex rm <? lc then rm <| rm_commitIndex := min lc (log_len rm) |> else rm) =
  commit_to lc rm.
Proof.
  unfold commit_to. rewrite min_spec. destruct (Z.ltb_spec (rm_commitIndex rm) lc); case_decide; done || lia.
Qed.

(** ** The handlers follow the rules *)

(** The vote handler as one equation: a stale term, then the two conditions of a grant. *)
Lemma HandleVoteRequest_eq now c term lli llt rm :
  HandleVoteRequest now c term lli llt rm =
  if decide (rm_currentTerm rm <= term) then
    if decide (may_vote c term rm /\ up_to_date lli llt rm)
    then (true, (step_down term rm) <| rm_votedFor := c |> <| rm_lastHeartbeat := now |>)
    else (false, step_down term rm)
  else (false, rm).
Proof.
  unfold HandleVoteRequest. destruct (Z.ltb_spec term (rm_currentTerm rm)) as [?|Hle].
  { by rewrite decide_False by lia. }
  rewrite decide_True by done. rewrite stale_log_spec.
  assert ((if rm_currentTerm rm <? term
           then rm <| rm_currentTerm := term |> <| rm_votedFor := "" |>
                   <| rm_state := RaftStateFollower |> else rm) = step_down term rm) as ->.
  { unfold step_down. case_decide; destruct (Z.ltb_spec (rm_currentTerm rm) term); done || lia. }
  assert (up_to_date lli llt (step_down term rm) <-> up_to_date lli llt rm) as Hlog.
  { unfold up_to_date, lastTerm, log_len. by rewrite step_down_log. }
  pose proof (vote_refused_spec c term rm Hle) as Hvote.
  case_bool_decide as Hv; [by rewrite decide_False by tauto|].
  case_bool_decide as Hl; [by rewrite decide_False by tauto|].
  rewrite decide_True; [done|]. split; [|tauto].
  destruct (decide (may_vote c term rm)); tauto.
Qed.

(** The append handler as one equation. *)
Lemma HandleAppendEntries_eq now l term prev prevTerm entries lc rm :
  HandleAppendEntries now l term prev prevTerm entries lc rm =
  if decide (term < rm_currentTerm rm) then (Ok false, rm <| rm_lastHeartbeat := now |>) else
  let rm := follow now term rm in
  match prev_entry_matches prev prevTerm rm with
  | Some true =>
      if decide (entries = []) then (Ok true, commit_to lc rm)
      else if decide (prev < 0) then (Panic "slice bounds out of range", rm)
      else (Ok true, commit_to lc (rm <| rm_log := take (Z.to_nat prev) (rm_log rm) ++ entries |>))
  | _ => (Ok false, rm)
  end.
Proof.
  unfold HandleAppendEntries.
  change (rm_currentTerm (rm <| rm_lastHeartbeat := now |>)) with (rm_currentTerm rm).
  destruct (Z.ltb_spec term (rm_currentTerm rm)) as [?|Hle]; case_decide; try lia; [done|].
  destruct (Z.leb_spec (rm_currentTerm rm) term) as [_|?]; [|lia].
  fold (follow now term rm). cbv zeta.
  destruct (prev_entry_matches_spec prev prevTerm (follow now term rm)) as [[-> Hc]|[-> _]]; [|done].
  apply consistent_le in Hc. unfold slice_append.
  case_bool_decide; case_decide; try (by exfalso).
  - destruct (decide (prev < 0)); case_bool_decide; try lia; [done|]. simpl fmap. cbv iota beta.
    by rewrite commit_to_spec.
  - by rewrite commit_to_spec.
Qed.

Lemma step_down_term term rm : rm_currentTerm (step_down term rm) = Z.max (rm_currentTerm rm) term.
Proof. unfold step_down. case_decide; cbn; lia. Qed.

Lemma HandleVoteRequest_vote now c term lli llt rm :
  term <= rm_currentTerm rm -> rm_votedFor rm <> "" ->
  rm_votedFor (snd (HandleVoteRequest now c term lli llt rm)) = rm_votedFor rm.
Proof.
  intros Hle Hv. rewrite HandleVoteRequest_eq. case_decide; [|done].
  assert (step_down term rm = rm) as -> by (unfold step_down; case_decide; done || lia).
  case_decide as Hg; [|done]. destruct Hg as [[?|[?|?]] _]; cbn; done || lia.
Qed.

Lemma HandleAppendEntries_vote now l term prev prevTerm entries lc rm :
  rm_votedFor (snd (HandleAppendEntries now l term prev prevTerm entries lc rm)) =
  if decide (term < rm_currentTerm rm) then rm_votedFor rm else "".
Proof.
  rewrite HandleAppendEntries_eq. case_decide; [done|]. cbv zeta. unfold commit_to.
  destruct (prev_entry_matches _ _ _) as [[]|]; repeat case_decide; done.
Qed.

(** C7: [HandleVoteRequest] is the RequestVote rule.  It grants exactly when the term is not stale, the
    vote of that term is free or already the candidate's, and the candidate's log is at least as up
    to date; a newer term is adopted by becoming a follower whose vote is unused; a grant records
    the vote and restarts the election timer, a refusal restarts nothing; the log and the commit
    index are never touched. *)
Theorem HandleVoteRequest_spec now c term lli llt rm :
  let '(granted, rm') := HandleVoteRequest now c term lli llt rm in
  (granted = true <->
     rm_currentTerm rm <= term /\
     (rm_currentTerm rm < term \/ rm_votedFor rm = "" \/ rm_votedFor rm = c) /\
     up_to_date lli llt rm) /\
  rm_currentTerm rm' = Z.max (rm_currentTerm rm) term /\
  rm_votedFor rm' = (if granted then c
                     else if decide (rm_currentTerm rm < term) then "" else rm_votedFor rm) /\
  rm_state rm' = (if decide (rm_currentTerm rm < term) then RaftStateFollower else rm_state rm) /\
  rm_lastHeartbeat rm' = (if granted then now else rm_lastHeartbeat rm) /\
  rm_log rm' = rm_log rm /\ rm_commitIndex rm' = rm_commitIndex rm.
Proof.
  rewrite HandleVoteRequest_eq. fold (may_vote c term rm). unfold step_down.
  destruct (decide (rm_currentTerm rm <= term)).
  - destruct (decide (may_vote c term rm /\ up_to_date lli llt rm));
      destruct (decide (rm_currentTerm rm < term)); cbn; intuition (done || lia).
  - destruct (decide (rm_currentTerm rm < term)); intuition (done || lia).
Qed.

(** When [HandleAppendEntries] accepts new entries, the log afterwards is the old one up to
    [prevLogIndex], then the entries, and nothing after them; without entries the log is
    untouched. *)
Theorem HandleAppendEntries_log now l term prev prevTerm entries lc rm rm' :
  HandleAppendEntries now l term prev prevTerm entries lc rm = (Ok true, rm') ->
  if decide (entries = []) then rm_log rm' = rm_log rm
  else 0 <= prev <= log_len rm /\
       log_len rm' = prev + Z.of_nat (length entries) /\
       (forall i, Z.of_nat i < prev -> rm_log rm' !! i = rm_log rm !! i) /\
       (forall j, rm_log rm' !! (Z.to_nat prev + j)%nat = entries !! j).
Proof.
  rewrite HandleAppendEntries_eq. case_decide; [done|]. cbv zeta.
  destruct (prev_entry_matches_spec prev prevTerm (follow now term rm)) as [[-> Hc]|[-> _]]; [|done].
  apply consistent_le in Hc. change (log_len (follow now term rm)) with (log_len rm) in Hc.
  case_decide; [|case_decide; [done|]]; intros [= <-].
  { unfold commit_to. by case_decide. }
  assert (rm_log (commit_to lc (follow now term rm) <| rm_log :=
    take (Z.to_nat prev) (rm_log rm) ++ entries |>) = take (Z.to_nat prev) (rm_log rm) ++ entries)
    as Hlog by (unfold commit_to; by case_decide).
  unfold log_len in *. rewrite Hlog.
  assert (length (take (Z.to_nat prev) (rm_log rm)) = Z.to_nat prev) as Hlen
    by (rewrite length_take; lia).
  split_and!; [lia|lia|rewrite length_app; lia| |].
  - intros i Hi. by rewrite lookup_app_l, lookup_take_lt by lia.
  - intros j. rewrite lookup_app_r by lia. f_equal. lia.
Qed.

(** What is left of the receiver by an accepted call. *)
Lemma HandleAppendEntries_accepted now l term prev prevTerm entries lc rm rm' :
  HandleAppendEntries now l term prev prevTerm entries lc rm = (Ok true, rm') ->
  rm_commitIndex rm' = (if decide (rm_commitIndex rm < lc) then Z.min lc (log_len rm')
                        else rm_commitIndex rm).
Proof.
  rewrite HandleAppendEntries_eq. case_decide; [done|]. cbv zeta.
  destruct (prev_entry_matches _ _ _) as [[]|]; [|done..]. unfold commit_to.
  case_decide; [|case_decide; [done|]]; intros [= <-]; cbn; by case_decide.
Qed.

(** The rule, but for what an accepted call makes of the log and the commit index. *)
Lemma HandleAppendEntries_rule now l term prev prevTerm entries lc rm :
  let '(reply, rm') := HandleAppendEntries now l term prev prevTerm entries lc rm in
  (reply = Ok true <->
     rm_currentTerm rm <= term /\ consistent prev prevTerm rm /\ (entries = [] \/ 0 <= prev)) /\
  (reply = Panic "slice bounds out of range" <->
     rm_currentTerm rm <= term /\ entries <> [] /\ prev < 0) /\
  (reply = Ok true \/ reply = Ok false \/ reply = Panic "slice bounds out of range") /\
  (rm_currentTerm rm <= term ->
     rm_currentTerm rm' = term /\ rm_state rm' = RaftStateFollower /\ rm_votedFor rm' = "") /\
  rm_lastHeartbeat rm' = now /\
  (reply <> Ok true -> rm_log rm' = rm_log rm /\ rm_commitIndex rm' = rm_commitIndex rm) /\
  (term < rm_currentTerm rm -> rm' = rm <| rm_lastHeartbeat := now |>).
Proof.
  rewrite HandleAppendEntries_eq. case_decide as Ht; cbv zeta.
  { intuition (done || lia). }
  destruct (prev_entry_matches_spec prev prevTerm (follow now term rm)) as [[-> Hc]|[-> Hc]].
  - change (consistent prev prevTerm rm) in Hc. unfold commit_to.
    repeat case_decide; intuition (done || lia).
  - change (~ consistent prev prevTerm rm) in Hc.
    assert (0 < prev) by (destruct (decide (0 < prev)); [done|exfalso; apply Hc; intros ?; lia]).
    intuition (done || lia).
Qed.

(** C8: [HandleAppendEntries] is the AppendEntries rule.  It accepts exactly when the term is not stale,
    the entry before the new ones is in the log with the leader's term, and new entries do not start
    below the log; a negative [prevLogIndex] with entries is the one panic, and a missing entry is
    never read.  Every call sets the time of the last heartbeat.  A term that is not stale makes the
    receiver a follower of that term with an unused vote; a stale call changes nothing but that
    time.  When a call with entries is accepted the log afterwards is the old one up to
    [prevLogIndex], then the entries, and nothing after them; without entries the log stays.  An
    accepted call raises the commit index to the leader's, but not beyond the new log, and never
    lowers it; a call that is not accepted leaves the log and the commit index alone. *)
Theorem HandleAppendEntries_spec now l term prev prevTerm entries lc rm :
  let '(reply, rm') := HandleAppendEntries now l term prev prevTerm entries lc rm in
  (reply = Ok true <->
     rm_currentTerm rm <= term /\ consistent prev prevTerm rm /\ (entries = [] \/ 0 <= prev)) /\
  (reply = Panic "slice bounds out of range" <->
     rm_currentTerm rm <= term /\ entries <> [] /\ prev < 0) /\
  (reply = Ok true \/ reply = Ok false \/ reply = Panic "slice bounds out of range") /\
  (rm_currentTerm rm <= term ->
     rm_currentTerm rm' = term /\ rm_state rm' = RaftStateFollower /\ rm_votedFor rm' = "") /\
  rm_lastHeartbeat rm' = now /\
  (reply = Ok true ->
     (if decide (entries = []) then rm_log rm' = rm_log rm
      else 0 <= prev <= log_len rm /\
           log_len rm' = prev + Z.of_nat (length entries) /\
           (forall i, Z.of_nat i < prev -> rm_log rm' !! i = rm_log rm !! i) /\
           (forall j, rm_log rm' !! (Z.to_nat prev + j)%nat = entries !! j)) /\
     rm_commitIndex rm' = (if decide (rm_commitIndex rm < lc) then Z.min lc (log_len rm')
                           else rm_commitIndex rm)) /\
  (reply <> Ok true -> rm_log rm' = rm_log rm /\ rm_commitIndex rm' = rm_commitIndex rm) /\
  (term < rm_currentTerm rm -> rm' = rm <| rm_lastHeartbeat := now |>).
Proof.
  pose proof (HandleAppendEntries_rule now l term prev prevTerm entries lc rm) as H.
  destruct (HandleAppendEntries now l term prev prevTerm entries lc rm) as [reply rm'] eqn:E.
  destruct H as (Hok & Hpanic & Hreply & Hterm & Hbeat & Hfail & Hstale).
  refine (conj Hok (conj Hpanic (conj Hreply (conj Hterm (conj Hbeat (conj _ (conj Hfail Hstale))))))).
  intros ->. split; [by eapply HandleAppendEntries_log|by eapply HandleAppendEntries_accepted].
Qed.

(** Starting an election moves to the next term as a candidate that voted for itself, with a fresh
    timeout between 150 and 300 ms, asks every other node of the cluster exactly once, and compares
    the votes with the least number that is more than half of the nodes. *)
Theorem startElection_spec now rnd rm :
  0 <= rnd < 150 -> in_int64 (rm_currentTerm rm + 1) ->
  let '(rm', (majority, targets)) := startElection now rnd rm in
  let n := Z.of_nat (length (getClusterNodes rm)) in
  rm_state rm' = RaftStateCandidate /\
  rm_currentTerm rm' = rm_currentTerm rm + 1 /\
  rm_votedFor rm' = rm_nodeId rm /\
  150 * Millisecond <= rm_electionTimeout rm' < 300 * Millisecond /\
  NoDup targets /\
  (forall node, node ∈ targets <-> node ∈ getClusterNodes rm /\ node <> rm_nodeId rm) /\
  n < 2 * majority <= n + 2.
Proof.
  intros Hrnd Hterm. cbn. rewrite int64_id by done. split_and!; try done.
  - unfold Millisecond. lia.
  - unfold Millisecond. lia.
  - apply NoDup_filter, NoDup_getClusterNodes.
  - intros node. unfold other_nodes. rewrite list_elem_of_filter. tauto.
  - pose proof (Z.div_mod (Z.of_nat (length (getClusterNodes rm))) 2).
    pose proof (Z.mod_pos_bound (Z.of_nat (length (getClusterNodes rm))) 2).
    unfold getClusterNodes in *; cbn in *. lia.
  - pose proof (Z.div_mod (Z.of_nat (length (getClusterNodes rm))) 2).
    pose proof (Z.mod_pos_bound (Z.of_nat (length (getClusterNodes rm))) 2).
    unfold getClusterNodes in *; cbn in *. lia.
Qed.

(** Any two groups of cluster nodes that reach the majority [startElection] computes have a node in
    common, so with one vote per node and term no two candidates of a term could both reach it. *)
Lemma majorities_intersect now rnd rm (V1 V2 : gset string) :
  let majority := fst (snd (startElection now rnd rm)) in
  V1 ⊆ list_to_set (getClusterNodes rm) -> V2 ⊆ list_to_set (getClusterNodes rm) ->
  majority <= Z.of_nat (size V1) -> majority <= Z.of_nat (size V2) ->
  V1 ∩ V2 ≠ ∅.
Proof.
  intros majority H1 H2 Hs1 Hs2 Hdisj. subst majority. cbn in Hs1, Hs2.
  assert (V1 ## V2) as Hd by set_solver.
  pose proof (subseteq_size (V1 ∪ V2) (list_to_set (getClusterNodes rm))) as Hle.
  rewrite size_union, size_list_to_set in Hle by (done || apply NoDup_getClusterNodes).
  assert (V1 ∪ V2 ⊆ list_to_set (getClusterNodes rm)) as Hu by set_solver. specialize (Hle Hu).
  pose proof (Z.div_mod (Z.of_nat (length (getClusterNodes rm))) 2).
  pose proof (Z.mod_pos_bound (Z.of_nat (length (getClusterNodes rm))) 2).
  unfold getClusterNodes in *; cbn in *. lia.
Qed.

(** C36: the commit index stays within the log and does not go back over a call of
    [HandleAppendEntries], as long as new entries do not replace the log below the commit index. *)
Theorem HandleAppendEntries_commit now l term prev prevTerm entries lc rm :
  rm_commitIndex rm <= log_len rm ->
  entries = [] \/ rm_commitIndex rm <= prev + Z.of_nat (length entries) ->
  let rm' := snd (HandleAppendEntries now l term prev prevTerm entries lc rm) in
  rm_commitIndex rm <= rm_commitIndex rm' <= log_len rm'.
Proof.
  intros Hc He. rewrite HandleAppendEntries_eq. case_decide; [done|]. cbv zeta.
  destruct (prev_entry_matches_spec prev prevTerm (follow now term rm)) as [[-> Hm]|[-> _]]; [|done].
  apply consistent_le in Hm. unfold log_len in *. cbn in Hm. unfold commit_to.
  case_decide; [|case_decide]; [case_decide; cbn in *; unfold log_len; cbn; lia|done|].
  destruct He as [?|He]; [done|].
  case_decide; cbn in *; unfold log_len; cbn; rewrite length_app, length_take; lia.
Qed.

(** Without that proviso it fails: of two calls in one term, a leader's that commits two entries and
    one that replaces the log from the start, the second leaves the commit index beyond the end of
    the log. *)
Lemma commit_index_passes_log id cluster rnd now (e1 e2 e3 : RaftLogEntry) :
  let rm0 := NewRaftManager id cluster rnd now in
  let rm1 := snd (HandleAppendEntries now "leader" 1 0 0 [e1; e2] 2 rm0) in
  let rm2 := snd (HandleAppendEntries now "leader" 1 0 0 [e3] 0 rm1) in
  rm_log rm2 = [e3] /\ rm_commitIndex rm2 = 2 /\ log_len rm2 < rm_commitIndex rm2.
Proof. vm_compute. by split_and!. Qed.

(** One node can vote for two candidates in one term: [HandleAppendEntries] clears the vote even
    when it does not change the term, so a heartbeat of that term between two requests frees it. *)
Theorem two_votes_in_one_term now rm (a b : string) term :
  rm_currentTerm rm < term -> a <> b -> a <> "" ->
  let '(granted_a, rm1) := HandleVoteRequest now a term (log_len rm) (lastTerm rm) rm in
  let '(granted_early, _) := HandleVoteRequest now b term (log_len rm) (lastTerm rm) rm1 in
  let '(_, rm2) := HandleAppendEntries now a term 0 0 [] 0 rm1 in
  let '(granted_b, rm3) := HandleVoteRequest now b term (log_len rm) (lastTerm rm) rm2 in
  granted_a = true /\ granted_early = false /\ granted_b = true /\
  rm_currentTerm rm1 = term /\ rm_currentTerm rm3 = term.
Proof.
  intros Hterm Hab Ha. rewrite (HandleVoteRequest_eq now a).
  assert (forall rm', rm_log rm' = rm_log rm -> up_to_date (log_len rm) (lastTerm rm) rm') as Hup.
  { intros rm' H. unfold up_to_date, log_len, lastTerm. rewrite H. lia. }
  rewrite decide_True by lia. rewrite decide_True by (split; [left; lia|by apply Hup]).
  set (rm1 := _ <| rm_lastHeartbeat := now |>).
  assert (rm_currentTerm rm1 = term /\ rm_votedFor rm1 = a /\ rm_log rm1 = rm_log rm) as (Ht & Hv & Hl).
  { unfold rm1, step_down. by rewrite decide_True by lia. }
  rewrite (HandleVoteRequest_eq now b), decide_True by lia.
  rewrite decide_False by (unfold may_vote; rewrite Hv; intuition (congruence || lia)).
  rewrite HandleAppendEntries_eq, decide_False by lia. cbv zeta.
  unfold prev_entry_matches. rewrite decide_True by done. cbv iota beta zeta. cbn [Z.ltb Z.compare].
  set (rm2 := commit_to 0 _).
  assert (rm_currentTerm rm2 = term /\ rm_votedFor rm2 = "" /\ rm_log rm2 = rm_log rm) as (Ht2 & Hv2 & Hl2).
  { unfold rm2, commit_to. by case_decide. }
  rewrite (HandleVoteRequest_eq now b), decide_True by lia.
  rewrite decide_True by (unfold may_vote; auto).
  split_and!; try done. unfold step_down. case_decide; cbn; lia.
Qed.

(** ** Instances *)

Definition example_manager : RaftManager := NewRaftManager "db-0" (example_cluster 3) 0 0.

Definition example_entry (term index : Z) : RaftLogEntry := MkRaftLogEntry term index "x".

Lemma startElection_spec_witness :
  0 <= 7 < 150 /\ rm_state (fst (startElection Second 7 example_manager)) = RaftStateCandidate.
Proof.
  split; [lia|].
  assert (0 <= 7 < 150) as Hrnd by lia.
  assert (in_int64 (rm_currentTerm example_manager + 1)) as Ht by (unfold in_int64; cbn; lia).
  pose proof (startElection_spec Second 7 example_manager Hrnd Ht) as H.
  destruct (startElection Second 7 example_manager) as [rm' [maj targets]]. apply H.
Defined.

Lemma HandleAppendEntries_log_witness :
  rm_log (snd (HandleAppendEntries 5 "db-1" 1 0 0 [example_entry 1 1] 0 example_manager)) !! 0%nat =
  Some (example_entry 1 1).
Proof.
  pose proof (HandleAppendEntries_log 5 "db-1" 1 0 0 [example_entry 1 1] 0 example_manager
    (snd (HandleAppendEntries 5 "db-1" 1 0 0 [example_entry 1 1] 0 example_manager)) eq_refl) as H.
  rewrite decide_False in H by done. destruct H as (_ & _ & _ & Hj). exact (Hj 0%nat).
Defined.

Lemma HandleAppendEntries_commit_witness :
  rm_commitIndex (snd (HandleAppendEntries 5 "db-1" 1 0 0 [example_entry 1 1] 3 example_manager)) <= 1.
Proof.
  apply (HandleAppendEntries_commit 5 "db-1" 1 0 0 [example_entry 1 1] 3 example_manager).
  - vm_compute. discriminate.
  - right. vm_compute. discriminate.
Defined.

Lemma two_votes_in_one_term_witness :
  fst (HandleVoteRequest 5 "db-1" 1 0 0 example_manager) = true.
Proof.
  assert (rm_currentTerm example_manager < 1) as Ht by (vm_compute; done).
  pose proof (two_votes_in_one_term 5 example_manager "db-1" "db-2" 1 Ht ltac:(done) ltac:(done)) as H.
  change (log_len example_manager) with 0 in H. change (lastTerm example_manager) with 0 in H.
  destruct (HandleVoteRequest 5 "db-1" 1 0 0 example_manager) as [granted rm1].
  destruct (HandleVoteRequest 5 "db-2" 1 0 0 rm1) as [early rm1'].
  destruct (HandleAppendEntries 5 "db-1" 1 0 0 [] 0 rm1) as [reply rm2].
  destruct (HandleVoteRequest 5 "db-2" 1 0 0 rm2) as [granted_b rm3]. apply H.
Defined.
