(* ===== verification/GoHeap.v ===== *)
(** * Go pointers into a heap

    Where structs share maps and slices, values are not enough: this file has a heap of cells, pointers
    into a cell, slices of an array cell, and actions that load, store and allocate.  A pointer to a
    field is the pointer to the struct with the field's getter and setter, so that code which passes
    [&in.Status] on is written as it is.  [None] is the panic of a nil or dangling pointer. *)

From S2P Require Import Prelude.

Notation loc := positive.

(** A slice of a cell that holds an array. *)
Record Slice := MkSlice {
  sl_array : loc;
  sl_offset : nat;
  sl_len : nat;
}.

(** The laws of the setter of a field. *)
Class FieldLaws {R T} (f : R -> T) `{!FieldUpdate f} : Prop := {
  field_get_put r v : f (r <| f := v |>) = v;
  field_put_put r v w : r <| f := v |> <| f := w |> = r <| f := w |>;
}.

Ltac solve_field := split; by intros [].
#[export] Hint Extern 0 (FieldLaws _) => solve_field : typeclass_instances.

Section heap.
  Context {cell : Type}.
  (** The cells values are read from: arrays and maps, not structs that code assigns to. *)
  Context (leaf : cell -> Prop).

  Notation heap := (gmap loc cell).

(** ** Actions *)

Definition act (A : Type) : Type := heap -> option (A * heap).

#[global] Instance act_ret : MRet act := fun A a h => Some (a, h).
#[global] Instance act_bind : MBind act := fun A B k m h =>
  match m h with
  | Some (a, h') => k a h'
  | None => None
  end.

Definition panics {A} : act A := fun _ => None.
Definition new (c : cell) : act loc := fun h => Some (fresh (dom h), <[fresh (dom h) := c]> h).

Lemma bind_run {A B} (m : act A) (k : A -> act B) h a h' :
  m h = Some (a, h') -> (m ≫= k) h = k a h'.
Proof. unfold mbind, act_bind. by intros ->. Qed.

(** [for i := range n { f(i) }] *)
Fixpoint for_index (f : nat -> act unit) (i n : nat) : act unit :=
  match n with
  | O => mret tt
  | S n' => _ ← f i; for_index f (S i) n'
  end.

(** ** Pointers *)

Record ptr (T : Type) : Type := Ptr {
  base : loc;
  get : cell -> option T;
  put : T -> cell -> cell;
}.
  Arguments base {T} p.
  Arguments get {T} p c.
  Arguments put {T} p v c.
  Arguments Ptr {T} base get put.

Definition load {T} (p : ptr T) : act T := fun h =>
  c ← h !! base p; v ← get p c; Some (v, h).

Definition store {T} (p : ptr T) (v : T) : act unit := fun h =>
  c ← h !! base p; _ ← get p c; Some (tt, <[base p := put p v c]> h).

(** [&p.f] *)
Definition field {R T} (p : ptr R) (f : R -> T) `{!FieldUpdate f} : ptr T :=
  Ptr (base p) (fun c => f <$> get p c)
    (fun v c => match get p c with Some r => put p (r <| f := v |>) c | None => c end).

(** What makes a pointer one to a variable: it holds what was stored last; and it does not point into
    a leaf. *)
Record variable {T} (p : ptr T) : Prop := {
  get_put v w c : get p c = Some w -> get p (put p v c) = Some v;
  put_put v w u c : get p c = Some u -> put p v (put p w c) = put p v c;
  not_leaf v c : get p c = Some v -> ~ leaf c;
}.

Lemma variable_field {R T} (p : ptr R) (f : R -> T) `{!FieldUpdate f, !FieldLaws f} :
  variable p -> variable (field p f).
Proof.
  intros [Hgp Hpp Hnl]. split; cbn.
  - intros v w c (r & Hr & ->)%fmap_Some. rewrite Hr. rewrite (Hgp _ r) by done. cbn.
    by rewrite field_get_put.
  - intros v w u c (r & Hr & ->)%fmap_Some. rewrite Hr. rewrite (Hgp _ r), (Hpp _ _ r) by done.
    by rewrite field_put_put.
  - intros v c (r & Hr & ->)%fmap_Some. by eapply Hnl.
Qed.

Lemma load_run {T} (p : ptr T) h c v :
  h !! base p = Some c -> get p c = Some v -> load p h = Some (v, h).
Proof. unfold load. intros -> Hv. cbn. by rewrite Hv. Qed.

Lemma store_run {T} (p : ptr T) v w h c :
  h !! base p = Some c -> get p c = Some w -> store p v h = Some (tt, <[base p := put p v c]> h).
Proof. unfold store. intros -> Hv. cbn. by rewrite Hv. Qed.

(** ** Growing heaps

    [keeps_leaves]: every leaf is still what it was.  [extends]: nothing that was there has changed,
    and what is new are leaves. *)

Definition keeps_leaves (h h' : heap) : Prop :=
  forall l c, h !! l = Some c -> leaf c -> h' !! l = Some c.

Record extends (h h' : heap) : Prop := {
  extends_sub : h ⊆ h';
  extends_leaf l c : h' !! l = Some c -> h !! l = None -> leaf c;
}.

#[global] Instance keeps_leaves_preorder : PreOrder keeps_leaves.
Proof. split; [by intros h l c|]. unfold keeps_leaves. intros h1 h2 h3 H1 H2 l c Hl Hc. eauto. Qed.

#[global] Instance extends_preorder : PreOrder extends.
Proof.
  split.
  - intros h. split; [done|]. by intros l c ->.
  - intros h1 h2 h3 [H1 H1'] [H2 H2']. split; [by etrans|]. intros l c Hc Hn.
    destruct (h2 !! l) as [c2|] eqn:E; [|by eapply H2'].
    assert (h3 !! l = Some c2) by (by eapply lookup_weaken). simplify_eq. by eapply H1'.
Qed.

Lemma keeps_leaves_sub h h' : h ⊆ h' -> keeps_leaves h h'.
Proof. intros Hs l c Hl _. by eapply lookup_weaken. Qed.

Lemma extends_keeps h h' : extends h h' -> keeps_leaves h h'.
Proof. intros [Hs _]. by apply keeps_leaves_sub. Qed.

Lemma keeps_insert h l c c' : h !! l = Some c -> ~ leaf c -> keeps_leaves h (<[l := c']> h).
Proof.
  intros Hl Hc k ck Hk Hleaf. destruct (decide (k = l)) as [->|Hne]; [by simplify_eq|].
  by rewrite lookup_insert_ne.
Qed.

Lemma extends_fresh_at h l c : h !! l = None -> leaf c -> extends h (<[l := c]> h).
Proof.
  intros Hn Hc. split.
  - by apply insert_subseteq.
  - intros k c' Hk Hk'. destruct (decide (k = l)) as [->|Hne].
    + rewrite lookup_insert_eq in Hk. by simplify_eq.
    + rewrite lookup_insert_ne in Hk by done. by simplify_eq.
Qed.

(** A variable that is assigned before and after the heap has grown. *)
Lemma extends_assign h h' l c c1 :
  h !! l = Some c -> extends (<[l := c1]> h) h' -> extends h (<[l := c]> h').
Proof.
  intros Hl [Hs Hleaf]. split.
  - trans (<[l := c]> (<[l := c1]> h)); [|by apply insert_mono].
    by rewrite insert_insert_eq, insert_id.
  - intros k ck Hk Hn. assert (k <> l) as Hne by congruence.
    rewrite lookup_insert_ne in Hk by done. apply (Hleaf k); [done|]. by rewrite lookup_insert_ne.
Qed.

Lemma extends_at h h' l c : extends h h' -> h !! l = Some c -> h' !! l = Some c.
Proof. intros [Hs _] Hl. by eapply lookup_weaken. Qed.

Lemma extends_fresh_dom h h' l : extends h h' -> l ∉ dom h' -> l ∉ dom h.
Proof. intros [Hs _] Hl Hin. apply Hl. by apply (subseteq_dom _ _ Hs). Qed.

(** ** Copying into a variable

    [copies_into copy value fresh_parts]: [copy in out] with [out] a variable outside [in]'s cell does
    not panic when [in] holds something that reads as a value; afterwards [out] holds a copy that
    reads as the same value and is related to the original by [parts], which knows the locations
    there were; nothing else has changed but for leaves that are new. *)

Definition copies_into {T X} (copy : ptr T -> ptr T -> act unit) (value : heap -> T -> option X)
    (parts : gset loc -> T -> T -> Prop) : Prop :=
  forall p q h cp v x c w,
    base p <> base q -> h !! base p = Some cp -> get p cp = Some v -> value h v = Some x ->
    variable q -> h !! base q = Some c -> get q c = Some w ->
    exists h' v',
      copy p q h = Some (tt, <[base q := put q v' c]> h') /\ extends h h' /\
      value h' v' = Some x /\ parts (dom h) v v'.

(** [*out = *in] copies structs without references. *)
Definition assign {T} (p q : ptr T) : act unit := v ← load p; store q v.

Lemma assign_run {T} (p q : ptr T) h cp v c w :
  h !! base p = Some cp -> get p cp = Some v -> h !! base q = Some c -> get q c = Some w ->
  assign p q h = Some (tt, <[base q := put q v c]> h).
Proof.
  intros Hp Hv Hq Hw. unfold assign. rewrite (bind_run _ _ h v h) by by eapply load_run.
  by eapply store_run.
Qed.

(** A value that is read from leaves only. *)
Definition reads_leaves {T X} (value : heap -> T -> option X) : Prop :=
  forall h h' v x, keeps_leaves h h' -> value h v = Some x -> value h' v = Some x.

Section fields.
Context {R T : Type} (p q : ptr R) (f : R -> T) `{!FieldUpdate f, !FieldLaws f}.
Context (cp c : cell) (v w : R).
Hypothesis (Hne : base p <> base q) (Hp : get p cp = Some v) (Hq : get q c = Some w) (Hvar : variable q).

(** While [*out] is being assigned field by field, it is [w'] in an otherwise unchanged heap [h]. *)
Notation writing h w' := (<[base q := put q w' c]> (h : gmap loc cell)).

Lemma writing_at (h : heap) w' : h !! base p = Some cp -> writing h w' !! base p = Some cp.
Proof. intros H. by rewrite lookup_insert_ne. Qed.

Lemma put_field w' u : put (field q f) u (put q w' c) = put q (w' <| f := u |>) c.
Proof. cbn. rewrite (get_put q Hvar _ w) by done. by rewrite (put_put q Hvar _ _ w). Qed.

Lemma assign_field (h : heap) w' :
  h !! base p = Some cp ->
  assign (field p f) (field q f) (writing h w') = Some (tt, writing h (w' <| f := f v |>)).
Proof.
  intros Hpc. erewrite (assign_run (field p f) (field q f) _ cp (f v) (put q w' c) (f w')).
  - cbn [base field]. by rewrite insert_insert_eq, put_field.
  - by apply writing_at.
  - cbn. by rewrite Hp.
  - apply lookup_insert_eq.
  - cbn. by rewrite (get_put q Hvar _ w).
Qed.

Lemma copy_field {X} copy (value : heap -> T -> option X) parts (h : heap) w' x :
  copies_into copy value parts -> reads_leaves value ->
  h !! base p = Some cp -> h !! base q = Some c -> value h (f v) = Some x ->
  exists h' u,
    copy (field p f) (field q f) (writing h w') = Some (tt, writing h' (w' <| f := u |>)) /\
    extends h h' /\ value h' u = Some x /\ parts (dom h) (f v) u.
Proof.
  intros Hcopy Hreads Hpc Hqc Hx.
  assert (dom (writing h w') = dom h) as Hdom.
  { rewrite dom_insert_L. apply elem_of_dom_2 in Hqc. set_solver. }
  destruct (Hcopy (field p f) (field q f) (writing h w') cp (f v) x (put q w' c) (f w'))
    as (h2 & u & Hrun & Hext & Hval & Hparts).
  - done.
  - by apply writing_at.
  - cbn. by rewrite Hp.
  - eapply Hreads, Hx. eapply keeps_insert; [done|]. by eapply not_leaf.
  - by apply variable_field.
  - apply lookup_insert_eq.
  - cbn. by rewrite (get_put q Hvar _ w).
  - exists (<[base q := c]> h2), u. cbn [base field] in Hrun. rewrite put_field in Hrun.
    split_and!.
    + by rewrite insert_insert_eq.
    + by eapply extends_assign.
    + eapply Hreads, Hval. eapply (keeps_insert _ _ (put q w' c)).
      * eapply extends_at; [done|]. apply lookup_insert_eq.
      * eapply not_leaf; [done|]. by apply (get_put q Hvar _ w).
    + by rewrite <-Hdom.
Qed.

End fields.

End heap.

Arguments act cell A : clear implicits.
Arguments ptr cell T : clear implicits.
Arguments base {cell T} p.
Arguments get {cell T} p c.
Arguments put {cell T} p v c.
Arguments Ptr {cell T} base get put.
