(* ===== verification/DeepCopy.v ===== *)
(** * Generated deep copies ([api/v1/zz_generated.deepcopy.go])

    The API server's client hands out deep copies of the objects in its cache, made by the functions of
    this file.  They are modelled on a heap, with slices and maps as references, so that it can be
    said what a copy shares with its original.  The metadata of objects and lists has copy functions
    of its own in [k8s.io/apimachinery], which are parameters with the laws a deep copy has. *)

From S2P Require Import Prelude GoLib Types Raft GoHeap.

(** ** Data *)

Record TypeMeta := MkTypeMeta {
  tm_Kind : string;
  tm_APIVersion : string;
}.

(** The metadata of [k8s.io/apimachinery]: the structs, what they refer to, and what they say. *)
Class MetaData : Type := {
  ObjectMetaRef : Type;
  ListMetaRef : Type;
  LibData : Type;
  ListMeta : Type;
  zero_ObjectMeta : ObjectMetaRef;
  zero_ListMeta : ListMetaRef;
}.

(** A status as it lies in memory: the slaves are a slice, the Raft nodes a map; [None] is nil. *)
Record StatusRef := MkStatusRef {
  sr_Master : string;
  sr_Slaves : option Slice;
  sr_RaftNodes : option loc;
  sr_RaftLeader : string;
  sr_RaftTerm : Z;
  sr_ClusterSize : Z;
}.

#[export] Instance eta_StatusRef : Eta StatusRef := fun r =>
  MkStatusRef (sr_Master r) (sr_Slaves r) (sr_RaftNodes r) (sr_RaftLeader r) (sr_RaftTerm r)
    (sr_ClusterSize r).
#[export] Instance eta_Spec : Eta MysqlClusterSpec := fun r =>
  MkMysqlClusterSpec (Image r) (Replicas r) (MasterService r) (SlaveService r) (Storage r) (Resources r).
#[export] Instance eta_Requirements : Eta ResourceRequirements := fun r =>
  MkResourceRequirements (Requests r) (Limits r).

Section deepcopy.
Context {md : MetaData}.

Record ClusterRef := MkClusterRef {
  cr_TypeMeta : TypeMeta;
  cr_ObjectMeta : ObjectMetaRef;
  cr_Spec : MysqlClusterSpec;
  cr_Status : StatusRef;
}.

Record MysqlClusterList := MkListRef {
  lr_TypeMeta : TypeMeta;
  lr_ListMeta : ListMetaRef;
  lr_Items : option Slice;
}.

#[global] Instance eta_ClusterRef : Eta ClusterRef := fun r =>
  MkClusterRef (cr_TypeMeta r) (cr_ObjectMeta r) (cr_Spec r) (cr_Status r).
#[global] Instance eta_ListRef : Eta MysqlClusterList := fun r =>
  MkListRef (lr_TypeMeta r) (lr_ListMeta r) (lr_Items r).

Definition zero_Storage : StorageConfig := MkStorageConfig "" "".
Definition zero_Requests : ResourceRequests := MkResourceRequests "" "".
Definition zero_Limits : ResourceLimits := MkResourceLimits "" "".
Definition zero_Requirements : ResourceRequirements := MkResourceRequirements zero_Requests zero_Limits.
Definition zero_Spec : MysqlClusterSpec := MkMysqlClusterSpec "" 0 "" "" zero_Storage zero_Requirements.
Definition zero_Status : StatusRef := MkStatusRef "" None None "" 0 0.
Definition zero_Cluster : ClusterRef :=
  MkClusterRef (MkTypeMeta "" "") zero_ObjectMeta zero_Spec zero_Status.
Definition zero_List : MysqlClusterList := MkListRef (MkTypeMeta "" "") zero_ListMeta None.

(** What a location holds. *)
Inductive Cell : Type :=
| StringArray (l : list string)
| NodeMap (m : gmap string RaftNodeInfo)
| LibCell (x : LibData)
| ClusterArray (l : list ClusterRef)
| ClusterCell (c : ClusterRef)
| ListCell (l : MysqlClusterList)
| SpecCell (s : MysqlClusterSpec)
| StatusCell (s : StatusRef)
| RequirementsCell (r : ResourceRequirements)
| RequestsCell (r : ResourceRequests)
| LimitsCell (r : ResourceLimits)
| StorageCell (s : StorageConfig).

Definition leaf (c : Cell) : Prop :=
  match c with
  | StringArray _ | NodeMap _ | LibCell _ => True
  | _ => False
  end.

Notation heap := (gmap loc Cell).
Notation act := (act Cell).
Notation ptr := (ptr Cell).

(** ** Pointers to structs *)

Definition cluster_at (l : loc) : ptr ClusterRef :=
  Ptr l (fun c => match c with ClusterCell x => Some x | _ => None end) (fun v _ => ClusterCell v).
Definition list_at (l : loc) : ptr MysqlClusterList :=
  Ptr l (fun c => match c with ListCell x => Some x | _ => None end) (fun v _ => ListCell v).
Definition spec_at (l : loc) : ptr MysqlClusterSpec :=
  Ptr l (fun c => match c with SpecCell x => Some x | _ => None end) (fun v _ => SpecCell v).
Definition status_at (l : loc) : ptr StatusRef :=
  Ptr l (fun c => match c with StatusCell x => Some x | _ => None end) (fun v _ => StatusCell v).
Definition requirements_at (l : loc) : ptr ResourceRequirements :=
  Ptr l (fun c => match c with RequirementsCell x => Some x | _ => None end)
    (fun v _ => RequirementsCell v).
Definition requests_at (l : loc) : ptr ResourceRequests :=
  Ptr l (fun c => match c with RequestsCell x => Some x | _ => None end) (fun v _ => RequestsCell v).
Definition limits_at (l : loc) : ptr ResourceLimits :=
  Ptr l (fun c => match c with LimitsCell x => Some x | _ => None end) (fun v _ => LimitsCell v).
Definition storage_at (l : loc) : ptr StorageConfig :=
  Ptr l (fun c => match c with StorageCell x => Some x | _ => None end) (fun v _ => StorageCell v).

(** [&s[i]] for a slice of clusters. *)
Definition item_at (s : Slice) (i : nat) : ptr ClusterRef :=
  Ptr (sl_array s)
    (fun c => match c with ClusterArray l => l !! (sl_offset s + i)%nat | _ => None end)
    (fun v c => match c with ClusterArray l => ClusterArray (<[(sl_offset s + i)%nat := v]> l) | c => c end).

Definition index (p : ptr (option Slice)) (i : nat) : act (ptr ClusterRef) :=
  s ← load p;
  match s with
  | Some s => if decide (i < sl_len s)%nat then mret (item_at s i) else panics
  | None => panics
  end.

Definition len (p : ptr (option Slice)) : act nat :=
  s ← load p; mret (match s with Some s => sl_len s | None => 0%nat end).

(** [make([]string, n)], [make([]MysqlCluster, n)] and [copy] of strings. *)
Definition make_strings (n : nat) : act Slice :=
  l ← new (StringArray (replicate n "")); mret (MkSlice l 0 n).
Definition make_clusters (n : nat) : act Slice :=
  l ← new (ClusterArray (replicate n zero_Cluster)); mret (MkSlice l 0 n).

Definition copy (dst src : option Slice) : act unit := fun h =>
  match dst, src with
  | Some d, Some s =>
      match h !! sl_array s, h !! sl_array d with
      | Some (StringArray a), Some (StringArray b) =>
          let xs := take (Nat.min (sl_len d) (sl_len s)) (drop (sl_offset s) a) in
          Some (tt, <[sl_array d := StringArray (list_inserts (sl_offset d) xs b)]> h)
      | _, _ => None
      end
  | _, _ => Some (tt, h)
  end.

(** ** The values of references *)

Definition slice_value (h : heap) (s : Slice) : option (list string) :=
  match h !! sl_array s with
  | Some (StringArray a) =>
      if decide (sl_offset s + sl_len s <= length a)%nat
      then Some (take (sl_len s) (drop (sl_offset s) a)) else None
  | _ => None
  end.

Definition nodes_value (h : heap) (l : loc) : option (gmap string RaftNodeInfo) :=
  match h !! l with Some (NodeMap m) => Some m | _ => None end.

Definition status_value (h : heap) (s : StatusRef) : option MysqlClusterStatus :=
  slaves ← match sr_Slaves s with Some sl => slice_value h sl | None => Some [] end;
  nodes ← match sr_RaftNodes s with Some l => Some <$> nodes_value h l | None => Some None end;
  Some (MkMysqlClusterStatus (sr_Master s) slaves nodes (sr_RaftLeader s) (sr_RaftTerm s)
          (sr_ClusterSize s)).

(** The copy functions of the metadata. *)
Class MetaCopy : Type := {
  ObjectMeta_DeepCopyInto : ptr ObjectMetaRef -> ptr ObjectMetaRef -> act unit;
  ListMeta_DeepCopyInto : ptr ListMetaRef -> ptr ListMetaRef -> act unit;
  ObjectMeta_value : heap -> ObjectMetaRef -> option ObjectMeta;
  ListMeta_value : heap -> ListMetaRef -> option ListMeta;
}.

Definition keeps_lib (h h' : heap) : Prop :=
  forall l x, h !! l = Some (LibCell x) -> h' !! l = Some (LibCell x).

(** They are deep copies, and metadata is read from the library's own cells. *)
Class MetaLaws `{MetaCopy} : Prop := {
  ObjectMeta_copies : copies_into leaf ObjectMeta_DeepCopyInto ObjectMeta_value (fun _ _ _ => True);
  ListMeta_copies : copies_into leaf ListMeta_DeepCopyInto ListMeta_value (fun _ _ _ => True);
  ObjectMeta_reads h h' m : keeps_lib h h' -> is_Some (ObjectMeta_value h m) ->
    ObjectMeta_value h' m = ObjectMeta_value h m;
  ListMeta_reads h h' m : keeps_lib h h' -> is_Some (ListMeta_value h m) ->
    ListMeta_value h' m = ListMeta_value h m;
  zero_ObjectMeta_reads h : is_Some (ObjectMeta_value h zero_ObjectMeta);
}.

Context {mcopy : MetaCopy}.

Definition cluster_value (h : heap) (c : ClusterRef) : option (TypeMeta * MysqlCluster) :=
  meta ← ObjectMeta_value h (cr_ObjectMeta c);
  status ← status_value h (cr_Status c);
  Some (cr_TypeMeta c, MkMysqlCluster meta (cr_Spec c) status).

Definition items_value (h : heap) (s : Slice) : option (list (TypeMeta * MysqlCluster)) :=
  match h !! sl_array s with
  | Some (ClusterArray a) =>
      if decide (sl_offset s + sl_len s <= length a)%nat
      then mapM (cluster_value h) (take (sl_len s) (drop (sl_offset s) a)) else None
  | _ => None
  end.

(** ** The generated functions *)

Definition MysqlClusterStatus_DeepCopyInto (p q : ptr StatusRef) : act unit :=
  _ ← assign p q;
  slaves ← load (field p sr_Slaves);
  match slaves with
  | Some _ =>
      let p := field p sr_Slaves in
      let q := field q sr_Slaves in
      n ← len p;
      made ← make_strings n;
      _ ← store q (Some made);
      dst ← load q;
      src ← load p;
      copy dst src
  | None => mret tt
  end.

Definition MysqlClusterSpec_DeepCopyInto (p q : ptr MysqlClusterSpec) : act unit :=
  _ ← assign p q;
  _ ← assign (field p Storage) (field q Storage);
  assign (field p Resources) (field q Resources).

Definition ResourceLimits_DeepCopyInto (p q : ptr ResourceLimits) : act unit := assign p q.
Definition ResourceRequests_DeepCopyInto (p q : ptr ResourceRequests) : act unit := assign p q.
Definition StorageConfig_DeepCopyInto (p q : ptr StorageConfig) : act unit := assign p q.

Definition ResourceRequirements_DeepCopyInto (p q : ptr ResourceRequirements) : act unit :=
  _ ← assign p q;
  _ ← assign (field p Requests) (field q Requests);
  assign (field p Limits) (field q Limits).

Definition MysqlCluster_DeepCopyInto (p q : ptr ClusterRef) : act unit :=
  _ ← assign p q;
  _ ← assign (field p cr_TypeMeta) (field q cr_TypeMeta);
  _ ← ObjectMeta_DeepCopyInto (field p cr_ObjectMeta) (field q cr_ObjectMeta);
  _ ← assign (field p cr_Spec) (field q cr_Spec);
  MysqlClusterStatus_DeepCopyInto (field p cr_Status) (field q cr_Status).

Definition MysqlClusterList_DeepCopyInto (p q : ptr MysqlClusterList) : act unit :=
  _ ← assign p q;
  _ ← assign (field p lr_TypeMeta) (field q lr_TypeMeta);
  _ ← ListMeta_DeepCopyInto (field p lr_ListMeta) (field q lr_ListMeta);
  items ← load (field p lr_Items);
  match items with
  | Some _ =>
      let p := field p lr_Items in
      let q := field q lr_Items in
      n ← len p;
      made ← make_clusters n;
      _ ← store q (Some made);
      n ← len p;
      for_index (fun i => src ← index p i; dst ← index q i; MysqlCluster_DeepCopyInto src dst) 0 n
  | None => mret tt
  end.

(** The shape of every [DeepCopy]: nil for nil, otherwise a new struct that [DeepCopyInto] fills. *)
Definition copied {T} (at_ : loc -> ptr T) (zero : Cell) (into : ptr T -> ptr T -> act unit)
    (p : option loc) : act (option loc) :=
  match p with
  | None => mret None
  | Some p => out ← new zero; _ ← into (at_ p) (at_ out); mret (Some out)
  end.

Definition MysqlCluster_DeepCopy := copied cluster_at (ClusterCell zero_Cluster) MysqlCluster_DeepCopyInto.
Definition MysqlClusterList_DeepCopy := copied list_at (ListCell zero_List) MysqlClusterList_DeepCopyInto.
Definition MysqlClusterSpec_DeepCopy := copied spec_at (SpecCell zero_Spec) MysqlClusterSpec_DeepCopyInto.
Definition MysqlClusterStatus_DeepCopy :=
  copied status_at (StatusCell zero_Status) MysqlClusterStatus_DeepCopyInto.
Definition ResourceLimits_DeepCopy := copied limits_at (LimitsCell zero_Limits) ResourceLimits_DeepCopyInto.
Definition ResourceRequests_DeepCopy :=
  copied requests_at (RequestsCell zero_Requests) ResourceRequests_DeepCopyInto.
Definition ResourceRequirements_DeepCopy :=
  copied requirements_at (RequirementsCell zero_Requirements) ResourceRequirements_DeepCopyInto.
Definition StorageConfig_DeepCopy := copied storage_at (StorageCell zero_Storage) StorageConfig_DeepCopyInto.

(** A [runtime.Object]: an interface value is nil or has a type and a pointer. *)
Inductive Object : Type :=
| NilObject
| ClusterObject (p : option loc)
| ListObject (p : option loc).

Definition MysqlCluster_DeepCopyObject (p : option loc) : act Object :=
  c ← MysqlCluster_DeepCopy p;
  mret (if decide (c <> None) then ClusterObject c else NilObject).

Definition MysqlClusterList_DeepCopyObject (p : option loc) : act Object :=
  c ← MysqlClusterList_DeepCopy p;
  mret (if decide (c <> None) then ListObject c else NilObject).

(** [RaftManager.updateClusterStatus] of [raft.go], on the object the manager's pointer leads to. *)
Definition assign_node (nodes : option loc) (nodeId : string) (info : RaftNodeInfo) : act unit := fun h =>
  match nodes with
  | Some l => match h !! l with
              | Some (NodeMap m) => Some (tt, <[l := NodeMap (<[nodeId := info]> m)]> h)
              | _ => None
              end
  | None => None
  end.

Definition record_status (rm : RaftManager) (q : ptr ClusterRef) : act unit :=
  let st := field q cr_Status in
  nodes ← load (field st sr_RaftNodes);
  _ ← match nodes with
      | None => l ← new (NodeMap ∅); store (field st sr_RaftNodes) (Some l)
      | Some _ => mret tt
      end;
  nodes ← load (field st sr_RaftNodes);
  _ ← assign_node nodes (rm_nodeId rm)
        {| ni_NodeId := rm_nodeId rm; ni_State := rm_state rm; ni_Term := rm_currentTerm rm;
           ni_LastContact := zero_time; ni_IsActive := false |};
  _ ← (if decide (rm_state rm = RaftStateLeader) then
         _ ← store (field st sr_RaftLeader) (rm_nodeId rm);
         store (field st sr_RaftTerm) (rm_currentTerm rm)
       else mret tt);
  spec ← load (field q cr_Spec);
  store (field st sr_ClusterSize) (Replicas spec).

(** ** Pointers are to variables *)

Lemma variable_cluster l : variable leaf (cluster_at l).
Proof. split; [done|done|intros v []; cbn; try done; by intros _ []]. Qed.
Lemma variable_list l : variable leaf (list_at l).
Proof. split; [done|done|intros v []; cbn; try done; by intros _ []]. Qed.

Lemma variable_item s i : variable leaf (item_at s i).
Proof.
  split; cbn.
  - intros v w []; try done. intros Hl. apply list_lookup_insert_eq. by eapply lookup_lt_Some.
  - intros v w u []; try done. by rewrite list_insert_insert_eq.
  - intros v []; cbn; try done; by intros _ [].
Qed.

#[local] Hint Resolve variable_cluster variable_list variable_item variable_field : core.

(** ** What the values depend on *)

Lemma keeps_leaves_lib h h' : keeps_leaves leaf h h' -> keeps_lib h h'.
Proof. intros H l x Hl. by apply H. Qed.

Lemma slice_value_keeps h h' s x :
  keeps_leaves leaf h h' -> slice_value h s = Some x -> slice_value h' s = Some x.
Proof.
  unfold slice_value. intros H Hs. destruct (h !! sl_array s) as [[]|] eqn:E; try done.
  by rewrite (H _ _ E).
Qed.

Lemma nodes_value_keeps h h' l x :
  keeps_leaves leaf h h' -> nodes_value h l = Some x -> nodes_value h' l = Some x.
Proof.
  unfold nodes_value. intros H Hl. destruct (h !! l) as [[]|] eqn:E; try done. by rewrite (H _ _ E).
Qed.

Lemma status_value_keeps h h' s x :
  keeps_leaves leaf h h' -> status_value h s = Some x -> status_value h' s = Some x.
Proof.
  unfold status_value. intros H (sl & Hsl & (nodes & Hn & Hx)%bind_Some)%bind_Some.
  assert (match sr_Slaves s with Some s => slice_value h' s | None => Some [] end = Some sl) as ->.
  { destruct (sr_Slaves s); [|done]. by eapply slice_value_keeps. }
  cbn. assert (match sr_RaftNodes s with Some l => Some <$> nodes_value h' l | None => Some None end = Some nodes) as ->; [|done].
  destruct (sr_RaftNodes s) as [l|]; [|done]. apply fmap_Some in Hn as (m & Hm & ->).
  by rewrite (nodes_value_keeps h h' l m).
Qed.

Context {laws : MetaLaws}.

Lemma cluster_value_keeps h h' c x :
  keeps_leaves leaf h h' -> cluster_value h c = Some x -> cluster_value h' c = Some x.
Proof.
  unfold cluster_value. intros H (meta & Hm & (st & Hst & Hx)%bind_Some)%bind_Some.
  rewrite (ObjectMeta_reads h h') by (by first [apply keeps_leaves_lib|eexists]). rewrite Hm. cbn.
  by rewrite (status_value_keeps h h' _ st).
Qed.

(** ** Copies of a status *)

(** What a copy of a status has of its own, and what not. *)
Definition status_parts (old : gset loc) (s s' : StatusRef) : Prop :=
  sr_RaftNodes s' = sr_RaftNodes s /\
  match sr_Slaves s, sr_Slaves s' with
  | None, None => True
  | Some _, Some sl => sl_array sl ∉ old
  | _, _ => False
  end.

Lemma fresh_lookup (h : heap) : h !! fresh (dom h) = None.
Proof. apply not_elem_of_dom, is_fresh. Qed.

(** A slice made by [make] and filled by [copy]. *)
Lemma copy_made (h : heap) l s xs :
  h !! l = None -> slice_value h s = Some xs ->
  copy (Some (MkSlice l 0 (sl_len s))) (Some s) (<[l := StringArray (replicate (sl_len s) "")]> h) =
  Some (tt, <[l := StringArray xs]> h).
Proof.
  intros Hl Hs. unfold slice_value in Hs.
  destruct (h !! sl_array s) as [[a| | | | | | | | | | |]|] eqn:E; try done.
  case_decide as Hlen; [|done]. injection Hs as <-.
  assert (sl_array s <> l) as Hne by congruence.
  unfold copy. cbn [sl_array sl_offset sl_len]. rewrite lookup_insert_ne, E, lookup_insert_eq by done.
  rewrite Nat.min_id, insert_insert_eq. do 4 f_equal.
  rewrite <-(app_nil_r (replicate _ _)), list_inserts_0_r, app_nil_r; [done|].
  rewrite length_replicate, length_take, length_drop. lia.
Qed.

(** The slice itself reads as what was copied. *)
Lemma slice_value_made (h : heap) l s xs :
  slice_value h s = Some xs ->
  slice_value (<[l := StringArray xs]> h) (MkSlice l 0 (sl_len s)) = Some xs.
Proof.
  unfold slice_value. intros Hs. cbn. rewrite lookup_insert_eq.
  assert (length xs = sl_len s) as Hlen.
  { destruct (h !! sl_array s) as [[a| | | | | | | | | | |]|]; try done.
    case_decide as Hle; [|done]. injection Hs as <-. rewrite length_take, length_drop. lia. }
  rewrite decide_True by lia. by rewrite drop_0, take_ge by lia.
Qed.

(** A load, a store and a new cell at the head of a sequence. *)
Ltac step_load p := erewrite bind_run; [|eapply (load_run p)].

Lemma copies_status : copies_into leaf MysqlClusterStatus_DeepCopyInto status_value status_parts.
Proof.
  intros p q h cp v x c w Hne Hp Hv Hx Hvar Hq Hw. unfold MysqlClusterStatus_DeepCopyInto.
  rewrite (bind_run _ _ h tt (<[base q := put q v c]> h)) by by eapply assign_run.
  assert (<[base q := put q v c]> h !! base p = Some cp) as Hp1 by by rewrite lookup_insert_ne.
  assert (get q (put q v c) = Some v) as Hqv by by eapply get_put.
  assert (get (field p sr_Slaves) cp = Some (sr_Slaves v)) as Hsl by (cbn; by rewrite Hv).
  erewrite bind_run by by eapply (load_run (field p sr_Slaves)).
  destruct (sr_Slaves v) as [s|] eqn:Es; [|exists h, v; split_and!; [done|reflexivity|done|split; [done|by rewrite Es]]].
  unfold len. erewrite bind_run.
  2:{ erewrite bind_run by by eapply (load_run (field p sr_Slaves)). done. }
  unfold make_strings. erewrite bind_run by done. 
  set (h1 := <[base q := put q v c]> h) in *.
  assert (h1 !! fresh (dom h1) = None) as Hl by apply fresh_lookup.
  set (l := fresh (dom h1)) in *. set (h2 := <[l := _]> h1).
  assert (base p <> l) as Hpl by congruence.
  assert (h1 !! base q = Some (put q v c)) as Hq1 by apply lookup_insert_eq.
  assert (base q <> l) as Hql by congruence.
  set (made := Some (MkSlice l 0 (sl_len s))).
  erewrite bind_run.
  2:{ eapply (store_run (field q sr_Slaves) made (sr_Slaves v)); cbn; [|by rewrite Hqv].
      unfold h2. rewrite lookup_insert_ne; [exact Hq1|done]. }
  cbn [base put field]. rewrite Hqv, (put_put _ _ Hvar _ _ w) by done.
  set (v' := v <| sr_Slaves := made |>).
  erewrite bind_run.
  2:{ eapply (load_run (field q sr_Slaves)); [apply lookup_insert_eq|]. cbn.
      rewrite (get_put _ _ Hvar _ w) by done. cbn. done. }
  erewrite bind_run.
  2:{ eapply (load_run (field p sr_Slaves)); [|exact Hsl]. cbn.
      rewrite lookup_insert_ne by done. unfold h2. by rewrite lookup_insert_ne. }
  exists (<[l := StringArray (Slaves x)]> h), v'.
  assert (h !! l = None) as Hlh by (unfold h1 in Hl; by rewrite lookup_insert_ne in Hl).
  assert (slice_value h s = Some (Slaves x)) as Hs.
  { unfold status_value in Hx. rewrite Es in Hx. apply bind_Some in Hx as (ys & -> & Hx).
    apply bind_Some in Hx as (nodes & _ & [= <-]). done. }
  split_and!.
  - unfold h2, h1. rewrite (insert_insert_ne _ (base q) l), insert_insert_eq by done.
    rewrite (insert_insert_ne _ (base q) l) by done. apply copy_made.
    + by rewrite lookup_insert_ne.
    + eapply slice_value_keeps, Hs. eapply keeps_insert; [exact Hq|]. by eapply not_leaf.
  - apply extends_fresh_at; [done|done].
  - unfold status_value in *. rewrite Es in Hx. cbn. rewrite (slice_value_made h l s) by done. cbn.
    apply bind_Some in Hx as (ys & Hys & Hx). apply bind_Some in Hx as (nodes & Hn & [= <-]). cbn.
    destruct (sr_RaftNodes v) as [k|]; [|by simplify_eq].
    apply fmap_Some in Hn as (m & Hm & ->). cbn.
    rewrite (nodes_value_keeps h _ k m); [done| |done].
    apply extends_keeps. by apply extends_fresh_at.
  - split; [done|]. rewrite Es. cbn. by apply not_elem_of_dom.
Qed.

(** ** Copies of a cluster *)

Lemma reads_status : reads_leaves leaf status_value.
Proof. intros h h' v x. apply status_value_keeps. Qed.

Lemma reads_ObjectMeta : reads_leaves leaf ObjectMeta_value.
Proof.
  intros h h' v x Hk Hx. rewrite (ObjectMeta_reads h h'); [done| |by eexists]. by apply keeps_leaves_lib.
Qed.

Lemma reads_cluster : reads_leaves leaf cluster_value.
Proof. intros h h' v x. apply cluster_value_keeps. Qed.

Definition cluster_parts (old : gset loc) (c c' : ClusterRef) : Prop :=
  status_parts old (cr_Status c) (cr_Status c').

Lemma copies_cluster : copies_into leaf MysqlCluster_DeepCopyInto cluster_value cluster_parts.
Proof.
  intros p q h cp v x c w Hne Hp Hv Hx Hvar Hq Hw. unfold MysqlCluster_DeepCopyInto.
  unfold cluster_value in Hx. apply bind_Some in Hx as (meta & Hmeta & Hx).
  apply bind_Some in Hx as (st & Hst & [= <-]).
  rewrite (bind_run _ _ h tt (<[base q := put q v c]> h)) by by eapply assign_run.
  erewrite bind_run by by eapply assign_field.
  destruct (copy_field leaf p q cr_ObjectMeta cp c v w Hne Hv Hw Hvar _ _ _ h
    (v <| cr_TypeMeta := cr_TypeMeta v |>) meta ObjectMeta_copies reads_ObjectMeta Hp Hq Hmeta)
    as (h1 & m & Hrun1 & Hext1 & Hm & _).
  rewrite (bind_run _ _ _ _ _ Hrun1).
  assert (h1 !! base p = Some cp) as Hp1 by by eapply extends_at.
  assert (h1 !! base q = Some c) as Hq1 by by eapply extends_at.
  erewrite bind_run by by eapply assign_field.
  destruct (copy_field leaf p q cr_Status cp c v w Hne Hv Hw Hvar _ _ _ h1
    (v <| cr_TypeMeta := cr_TypeMeta v |> <| cr_ObjectMeta := m |> <| cr_Spec := cr_Spec v |>)
    st copies_status reads_status Hp1 Hq1)
    as (h2 & s & Hrun2 & Hext2 & Hs & Hparts).
  { eapply reads_status, Hst. by apply extends_keeps. }
  eexists h2, _. split; [exact Hrun2|]. split; [by etrans|]. split.
  - unfold cluster_value. cbn. rewrite (reads_ObjectMeta h1 h2 m meta) by (by first [apply extends_keeps|done]).
    cbn. by rewrite Hs.
  - unfold cluster_parts, status_parts in *. cbn. destruct Hparts as [-> Hsl]. split; [done|].
    destruct (sr_Slaves (cr_Status v)), (sr_Slaves s); try done.
    intros Hin. apply Hsl. destruct Hext1 as [Hsub _]. by apply (subseteq_dom _ _ Hsub).
Qed.

(** A new struct filled by a copy. *)
Lemma copied_run {T X} (at_ : loc -> ptr T) zero z into (value : heap -> T -> option X) parts h p v x :
  copies_into leaf into value parts -> reads_leaves leaf value -> (forall l, variable leaf (at_ l)) ->
  (forall l, base (at_ l) = l) -> (forall l, get (at_ l) zero = Some z) ->
  (forall c, h !! p = Some c -> get (at_ p) c = Some v) -> is_Some (h !! p) -> value h v = Some x ->
  let l := fresh (dom h) in
  exists h' v',
    copied at_ zero into (Some p) h = Some (Some l, <[l := put (at_ l) v' zero]> h') /\
    h ⊆ h' /\ (forall k c, h' !! k = Some c -> h !! k = None -> k = l \/ leaf c) /\
    value (<[l := put (at_ l) v' zero]> h') v' = Some x /\ parts ({[l]} ∪ dom h) v v'.
Proof.
  intros Hcopy Hreads Hvar Hbase Hz Hv [cp Hp] Hx l.
  assert (h !! l = None) as Hl by apply fresh_lookup. assert (p <> l) as Hpl by congruence.
  set (h0 := <[l := zero]> h).
  assert (~ leaf zero) as Hzl by (eapply (not_leaf _ _ (Hvar l)), Hz).
  assert (h0 !! l = Some zero) as Hl0 by apply lookup_insert_eq.
  destruct (Hcopy (at_ p) (at_ l) h0 cp v x zero z) as (h' & v' & Hrun & Hext & Hval & Hparts).
  - by rewrite !Hbase.
  - rewrite Hbase. unfold h0. by rewrite lookup_insert_ne.
  - by apply Hv.
  - eapply Hreads, Hx. apply keeps_leaves_sub. by apply insert_subseteq.
  - done.
  - by rewrite Hbase.
  - done.
  - rewrite Hbase in Hrun. exists h', v'. assert (h' !! l = Some zero) as Hl' by by eapply extends_at.
    split_and!.
    + unfold copied. unfold new. rewrite (bind_run _ _ h l h0) by done.
      by rewrite (bind_run _ _ _ _ _ Hrun).
    + trans h0; [by apply insert_subseteq|]. by destruct Hext.
    + intros k c Hk Hn. destruct (decide (k = l)) as [->|Hne]; [by left|]. right.
      destruct Hext as [_ Hleaf]. eapply Hleaf; [done|]. unfold h0. by rewrite lookup_insert_ne.
    + eapply Hreads, Hval. by eapply keeps_insert.
    + unfold h0 in Hparts. by rewrite dom_insert_L in Hparts.
Qed.

Lemma status_parts_weaken old old' s s' : old ⊆ old' -> status_parts old' s s' -> status_parts old s s'.
Proof.
  unfold status_parts. intros Hsub [-> H]. split; [done|].
  destruct (sr_Slaves s), (sr_Slaves s'); try done. set_solver.
Qed.

(** ** Copies of a list *)

Definition same_item (h h' : heap) (c c' : ClusterRef) : Prop :=
  cluster_parts (dom h) c c' /\ exists x, cluster_value h c = Some x /\ cluster_value h' c' = Some x.

Section items.
Context (h : heap) (p q : ptr (option Slice)) (s : Slice) (l : loc) (src : list ClusterRef).
Let n := sl_len s.
Let items := take n (drop (sl_offset s) src).
Hypothesis Hp : exists c, h !! base p = Some c /\ get p c = Some (Some s).
Hypothesis Hq : exists c, h !! base q = Some c /\ get q c = Some (Some (MkSlice l 0 n)).
Hypothesis Hs : h !! sl_array s = Some (ClusterArray src).
Hypothesis Hlen : (sl_offset s + n <= length src)%nat.
Hypothesis Hl : h !! l = Some (ClusterArray (replicate n zero_Cluster)).
Hypothesis Hne : base p <> l /\ base q <> l /\ sl_array s <> l.
Hypothesis Hvals : Forall (fun c => is_Some (cluster_value h c)) items.

Let copy_item (i : nat) : act unit :=
  src ← index p i; dst ← index q i; MysqlCluster_DeepCopyInto src dst.

Lemma index_run (r : ptr (option Slice)) s' h1 cell i :
  (exists c, h !! base r = Some c /\ get r c = Some (Some s')) -> base r <> l -> extends leaf h h1 ->
  (i < sl_len s')%nat ->
  index r i (<[l := cell]> h1) = Some (item_at s' i, <[l := cell]> h1).
Proof.
  intros (c & Hc & Hg) Hrl Hext Hi. unfold index. erewrite bind_run.
  2:{ eapply load_run; [|exact Hg]. rewrite lookup_insert_ne by done. by eapply extends_at. }
  cbv beta iota. by rewrite decide_True.
Qed.

Lemma copy_item_run i ds h1 :
  length ds = i -> (i < n)%nat -> extends leaf h h1 ->
  Forall2 (same_item h h1) (take i items) ds ->
  exists d h2,
    copy_item i (<[l := ClusterArray (ds ++ replicate (n - i) zero_Cluster)]> h1) =
      Some (tt, <[l := ClusterArray ((ds ++ [d]) ++ replicate (n - S i) zero_Cluster)]> h2) /\
    extends leaf h h2 /\ Forall2 (same_item h h2) (take (S i) items) (ds ++ [d]).
Proof.
  intros Hi Hin Hext Hall. destruct Hne as (Hpl & Hql & Hsl). unfold copy_item.
  set (arr := ClusterArray _). rewrite (bind_run _ _ _ _ _ (index_run p s h1 arr i Hp Hpl Hext Hin)).
  rewrite (bind_run _ _ _ _ _ (index_run q (MkSlice l 0 n) h1 arr i Hq Hql Hext Hin)).
  assert (exists c, items !! i = Some c) as [c Hc].
  { apply lookup_lt_is_Some_2. unfold items. rewrite length_take, length_drop. lia. }
  assert (src !! (sl_offset s + i)%nat = Some c) as Hsrc.
  { unfold items in Hc. rewrite lookup_take_lt in Hc by done. by rewrite lookup_drop in Hc. }
  destruct (Forall_lookup_1 _ _ _ _ Hvals Hc) as [x Hx].
  assert (h1 !! l = Some (ClusterArray (replicate n zero_Cluster))) as Hl1
    by (eapply extends_at; [exact Hext|exact Hl]).
  assert (keeps_leaves leaf h1 (<[l := arr]> h1)) as Hk by (eapply keeps_insert; [exact Hl1|by intros []]).
  destruct (copies_cluster (item_at s i) (item_at (MkSlice l 0 n) i) (<[l := arr]> h1)
    (ClusterArray src) c x arr zero_Cluster) as (h2 & d & Hrun & Hext2 & Hval & Hparts).
  - done.
  - cbn. rewrite lookup_insert_ne by done. by eapply extends_at.
  - done.
  - eapply cluster_value_keeps, Hx. etrans; [by apply extends_keeps|done].
  - done.
  - apply lookup_insert_eq.
  - cbn. rewrite lookup_app_r by lia. apply lookup_replicate. split; [done|lia].
  - exists d, (<[l := ClusterArray (replicate n zero_Cluster)]> h2). split; [|split].
    + rewrite Hrun. cbn. rewrite insert_insert_eq. do 4 f_equal.
      replace (n - i)%nat with (S (n - S i)) by lia. cbn [replicate].
      by rewrite <-Hi, insert_app_r_alt, Nat.sub_diag, <-app_assoc by lia.
    + etrans; [exact Hext|]. by eapply extends_assign.
    + assert (extends leaf h1 (<[l:=ClusterArray (replicate n zero_Cluster)]> h2)) as Hext3
        by by eapply extends_assign.
      assert (keeps_leaves leaf h2 (<[l:=ClusterArray (replicate n zero_Cluster)]> h2)) as Hk2.
      { eapply keeps_insert; [eapply extends_at; [done|]; apply lookup_insert_eq|by intros []]. }
      rewrite (take_S_r _ _ c) by done. apply Forall2_app; [|apply Forall2_cons; split; [|done]].
      * eapply Forall2_impl; [exact Hall|]. intros a b [? (y & Hy & Hy')]. split; [done|].
        exists y. split; [done|]. eapply cluster_value_keeps, Hy'. by apply extends_keeps.
      * split; [|exists x; split; [done|by eapply cluster_value_keeps]].
        eapply status_parts_weaken, Hparts. destruct Hext as [Hsub _].
        rewrite dom_insert_L. apply (subseteq_dom _ _) in Hsub. set_solver.
Qed.

Lemma copy_items_run k i ds h1 :
  (i + k = n)%nat -> length ds = i -> extends leaf h h1 ->
  Forall2 (same_item h h1) (take i items) ds ->
  exists ds' h2,
    for_index copy_item i k (<[l := ClusterArray (ds ++ replicate (n - i) zero_Cluster)]> h1) =
      Some (tt, <[l := ClusterArray ds']> h2) /\
    extends leaf h h2 /\ Forall2 (same_item h h2) items ds'.
Proof.
  revert i ds h1. induction k as [|k IH]; intros i ds h1 Hik Hi Hext Hall.
  - exists ds, h1. replace (n - i)%nat with 0%nat by lia. cbn. rewrite app_nil_r. split; [done|].
    split; [done|]. rewrite take_ge in Hall; [done|]. unfold items. rewrite length_take. lia.
  - destruct (copy_item_run i ds h1) as (d & h2 & Hrun & Hext2 & Hall2); [lia..|done|done|].
    cbn [for_index]. rewrite (bind_run _ _ _ _ _ Hrun).
    apply IH; [lia| |done|done]. rewrite length_app. cbn. lia.
Qed.

End items.

(** The objects a [runtime.Object] method is called on; a nil interface has no methods. *)
Definition Object_DeepCopyObject (o : Object) : act Object :=
  match o with
  | NilObject => panics
  | ClusterObject p => MysqlCluster_DeepCopyObject p
  | ListObject p => MysqlClusterList_DeepCopyObject p
  end.

Definition list_value (h : heap) (l : MysqlClusterList) :
    option (TypeMeta * ListMeta * option (list (TypeMeta * MysqlCluster))) :=
  meta ← ListMeta_value h (lr_ListMeta l);
  items ← match lr_Items l with Some s => Some <$> items_value h s | None => Some None end;
  Some (lr_TypeMeta l, meta, items).

Lemma reads_ListMeta : reads_leaves leaf ListMeta_value.
Proof.
  intros h h' v x Hk Hx. rewrite (ListMeta_reads h h'); [done| |by eexists]. by apply keeps_leaves_lib.
Qed.

Lemma mapM_values (h h' : heap) src ds xs :
  mapM (cluster_value h) src = Some xs -> Forall2 (same_item h h') src ds ->
  mapM (cluster_value h') ds = Some xs.
Proof.
  intros Hxs Hall. revert xs Hxs. induction Hall as [|c d src ds (_ & x & Hc & Hd) _ IH]; intros xs Hxs.
  - done.
  - cbn in *. rewrite Hc in Hxs. cbn in Hxs. apply bind_Some in Hxs as (ys & Hys & [= <-]).
    rewrite Hd. cbn. by rewrite (IH ys).
Qed.

Lemma mapM_keeps (h h' : heap) l xs :
  keeps_leaves leaf h h' -> mapM (cluster_value h) l = Some xs -> mapM (cluster_value h') l = Some xs.
Proof.
  intros Hk. revert xs. induction l as [|c l IH]; intros xs; [done|]. cbn.
  intros (x & Hx & (ys & Hys & [= <-])%bind_Some)%bind_Some.
  rewrite (cluster_value_keeps h h' c x) by done. cbn. by rewrite (IH ys).
Qed.

(** What copying a list into a new struct leaves behind. *)
Record list_copied (h h' : heap) (lr lr' : MysqlClusterList) (Q : loc) : Prop := {
  lc_sub : h ⊆ h';
  lc_at : h' !! Q = Some (ListCell lr');
  lc_value x : list_value h lr = Some x -> list_value h' lr' = Some x;
  lc_items :
    match lr_Items lr, lr_Items lr' with
    | Some s, Some s' => exists l src ds,
        sl_array s' = l /\ l ∉ dom h /\ h !! sl_array s = Some (ClusterArray src) /\
        h' !! l = Some (ClusterArray ds) /\
        Forall2 (same_item h h') (take (sl_len s) (drop (sl_offset s) src)) ds
    | None, None => True
    | _, _ => False
    end;
  lc_new k c : h' !! k = Some c -> h !! k = None ->
    k = Q \/ leaf c \/ exists s', lr_Items lr' = Some s' /\ k = sl_array s';
}.

Lemma same_item_transport (h0 h h1 h' : heap) c d :
  is_Some (cluster_value h0 c) -> h0 ⊆ h -> keeps_leaves leaf h1 h' ->
  same_item h h1 c d -> same_item h0 h' c d.
Proof.
  intros [x Hx] Hsub Hk [Hparts (y & Hy & Hd)]. split.
  - eapply status_parts_weaken, Hparts. by apply (subseteq_dom _ _).
  - exists x. split; [done|]. rewrite (cluster_value_keeps h0 h c x) in Hy; [|by apply keeps_leaves_sub|done].
    simplify_eq. by eapply cluster_value_keeps.
Qed.

Lemma items_value_inv (h : heap) s xs :
  items_value h s = Some xs ->
  exists src, h !! sl_array s = Some (ClusterArray src) /\ (sl_offset s + sl_len s <= length src)%nat /\
    mapM (cluster_value h) (take (sl_len s) (drop (sl_offset s) src)) = Some xs.
Proof.
  unfold items_value. intros H. destruct (h !! sl_array s) as [[| | |src| | | | | | | |]|]; try done.
  case_decide; [|done]. by exists src.
Qed.

Lemma mapM_is_Some {A B} (f : A -> option B) l xs :
  mapM f l = Some xs -> Forall (fun a => is_Some (f a)) l.
Proof. intros H. apply mapM_is_Some_1. by eexists. Qed.

Lemma same_items_transport (h0 h h1 h' : heap) cs ds :
  Forall (fun c => is_Some (cluster_value h0 c)) cs -> h0 ⊆ h -> keeps_leaves leaf h1 h' ->
  Forall2 (same_item h h1) cs ds -> Forall2 (same_item h0 h') cs ds.
Proof.
  intros Hcs Hsub Hk Hall. revert Hcs. induction Hall as [|c d cs ds Hcd _ IH]; intros Hcs; [done|].
  apply Forall_cons in Hcs as [Hc Hcs]. constructor; [|by apply IH]. by eapply same_item_transport.
Qed.

(** A heap that has grown reads the same. *)
Lemma items_value_sub (h h' : heap) s xs : h ⊆ h' -> items_value h s = Some xs -> items_value h' s = Some xs.
Proof.
  intros Hsub (src & Hs & Hlen & Hxs)%items_value_inv. unfold items_value.
  rewrite (lookup_weaken _ _ _ _ Hs Hsub), decide_True by done. eapply mapM_keeps, Hxs.
  by apply keeps_leaves_sub.
Qed.

Lemma list_value_sub (h h' : heap) l x : h ⊆ h' -> list_value h l = Some x -> list_value h' l = Some x.
Proof.
  unfold list_value. intros Hsub (m & Hm & (items & Hi & Hx)%bind_Some)%bind_Some.
  rewrite (reads_ListMeta h h' _ m) by (by first [apply keeps_leaves_sub|done]). cbn.
  destruct (lr_Items l) as [s|]; [|by simplify_eq].
  apply fmap_Some in Hi as (xs & Hxs & ->). by rewrite (items_value_sub h h' s xs).
Qed.

(** The heap after a list's metadata was copied: the new struct [w] is the original but for what its
    metadata refers to. *)
Record list_header (h0 h : heap) (lr w : MysqlClusterList) (Q : loc) (meta : ListMeta) : Prop := {
  lh_sub : h0 ⊆ h;
  lh_at : h !! Q = Some (ListCell w);
  lh_TypeMeta : lr_TypeMeta w = lr_TypeMeta lr;
  lh_items : lr_Items w = lr_Items lr;
  lh_meta : ListMeta_value h (lr_ListMeta w) = Some meta;
  lh_new k c : h !! k = Some c -> h0 !! k = None -> k = Q \/ leaf c;
}.

Lemma list_header_run h0 P Q lr meta (k : act unit) :
  h0 !! P = Some (ListCell lr) -> h0 !! Q = None -> ListMeta_value h0 (lr_ListMeta lr) = Some meta ->
  exists hw w,
    (_ ← assign (list_at P) (list_at Q);
     _ ← assign (field (list_at P) lr_TypeMeta) (field (list_at Q) lr_TypeMeta);
     _ ← ListMeta_DeepCopyInto (field (list_at P) lr_ListMeta) (field (list_at Q) lr_ListMeta); k)
      (<[Q := ListCell zero_List]> h0) = k hw /\
    list_header h0 hw lr w Q meta.
Proof.
  intros HP HQ Hm. set (h := <[Q := ListCell zero_List]> h0).
  assert (P <> Q) as HPQ by congruence.
  assert (h0 ⊆ h) as Hsub by by apply insert_subseteq.
  assert (h !! P = Some (ListCell lr)) as HPh by by eapply lookup_weaken.
  assert (h !! Q = Some (ListCell zero_List)) as HQh by apply lookup_insert_eq.
  assert (ListMeta_value h (lr_ListMeta lr) = Some meta) as Hmh.
  { eapply reads_ListMeta, Hm. by apply keeps_leaves_sub. }
  destruct (copy_field leaf (list_at P) (list_at Q) lr_ListMeta (ListCell lr) (ListCell zero_List) lr
    zero_List HPQ eq_refl eq_refl (variable_list Q) _ _ _ h (lr <| lr_TypeMeta := lr_TypeMeta lr |>)
    meta ListMeta_copies reads_ListMeta HPh HQh Hmh) as (h1 & m & Hrun & Hext & Hval & _).
  exists (<[Q := ListCell (lr <| lr_ListMeta := m |>)]> h1), (lr <| lr_ListMeta := m |>). split.
  - rewrite (bind_run _ _ _ _ _ (assign_run (list_at P) (list_at Q) h (ListCell lr) lr
      (ListCell zero_List) zero_List HPh eq_refl HQh eq_refl)).
    rewrite (bind_run _ _ _ _ _ (assign_field leaf (list_at P) (list_at Q) lr_TypeMeta (ListCell lr)
      (ListCell zero_List) lr zero_List HPQ eq_refl eq_refl (variable_list Q) h lr HPh)).
    rewrite (bind_run _ _ _ _ _ Hrun). by destruct lr.
  - split; [|apply lookup_insert_eq|done|done| |].
    + apply insert_subseteq_r; [done|]. etrans; [exact Hsub|by destruct Hext].
    + eapply reads_ListMeta, Hval. eapply keeps_insert; [by eapply extends_at|by intros []].
    + intros i c Hi Hn. destruct (decide (i = Q)) as [->|HiQ]; [by left|right].
      rewrite lookup_insert_ne in Hi by done. destruct Hext as [_ Hleaf]. apply (Hleaf i); [done|].
      unfold h. by rewrite lookup_insert_ne.
Qed.

(** The items of a list, copied into a new array. *)
Lemma list_into_items h0 h1 P Q lr w s src l :
  let n := sl_len s in
  let w' := w <| lr_Items := Some (MkSlice l 0 n) |> in
  let zeros := ClusterArray (replicate n zero_Cluster) in
  let h := <[Q := ListCell w']> (<[l := zeros]> h1) in
  P <> Q -> P <> l -> Q <> l -> h0 ⊆ h1 -> h0 !! Q = None -> h1 !! l = None ->
  h0 !! P = Some (ListCell lr) -> lr_Items lr = Some s ->
  h0 !! sl_array s = Some (ClusterArray src) -> (sl_offset s + n <= length src)%nat ->
  Forall (fun c => is_Some (cluster_value h0 c)) (take n (drop (sl_offset s) src)) ->
  exists ds h2,
    for_index (fun i => src ← index (field (list_at P) lr_Items) i;
                        dst ← index (field (list_at Q) lr_Items) i;
                        MysqlCluster_DeepCopyInto src dst) 0 n h =
      Some (tt, <[l := ClusterArray ds]> h2) /\
    extends leaf h h2 /\
    Forall2 (same_item h0 (<[l := ClusterArray ds]> h2)) (take n (drop (sl_offset s) src)) ds.
Proof.
  intros n w' zeros h HPQ HPl HQl Hsub HQ0 Hl1 HP Hitems Hs Hlen Hvals.
  assert (h0 !! l = None) as Hl0 by (by eapply lookup_weaken_None).
  assert (h0 ⊆ h) as Hsub' by (by do 2 (apply insert_subseteq_r; [done|])).
  assert (sl_array s <> l) as Hsl by congruence.
  assert (h !! l = Some zeros) as Hhl by (unfold h; rewrite lookup_insert_ne by done; apply lookup_insert_eq).
  destruct (copy_items_run h (field (list_at P) lr_Items) (field (list_at Q) lr_Items) s l src)
    with (k := n) (i := 0%nat) (ds := @nil ClusterRef) (h1 := h) as (ds & h2 & Hrun & Hext & Hall).
  - exists (ListCell lr). split; [by eapply lookup_weaken|]. cbn. by rewrite Hitems.
  - exists (ListCell w'). split; [apply lookup_insert_eq|done].
  - by eapply lookup_weaken.
  - done.
  - done.
  - done.
  - eapply Forall_impl; [exact Hvals|]. intros c [x Hx]. exists x.
    by apply (cluster_value_keeps h0); [apply keeps_leaves_sub|].
  - done.
  - done.
  - reflexivity.
  - constructor.
  - exists ds, h2. split; [|split; [done|]].
    + fold n in Hrun. rewrite Nat.sub_0_r in Hrun. cbn [app] in Hrun. fold zeros in Hrun.
      by rewrite insert_id in Hrun.
    + eapply same_items_transport; [exact Hvals|exact Hsub'| |exact Hall].
      eapply keeps_insert; [by eapply extends_at|by intros []].
Qed.

(** A list without items is done after its metadata. *)
Lemma list_copied_nil h0 hw lr w Q meta :
  list_header h0 hw lr w Q meta -> lr_Items lr = None -> ListMeta_value h0 (lr_ListMeta lr) = Some meta ->
  list_copied h0 hw lr w Q.
Proof.
  intros [Hsub Hat Htm Hi Hm Hnew] Es Hm0. split; [done|done| |by rewrite Es, Hi, Es|].
  - unfold list_value. rewrite Hm0, Hm, Htm, Hi, Es. done.
  - intros k c Hk Hn. destruct (Hnew k c Hk Hn); tauto.
Qed.

Lemma list_copied_items h0 hw hb h2 lr w Q meta s src ds l :
  list_header h0 hw lr w Q meta -> lr_Items lr = Some s -> ListMeta_value h0 (lr_ListMeta lr) = Some meta ->
  h0 !! sl_array s = Some (ClusterArray src) -> (sl_offset s + sl_len s <= length src)%nat ->
  h0 !! Q = None -> hw !! l = None ->
  let w' := w <| lr_Items := Some (MkSlice l 0 (sl_len s)) |> in
  hb = <[Q := ListCell w']> (<[l := ClusterArray (replicate (sl_len s) zero_Cluster)]> hw) ->
  extends leaf hb h2 ->
  let h' := <[l := ClusterArray ds]> h2 in
  Forall2 (same_item h0 h') (take (sl_len s) (drop (sl_offset s) src)) ds ->
  list_copied h0 h' lr w' Q.
Proof.
  intros [Hsub Hat Htm Hi Hm Hnew] Es Hm0 Hs Hlen HQ Hl w' Hhb Hext h' Hall.
  assert (Q <> l) as HQl by congruence.
  assert (h0 !! l = None) as Hl0 by by eapply lookup_weaken_None.
  assert (h0 ⊆ hb) as Hsubb by (subst hb; by do 2 (apply insert_subseteq_r; [done|])).
  assert (hb !! Q = Some (ListCell w')) as HQb by (subst hb; apply lookup_insert_eq).
  assert (exists zeros, h2 !! l = Some (ClusterArray zeros)) as [zeros Hl2].
  { eexists. eapply extends_at; [exact Hext|]. subst hb. rewrite lookup_insert_ne by done. apply lookup_insert_eq. }
  pose proof (Forall2_length _ _ _ Hall) as Hds. rewrite length_take, length_drop in Hds.
  split.
  - apply insert_subseteq_r; [done|]. etrans; [exact Hsubb|by destruct Hext].
  - unfold h'. rewrite lookup_insert_ne by done. by eapply extends_at.
  - intros y. unfold list_value at 1. rewrite Hm0, Es. cbn. intros (items & Hitems & [= <-])%bind_Some.
    apply fmap_Some in Hitems as (xs & Hxs & ->). apply items_value_inv in Hxs as (src' & Hs' & _ & Hxs).
    simplify_eq. unfold list_value, w'. cbn. rewrite (reads_ListMeta hw h' _ meta); [|clear Hall|done].
    + cbn. unfold items_value. cbn. unfold h' at 1. rewrite lookup_insert_eq, decide_True by lia.
      rewrite drop_0, take_ge by lia. by rewrite (mapM_values h0 _ _ _ _ Hxs Hall), Htm.
    + trans (<[l := ClusterArray (replicate (sl_len s) zero_Cluster)]> hw); [by apply keeps_leaves_sub, insert_subseteq|].
      trans (<[Q := ListCell w']> (<[l := ClusterArray (replicate (sl_len s) zero_Cluster)]> hw)).
      { eapply keeps_insert; [rewrite lookup_insert_ne by done; exact Hat|by intros []]. }
      trans h2; [by apply extends_keeps|]. eapply keeps_insert; [exact Hl2|by intros []].
  - rewrite Es. cbn. exists l, src, ds. unfold h'. rewrite lookup_insert_eq. by rewrite not_elem_of_dom.
  - intros k c Hk Hn. unfold h' in Hk.
    destruct (decide (k = l)) as [->|Hkl]; [right; right; by eexists|].
    rewrite lookup_insert_ne in Hk by done. destruct (hb !! k) as [c'|] eqn:E.
    + assert (h2 !! k = Some c') by by eapply extends_at. simplify_eq.
      destruct (decide (k = Q)) as [->|HkQ]; [by left|].
      rewrite !lookup_insert_ne in E by done. destruct (Hnew k c E Hn); tauto.
    + right; left. destruct Hext as [_ Hleaf]. by apply (Hleaf k).
Qed.

Lemma list_into_run h0 P Q lr x :
  h0 !! P = Some (ListCell lr) -> h0 !! Q = None -> list_value h0 lr = Some x ->
  exists h' lr',
    MysqlClusterList_DeepCopyInto (list_at P) (list_at Q) (<[Q := ListCell zero_List]> h0) = Some (tt, h') /\
    list_copied h0 h' lr lr' Q.
Proof.
  intros HP HQ Hx. unfold list_value in Hx. apply bind_Some in Hx as (meta & Hm & Hx).
  apply bind_Some in Hx as (items & Hitems & _). unfold MysqlClusterList_DeepCopyInto.
  match goal with |- context [ListMeta_DeepCopyInto _ _ ≫= (fun _ => ?k)] =>
    destruct (list_header_run h0 P Q lr meta k HP HQ Hm) as (hw & w & -> & Hhead) end.
  pose proof Hhead as [Hsub HQw _ Hwi _ _].
  assert (hw !! P = Some (ListCell lr)) as HPw by by eapply lookup_weaken.
  destruct (lr_Items lr) as [s|] eqn:Es.
  2:{ exists hw, w. split; [|by eapply list_copied_nil].
      rewrite (bind_run _ _ _ _ _ (load_run (field (list_at P) lr_Items) hw _ _ HPw eq_refl)). by rewrite Es. }
  apply fmap_Some in Hitems as (xs & Hitems & ->).
  destruct (items_value_inv _ _ _ Hitems) as (src & Hs & Hlen & Hxs).
  set (l := fresh (dom hw)). assert (hw !! l = None) as Hl by apply fresh_lookup.
  destruct (list_into_items h0 hw P Q lr w s src l) as (ds & h2 & Hloop & Hext & Hall);
    [congruence..|done|done|done|done|done|done|done|by eapply mapM_is_Some|].
  eexists _, _. split; [|by eapply list_copied_items].
  rewrite (bind_run _ _ _ _ _ (load_run (field (list_at P) lr_Items) hw _ _ HPw eq_refl)).
  rewrite Es. erewrite bind_run.
  2:{ unfold len. rewrite (bind_run _ _ _ _ _ (load_run (field (list_at P) lr_Items) hw _ _ HPw eq_refl)).
      by rewrite Es. }
  unfold make_clusters. erewrite bind_run by by erewrite bind_run. fold l. erewrite bind_run.
  2:{ apply (store_run (field (list_at Q) lr_Items) _ (lr_Items w) _ (ListCell w)); [|done].
      cbn [base field list_at]. rewrite lookup_insert_ne by congruence. exact HQw. }
  erewrite bind_run; [exact Hloop|]. unfold len. erewrite bind_run.
  2:{ apply (load_run (field (list_at P) lr_Items) _ (ListCell lr) (Some s)); [|cbn; by rewrite Es].
      cbn [base field list_at]. by rewrite !lookup_insert_ne by congruence. }
  done.
Qed.

Lemma cluster_copied_run h p c x :
  h !! p = Some (ClusterCell c) -> cluster_value h c = Some x ->
  let l := fresh (dom h) in
  exists c' h',
    MysqlCluster_DeepCopy (Some p) h = Some (Some l, h') /\ h ⊆ h' /\ h' !! l = Some (ClusterCell c') /\
    (forall k d, h' !! k = Some d -> h !! k = None -> k = l \/ leaf d) /\
    cluster_value h' c' = Some x /\ status_parts (dom h) (cr_Status c) (cr_Status c').
Proof.
  intros Hp Hx l. assert (h !! l = None) as Hl by apply fresh_lookup.
  destruct (copied_run cluster_at (ClusterCell zero_Cluster) zero_Cluster MysqlCluster_DeepCopyInto
    cluster_value cluster_parts h p c x copies_cluster reads_cluster variable_cluster)
    as (h1 & c' & Hrun & Hsub & Hnew & Hval & Hparts); [done|done| |by eexists|done|].
  { intros cell Hc. by simplify_eq. }
  exists c', (<[l := ClusterCell c']> h1). split_and!; [done| |apply lookup_insert_eq| |done|].
  - by apply insert_subseteq_r.
  - intros k d Hk Hn. destruct (decide (k = l)) as [->|Hkl]; [by left|].
    rewrite lookup_insert_ne in Hk by done. by apply Hnew.
  - eapply status_parts_weaken, Hparts. set_solver.
Qed.

Lemma list_copied_run h p lr x :
  h !! p = Some (ListCell lr) -> list_value h lr = Some x ->
  exists lr' h', MysqlClusterList_DeepCopy (Some p) h = Some (Some (fresh (dom h)), h') /\
    list_copied h h' lr lr' (fresh (dom h)).
Proof.
  intros Hp Hx. destruct (list_into_run h p (fresh (dom h)) lr x Hp (fresh_lookup h) Hx)
    as (h' & lr' & Hrun & Hcopied).
  exists lr', h'. split; [|done]. unfold MysqlClusterList_DeepCopy, copied, new.
  erewrite bind_run by done. by rewrite (bind_run _ _ _ _ _ Hrun).
Qed.

(** ** Objects *)

(** C18: the deep copy of a cluster reads as the original, lies in a new struct, and has an array of
    slaves of its own: nothing of the memory there was has changed, and no later write to other
    memory reaches the original.  Of the parts of a status only the map of Raft nodes is still the
    original's.  A nil pointer gives the nil object, not an object with a nil pointer. *)
Theorem MysqlCluster_DeepCopyObject_spec h p :
  MysqlCluster_DeepCopyObject None h = Some (NilObject, h) /\
  forall c tm cluster, h !! p = Some (ClusterCell c) -> cluster_value h c = Some (tm, cluster) ->
  exists p' c' h',
    MysqlCluster_DeepCopyObject (Some p) h = Some (ClusterObject (Some p'), h') /\
    h ⊆ h' /\ p' ∉ dom h /\ h' !! p' = Some (ClusterCell c') /\
    cluster_value h' c' = Some (tm, cluster) /\ status_parts (dom h) (cr_Status c) (cr_Status c') /\
    forall l cell, l ∉ dom h -> cluster_value (<[l := cell]> h') c = Some (tm, cluster).
Proof.
  split; [done|]. intros c tm cluster Hp Hx.
  destruct (cluster_copied_run h p c (tm, cluster) Hp Hx) as (c' & h' & Hrun & Hsub & Hat & _ & Hval & Hparts).
  exists (fresh (dom h)), c', h'. split_and!; [|done|apply is_fresh|done|done|done|].
  - unfold MysqlCluster_DeepCopyObject. by rewrite (bind_run _ _ _ _ _ Hrun).
  - intros l cell Hl. eapply cluster_value_keeps, Hx. apply keeps_leaves_sub.
    apply insert_subseteq_r; [by apply not_elem_of_dom|done].
Qed.

(** C24: the deep copy of a list reads as the original, with an array of items of its own, and each item
    is a deep copy of the item at its place. *)
Theorem MysqlClusterList_DeepCopyObject_spec h p lr x :
  h !! p = Some (ListCell lr) -> list_value h lr = Some x ->
  exists p' lr' h',
    MysqlClusterList_DeepCopyObject (Some p) h = Some (ListObject (Some p'), h') /\
    p' ∉ dom h /\ list_copied h h' lr lr' p' /\ list_value h' lr' = Some x.
Proof.
  intros Hp Hx. destruct (list_copied_run h p lr x Hp Hx) as (lr' & h' & Hrun & Hcopied).
  exists (fresh (dom h)), lr', h'. split_and!; [|apply is_fresh|done|by eapply lc_value].
  cbn. unfold MysqlClusterList_DeepCopyObject. by rewrite (bind_run _ _ _ _ _ Hrun).
Qed.

(** ** Types

    A heap is well typed when every reference in it leads to a cell of its type, far enough for the
    slices: then every object in it can be read. *)

Definition cell_typed (h : heap) (c : Cell) : Prop :=
  match c with
  | ClusterCell c => is_Some (cluster_value h c)
  | ListCell l => is_Some (list_value h l)
  | StatusCell s => is_Some (status_value h s)
  | ClusterArray l => Forall (fun c => is_Some (cluster_value h c)) l
  | _ => True
  end.

Definition well_typed (h : heap) : Prop := map_Forall (fun _ c => cell_typed h c) h.

Definition object_typed (h : heap) (o : Object) : Prop :=
  match o with
  | NilObject | ClusterObject None | ListObject None => True
  | ClusterObject (Some p) => exists c, h !! p = Some (ClusterCell c)
  | ListObject (Some p) => exists l, h !! p = Some (ListCell l)
  end.

Lemma cell_typed_sub (h h' : heap) c : h ⊆ h' -> cell_typed h c -> cell_typed h' c.
Proof.
  intros Hsub. assert (keeps_leaves leaf h h') as Hk by by apply keeps_leaves_sub.
  destruct c as [| | |l|c|l|s0|s| | | |s1]; cbn; try done.
  - intros Hl. eapply Forall_impl; [exact Hl|]. intros c [x Hx]. exists x. by eapply cluster_value_keeps.
  - intros [x Hx]. exists x. by eapply cluster_value_keeps.
  - intros [x Hx]. exists x. by eapply list_value_sub.
  - intros [x Hx]. exists x. by eapply status_value_keeps.
Qed.

Lemma well_typed_grow (h h' : heap) :
  well_typed h -> h ⊆ h' -> (forall k c, h' !! k = Some c -> h !! k = None -> cell_typed h' c) ->
  well_typed h'.
Proof.
  intros Hw Hsub Hnew k c Hk. destruct (h !! k) as [c'|] eqn:E; [|by eapply Hnew].
  assert (h' !! k = Some c') by by eapply lookup_weaken. simplify_eq.
  eapply cell_typed_sub; [done|]. by eapply Hw.
Qed.

Lemma leaf_typed h c : leaf c -> cell_typed h c.
Proof. by destruct c. Qed.

Lemma cluster_copy_typed h p c x :
  well_typed h -> h !! p = Some (ClusterCell c) -> cluster_value h c = Some x ->
  exists p' h', MysqlCluster_DeepCopyObject (Some p) h = Some (ClusterObject (Some p'), h') /\
    well_typed h' /\ h ⊆ h' /\ object_typed h' (ClusterObject (Some p')).
Proof.
  intros Hw Hp Hx.
  destruct (cluster_copied_run h p c x Hp Hx) as (c' & h' & Hrun & Hsub & Hat & Hnew & Hval & _).
  exists (fresh (dom h)), h'. split; [|split; [|split; [done|by exists c']]].
  - unfold MysqlCluster_DeepCopyObject. by rewrite (bind_run _ _ _ _ _ Hrun).
  - apply (well_typed_grow h); [done..|]. intros k d Hk Hn.
    destruct (Hnew k d Hk Hn) as [->|Hleaf]; [|by apply leaf_typed].
    assert (d = ClusterCell c') as -> by congruence. by exists x.
Qed.

Lemma list_copied_typed h h' lr lr' Q x :
  well_typed h -> list_value h lr = Some x -> list_copied h h' lr lr' Q -> well_typed h'.
Proof.
  intros Hw Hx [Hsub Hat Hval Hitems Hnew]. apply (well_typed_grow h); [done..|]. intros k c Hk Hn.
  destruct (Hnew k c Hk Hn) as [->|[Hleaf|(s' & Es' & ->)]]; [| by apply leaf_typed|].
  - assert (c = ListCell lr') as -> by congruence. exists x. by apply Hval.
  - rewrite Es' in Hitems. destruct (lr_Items lr) as [s|]; [|done].
    destruct Hitems as (l & src & ds & <- & _ & _ & Hl & Hall).
    assert (c = ClusterArray ds) as -> by congruence. cbn.
    eapply Forall2_Forall_r; [exact Hall|]. apply Forall_true. intros a b [_ (y & _ & Hy)]. by exists y.
Qed.

(** C19: deep copies are type safe: on a heap whose references all lead to what their types say, copying
    an object (whatever it is, nil pointers included) does not panic, and leaves such a heap and
    such an object. *)
Theorem DeepCopyObject_typed h o :
  well_typed h -> object_typed h o -> o <> NilObject ->
  exists o' h', Object_DeepCopyObject o h = Some (o', h') /\ well_typed h' /\ h ⊆ h' /\ object_typed h' o'.
Proof.
  intros Hw Ho Hnil. destruct o as [|[p|]|[p|]]; [done| |by exists NilObject, h| |by exists NilObject, h].
  - destruct Ho as [c Hp]. destruct (Hw p _ Hp) as [x Hx].
    destruct (cluster_copy_typed h p c x Hw Hp Hx) as (p' & h' & Hrun & Hrest). eauto.
  - destruct Ho as [lr Hp]. destruct (Hw p _ Hp) as [x Hx].
    destruct (list_copied_run h p lr x Hp Hx) as (lr' & h' & Hrun & Hcopied).
    exists (ListObject (Some (fresh (dom h)))), h'. split; [|split; [by eapply list_copied_typed|]].
    + cbn. unfold MysqlClusterList_DeepCopyObject. by rewrite (bind_run _ _ _ _ _ Hrun).
    + destruct Hcopied. split; [done|by exists lr'].
Qed.

(** ** The structs without references *)

Definition same {T} (_ : heap) (v : T) : option T := Some v.
Definition no_parts {T} (_ : gset loc) (_ _ : T) : Prop := True.

Lemma copies_assign {T} : copies_into leaf (@assign Cell T) same no_parts.
Proof.
  intros p q h cp v x c w Hne Hp Hv [= <-] Hvar Hq Hw. exists h, v.
  split; [by eapply assign_run|]. by split; [reflexivity|].
Qed.

(** Assigning a field once more after the whole struct. *)
Lemma copies_assign_fields {R T U} (f : R -> T) (g : R -> U)
    `{!FieldUpdate f, !FieldLaws f, !FieldUpdate g, !FieldLaws g} :
  (forall r, r <| f := f r |> = r) -> (forall r, r <| g := g r |> = r) ->
  copies_into leaf (fun p q : ptr R => _ ← assign p q; _ ← assign (field p f) (field q f);
                                       assign (field p g) (field q g)) same no_parts.
Proof.
  intros Hf Hg p q h cp v x c w Hne Hp Hv [= <-] Hvar Hq Hw. exists h, v.
  rewrite (bind_run _ _ _ _ _ (assign_run p q h cp v c w Hp Hv Hq Hw)).
  rewrite (bind_run _ _ _ _ _ (assign_field leaf p q f cp c v w Hne Hv Hw Hvar h v Hp)), Hf.
  rewrite (assign_field leaf p q g cp c v w Hne Hv Hw Hvar h v Hp), Hg.
  by split; [|split; [reflexivity|]].
Qed.

Definition plain_copy {T} (deepcopy : option loc -> act (option loc)) (inj : T -> Cell) : Prop :=
  forall h p v, h !! p = Some (inj v) ->
  exists p' h', deepcopy (Some p) h = Some (Some p', h') /\ h ⊆ h' /\ p' ∉ dom h /\ h' !! p' = Some (inj v).

Lemma plain_copied {T} (at_ : loc -> ptr T) (inj : T -> Cell) z into :
  copies_into leaf into same no_parts -> (forall l, variable leaf (at_ l)) -> (forall l, base (at_ l) = l) ->
  (forall l v, get (at_ l) (inj v) = Some v) -> (forall l v c, put (at_ l) v c = inj v) ->
  plain_copy (copied at_ (inj z) into) inj.
Proof.
  intros Hcopy Hvar Hbase Hget Hput h p v Hp.
  destruct (copied_run at_ (inj z) z into same no_parts h p v v Hcopy) as (h' & v' & Hrun & Hsub & _ & Hval & _);
    [by intros ? ? ? ? ? [= <-]|done|done|done| |by eexists|done|].
  { intros c Hc. by simplify_eq. }
  rewrite Hput in Hrun. injection Hval as ->. exists (fresh (dom h)), (<[fresh (dom h) := inj v]> h').
  split; [done|]. split; [|split; [apply is_fresh|apply lookup_insert_eq]].
  apply insert_subseteq_r; [apply fresh_lookup|done].
Qed.

Ltac solve_plain := solve [done | intros l; split; [done|done|intros v []; cbn; try done; by intros _ []]].

Lemma plain_copies :
  plain_copy MysqlClusterSpec_DeepCopy SpecCell /\
  plain_copy ResourceRequirements_DeepCopy RequirementsCell /\
  plain_copy ResourceRequests_DeepCopy RequestsCell /\
  plain_copy ResourceLimits_DeepCopy LimitsCell /\
  plain_copy StorageConfig_DeepCopy StorageCell.
Proof.
  split_and!; (apply plain_copied; [|solve_plain..]).
  - apply (copies_assign_fields Storage Resources); by intros [].
  - apply (copies_assign_fields Requests Limits); by intros [].
  - apply copies_assign.
  - apply copies_assign.
  - apply copies_assign.
Qed.

(** The copy of a status alone. *)
Lemma MysqlClusterStatus_DeepCopy_spec h p s x :
  h !! p = Some (StatusCell s) -> status_value h s = Some x ->
  exists p' s' h', MysqlClusterStatus_DeepCopy (Some p) h = Some (Some p', h') /\
    h ⊆ h' /\ p' ∉ dom h /\ h' !! p' = Some (StatusCell s') /\ status_value h' s' = Some x /\
    status_parts (dom h) s s'.
Proof.
  intros Hp Hx.
  destruct (copied_run status_at (StatusCell zero_Status) zero_Status MysqlClusterStatus_DeepCopyInto
    status_value status_parts h p s x copies_status reads_status)
    as (h1 & s' & Hrun & Hsub & _ & Hval & Hparts); [solve_plain|done|done| |by eexists|done|].
  { intros cell Hc. by simplify_eq. }
  eexists _, s', _. split; [exact Hrun|]. split; [apply insert_subseteq_r; [apply fresh_lookup|done]|].
  split_and!; [apply is_fresh|apply lookup_insert_eq|done|].
  eapply status_parts_weaken, Hparts. set_solver.
Qed.

(** ** The manager's status on shared memory *)

Definition node_info (rm : RaftManager) : RaftNodeInfo :=
  {| ni_NodeId := rm_nodeId rm; ni_State := rm_state rm; ni_Term := rm_currentTerm rm;
     ni_LastContact := zero_time; ni_IsActive := false |}.

(** The struct [record_status] leaves at the pointer. *)
Definition recorded (rm : RaftManager) (l : loc) (c : ClusterRef) : ClusterRef :=
  let st := (cr_Status c) <| sr_RaftNodes := Some l |> in
  let st := if decide (rm_state rm = RaftStateLeader)
            then st <| sr_RaftLeader := rm_nodeId rm |> <| sr_RaftTerm := rm_currentTerm rm |> else st in
  c <| cr_Status := st <| sr_ClusterSize := Replicas (cr_Spec c) |> |>.

(** The map it writes to: the one there is, or a new one. *)
Definition target (h : heap) (s : StatusRef) (l : loc) (nodes : gmap string RaftNodeInfo) : Prop :=
  match sr_RaftNodes s with
  | Some l' => l' = l /\ nodes_value h l = Some nodes
  | None => h !! l = None /\ nodes = ∅
  end.

Lemma status_value_record (h h' : heap) rm l nodes s x :
  target h s l nodes -> status_value h s = Some x ->
  (forall k a, h !! k = Some (StringArray a) -> h' !! k = Some (StringArray a)) ->
  nodes_value h' l = Some (<[rm_nodeId rm := node_info rm]> nodes) ->
  status_value h' (s <| sr_RaftNodes := Some l |>) =
    Some (x <| RaftNodes := Some (<[rm_nodeId rm := node_info rm]> (default ∅ (RaftNodes x))) |>).
Proof.
  intros Ht Hx Hk Hl. unfold status_value in *. apply bind_Some in Hx as (slaves & Hs & Hx).
  apply bind_Some in Hx as (ns & Hns & [= <-]). cbn. rewrite Hl.
  assert (match sr_Slaves s with Some s => slice_value h' s | None => Some [] end = Some slaves) as ->.
  { destruct (sr_Slaves s) as [sl|]; [|done]. unfold slice_value in *.
    destruct (h !! sl_array sl) as [[a| | | | | | | | | | |]|] eqn:E; try done. by rewrite (Hk _ _ E). }
  assert (default ∅ ns = nodes) as Hd; [|by rewrite <-Hd].
  unfold target in Ht. destruct (sr_RaftNodes s) as [l'|].
  - destruct Ht as [-> Hn]. apply fmap_Some in Hns as (m & Hm & ->). cbn. congruence.
  - destruct Ht as [_ ->]. injection Hns as <-. done.
Qed.

(** Loads and stores of the fields of a struct at [p]. *)
Lemma load_field {T} (f : ClusterRef -> T) `{!FieldUpdate f} (h : heap) p c :
  h !! p = Some (ClusterCell c) -> load (field (cluster_at p) f) h = Some (f c, h).
Proof. intros Hp. by apply (load_run _ h (ClusterCell c)). Qed.

Lemma store_status {T} (f : StatusRef -> T) `{!FieldUpdate f} (h : heap) p c v :
  h !! p = Some (ClusterCell c) ->
  store (field (field (cluster_at p) cr_Status) f) v h =
    Some (tt, <[p := ClusterCell (c <| cr_Status := (cr_Status c) <| f := v |> |>)]> h).
Proof.
  intros Hp. by apply (store_run (field (field (cluster_at p) cr_Status) f) v (f (cr_Status c)) h (ClusterCell c)).
Qed.

(** The first statement: make the map if there is none. *)
Lemma record_nodes (k : act unit) (h : heap) p c tm cluster :
  h !! p = Some (ClusterCell c) -> cluster_value h c = Some (tm, cluster) ->
  let st := field (cluster_at p) cr_Status in
  exists l nodes, target h (cr_Status c) l nodes /\ p <> l /\
    (nodes ← load (field st sr_RaftNodes);
     _ ← match nodes with
         | None => l ← new (NodeMap ∅); store (field st sr_RaftNodes) (Some l)
         | Some _ => mret tt
         end; k) h =
    k (<[p := ClusterCell (c <| cr_Status := (cr_Status c) <| sr_RaftNodes := Some l |> |>)]>
         (<[l := NodeMap nodes]> h)).
Proof.
  intros Hp Hx st. unfold cluster_value in Hx. apply bind_Some in Hx as (meta & _ & Hx).
  apply bind_Some in Hx as (v & Hv & _). unfold status_value in Hv.
  apply bind_Some in Hv as (slaves & _ & Hv). apply bind_Some in Hv as (ns & Hns & _). unfold target.
  rewrite (bind_run _ _ _ _ _ (load_run (field st sr_RaftNodes) h _ _ Hp eq_refl)).
  destruct (sr_RaftNodes (cr_Status c)) as [l|] eqn:El.
  - apply fmap_Some in Hns as (m & Hm & _). exists l, m. unfold nodes_value in Hm.
    destruct (h !! l) as [[]|] eqn:E; try done. injection Hm as ->.
    split; [by unfold nodes_value; rewrite E|]. split; [congruence|]. erewrite bind_run by done.
    rewrite (insert_id h l) by done. rewrite insert_id; [done|]. rewrite Hp. destruct c as [? ? ? []]. cbn in *.
    by subst.
  - set (l := fresh (dom h)). assert (h !! l = None) as Hl by apply fresh_lookup. assert (p <> l) as Hpl by congruence.
    exists l, ∅. split; [done|]. split; [done|]. erewrite bind_run; [done|]. erewrite bind_run by done.
    apply store_status. by rewrite lookup_insert_ne.
Qed.

Lemma record_status_run rm (h : heap) p c tm cluster :
  h !! p = Some (ClusterCell c) -> cluster_value h c = Some (tm, cluster) ->
  exists l nodes, target h (cr_Status c) l nodes /\ p <> l /\
    record_status rm (cluster_at p) h =
      Some (tt, <[p := ClusterCell (recorded rm l c)]> (<[l := NodeMap (<[rm_nodeId rm := node_info rm]> nodes)]> h)).
Proof.
  intros Hp Hx. unfold record_status.
  match goal with |- context [load _ ≫= (fun n => (match n with _ => _ end) ≫= (fun _ => ?k))] =>
    destruct (record_nodes k h p c tm cluster Hp Hx) as (l & nodes & Ht & Hpl & ->) end.
  exists l, nodes. split; [done|]. split; [done|].
  set (c1 := c <| cr_Status := _ |>). set (h1 := <[l := NodeMap (<[_ := _]> nodes)]> h).
  erewrite bind_run.
  2:{ apply (load_run (field (field (cluster_at p) cr_Status) sr_RaftNodes) _ (ClusterCell c1) (Some l)); [|done].
      apply lookup_insert_eq. }
  erewrite (bind_run _ _ _ tt (<[p := ClusterCell c1]> h1)).
  2:{ unfold assign_node. rewrite lookup_insert_ne, lookup_insert_eq by done.
      by rewrite (insert_insert_ne _ l p), insert_insert_eq by done. }
  unfold recorded. fold c1. case_decide as Hlead.
  - erewrite bind_run.
    2:{ erewrite bind_run by (apply (store_status sr_RaftLeader); apply lookup_insert_eq).
        apply (store_status sr_RaftTerm), lookup_insert_eq. }
    erewrite bind_run by (apply (load_field cr_Spec), lookup_insert_eq).
    erewrite store_status by apply lookup_insert_eq. by rewrite !insert_insert_eq.
  - erewrite bind_run by done.
    erewrite bind_run by (apply (load_field cr_Spec), lookup_insert_eq).
    erewrite store_status by apply lookup_insert_eq. by rewrite !insert_insert_eq.
Qed.

Lemma keeps_lib_record (h : heap) p l c c' m :
  h !! p = Some (ClusterCell c) -> p <> l -> (h !! l = None \/ exists nodes, nodes_value h l = Some nodes) ->
  keeps_lib h (<[p := ClusterCell c']> (<[l := NodeMap m]> h)).
Proof.
  intros Hp Hpl Hl k x Hk. rewrite !lookup_insert_ne; [done| |congruence].
  intros ->. destruct Hl as [Hl|[nodes Hl]]; [congruence|]. unfold nodes_value in Hl. by rewrite Hk in Hl.
Qed.

Lemma target_kind (h : heap) s l nodes :
  target h s l nodes -> h !! l = None \/ exists nodes, nodes_value h l = Some nodes.
Proof. unfold target. destruct (sr_RaftNodes s); intros [? ?]; [right; by eexists|by left]. Qed.

(** The status part of what [record_status] does to a struct that has the map [l]. *)
Lemma status_after_record rm (h : heap) p l nodes c c' s x :
  h !! p = Some (ClusterCell c) -> p <> l -> target h s l nodes -> status_value h s = Some x ->
  status_value (<[p := ClusterCell c']> (<[l := NodeMap (<[rm_nodeId rm := node_info rm]> nodes)]> h))
    (s <| sr_RaftNodes := Some l |>) =
  Some (x <| RaftNodes := Some (<[rm_nodeId rm := node_info rm]> (default ∅ (RaftNodes x))) |>).
Proof.
  intros Hp Hpl Ht Hx. eapply status_value_record; [exact Ht|exact Hx| |].
  - intros k a Hk. rewrite !lookup_insert_ne; [done| |congruence]. intros ->.
    destruct (target_kind _ _ _ _ Ht) as [Hl|[n Hl]]; [congruence|]. unfold nodes_value in Hl. by rewrite Hk in Hl.
  - unfold nodes_value. by rewrite lookup_insert_ne, lookup_insert_eq.
Qed.

(** The fields without references. *)
Lemma status_value_leader (h : heap) s a x :
  status_value h s = Some x -> status_value h (s <| sr_RaftLeader := a |>) = Some (x <| RaftLeader := a |>).
Proof. unfold status_value. intros (ys & Hy & (ns & Hn & [= <-])%bind_Some)%bind_Some. cbn. by rewrite Hy, Hn. Qed.

Lemma status_value_term (h : heap) s a x :
  status_value h s = Some x -> status_value h (s <| sr_RaftTerm := a |>) = Some (x <| RaftTerm := a |>).
Proof. unfold status_value. intros (ys & Hy & (ns & Hn & [= <-])%bind_Some)%bind_Some. cbn. by rewrite Hy, Hn. Qed.

Lemma status_value_size (h : heap) s a x :
  status_value h s = Some x -> status_value h (s <| sr_ClusterSize := a |>) = Some (x <| ClusterSize := a |>).
Proof. unfold status_value. intros (ys & Hy & (ns & Hn & [= <-])%bind_Some)%bind_Some. cbn. by rewrite Hy, Hn. Qed.

Lemma status_value_recorded (h : heap) rm l c x :
  status_value h ((cr_Status c) <| sr_RaftNodes := Some l |>) = Some x ->
  status_value h (cr_Status (recorded rm l c)) =
    Some ((if decide (rm_state rm = RaftStateLeader)
           then x <| RaftLeader := rm_nodeId rm |> <| RaftTerm := rm_currentTerm rm |> else x)
          <| ClusterSize := Replicas (cr_Spec c) |>).
Proof.
  intros Hx. unfold recorded. apply status_value_size.
  case_decide; [|done]. by apply status_value_term, status_value_leader.
Qed.

(** C25: the manager's [updateClusterStatus] on references does to the object at its pointer what
    [statusOf] says of the object's value: the model of the manager with an object for the pointer is
    refined by the code on shared memory. *)
Theorem record_status_refines rm (h : heap) p c tm :
  h !! p = Some (ClusterCell c) -> cluster_value h c = Some (tm, rm_cluster rm) ->
  exists h' c', record_status rm (cluster_at p) h = Some (tt, h') /\ h' !! p = Some (ClusterCell c') /\
    cluster_value h' c' = Some (tm, (rm_cluster rm) <| Status := statusOf rm |>).
Proof.
  intros Hp Hx. destruct (record_status_run rm h p c _ _ Hp Hx) as (l & nodes & Ht & Hpl & Hrun).
  eexists _, _. split; [exact Hrun|]. split; [apply lookup_insert_eq|].
  set (h' := <[p := _]> _). unfold cluster_value in *. apply bind_Some in Hx as (meta & Hm & Hx).
  apply bind_Some in Hx as (st & Hst & [= Htm Hc]).
  pose proof (status_after_record rm h p l nodes c (recorded rm l c) _ _ Hp Hpl Ht Hst) as Hst'. fold h' in Hst'.
  rewrite (ObjectMeta_reads h h'); [|by eapply keeps_lib_record; [..|eapply target_kind]|by eexists].
  change (cr_ObjectMeta (recorded rm l c)) with (cr_ObjectMeta c). rewrite Hm, (status_value_recorded _ _ _ _ _ Hst').
  cbn [mbind option_bind]. unfold statusOf. rewrite <-Hc. subst tm. unfold recorded. by case_decide.
Qed.

(** A status that refers to the map, or to none, reads differently after the map was written to. *)
Lemma status_value_shared rm (h : heap) p l nodes c c' s x :
  h !! p = Some (ClusterCell c) -> p <> l -> target h s l nodes -> status_value h s = Some x ->
  status_value (<[p := ClusterCell c']> (<[l := NodeMap (<[rm_nodeId rm := node_info rm]> nodes)]> h)) s =
  Some (match RaftNodes x with
        | Some nodes => x <| RaftNodes := Some (<[rm_nodeId rm := node_info rm]> nodes) |>
        | None => x
        end).
Proof.
  intros Hp Hpl Ht Hx.
  assert (match sr_RaftNodes s with Some _ => is_Some (RaftNodes x) | None => RaftNodes x = None end) as Hkind.
  { unfold status_value in Hx. apply bind_Some in Hx as (ys & _ & Hx). apply bind_Some in Hx as (ns & Hn & [= <-]).
    destruct (sr_RaftNodes s); cbn; [|congruence]. apply fmap_Some in Hn as (m & _ & ->). by eexists. }
  destruct (sr_RaftNodes s) as [l'|] eqn:El.
  - destruct Hkind as [ns Hns]. rewrite Hns. assert (l' = l) as -> by (unfold target in Ht; rewrite El in Ht; tauto).
    pose proof (status_after_record rm h p l nodes c c' _ _ Hp Hpl Ht Hx) as Hafter. rewrite Hns in Hafter.
    assert (s <| sr_RaftNodes := Some l |> = s) as Hs by (destruct s; cbn in *; by subst). by rewrite Hs in Hafter.
  - rewrite Hkind. unfold target in Ht. rewrite El in Ht. destruct Ht as [Hl _].
    eapply status_value_keeps, Hx. etrans; [by apply keeps_leaves_sub, insert_subseteq|].
    eapply keeps_insert; [rewrite lookup_insert_ne by done; exact Hp|by intros []].
Qed.

(** C28: a deep copy of a cluster shares the map of Raft nodes with its original, so when the manager
    records its status in the copy the server's client gave it, the original in the client's cache
    reads differently, although no field of it was assigned: its map of nodes has the new entry. *)
Theorem copy_shares_nodes rm (h : heap) p c tm cluster :
  h !! p = Some (ClusterCell c) -> cluster_value h c = Some (tm, cluster) ->
  exists p' h1 h2,
    MysqlCluster_DeepCopy (Some p) h = Some (Some p', h1) /\ p' <> p /\
    record_status rm (cluster_at p') h1 = Some (tt, h2) /\ h2 !! p = Some (ClusterCell c) /\
    cluster_value h2 c = Some (tm,
      match RaftNodes (Status cluster) with
      | Some nodes => cluster <| Status := (Status cluster)
                        <| RaftNodes := Some (<[rm_nodeId rm := node_info rm]> nodes) |> |>
      | None => cluster
      end).
Proof.
  intros Hp Hx.
  destruct (cluster_copied_run h p c (tm, cluster) Hp Hx) as (c' & h1 & Hrun & Hsub & Hat & _ & Hval & [Hnodes _]).
  set (p' := fresh (dom h)) in *. assert (h !! p' = None) as Hp' by apply fresh_lookup.
  assert (p <> p') as Hpp by congruence.
  assert (h1 !! p = Some (ClusterCell c)) as Hp1 by by eapply lookup_weaken.
  destruct (record_status_run rm h1 p' c' _ _ Hat Hval) as (l & nodes & Ht & Hpl & Hrec).
  exists p', h1. eexists. split; [done|]. split; [done|]. split; [exact Hrec|].
  assert (p <> l) as Hpl'.
  { intros ->. destruct (target_kind _ _ _ _ Ht) as [Hl|[n Hl]]; [congruence|]. unfold nodes_value in Hl.
    by rewrite Hp1 in Hl. }
  split; [by rewrite !lookup_insert_ne|]. set (h2 := <[p' := _]> _).
  assert (cluster_value h1 c = Some (tm, cluster)) as Hx1 by (eapply cluster_value_keeps, Hx; by apply keeps_leaves_sub).
  assert (target h1 (cr_Status c) l nodes) as Htc by (unfold target in *; by rewrite <-Hnodes).
  unfold cluster_value in Hx1 |- *. apply bind_Some in Hx1 as (meta & Hm & Hx1).
  apply bind_Some in Hx1 as (st & Hst & [= <- <-]).
  rewrite (ObjectMeta_reads h1 h2), Hm; [|by eapply keeps_lib_record; [..|eapply target_kind]|by eexists].
  pose proof (status_value_shared rm h1 p' l nodes c' (recorded rm l c') _ st Hat Hpl Htc Hst) as Hst'.
  fold h2 in Hst'. cbn [mbind option_bind Status]. rewrite Hst'. by destruct (RaftNodes st).
Qed.
End deepcopy.

(** ** An instance

    Metadata whose labels are a map of their own, with a copy function that copies the map; a cached
    cluster with two slaves and a map of one node, and a list of it. *)

Record LabelledMeta := MkLabelledMeta {
  lm_meta : ObjectMeta;
  lm_labels : option loc;
}.

#[local] Instance eta_LabelledMeta : Eta LabelledMeta := fun r => MkLabelledMeta (lm_meta r) (lm_labels r).

#[local] Instance labelled_data : MetaData := {|
  ObjectMetaRef := LabelledMeta;
  ListMetaRef := string;
  LibData := gmap string string;
  ListMeta := string;
  zero_ObjectMeta := MkLabelledMeta (MkObjectMeta "" "" "" None None []) None;
  zero_ListMeta := "";
|}.

Definition labels_value (h : gmap loc Cell) (l : loc) : option (gmap string string) :=
  match h !! l with Some (LibCell m) => Some m | _ => None end.

Definition copy_labels (p q : ptr Cell LabelledMeta) : act Cell unit :=
  _ ← assign p q;
  labels ← load (field p lm_labels);
  match labels with
  | None => mret tt
  | Some l =>
      m ← (fun h => (fun m => (m, h)) <$> labels_value h l);
      l' ← new (LibCell m);
      store (field q lm_labels) (Some l')
  end.

#[local] Instance labelled_copy : MetaCopy := {|
  ObjectMeta_DeepCopyInto := copy_labels;
  ListMeta_DeepCopyInto := assign;
  ObjectMeta_value h m :=
    match lm_labels m with
    | Some l => (fun labels => (lm_meta m) <| om_Labels := Some labels |>) <$> labels_value h l
    | None => Some ((lm_meta m) <| om_Labels := None |>)
    end;
  ListMeta_value h m := Some m;
|}.

Lemma copy_labels_copies : copies_into leaf copy_labels ObjectMeta_value (fun _ _ _ => True).
Proof.
  intros p q h cp v x c w Hne Hp Hv Hx Hvar Hq Hw. unfold copy_labels.
  rewrite (bind_run _ _ _ _ _ (assign_run p q h cp v c w Hp Hv Hq Hw)).
  set (h1 := <[base q := put q v c]> h).
  assert (h1 !! base p = Some cp) as Hp1 by (unfold h1; by rewrite lookup_insert_ne).
  erewrite bind_run.
  2:{ apply (load_run (field p lm_labels) _ cp (lm_labels v)); [done|]. cbn. by rewrite Hv. }
  cbn in Hx. destruct (lm_labels v) as [l|] eqn:El.
  2:{ exists h, v. split; [done|]. split; [reflexivity|]. split; [|done]. cbn. by rewrite El. }
  apply fmap_Some in Hx as (m & Hm & ->). unfold labels_value in Hm.
  destruct (h !! l) as [[]|] eqn:E; try done. injection Hm as ->.
  assert (base q <> l) as Hql.
  { intros <-. rewrite Hq in E. injection E as ->. by apply (not_leaf leaf q Hvar _ _ Hw). }
  erewrite bind_run.
  2:{ unfold labels_value, h1. by rewrite lookup_insert_ne, E. }
  set (k := fresh (dom h1)). assert (h1 !! k = None) as Hk by apply fresh_lookup.
  assert (h1 !! base q = Some (put q v c)) as Hq1 by apply lookup_insert_eq.
  assert (base q <> k) as Hqk by congruence. erewrite bind_run by done.
  exists (<[k := @LibCell labelled_data m]> h), (v <| lm_labels := Some k |>). split_and!; [|apply extends_fresh_at|..|done].
  - erewrite (store_run (field q lm_labels) _ (lm_labels v)); cbn [base field].
    2:{ rewrite lookup_insert_ne by done. exact Hq1. }
    2:{ cbn. by rewrite (get_put leaf q Hvar _ w). }
    rewrite (put_field leaf q lm_labels c w Hw Hvar). unfold h1.
    by rewrite (insert_insert_ne _ k), insert_insert_eq by done.
  - unfold h1 in Hk. by rewrite lookup_insert_ne in Hk.
  - done.
  - cbn. unfold labels_value. by rewrite lookup_insert_eq.
Qed.

#[local] Instance labelled_laws : MetaLaws.
Proof.
  split.
  - apply copy_labels_copies.
  - intros p q h cp v x c w Hne Hp Hv [= <-] Hvar Hq Hw. exists h, v.
    split; [by eapply assign_run|]. by split; [reflexivity|].
  - intros h h' m Hk [x Hx]. cbn in *. destruct (lm_labels m) as [l|]; [|done]. unfold labels_value in *.
    destruct (h !! l) as [[]|] eqn:E; try done. by rewrite (Hk _ _ E).
  - done.
  - intros h. by eexists.
Qed.

Definition cached_status : StatusRef :=
  MkStatusRef "mysql-01" (Some (MkSlice 1 0 2)) (Some 2%positive) "" 0 3.

Definition cached_cluster : ClusterRef :=
  MkClusterRef (MkTypeMeta "MysqlCluster" "apps.ryansu.com/v1")
    (MkLabelledMeta (example_meta "db") (Some 3%positive)) (example_spec 3) cached_status.

Definition cached_list : MysqlClusterList :=
  MkListRef (MkTypeMeta "MysqlClusterList" "apps.ryansu.com/v1") "17" (Some (MkSlice 5 0 1)).

Definition cache : gmap loc Cell := list_to_map [
  (1%positive, StringArray ["mysql-02"; "mysql-03"]);
  (2%positive, NodeMap {["db-1" := MkRaftNodeInfo "db-1" RaftStateFollower 1 0 true]});
  (3%positive, LibCell {["app" := "mysql"]});
  (4%positive, ClusterCell cached_cluster);
  (5%positive, ClusterArray [cached_cluster]);
  (6%positive, ListCell cached_list)].

Definition cached_value : MysqlCluster := MkMysqlCluster
  ((example_meta "db") <| om_Labels := Some {["app" := "mysql"]} |>) (example_spec 3)
  (MkMysqlClusterStatus "mysql-01" ["mysql-02"; "mysql-03"]
     (Some {["db-1" := MkRaftNodeInfo "db-1" RaftStateFollower 1 0 true]}) "" 0 3).

Definition cluster_type : TypeMeta := MkTypeMeta "MysqlCluster" "apps.ryansu.com/v1".

Lemma MysqlCluster_DeepCopyObject_spec_witness :
  exists p' c' h', MysqlCluster_DeepCopyObject (Some 4%positive) cache = Some (ClusterObject (Some p'), h') /\
    cluster_value h' c' = Some (cluster_type, cached_value).
Proof.
  destruct (proj2 (MysqlCluster_DeepCopyObject_spec cache 4) cached_cluster cluster_type cached_value)
    as (p' & c' & h' & Hrun & _ & _ & _ & Hval & _); [vm_compute; reflexivity..|].
  exists p', c', h'. split; [exact Hrun|exact Hval].
Defined.

Lemma MysqlClusterList_DeepCopyObject_spec_witness :
  exists p' lr' h', MysqlClusterList_DeepCopyObject (Some 6%positive) cache = Some (ListObject (Some p'), h') /\
    list_value h' lr' = Some (lr_TypeMeta cached_list, "17", Some [(cluster_type, cached_value)]).
Proof.
  destruct (MysqlClusterList_DeepCopyObject_spec cache 6 cached_list
    (lr_TypeMeta cached_list, "17", Some [(cluster_type, cached_value)]))
    as (p' & lr' & h' & Hrun & _ & _ & Hval); [vm_compute; reflexivity..|].
  exists p', lr', h'. split; [exact Hrun|exact Hval].
Defined.

Lemma cache_typed : well_typed cache.
Proof.
  unfold well_typed. apply map_Forall_to_list. repeat constructor; vm_compute; eexists; reflexivity.
Qed.

Lemma DeepCopyObject_typed_witness :
  exists o' h', Object_DeepCopyObject (ListObject (Some 6%positive)) cache = Some (o', h') /\ well_typed h'.
Proof.
  destruct (DeepCopyObject_typed cache (ListObject (Some 6%positive))) as (o' & h' & Hrun & Hw & _);
    [exact cache_typed|exists cached_list; vm_compute; reflexivity|discriminate|].
  exists o', h'. split; [exact Hrun|exact Hw].
Defined.

Definition cached_manager : RaftManager := NewRaftManager "db-0" cached_value 0 0.

Lemma record_status_refines_witness :
  exists h' c', record_status cached_manager (cluster_at 4) cache = Some (tt, h') /\
    cluster_value h' c' = Some (cluster_type, cached_value <| Status := statusOf cached_manager |>).
Proof.
  destruct (record_status_refines cached_manager cache 4 cached_cluster cluster_type)
    as (h' & c' & Hrun & _ & Hval); [vm_compute; reflexivity..|].
  exists h', c'. split; [exact Hrun|exact Hval].
Defined.

Lemma copy_shares_nodes_witness :
  exists p' h1 h2, MysqlCluster_DeepCopy (Some 4%positive) cache = Some (Some p', h1) /\
    record_status cached_manager (cluster_at p') h1 = Some (tt, h2) /\
    cluster_value h2 cached_cluster <> Some (cluster_type, cached_value).
Proof.
  destruct (copy_shares_nodes cached_manager cache 4 cached_cluster cluster_type cached_value)
    as (p' & h1 & h2 & Hrun & _ & Hrec & _ & Hval); [vm_compute; reflexivity..|].
  exists p', h1, h2. split; [exact Hrun|]. split; [exact Hrec|]. rewrite Hval. intros H.
  apply (f_equal (fmap (fun x => size (default ∅ (RaftNodes (Status (snd x))))))) in H.
  vm_compute in H. discriminate.
Defined.
