(* ===== verification/RaftSystem.v ===== *)
(** * The goroutines of one Raft manager, interleaved

    [raft.go] runs an election timer, a heartbeat timer, one goroutine per vote request and one per
    heartbeat, and offers two handlers.  A critical section of [rm.mu] is one step; a goroutine outside
    the lock ([sendVoteRequest], [sendAppendEntries]) takes two, one that reads the manager for its
    message and one that creates the ConfigMap, with the manager as it is at the time.  [apply]
    executes one event, [step] is the transition relation, [Cluster] puts several processes side by
    side.  [RaftThreads] has the goroutines as programs and proves that their interleavings are runs
    of this system. *)

From S2P Require Import Prelude GoLib Prog Types Kube Raft.

(** ** State *)

(** The variables one [startElection] call shares with the vote goroutines it starts. *)
Record Election := MkElection {
  el_votes : Z;
  el_majority : Z;
}.

(** The data of a message, [map[string]string]; a goroutine has none before it read the manager. *)
Notation message := (gmap string string).

(** [sending] are the vote goroutines that have not sent their request, with the election they
    belong to, their node and the request they made; [counting] those whose request was created and
    that wait for the lock; [beating] the heartbeat goroutines; [outbox] the ConfigMaps created so
    far. *)
Record Sys := MkSys {
  sys_rm : RaftManager;
  sys_elections : list Election;
  sys_sending : list (nat * (string * option message));
  sys_counting : list nat;
  sys_beating : list (string * option message);
  sys_outbox : list ConfigMap;
}.

#[export] Instance eta_Sys : Eta Sys := fun r =>
  MkSys (sys_rm r) (sys_elections r) (sys_sending r) (sys_counting r) (sys_beating r)
    (sys_outbox r).

Definition init_sys (rm : RaftManager) : Sys := MkSys rm [] [] [] [] [].

(** ** Events *)

Inductive Event : Type :=
| ElectionTimer (tested now : Time) (rnd : Z)
| HeartbeatTimer
| VoteRead (i : nat)
| VoteSend (i : nat) (created : bool) (unixNano : Z)
| VoteCount (i : nat) (reply : MysqlCluster -> result MysqlCluster)
| HeartbeatRead (i : nat)
| HeartbeatSend (i : nat) (created : bool) (unixNano : Z)
| VoteRequest (now : Time) (candidateId : string) (term lastLogIndex lastLogTerm : Z)
| AppendEntries (now : Time) (leaderId : string) (term prevLogIndex prevLogTerm : Z)
    (entries : list RaftLogEntry) (leaderCommit : Z)
| ForceElection
| StatusWrite (st : MysqlClusterStatus).

(** [HandleRaftBasedFailover] starts by making a manager that is not the leader a follower with a
    zero heartbeat time. *)
Definition forceElection (rm : RaftManager) : RaftManager :=
  if decide (rm_state rm <> RaftStateLeader)
  then rm <| rm_state := RaftStateFollower |> <| rm_lastHeartbeat := zero_time |> else rm.

(** What the goroutines are started with. *)
Definition new_votes (k : nat) (nodes : list string) : list (nat * (string * option message)) :=
  (fun node => (k, (node, None))) <$> nodes.
Definition new_beats (nodes : list string) : list (string * option message) :=
  (fun node => (node, None)) <$> nodes.

Definition post (created : bool) (cm : ConfigMap) (s : Sys) : Sys :=
  if created then s <| sys_outbox := sys_outbox s ++ [cm] |> else s.

(** The election timer reads the clock for its test and again for the new heartbeat time.  [StatusWrite]
    is the status of the shared cluster object being replaced, by the monitor or by the server's answer
    to an update.  One event; [None] when there is no such goroutine or a handler panics. *)
Definition apply (e : Event) (s : Sys) : option Sys :=
  let rm := sys_rm s in
  match e with
  | ElectionTimer tested now rnd =>
      if election_due tested rm then
        let '(rm', (majority, targets)) := startElection now rnd rm in
        Some (s <| sys_rm := rm' |>
                <| sys_elections := sys_elections s ++ [MkElection 1 majority] |>
                <| sys_sending := sys_sending s ++ new_votes (length (sys_elections s)) targets |>)
      else Some s
  | HeartbeatTimer =>
      if heartbeat_due rm then Some (s <| sys_beating := sys_beating s ++ new_beats (sendHeartbeats rm) |>)
      else Some s
  | VoteRead i =>
      '(k, (node, _)) ← sys_sending s !! i;
      Some (s <| sys_sending := <[i := (k, (node, Some (sendVoteRequest rm node)))]> (sys_sending s) |>)
  | VoteSend i created nano =>
      '(k, (node, data)) ← sys_sending s !! i;
      data ← data;
      let s' := s <| sys_sending := delete i (sys_sending s) |> in
      let s' := if created : bool then s' <| sys_counting := sys_counting s ++ [k] |> else s' in
      Some (post created (sendMessage nano rm node data) s')
  | VoteCount i reply =>
      k ← sys_counting s !! i;
      el ← sys_elections s !! k;
      let '(votes, (rm', beats)) := countVote reply (el_votes el) (el_majority el) rm in
      Some (s <| sys_rm := rm' |>
              <| sys_elections := <[k := MkElection votes (el_majority el)]> (sys_elections s) |>
              <| sys_counting := delete i (sys_counting s) |>
              <| sys_beating := sys_beating s ++ new_beats beats |>)
  | HeartbeatRead i =>
      '(node, _) ← sys_beating s !! i;
      match sendAppendEntries rm node [] with
      | Ok data => Some (s <| sys_beating := <[i := (node, Some data)]> (sys_beating s) |>)
      | _ => None
      end
  | HeartbeatSend i created nano =>
      '(node, data) ← sys_beating s !! i;
      data ← data;
      Some (post created (sendMessage nano rm node data) (s <| sys_beating := delete i (sys_beating s) |>))
  | VoteRequest now c term lli llt =>
      Some (s <| sys_rm := snd (HandleVoteRequest now c term lli llt rm) |>)
  | AppendEntries now l term prev prevTerm entries lc =>
      match HandleAppendEntries now l term prev prevTerm entries lc rm with
      | (Ok _, rm') => Some (s <| sys_rm := rm' |>)
      | _ => None
      end
  | ForceElection => Some (s <| sys_rm := forceElection rm |>)
  | StatusWrite st =>
      Some (s <| sys_rm := rm <| rm_cluster := (rm_cluster rm) <| Status := st |> |> |>)
  end.

(** [rand.Intn(150)] is at least 0 and below 150; the answer to a status update carries the spec and
    the metadata of the object sent. *)
Definition event_ok (e : Event) : Prop :=
  match e with
  | ElectionTimer _ _ rnd => 0 <= rnd < 150
  | VoteCount _ reply => forall c c', reply c = Success c' -> Spec c' = Spec c /\ mc_meta c' = mc_meta c
  | _ => True
  end.

(** A transition; the term counter has not reached the end of [int64]. *)
Inductive step (s s' : Sys) : Prop :=
| step_event e :
    event_ok e -> in_int64 (rm_currentTerm (sys_rm s) + 1) -> apply e s = Some s' -> step s s'.

(** The states of a process whose manager was made by [NewRaftManager] for [cluster]. *)
Definition reachable (id : string) (cluster : MysqlCluster) (s : Sys) : Prop :=
  exists rnd now, 0 <= rnd < 150 /\ rtc step (init_sys (NewRaftManager id cluster rnd now)) s.

(** ** Several processes *)

(** One process per node name.  No code of the operator reads the ConfigMaps another process creates,
    so the processes take their steps independently. *)
Notation Cluster := (gmap string Sys).

Inductive cluster_step (c c' : Cluster) : Prop :=
| cluster_step_node id s s' :
    c !! id = Some s -> step s s' -> c' = <[id := s']> c -> cluster_step c c'.

Definition init_cluster (cluster : MysqlCluster) (rnd : Z) (now : Time) (ids : list string) : Cluster :=
  list_to_map ((fun id => (id, init_sys (NewRaftManager id cluster rnd now))) <$> ids).

Definition leads (c : Cluster) (id : string) (term : Z) : Prop :=
  exists s, c !! id = Some s /\ rm_state (sys_rm s) = RaftStateLeader /\
            rm_currentTerm (sys_rm s) = term.

(** ** Requests *)

Definition is_vote_request (cm : ConfigMap) : bool :=
  bool_decide (cm_Data cm !! "type" = Some "vote_request").

(** A request of [id] for the vote of [node], labelled for that node. *)
Definition vote_request_to (id node : string) (cm : ConfigMap) : Prop :=
  cm_Data cm !! "type" = Some "vote_request" /\ cm_Data cm !! "candidateId" = Some id /\
  cm_Data cm !! "to" = Some node /\ (om_Labels (cm_meta cm) ≫= lookup "target-node") = Some node.

Definition requested (id : string) (outbox : list ConfigMap) (node : string) : Prop :=
  exists cm, cm ∈ outbox /\ vote_request_to id node cm.

(** In one of its elections the candidate [id] has its own vote and one for each of some other nodes
    of the cluster, no two the same, to each of which a vote request was created; together they are
    more than half of the nodes. *)
Definition majority_requested (id : string) (cluster : MysqlCluster) (els : list Election)
    (outbox : list ConfigMap) : Prop :=
  exists k el voters,
    els !! k = Some el /\ el_votes el = 1 + Z.of_nat (length voters) /\ NoDup voters /\
    (forall node, node ∈ voters ->
       node <> id /\ (exists i, 0 <= i < Replicas (Spec cluster) /\ node = node_name cluster i) /\
       requested id outbox node) /\
    Replicas (Spec cluster) < 2 * (1 + Z.of_nat (length voters)).

(** ** What the manager's methods leave alone *)

(** The node id and the parts of the cluster object that the set of nodes depends on. *)
Definition same_config (rm rm' : RaftManager) : Prop :=
  rm_nodeId rm' = rm_nodeId rm /\ Spec (rm_cluster rm') = Spec (rm_cluster rm) /\
  mc_meta (rm_cluster rm') = mc_meta (rm_cluster rm).

#[export] Instance same_config_preorder : PreOrder same_config.
Proof. split; [by intros ?|]. unfold same_config. intros ???. naive_solver congruence. Qed.

Lemma same_config_nodes rm rm' :
  same_config rm rm' -> getClusterNodes rm' = getClusterNodes rm /\ other_nodes rm' = other_nodes rm.
Proof.
  intros (Hid & Hspec & Hmeta). unfold other_nodes, getClusterNodes, node_name, cluster_Name.
  by rewrite Hid, Hspec, Hmeta.
Qed.

Lemma foldl_init_follower rm l :
  exists ni mi, foldl init_follower rm l = rm <| rm_nextIndex := ni |> <| rm_matchIndex := mi |>.
Proof.
  revert rm. induction l as [|node l IH]; intros rm; cbn.
  - exists (rm_nextIndex rm), (rm_matchIndex rm). by destruct rm.
  - destruct (IH (init_follower rm node)) as (ni & mi & ->). by exists ni, mi.
Qed.

Definition reply_ok (reply : MysqlCluster -> result MysqlCluster) : Prop :=
  forall c c', reply c = Success c' -> Spec c' = Spec c /\ mc_meta c' = mc_meta c.

Lemma updateClusterStatus_frame reply rm :
  reply_ok reply ->
  exists c, updateClusterStatus reply rm = rm <| rm_cluster := c |> /\
            Spec c = Spec (rm_cluster rm) /\ mc_meta c = mc_meta (rm_cluster rm).
Proof.
  intros Hr. unfold updateClusterStatus.
  set (rm1 := rm <| rm_cluster := _ |>). destruct (reply (rm_cluster rm1)) as [c|e] eqn:E.
  - exists c. destruct (Hr _ _ E) as [-> ->]. done.
  - by eexists.
Qed.

Lemma becomeLeader_frame reply rm :
  reply_ok reply ->
  exists c ni mi,
    fst (becomeLeader reply rm) =
      rm <| rm_state := RaftStateLeader |> <| rm_nextIndex := ni |> <| rm_matchIndex := mi |>
         <| rm_cluster := c |> /\
    Spec c = Spec (rm_cluster rm) /\ mc_meta c = mc_meta (rm_cluster rm).
Proof.
  intros Hr. unfold becomeLeader. cbn [fst].
  destruct (foldl_init_follower (rm <| rm_state := RaftStateLeader |>)
              (other_nodes (rm <| rm_state := RaftStateLeader |>))) as (ni & mi & ->).
  match goal with |- context [updateClusterStatus reply ?r] =>
    destruct (updateClusterStatus_frame reply r Hr) as (c & -> & ? & ?) end.
  by exists c, ni, mi.
Qed.

Lemma countVote_cases reply votes majority rm :
  countVote reply votes majority rm =
  (int64 (votes + 1),
   if decide (majority <= int64 (votes + 1) /\ rm_state rm = RaftStateCandidate)
   then becomeLeader reply rm else (rm, [])).
Proof. unfold countVote. case_bool_decide; case_decide; try done; tauto. Qed.

Lemma startElection_frame now rnd rm rm' maj targets :
  startElection now rnd rm = (rm', (maj, targets)) ->
  same_config rm rm' /\ rm_state rm' = RaftStateCandidate /\
  rm_currentTerm rm' = int64 (rm_currentTerm rm + 1) /\
  maj = Z.of_nat (length (getClusterNodes rm)) / 2 + 1 /\ targets = other_nodes rm.
Proof.
  intros E.
  assert (rm' = fst (startElection now rnd rm)) as -> by by rewrite E.
  assert (maj = fst (snd (startElection now rnd rm))) as -> by by rewrite E.
  assert (targets = snd (snd (startElection now rnd rm))) as -> by by rewrite E.
  unfold startElection. cbn [fst snd]. by split_and!.
Qed.

Lemma HandleVoteRequest_frame now c term lli llt rm :
  let rm' := snd (HandleVoteRequest now c term lli llt rm) in
  same_config rm rm' /\ rm_log rm' = rm_log rm /\ rm_commitIndex rm' = rm_commitIndex rm /\
  rm_currentTerm rm' = Z.max (rm_currentTerm rm) term /\
  rm_state rm' = (if decide (rm_currentTerm rm < term) then RaftStateFollower else rm_state rm).
Proof.
  rewrite HandleVoteRequest_eq. unfold same_config, step_down.
  repeat case_decide; cbn; split_and!; done || lia.
Qed.

Lemma HandleAppendEntries_frame now l term prev prevTerm entries lc rm :
  let rm' := snd (HandleAppendEntries now l term prev prevTerm entries lc rm) in
  same_config rm rm' /\ rm_currentTerm rm' = Z.max (rm_currentTerm rm) term /\
  rm_state rm' = (if decide (rm_currentTerm rm <= term) then RaftStateFollower else rm_state rm).
Proof.
  rewrite HandleAppendEntries_eq. unfold same_config, commit_to.
  destruct (decide (term < rm_currentTerm rm)); cbv zeta.
  { cbn. rewrite decide_False by lia. split_and!; done || lia. }
  rewrite (decide_True (P := rm_currentTerm rm <= term)) by lia.
  destruct (prev_entry_matches _ _ _) as [[]|]; repeat case_decide; cbn; split_and!; done || lia.
Qed.

Lemma sendAppendEntries_total rm node entries : exists data, sendAppendEntries rm node entries = Ok data.
Proof.
  unfold sendAppendEntries. set (p := int64 _). case_decide as Hp; [|by eexists].
  destruct (lookup_lt_is_Some_2 (rm_log rm) (Z.to_nat (p - 1))) as [e ->]; [unfold log_len in *; lia|].
  by eexists.
Qed.

#[export] Hint Resolve sendAppendEntries_total : go.

(** ** The manager's part of a step *)

Inductive rm_step (rm rm' : RaftManager) : Prop :=
| rm_same : rm' = rm -> rm_step rm rm'
| rm_elect tested now rnd :
    election_due tested rm = true -> rm' = fst (startElection now rnd rm) -> rm_step rm rm'
| rm_lead reply :
    reply_ok reply -> rm_state rm = RaftStateCandidate -> rm' = fst (becomeLeader reply rm) ->
    rm_step rm rm'
| rm_vote now c term lli llt :
    rm' = snd (HandleVoteRequest now c term lli llt rm) -> rm_step rm rm'
| rm_append now l term prev prevTerm entries lc :
    rm' = snd (HandleAppendEntries now l term prev prevTerm entries lc rm) -> rm_step rm rm'
| rm_force : rm' = forceElection rm -> rm_step rm rm'
| rm_status st : rm' = rm <| rm_cluster := (rm_cluster rm) <| Status := st |> |> -> rm_step rm rm'.

Lemma apply_rm_step e s s' : event_ok e -> apply e s = Some s' -> rm_step (sys_rm s) (sys_rm s').
Proof.
  destruct e as [tested now rnd| |i|i created nano|i reply|i|i created nano|now c term lli llt
    |now l term prev prevTerm entries lc| |st]; intros Hok; cbn [apply event_ok] in *.
  - destruct (election_due tested (sys_rm s)) eqn:Hd; [|intros [= <-]; by apply rm_same].
    destruct (startElection now rnd (sys_rm s)) as [rm' [maj targets]] eqn:E.
    intros [= <-]. eapply rm_elect; [done|]. by rewrite E.
  - destruct (heartbeat_due (sys_rm s)); intros [= <-]; by apply rm_same.
  - intros ([k [node data]] & Hi & [= <-])%bind_Some. by apply rm_same.
  - intros ([k [node data]] & Hi & (d & _ & H)%bind_Some)%bind_Some. unfold post in H.
    destruct created; injection H as <-; by apply rm_same.
  - intros (k & Hi & (el & Hk & H)%bind_Some)%bind_Some. rewrite countVote_cases in H.
    case_decide as Hlead.
    + destruct (becomeLeader reply (sys_rm s)) as [rm' beats] eqn:E. injection H as <-.
      eapply rm_lead; [done|tauto|by rewrite E].
    + injection H as <-. by apply rm_same.
  - intros ([node data] & Hi & H)%bind_Some. destruct (sendAppendEntries _ _ _); try done.
    injection H as <-. by apply rm_same.
  - intros ([node data] & Hi & (d & _ & H)%bind_Some)%bind_Some. unfold post in H.
    destruct created; injection H as <-; by apply rm_same.
  - intros [= <-]. by eapply rm_vote.
  - destruct (HandleAppendEntries _ _ _ _ _ _ _ _) as [[] rm'] eqn:E; try done.
    intros [= <-]. eapply rm_append. by rewrite E.
  - intros [= <-]. by apply rm_force.
  - intros [= <-]. by eapply rm_status.
Qed.

Lemma rm_step_config rm rm' : rm_step rm rm' -> same_config rm rm'.
Proof.
  destruct 1 as [->|tested now rnd _ ->|reply Hr _ ->|? ? ? ? ? ->|? ? ? ? ? ? ? ->| -> |st ->].
  - done.
  - done.
  - destruct (becomeLeader_frame reply rm Hr) as (c & ni & mi & -> & Hs & Hm). by split_and!.
  - apply HandleVoteRequest_frame.
  - apply HandleAppendEntries_frame.
  - unfold forceElection. by case_decide.
  - done.
Qed.

Lemma step_config s s' : step s s' -> same_config (sys_rm s) (sys_rm s').
Proof. intros [e Hok _ He]. eapply rm_step_config, apply_rm_step; done. Qed.

Lemma steps_config s s' : rtc step s s' -> same_config (sys_rm s) (sys_rm s').
Proof. induction 1 as [|s1 s2 s3 H12 _ IH]; [done|]. etrans; [by apply step_config|done]. Qed.

Lemma step_term s s' :
  step s s' -> rm_currentTerm (sys_rm s) <= rm_currentTerm (sys_rm s').
Proof.
  intros [e Hok Hterm He]. apply apply_rm_step in He; [|done].
  destruct He as [->|tested now rnd _ ->|reply Hr _ ->|? ? ? ? ? ->|? ? ? ? ? ? ? ->| -> |st ->].
  - done.
  - cbn. rewrite int64_id by done. lia.
  - destruct (becomeLeader_frame reply (sys_rm s) Hr) as (c & ni & mi & -> & _). done.
  - destruct (HandleVoteRequest_frame now c term lli llt (sys_rm s)) as (_ & _ & _ & -> & _). lia.
  - destruct (HandleAppendEntries_frame now l term prev prevTerm entries lc (sys_rm s)) as (_ & -> & _). lia.
  - unfold forceElection. by case_decide.
  - done.
Qed.

(** The term of a manager never goes back, whatever the goroutines do and whatever arguments the
    handlers are called with. *)
Theorem term_monotone s s' :
  rtc step s s' -> rm_currentTerm (sys_rm s) <= rm_currentTerm (sys_rm s').
Proof.
  induction 1 as [|s1 s2 s3 H12 _ IH]; [done|]. pose proof (step_term s1 s2 H12). lia.
Qed.

(** A new election: the term goes up by one, the process votes for itself, and the count of the
    election starts with that vote. *)
Definition starts_election (s s' : Sys) : Prop :=
  rm_currentTerm (sys_rm s') = rm_currentTerm (sys_rm s) + 1 /\
  rm_votedFor (sys_rm s') = rm_nodeId (sys_rm s) /\
  exists majority, sys_elections s' = sys_elections s ++ [MkElection 1 majority].

(** Every step starts an election or leaves the list of them as long as it is, and then makes no
    candidate. *)
Definition no_election (s s' : Sys) : Prop :=
  length (sys_elections s') = length (sys_elections s) /\
  (rm_state (sys_rm s') = RaftStateCandidate ->
   rm_state (sys_rm s) = RaftStateCandidate /\ rm_currentTerm (sys_rm s') = rm_currentTerm (sys_rm s)).

Lemma no_election_same s s' :
  sys_rm s' = sys_rm s -> sys_elections s' = sys_elections s -> no_election s s'.
Proof. intros Hrm He. split; [by rewrite He|]. by rewrite Hrm. Qed.

Lemma step_election s s' :
  step s s' ->
  (rm_state (sys_rm s) <> RaftStateLeader /\ rm_state (sys_rm s') = RaftStateCandidate /\
   starts_election s s') \/ no_election s s'.
Proof.
  intros [e Hok Hterm He].
  destruct e as [tested now rnd| |i|i created nano|i reply|i|i created nano|now c term lli llt
    |now l term prev prevTerm entries lc| |st]; cbn [apply event_ok] in *.
  - destruct (election_due tested (sys_rm s)) eqn:Hdue; [|injection He as <-; right; by apply no_election_same].
    injection He as <-. left. unfold election_due in Hdue.
    apply andb_true_iff in Hdue as [Hs%bool_decide_eq_true _].
    split_and!; [done..|]. split_and!; [cbn; by rewrite int64_id|done|by eexists].
  - right. destruct (heartbeat_due (sys_rm s)); injection He as <-; by apply no_election_same.
  - right. apply bind_Some in He as ([k [node data]] & _ & [= <-]). by apply no_election_same.
  - right. apply bind_Some in He as ([k [node data]] & _ & (d & _ & He)%bind_Some). unfold post in He.
    destruct created; injection He as <-; by apply no_election_same.
  - right. apply bind_Some in He as (k & _ & (el & _ & He)%bind_Some). rewrite countVote_cases in He.
    case_decide; [|injection He as <-; split; [apply length_insert|done]].
    destruct (becomeLeader_frame reply (sys_rm s) Hok) as (c & ni & mi & Hf & _).
    destruct (becomeLeader reply (sys_rm s)) as [rm' beats]. cbn [fst] in Hf. subst rm'.
    injection He as <-. split; [apply length_insert|done].
  - right. apply bind_Some in He as ([node data] & _ & He). destruct (sendAppendEntries _ _ _); try done.
    injection He as <-. by apply no_election_same.
  - right. apply bind_Some in He as ([node data] & _ & (d & _ & He)%bind_Some). unfold post in He.
    destruct created; injection He as <-; by apply no_election_same.
  - right. injection He as <-. split; [done|].
    destruct (HandleVoteRequest_frame now c term lli llt (sys_rm s)) as (_ & _ & _ & Ht & Hst).
    cbn [sys_rm field_update]. rewrite Hst, Ht. case_decide; [done|]. intros ->. split; [done|lia].
  - right. destruct (HandleAppendEntries_frame now l term prev prevTerm entries lc (sys_rm s)) as (_ & Ht & Hst).
    destruct (HandleAppendEntries _ _ _ _ _ _ _ _) as [[] rm'] eqn:E; try done. injection He as <-.
    split; [done|]. cbn in Ht, Hst |- *. rewrite Hst, Ht. case_decide; [done|]. intros ->. split; [done|lia].
  - right. injection He as <-. split; [done|]. cbn [sys_rm field_update]. unfold forceElection. by case_decide.
  - right. injection He as <-. split; [done|]. done.
Qed.

Lemma step_leader s s' :
  step s s' -> rm_state (sys_rm s') = RaftStateLeader ->
  rm_state (sys_rm s) <> RaftStateFollower /\ rm_currentTerm (sys_rm s') = rm_currentTerm (sys_rm s).
Proof.
  intros [e Hok Hterm He] Hlead. apply apply_rm_step in He; [|done].
  destruct He as [E|tested now rnd Hdue E|reply Hr Hc E|now c term lli llt E
    |now l term prev prevTerm entries lc E|E|st E]; rewrite E in *; clear E.
  - by rewrite Hlead.
  - done.
  - rewrite Hc. destruct (becomeLeader_frame reply (sys_rm s) Hr) as (c & ni & mi & -> & _). done.
  - destruct (HandleVoteRequest_frame now c term lli llt (sys_rm s)) as (_ & _ & _ & -> & Hst).
    rewrite Hst in Hlead. case_decide; [done|]. rewrite Hlead. split; [done|lia].
  - destruct (HandleAppendEntries_frame now l term prev prevTerm entries lc (sys_rm s)) as (_ & -> & Hst).
    rewrite Hst in Hlead. case_decide; [done|]. rewrite Hlead. split; [done|lia].
  - unfold forceElection in *. case_decide; [done|]. by rewrite Hlead.
  - cbn in *. by rewrite Hlead.
Qed.

(** C9: roles change as in Raft's state diagram, with these changes of the term: a follower becomes a
    candidate only by starting an election, which takes the term up by exactly one, votes for
    itself and opens a count; a candidate that stays one either starts a new election in the same
    way or keeps its term and opens no count; a leader comes from a candidate of the same term or
    stays leader in its term; a follower never becomes leader and a leader never a candidate; and
    whoever becomes or stays a follower does not go back in term and starts no election. *)
Theorem role_transitions s s' :
  step s s' ->
  match rm_state (sys_rm s), rm_state (sys_rm s') with
  | RaftStateFollower, RaftStateLeader => False
  | RaftStateLeader, RaftStateCandidate => False
  | RaftStateFollower, RaftStateCandidate => starts_election s s'
  | RaftStateCandidate, RaftStateCandidate =>
      starts_election s s' \/
      (rm_currentTerm (sys_rm s') = rm_currentTerm (sys_rm s) /\
       length (sys_elections s') = length (sys_elections s))
  | (RaftStateCandidate | RaftStateLeader), RaftStateLeader =>
      rm_currentTerm (sys_rm s') = rm_currentTerm (sys_rm s) /\
      length (sys_elections s') = length (sys_elections s)
  | _, RaftStateFollower =>
      rm_currentTerm (sys_rm s) <= rm_currentTerm (sys_rm s') /\
      length (sys_elections s') = length (sys_elections s)
  end.
Proof.
  intros Hstep. pose proof (step_term s s' Hstep) as Hmono. pose proof (step_leader s s' Hstep) as Hlead.
  destruct (step_election s s' Hstep) as [(Hold & Hnew & Helect)|[Hlen Hcand]].
  - rewrite Hnew. destruct (rm_state (sys_rm s)); auto.
  - destruct (rm_state (sys_rm s)), (rm_state (sys_rm s')); try tauto; naive_solver.
Qed.

(** ** Votes and requests

    An election has [votes]; [pending] of its goroutines have had their request created and wait to
    count it, and those for the nodes in [asked] have not sent theirs.  Behind every vote but the
    candidate's own and behind every pending goroutine there is a node of the cluster that was sent a
    request, and all these nodes are different. *)
Definition voters_ok (id : string) (nodes : list string) (outbox : list ConfigMap) (votes : Z)
    (pending : nat) (asked : list string) : Prop :=
  exists voted waiting,
    votes = 1 + Z.of_nat (length voted) /\ length waiting = pending /\
    NoDup (voted ++ waiting ++ asked) /\
    (forall node, node ∈ voted ++ waiting ++ asked -> node ∈ nodes /\ node <> id) /\
    (forall node, node ∈ voted ++ waiting -> requested id outbox node).

Section voters.
Context (id : string) (nodes : list string).

Lemma voters_new outbox targets :
  NoDup targets -> (forall node, node ∈ targets -> node ∈ nodes /\ node <> id) ->
  voters_ok id nodes outbox 1 0 targets.
Proof. intros Hnd Ht. exists [], []. split_and!; try done. intros node Hnode. by inversion Hnode. Qed.

Lemma voters_mono outbox outbox' votes pending asked asked' :
  asked ≡ₚ asked' -> outbox ⊆ outbox' ->
  voters_ok id nodes outbox votes pending asked -> voters_ok id nodes outbox' votes pending asked'.
Proof.
  intros Hp Hsub (voted & waiting & Hv & Hw & Hnd & Hin & Hreq). exists voted, waiting.
  setoid_rewrite <-Hp. split_and!; try done.
  intros node Hnode. destruct (Hreq node Hnode) as (cm & Hcm & ?). exists cm. auto.
Qed.

(** A request that was not created is never counted. *)
Lemma voters_drop outbox votes pending node asked :
  voters_ok id nodes outbox votes pending (node :: asked) -> voters_ok id nodes outbox votes pending asked.
Proof.
  intros (voted & waiting & Hv & Hw & Hnd & Hin & Hreq). exists voted, waiting.
  assert (voted ++ waiting ++ node :: asked ≡ₚ node :: voted ++ waiting ++ asked) as Hp by solve_Permutation.
  rewrite Hp in Hnd. apply NoDup_cons in Hnd as [_ Hnd]. split_and!; try done.
  intros x Hx. apply Hin. rewrite Hp. by right.
Qed.

Lemma voters_send outbox votes pending node asked :
  requested id outbox node ->
  voters_ok id nodes outbox votes pending (node :: asked) ->
  voters_ok id nodes outbox votes (S pending) asked.
Proof.
  intros Hnode (voted & waiting & Hv & Hw & Hnd & Hin & Hreq). exists voted, (node :: waiting).
  assert (voted ++ (node :: waiting) ++ asked ≡ₚ voted ++ waiting ++ node :: asked) as Hp
    by solve_Permutation.
  setoid_rewrite Hp. split_and!; try done; [cbn; by f_equal|].
  intros x. rewrite elem_of_app, elem_of_cons. intros [Hx|[->|Hx]]; [|done|];
    apply Hreq, elem_of_app; auto.
Qed.

Lemma voters_count outbox votes pending asked :
  voters_ok id nodes outbox votes (S pending) asked ->
  voters_ok id nodes outbox (votes + 1) pending asked.
Proof.
  intros (voted & [|node waiting] & Hv & Hw & Hnd & Hin & Hreq); [done|].
  exists (voted ++ [node]), waiting. injection Hw as Hw. rewrite <-!app_assoc, length_app.
  split_and!; try done. cbn. lia.
Qed.

Lemma voters_bound outbox votes pending asked :
  voters_ok id nodes outbox votes pending asked ->
  1 <= votes /\ votes + Z.of_nat pending <= Z.of_nat (length nodes) + 1.
Proof.
  intros (voted & waiting & -> & <- & Hnd & Hin & _).
  assert (length (voted ++ waiting ++ asked) <= length nodes)%nat as Hle.
  { apply submseteq_length, NoDup_submseteq; [done|]. intros x Hx. by apply Hin. }
  rewrite !length_app in Hle. lia.
Qed.

End voters.

(** A message that was made is a vote request for its goroutine's node. *)
Definition made (id : string) (p : string * option message) : Prop :=
  match snd p with
  | Some d => d !! "type" = Some "vote_request" /\ d !! "candidateId" = Some id /\ d !! "to" = Some (fst p)
  | None => True
  end.

Lemma made_request nano rm id node data :
  made id (node, Some data) -> vote_request_to id node (sendMessage nano rm node data).
Proof. by intros (Ht & Hc & Hto). Qed.

(** The nodes of the goroutines of election [k] that have not sent their request. *)
Definition asked (k : nat) (sending : list (nat * (string * option message))) : list string :=
  (fun p => fst (snd p)) <$> filter (fun p => k = fst p) sending.

Definition pending (k : nat) (counting : list nat) : nat := length (filter (eq k) counting).

#[local] Arguments asked : simpl never.
#[local] Arguments pending : simpl never.

Lemma asked_perm k l1 l2 : l1 ≡ₚ l2 -> asked k l1 ≡ₚ asked k l2.
Proof. intros H. unfold asked. by rewrite H. Qed.

Lemma asked_app k l1 l2 : asked k (l1 ++ l2) = asked k l1 ++ asked k l2.
Proof. unfold asked. by rewrite filter_app, fmap_app. Qed.

Lemma asked_new k k' targets : asked k (new_votes k' targets) = if decide (k = k') then targets else [].
Proof.
  unfold asked, new_votes. induction targets as [|t ts IH]; [by case_decide|].
  cbn [fmap list_fmap]. rewrite filter_cons. cbn [fst]. case_decide; cbn; [by rewrite IH|done].
Qed.

Lemma asked_none k sending : Forall (fun p => (fst p < k)%nat) sending -> asked k sending = [].
Proof.
  intros H. unfold asked. rewrite filter_none; [done|]. eapply Forall_impl; [exact H|]. cbn. lia.
Qed.

Lemma asked_delete k sending i k' node data :
  sending !! i = Some (k', (node, data)) ->
  asked k sending ≡ₚ (if decide (k = k') then [node] else []) ++ asked k (delete i sending).
Proof.
  intros Hi%delete_Permutation. etrans; [apply asked_perm, Hi|]. unfold asked.
  rewrite filter_cons. cbn [fst]. by case_decide.
Qed.

Lemma asked_insert k sending i k' node data data' :
  sending !! i = Some (k', (node, data)) ->
  asked k (<[i := (k', (node, data'))]> sending) = asked k sending.
Proof.
  unfold asked. revert i. induction sending as [|p sending IH]; intros [|i] Hi; cbn in Hi; cbn [insert list_insert]; [done..| |].
  - injection Hi as ->. rewrite !filter_cons. cbn. by case_decide.
  - rewrite !filter_cons. specialize (IH i Hi). case_decide; [apply (f_equal (cons (fst (snd p))) IH)|apply IH].
Qed.

Lemma pending_app k l k' : pending k (l ++ [k']) = (pending k l + if decide (k = k') then 1 else 0)%nat.
Proof. unfold pending. rewrite filter_app, length_app, filter_cons. by case_decide. Qed.

Lemma pending_none k l : Forall (fun k' => (k' < k)%nat) l -> pending k l = 0%nat.
Proof.
  intros H. unfold pending. rewrite filter_none; [done|]. eapply Forall_impl; [exact H|]. cbn. lia.
Qed.

Lemma pending_delete k l i k' :
  l !! i = Some k' -> pending k l = ((if decide (k = k') then 1 else 0) + pending k (delete i l))%nat.
Proof.
  intros Hi%delete_Permutation. unfold pending.
  assert (filter (eq k) l ≡ₚ filter (eq k) (k' :: delete i l)) as ->%Permutation_length by by rewrite <-Hi.
  rewrite filter_cons. by case_decide.
Qed.

Record count_inv (id : string) (nodes : list string) (s : Sys) : Prop := {
  ci_nodeId : rm_nodeId (sys_rm s) = id;
  ci_nodes : getClusterNodes (sys_rm s) = nodes;
  ci_majority : Forall (fun el => el_majority el = Z.of_nat (length nodes) / 2 + 1) (sys_elections s);
  ci_sending : Forall (fun p => (fst p < length (sys_elections s))%nat /\ made id (snd p)) (sys_sending s);
  ci_counting : Forall (fun k => (k < length (sys_elections s))%nat) (sys_counting s);
  ci_voters k el : sys_elections s !! k = Some el ->
    voters_ok id nodes (sys_outbox s) (el_votes el) (pending k (sys_counting s)) (asked k (sys_sending s));
  ci_leader : rm_state (sys_rm s) = RaftStateLeader ->
              Exists (fun el => el_majority el <= el_votes el) (sys_elections s);
}.

Lemma same_config_inv rm rm' id nodes :
  same_config rm rm' -> rm_nodeId rm = id -> getClusterNodes rm = nodes ->
  rm_nodeId rm' = id /\ getClusterNodes rm' = nodes.
Proof. intros Hc <- <-. split; [by destruct Hc|]. by apply same_config_nodes. Qed.

(** Events that leave the elections and the vote goroutines alone, and make no leader. *)
Lemma count_inv_frame id nodes s s' :
  count_inv id nodes s -> same_config (sys_rm s) (sys_rm s') ->
  sys_elections s' = sys_elections s -> sys_sending s' = sys_sending s ->
  sys_counting s' = sys_counting s -> sys_outbox s ⊆ sys_outbox s' ->
  (rm_state (sys_rm s') = RaftStateLeader -> rm_state (sys_rm s) = RaftStateLeader) ->
  count_inv id nodes s'.
Proof.
  intros [Hid Hn Hm Hs Hc Hv Hl] Hcfg He Es Ec Ho Hlead.
  destruct (same_config_inv _ _ _ _ Hcfg Hid Hn) as [Hid' Hn'].
  split; rewrite ?He, ?Es, ?Ec; try done; [|tauto].
  intros k el Hk. eapply voters_mono; [done|exact Ho|by apply Hv].
Qed.

Lemma other_nodes_targets rm :
  NoDup (other_nodes rm) /\
  forall node, node ∈ other_nodes rm -> node ∈ getClusterNodes rm /\ node <> rm_nodeId rm.
Proof.
  unfold other_nodes. split; [by apply NoDup_filter, NoDup_getClusterNodes|].
  intros node [? ?]%list_elem_of_filter. done.
Qed.

Lemma count_inv_elect id nodes s now rnd rm' maj targets :
  count_inv id nodes s -> startElection now rnd (sys_rm s) = (rm', (maj, targets)) ->
  count_inv id nodes (s <| sys_rm := rm' |>
                 <| sys_elections := sys_elections s ++ [MkElection 1 maj] |>
                 <| sys_sending := sys_sending s ++ new_votes (length (sys_elections s)) targets |>).
Proof.
  intros [Hid Hn Hmaj Hs Hc Hv Hl] (Hcfg & Hst & _ & -> & ->)%startElection_frame.
  destruct (same_config_inv _ _ _ _ Hcfg Hid Hn) as [Hid' Hn'].
  destruct (other_nodes_targets (sys_rm s)) as [Hnd Htargets]. rewrite Hid, Hn in Htargets.
  split; cbn; try done.
  - apply Forall_app_2; [done|]. constructor; [|done]. cbn. by rewrite Hn.
  - rewrite length_app; cbn. apply Forall_app_2.
    + eapply Forall_impl; [exact Hs|]. cbn. intros p [? ?]. split; [lia|done].
    + apply Forall_fmap, Forall_true. intros t. cbn. split; [lia|done].
  - rewrite length_app; cbn. eapply Forall_impl; [exact Hc|]. cbn. lia.
  - intros k el Hk. rewrite asked_app, asked_new. apply lookup_app_Some in Hk as [Hk|[Hk1 Hk2]].
    + pose proof (lookup_lt_Some _ _ _ Hk). rewrite decide_False by lia. rewrite app_nil_r. by apply Hv.
    + apply list_lookup_singleton_Some in Hk2 as [Hk2 <-].
      assert (k = length (sys_elections s)) as -> by lia. rewrite decide_True by done.
      rewrite pending_none by done. rewrite asked_none; [by apply voters_new|].
      eapply Forall_impl; [exact Hs|]. cbn. tauto.
  - by rewrite Hst.
Qed.

Lemma count_inv_read id nodes s i k node data d :
  count_inv id nodes s -> sys_sending s !! i = Some (k, (node, data)) -> made id (node, d) ->
  count_inv id nodes (s <| sys_sending := <[i := (k, (node, d))]> (sys_sending s) |>).
Proof.
  intros [Hid Hn Hmaj Hs Hc Hv Hl] Hi Hd. split; cbn; try done.
  - apply Forall_insert; [done|]. split; [|done]. apply (Forall_lookup_1 _ _ _ _ Hs Hi).
  - intros k0 el Hk. rewrite (asked_insert _ _ _ _ _ _ _ Hi). by apply Hv.
Qed.

Lemma count_inv_send id nodes s i k node data (created : bool) cm :
  count_inv id nodes s -> sys_sending s !! i = Some (k, (node, data)) -> vote_request_to id node cm ->
  let s' := s <| sys_sending := delete i (sys_sending s) |> in
  let s' := if created then s' <| sys_counting := sys_counting s ++ [k] |> else s' in
  count_inv id nodes (post created cm s').
Proof.
  intros [Hid Hn Hmaj Hs Hc Hv Hl] Hi Hcm.
  assert (k < length (sys_elections s))%nat as Hk by apply (Forall_lookup_1 _ _ _ _ Hs Hi).
  assert (forall outbox k0 el, sys_elections s !! k0 = Some el -> sys_outbox s ⊆ outbox ->
    voters_ok id nodes outbox (el_votes el) (pending k0 (sys_counting s))
      ((if decide (k0 = k) then [node] else []) ++ asked k0 (delete i (sys_sending s)))) as Hv'.
  { intros outbox k0 el Hk0 Hsub. eapply voters_mono; [by eapply asked_delete|exact Hsub|by apply Hv]. }
  destruct created; cbn; split; cbn; try done; try by apply Forall_delete.
  - apply Forall_app_2; [done|]. by constructor.
  - intros k0 el Hk0. rewrite pending_app.
    specialize (Hv' (sys_outbox s ++ [cm]) k0 el Hk0 ltac:(set_solver)).
    case_decide; [|by rewrite Nat.add_0_r]. rewrite Nat.add_1_r. eapply voters_send; [|exact Hv'].
    exists cm. split; [set_solver|done].
  - intros k0 el Hk0. specialize (Hv' (sys_outbox s) k0 el Hk0 ltac:(done)).
    case_decide; [by eapply voters_drop|done].
Qed.

(** A counted vote, with whatever the test that follows makes of the manager. *)
Lemma count_inv_counted id nodes s i k el rm' beats :
  count_inv id nodes s -> sys_counting s !! i = Some k -> sys_elections s !! k = Some el ->
  same_config (sys_rm s) rm' ->
  (rm_state rm' = RaftStateLeader ->
   rm_state (sys_rm s) = RaftStateLeader \/ el_majority el <= el_votes el + 1) ->
  count_inv id nodes (s <| sys_rm := rm' |>
    <| sys_elections := <[k := MkElection (el_votes el + 1) (el_majority el)]> (sys_elections s) |>
    <| sys_counting := delete i (sys_counting s) |>
    <| sys_beating := sys_beating s ++ new_beats beats |>).
Proof.
  intros [Hid Hn Hmaj Hs Hc Hv Hl] Hi Hk Hcfg Hlead. pose proof (lookup_lt_Some _ _ _ Hk) as Hlt.
  destruct (same_config_inv _ _ _ _ Hcfg Hid Hn) as [Hid' Hn'].
  set (el' := MkElection (el_votes el + 1) (el_majority el)).
  assert (el' ∈ <[k := el']> (sys_elections s)) as Hin
    by (apply list_elem_of_lookup; exists k; by apply list_lookup_insert_eq).
  split; cbn; rewrite ?length_insert; try done; try by apply Forall_delete.
  - apply Forall_insert; [done|]. cbn. by apply (proj1 (Forall_lookup _ _) Hmaj _ _ Hk).
  - intros k0 el0 Hk0. destruct (decide (k0 = k)) as [->|Hne].
    + rewrite list_lookup_insert_eq in Hk0 by done. simplify_eq. cbn. apply voters_count.
      specialize (Hv k el Hk). rewrite (pending_delete _ _ _ _ Hi), decide_True in Hv by done. exact Hv.
    + rewrite list_lookup_insert_ne in Hk0 by done. specialize (Hv k0 el0 Hk0).
      by rewrite (pending_delete _ _ _ _ Hi), decide_False in Hv.
  - intros [Hold|Hnew]%Hlead; apply Exists_exists; [|by exists el'].
    apply Hl, Exists_exists in Hold as (el0 & [k0 Hk0]%list_elem_of_lookup & Hm).
    destruct (decide (k0 = k)) as [->|Hne]; [exists el'; simplify_eq; split; [done|cbn; lia]|].
    exists el0. split; [|done]. apply list_elem_of_lookup. exists k0. by rewrite list_lookup_insert_ne.
Qed.

Lemma count_inv_count id nodes s i k el (reply : MysqlCluster -> result MysqlCluster) :
  Z.of_nat (length nodes) <= 2 ^ 31 -> reply_ok reply ->
  count_inv id nodes s -> sys_counting s !! i = Some k -> sys_elections s !! k = Some el ->
  let '(votes, (rm', beats)) := countVote reply (el_votes el) (el_majority el) (sys_rm s) in
  count_inv id nodes (s <| sys_rm := rm' |>
                 <| sys_elections := <[k := MkElection votes (el_majority el)]> (sys_elections s) |>
                 <| sys_counting := delete i (sys_counting s) |>
                 <| sys_beating := sys_beating s ++ new_beats beats |>).
Proof.
  intros Hrange Hr Hinv Hi Hk. rewrite countVote_cases.
  assert (int64 (el_votes el + 1) = el_votes el + 1) as Hv1.
  { destruct (voters_bound _ _ _ _ _ _ (ci_voters _ _ _ Hinv k el Hk)).
    apply int64_id. unfold in_int64. lia. }
  rewrite Hv1. case_decide as Hlead; [|by apply count_inv_counted; [done..|left]].
  destruct (becomeLeader_frame reply (sys_rm s) Hr) as (c & ni & mi & Hf & Hsp & Hm).
  destruct (becomeLeader reply (sys_rm s)) as [rm' beats]. cbn in Hf.
  apply count_inv_counted; [done..| |intros _; right; apply Hlead]. by subst rm'.
Qed.

Lemma count_inv_rm id nodes s rm' :
  count_inv id nodes s -> same_config (sys_rm s) rm' ->
  (rm_state rm' = RaftStateLeader -> rm_state (sys_rm s) = RaftStateLeader) ->
  count_inv id nodes (s <| sys_rm := rm' |>).
Proof. intros Hinv Hcfg Hl. by eapply count_inv_frame. Qed.

Lemma count_inv_apply id nodes e s s' :
  Z.of_nat (length nodes) <= 2 ^ 31 -> event_ok e -> count_inv id nodes s -> apply e s = Some s' ->
  count_inv id nodes s'.
Proof.
  destruct e as [tested now rnd| |i|i created nano|i reply|i|i created nano|now c term lli llt
    |now l term prev prevTerm entries lc| |st]; intros Hn Hok Hinv; cbn [apply event_ok] in *.
  - destruct (election_due tested (sys_rm s)); [|by intros [= <-]].
    destruct (startElection now rnd (sys_rm s)) as [rm' [maj targets]] eqn:E.
    intros [= <-]. by eapply count_inv_elect.
  - destruct (heartbeat_due (sys_rm s)); intros [= <-]; [|done]. by eapply count_inv_frame.
  - intros ([k [node data]] & Hi & [= <-])%bind_Some. eapply count_inv_read; [done|exact Hi|].
    unfold made. cbn [snd fst]. by rewrite <-(ci_nodeId _ _ _ Hinv).
  - intros ([k [node data]] & Hi & (d & -> & [= <-])%bind_Some)%bind_Some.
    apply (count_inv_send id nodes s i k node (Some d) created); [done..|]. apply made_request.
    apply (Forall_lookup_1 _ _ _ _ (ci_sending _ _ s Hinv) Hi).
  - intros (k & Hi & (el & Hk & H)%bind_Some)%bind_Some.
    pose proof (count_inv_count id nodes s i k el reply Hn Hok Hinv Hi Hk) as Hc.
    destruct (countVote _ _ _ _) as [votes [rm' beats]]. by injection H as <-.
  - intros ([node data] & Hi & H)%bind_Some.
    destruct (sendAppendEntries (sys_rm s) node []) as [d| | |] eqn:E; try done. injection H as <-.
    by eapply count_inv_frame.
  - intros ([node data] & Hi & (d & -> & [= <-])%bind_Some)%bind_Some.
    unfold post. destruct created; (eapply count_inv_frame; [exact Hinv|done..| |done]); cbn; set_solver.
  - intros [= <-]. destruct (HandleVoteRequest_frame now c term lli llt (sys_rm s)) as (? & _ & _ & _ & Hs).
    apply count_inv_rm; [done..|]. rewrite Hs. by case_decide.
  - destruct (HandleAppendEntries_frame now l term prev prevTerm entries lc (sys_rm s)) as (? & _ & Hs).
    destruct (HandleAppendEntries _ _ _ _ _ _ _ _) as [[] rm'] eqn:E; try done. intros [= <-].
    apply count_inv_rm; [done..|]. cbn in Hs. rewrite Hs. by case_decide.
  - intros [= <-]. apply count_inv_rm; [done|unfold forceElection; by case_decide|].
    unfold forceElection. by case_decide.
  - intros [= <-]. by apply count_inv_rm.
Qed.

Lemma count_inv_init rm :
  rm_state rm = RaftStateFollower -> count_inv (rm_nodeId rm) (getClusterNodes rm) (init_sys rm).
Proof. intros Hs. split; cbn; try done. by rewrite Hs. Qed.

Definition cluster_nodes (cluster : MysqlCluster) : list string :=
  node_name cluster <$> seqZ 0 (Replicas (Spec cluster)).

Lemma length_cluster_nodes cluster :
  Z.of_nat (length (cluster_nodes cluster)) = Z.max 0 (Replicas (Spec cluster)).
Proof. unfold cluster_nodes. rewrite length_fmap, length_seqZ. lia. Qed.

Lemma count_inv_reachable id cluster s :
  valid_cluster cluster -> reachable id cluster s -> count_inv id (cluster_nodes cluster) s.
Proof.
  intros Hv (rnd & now & _ & Hsteps).
  assert (Z.of_nat (length (cluster_nodes cluster)) <= 2 ^ 31) as Hn
    by (rewrite length_cluster_nodes; unfold valid_cluster, in_int32 in Hv; lia).
  eapply (rtc_ind_r (count_inv id (cluster_nodes cluster))); [| |exact Hsteps].
  - by apply (count_inv_init (NewRaftManager id cluster rnd now)).
  - intros s1 s2 _ [e Hok _ He] Hinv. by eapply count_inv_apply.
Qed.

(** ** Consequences *)

(** A leader has created vote requests for a majority. *)
Lemma leader_majority id cluster s :
  valid_cluster cluster -> reachable id cluster s -> rm_state (sys_rm s) = RaftStateLeader ->
  majority_requested id cluster (sys_elections s) (sys_outbox s).
Proof.
  intros Hv Hreach Hlead. destruct (count_inv_reachable id cluster s Hv Hreach) as [_ _ Hmaj _ _ Hvotes Hl].
  apply Hl, Exists_exists in Hlead as (el & [k Hk]%list_elem_of_lookup & Hm).
  rewrite (proj1 (Forall_lookup _ _) Hmaj k el Hk) in Hm.
  destruct (Hvotes k el Hk) as (voted & waiting & Hvoted & _ & Hnd & Hin & Hreq).
  exists k, el, voted. apply NoDup_app in Hnd as (Hnd & _ & _). split_and!; try done.
  - intros node Hnode. destruct (Hin node) as [Hcl Hne]; [apply elem_of_app; by left|].
    split_and!; [done| |apply Hreq, elem_of_app; by left].
    unfold cluster_nodes in Hcl. apply list_elem_of_fmap in Hcl as (i & -> & Hi%elem_of_seqZ).
    exists i. split; [lia|done].
  - rewrite length_cluster_nodes in Hm.
    pose proof (Z.div_mod (Z.max 0 (Replicas (Spec cluster))) 2).
    pose proof (Z.mod_pos_bound (Z.max 0 (Replicas (Spec cluster))) 2). lia.
Qed.

(** C3: a leader has created vote requests for a majority of the nodes: in one of its elections it
    counted its own vote and one for each of some other nodes of the cluster, no two the same, and a
    vote request addressed to each of these nodes was created; with itself these are more than half
    of the nodes.  These are created requests; nobody needs to have granted anything. *)
Theorem leader_has_majority_of_requests id cluster s :
  valid_cluster cluster -> reachable id cluster s -> rm_state (sys_rm s) = RaftStateLeader ->
  majority_requested id cluster (sys_elections s) (sys_outbox s).
Proof. apply leader_majority. Qed.

(** A process never counts more votes in one election than the cluster has nodes plus one, so the
    counter does not overflow, and it starts every election with its own vote. *)
Lemma votes_bounded id cluster s k el :
  valid_cluster cluster -> reachable id cluster s -> sys_elections s !! k = Some el ->
  1 <= el_votes el <= Z.max 0 (Replicas (Spec cluster)) + 1 /\
  el_majority el = Z.max 0 (Replicas (Spec cluster)) / 2 + 1.
Proof.
  intros Hv Hreach Hk. destruct (count_inv_reachable id cluster s Hv Hreach) as [_ _ Hmaj _ _ Hvotes _].
  pose proof (voters_bound _ _ _ _ _ _ (Hvotes k el Hk)) as [? Hb].
  rewrite <-length_cluster_nodes. split; [lia|]. by apply (proj1 (Forall_lookup _ _) Hmaj k el Hk).
Qed.

(** C39: the vote of a term is kept: while the term stays the same, a recorded vote changes only by an
    [AppendEntries] call of that very term, and then to no vote. *)
Theorem vote_kept e s s' :
  event_ok e -> in_int64 (rm_currentTerm (sys_rm s) + 1) -> apply e s = Some s' ->
  rm_currentTerm (sys_rm s') = rm_currentTerm (sys_rm s) -> rm_votedFor (sys_rm s) <> "" ->
  rm_votedFor (sys_rm s') = rm_votedFor (sys_rm s) \/
  (rm_votedFor (sys_rm s') = "" /\
   exists now l prev prevTerm entries lc,
     e = AppendEntries now l (rm_currentTerm (sys_rm s)) prev prevTerm entries lc).
Proof.
  intros Hok Hterm He Hsame Hv.
  destruct e as [tested now rnd| |i|i created nano|i reply|i|i created nano|now c term lli llt
    |now l term prev prevTerm entries lc| |st]; cbn [apply event_ok] in *.
  - destruct (election_due tested (sys_rm s)); [|injection He as <-; by left].
    destruct (startElection now rnd (sys_rm s)) as [rm' [maj targets]] eqn:E.
    apply startElection_frame in E as (_ & _ & Ht & _). injection He as <-.
    cbn [sys_rm field_update] in Hsame. rewrite Hsame, int64_id in Ht by done. lia.
  - destruct (heartbeat_due (sys_rm s)); injection He as <-; by left.
  - apply bind_Some in He as ([k [node data]] & _ & [= <-]). by left.
  - apply bind_Some in He as ([k [node data]] & _ & (d & _ & He)%bind_Some). unfold post in He.
    destruct created; injection He as <-; by left.
  - apply bind_Some in He as (k & _ & (el & _ & He)%bind_Some). rewrite countVote_cases in He.
    case_decide; [|injection He as <-; by left].
    destruct (becomeLeader_frame reply (sys_rm s) Hok) as (c & ni & mi & Hf & _).
    destruct (becomeLeader reply (sys_rm s)) as [rm' beats]. cbn [fst] in Hf. subst rm'.
    injection He as <-. by left.
  - apply bind_Some in He as ([node data] & _ & He). destruct (sendAppendEntries _ _ _); try done.
    injection He as <-. by left.
  - apply bind_Some in He as ([node data] & _ & (d & _ & He)%bind_Some). unfold post in He.
    destruct created; injection He as <-; by left.
  - injection He as <-. left. apply HandleVoteRequest_vote; [|done].
    destruct (HandleVoteRequest_frame now c term lli llt (sys_rm s)) as (_ & _ & _ & Ht & _).
    cbn [sys_rm field_update] in Hsame. lia.
  - destruct (HandleAppendEntries_frame now l term prev prevTerm entries lc (sys_rm s)) as (_ & Ht & _).
    pose proof (HandleAppendEntries_vote now l term prev prevTerm entries lc (sys_rm s)) as Hvote.
    destruct (HandleAppendEntries _ _ _ _ _ _ _ _) as [[] rm'] eqn:E; try done.
    injection He as <-. cbn in Ht, Hvote, Hsame |- *. rewrite Hvote. case_decide; [by left|].
    right. split; [done|]. do 6 eexists. f_equal. lia.
  - injection He as <-. left. cbn [sys_rm field_update]. unfold forceElection. by case_decide.
  - injection He as <-. by left.
Qed.

(** A process that is the only node of its cluster starts no vote goroutine. *)
Record alone (s : Sys) : Prop := {
  al_others : other_nodes (sys_rm s) = [];
  al_sending : sys_sending s = [];
  al_counting : sys_counting s = [];
  al_state : rm_state (sys_rm s) <> RaftStateLeader;
}.

Lemma alone_rm s rm' :
  alone s -> same_config (sys_rm s) rm' -> (rm_state rm' = RaftStateLeader -> rm_state (sys_rm s) = RaftStateLeader) ->
  alone (s <| sys_rm := rm' |>).
Proof.
  intros [Ho Hs Hc Hl] [_ Heq]%same_config_nodes Himp. split; cbn; [by rewrite Heq|done..|tauto].
Qed.

Lemma alone_apply e s s' : event_ok e -> alone s -> apply e s = Some s' -> alone s'.
Proof.
  intros Hok Hal He. pose proof Hal as [Ho Hs Hc Hl].
  destruct e as [tested now rnd| |i|i created nano|i reply|i|i created nano|now c term lli llt
    |now l term prev prevTerm entries lc| |st]; cbn [apply event_ok] in *.
  - destruct (election_due tested (sys_rm s)); [|by injection He as <-].
    destruct (startElection now rnd (sys_rm s)) as [rm' [maj targets]] eqn:E.
    apply startElection_frame in E as (Hcfg & Hst & _ & _ & ->). injection He as <-.
    apply same_config_nodes in Hcfg as [_ Heq].
    split; cbn; [by rewrite Heq|by rewrite Hs, Ho|done|by rewrite Hst].
  - destruct (heartbeat_due (sys_rm s)); injection He as <-; [|done]. by split.
  - by rewrite Hs in He.
  - by rewrite Hs in He.
  - by rewrite Hc in He.
  - apply bind_Some in He as ([node data] & _ & He). destruct (sendAppendEntries _ _ _); try done.
    injection He as <-. by split.
  - apply bind_Some in He as ([node data] & _ & (d & _ & He)%bind_Some). unfold post in He.
    destruct created; injection He as <-; by split.
  - injection He as <-.
    destruct (HandleVoteRequest_frame now c term lli llt (sys_rm s)) as (? & _ & _ & _ & Hst).
    apply alone_rm; [done..|]. rewrite Hst. by case_decide.
  - destruct (HandleAppendEntries_frame now l term prev prevTerm entries lc (sys_rm s)) as (? & _ & Hst).
    destruct (HandleAppendEntries _ _ _ _ _ _ _ _) as [[] rm'] eqn:E; try done. injection He as <-.
    apply alone_rm; [done..|]. cbn in Hst. rewrite Hst. by case_decide.
  - injection He as <-. apply alone_rm; [done|unfold forceElection; by case_decide|].
    unfold forceElection. by case_decide.
  - injection He as <-. by apply alone_rm.
Qed.

Lemma other_nodes_single rm :
  Replicas (Spec (rm_cluster rm)) <= 1 -> rm_nodeId rm = node_name (rm_cluster rm) 0 ->
  other_nodes rm = [].
Proof.
  intros Hr Hid. unfold other_nodes. apply filter_none, Forall_forall.
  intros node (i & Hi & ->)%elem_of_getClusterNodes Hne. apply Hne. rewrite Hid. f_equal. lia.
Qed.

(** The only node of a one replica cluster never becomes leader: the majority test is made when
    another node's vote is counted, and there is no other node. *)
Theorem single_node_never_leads cluster s :
  Replicas (Spec cluster) <= 1 -> reachable (node_name cluster 0) cluster s ->
  rm_state (sys_rm s) <> RaftStateLeader.
Proof.
  intros Hr (rnd & now & _ & Hsteps).
  cut (alone s); [by intros []|].
  eapply (rtc_ind_r alone); [| |exact Hsteps].
  - split; try done. by apply other_nodes_single.
  - intros s1 s2 _ [e Hok _ He] Hal. by eapply alone_apply.
Qed.

(** ** Winning without a grant *)

Lemma vote_round s k v maj node rest :
  rm_state (sys_rm s) = RaftStateCandidate -> in_int64 (rm_currentTerm (sys_rm s) + 1) ->
  sys_elections s !! k = Some (MkElection v maj) -> sys_counting s = [] ->
  sys_sending s = (k, (node, None)) :: rest -> 0 <= v < 2 ^ 62 ->
  exists s', rtc step s s' /\ rm_currentTerm (sys_rm s') = rm_currentTerm (sys_rm s) /\
    (if decide (maj <= v + 1) then rm_state (sys_rm s') = RaftStateLeader
     else rm_state (sys_rm s') = RaftStateCandidate /\
          sys_elections s' !! k = Some (MkElection (v + 1) maj) /\
          sys_counting s' = [] /\ sys_sending s' = rest).
Proof.
  intros Hst Hterm Hk Hc Hs Hv.
  destruct (apply (VoteRead 0) s) as [s0|] eqn:E0; [|cbn in E0; by rewrite Hs in E0].
  pose proof E0 as E0'. cbn in E0'. rewrite Hs in E0'. injection E0' as E0'.
  destruct (apply (VoteSend 0 true 0) s0) as [s1|] eqn:E1; [|subst s0; by cbn in E1].
  pose proof E1 as E1'. rewrite <-E0' in E1'. cbn in E1'. rewrite Hc in E1'. injection E1' as E1'.
  assert (rtc step s s1) as H1.
  { eapply rtc_l; [by eapply step_event; [|done..]|]. eapply rtc_once, step_event; [| |done]; by subst s0. }
  pose proof (lookup_lt_Some _ _ _ Hk) as Hlt.
  destruct (apply (VoteCount 0 Success) s1) as [s2|] eqn:E2.
  2:{ subst s1. cbn -[countVote] in E2. rewrite Hk in E2. cbn -[countVote] in E2.
      by destruct (countVote _ _ _ _) as [? []]. }
  assert (rtc step s1 s2) as H2.
  { eapply rtc_once, step_event; [|by subst s1|done]. intros ?? [= <-]. done. }
  exists s2. split; [by etrans|]. subst s1. cbn -[countVote] in E2. rewrite Hk in E2.
  cbn -[countVote] in E2. rewrite countVote_cases, int64_id in E2 by (unfold in_int64; lia).
  destruct (decide (maj <= v + 1)).
  - rewrite decide_True in E2 by done.
    match type of E2 with context [becomeLeader ?r ?m] =>
      destruct (becomeLeader_frame r m) as (c & ni & mi & Hf & _); [by intros ?? [= <-]|];
      destruct (becomeLeader r m) as [rm' beats] end.
    cbn [fst] in Hf. subst rm'. injection E2 as <-. done.
  - rewrite decide_False in E2 by tauto. injection E2 as <-. cbn. split_and!; try done.
    by apply list_lookup_insert_eq.
Qed.

Lemma wins_alone s k v maj nodes :
  rm_state (sys_rm s) = RaftStateCandidate -> in_int64 (rm_currentTerm (sys_rm s) + 1) ->
  sys_elections s !! k = Some (MkElection v maj) -> sys_counting s = [] ->
  sys_sending s = new_votes k nodes -> 0 <= v < maj -> maj <= 2 ^ 61 ->
  maj <= v + Z.of_nat (length nodes) ->
  exists s', rtc step s s' /\ rm_state (sys_rm s') = RaftStateLeader /\
             rm_currentTerm (sys_rm s') = rm_currentTerm (sys_rm s).
Proof.
  revert s v. induction nodes as [|node nodes IH]; intros s v Hst Hterm Hk Hc Hs Hv Hmaj Hlen;
    cbn in *; [lia|].
  destruct (vote_round s k v maj node _ Hst Hterm Hk Hc Hs) as (s1 & H1 & Ht1 & Hcase); [lia|].
  case_decide; [by exists s1|]. destruct Hcase as (Hst1 & Hk1 & Hc1 & Hs1).
  destruct (IH s1 (v + 1)) as (s2 & H2 & Hl & Ht2); try done; [by rewrite Ht1|lia|lia|].
  exists s2. split_and!; [by etrans|done|]. by rewrite Ht2.
Qed.

Lemma length_other_nodes rm : (length (getClusterNodes rm) <= S (length (other_nodes rm)))%nat.
Proof.
  unfold other_nodes. pose proof (NoDup_getClusterNodes rm) as Hnd.
  induction Hnd as [|node l Hnin Hnd IH]; [cbn; lia|].
  rewrite filter_cons. case_decide as Hne; cbn; [lia|]. subst node.
  rewrite filter_all; [lia|]. apply Forall_forall. by intros x Hx ->.
Qed.

Lemma apply_election now rnd s rm' maj targets :
  election_due now (sys_rm s) = true -> startElection now rnd (sys_rm s) = (rm', (maj, targets)) ->
  apply (ElectionTimer now now rnd) s =
  Some (s <| sys_rm := rm' |>
          <| sys_elections := sys_elections s ++ [MkElection 1 maj] |>
          <| sys_sending := sys_sending s ++ new_votes (length (sys_elections s)) targets |>).
Proof. intros Hd Es. cbn [apply]. by rewrite Hd, Es. Qed.

Lemma elects_itself id cluster rnd now :
  valid_cluster cluster -> 2 <= Replicas (Spec cluster) -> 0 <= rnd < 150 ->
  - 2 ^ 62 <= now <= 2 ^ 62 ->
  exists s, rtc step (init_sys (NewRaftManager id cluster rnd now)) s /\
            rm_state (sys_rm s) = RaftStateLeader /\ rm_currentTerm (sys_rm s) = 1.
Proof.
  intros Hv Hn Hrnd Hnow. set (s0 := init_sys _).
  assert (election_due (now + Second) (sys_rm s0) = true) as Hdue.
  { unfold election_due. rewrite bool_decide_eq_true_2 by done. apply Z.ltb_lt. cbn.
    unfold Since, Second, Millisecond. lia. }
  destruct (startElection (now + Second) 0 (sys_rm s0)) as [rm' [maj targets]] eqn:Es.
  pose proof (apply_election _ _ _ _ _ _ Hdue Es) as E1.
  apply startElection_frame in Es as (Hcfg & Hst & Ht & Hm & Htg). subst s0. cbn [init_sys sys_rm] in *.
  pose proof (length_getClusterNodes (NewRaftManager id cluster rnd now)) as Hlen. cbn in Hlen.
  pose proof (length_other_nodes (NewRaftManager id cluster rnd now)) as Hothers.
  unfold valid_cluster, in_int32 in Hv. rewrite <-Htg in Hothers.
  pose proof (Z.div_mod (Z.of_nat (length (getClusterNodes (NewRaftManager id cluster rnd now)))) 2).
  pose proof (Z.mod_pos_bound (Z.of_nat (length (getClusterNodes (NewRaftManager id cluster rnd now)))) 2).
  match type of E1 with _ = Some ?s1 =>
    destruct (wins_alone s1 0 1 maj targets) as (s2 & H2 & Hl & Ht2) end;
    try done; cbn; [by rewrite Ht|lia|lia|lia|].
  exists s2. split_and!; [|done|by rewrite Ht2; cbn; rewrite Ht].
  eapply rtc_l; [|exact H2]. eapply step_event; [|done|exact E1]. cbn; lia.
Qed.

Lemma cluster_steps_node c id s s' :
  c !! id = Some s -> rtc step s s' -> rtc cluster_step c (<[id := s']> c).
Proof.
  intros Hc Hs. revert c Hc. induction Hs as [s|s s1 s' H1 _ IH]; intros c Hc.
  - by rewrite (insert_id c id s).
  - eapply rtc_l; [by eapply cluster_step_node|]. rewrite <-(insert_insert_eq c id s' s1).
    apply IH. by rewrite lookup_insert_eq.
Qed.

Lemma lookup_init_cluster cluster rnd now ids id :
  id ∈ ids ->
  init_cluster cluster rnd now ids !! id = Some (init_sys (NewRaftManager id cluster rnd now)).
Proof.
  intros Hid. unfold init_cluster. induction Hid as [id ids|id id' ids Hid IH].
  - cbn. by rewrite lookup_insert_eq.
  - cbn. destruct (decide (id = id')) as [->|?]; [by rewrite lookup_insert_eq|].
    by rewrite lookup_insert_ne.
Qed.

(** C37: two leaders in one term: in any cluster of at least two replicas any two processes can become
    leaders of term 1, each by creating vote request ConfigMaps; the step from a created request to
    a counted vote involves no other process. *)
Theorem split_brain_reachable cluster rnd now ids a b :
  valid_cluster cluster -> 2 <= Replicas (Spec cluster) -> 0 <= rnd < 150 ->
  - 2 ^ 62 <= now <= 2 ^ 62 -> a ∈ ids -> b ∈ ids -> a <> b ->
  exists c, rtc cluster_step (init_cluster cluster rnd now ids) c /\ leads c a 1 /\ leads c b 1.
Proof.
  intros Hv Hn Hrnd Hnow Ha Hb Hab.
  destruct (elects_itself a cluster rnd now) as (sa & Hsa & Hla & Hta); [done..|].
  destruct (elects_itself b cluster rnd now) as (sb & Hsb & Hlb & Htb); [done..|].
  exists (<[b := sb]> (<[a := sa]> (init_cluster cluster rnd now ids))). split_and!.
  - etrans; eapply cluster_steps_node; [by apply lookup_init_cluster|done| |done].
    rewrite lookup_insert_ne by done. by apply lookup_init_cluster.
  - exists sa. by rewrite lookup_insert_ne, lookup_insert_eq.
  - exists sb. by rewrite lookup_insert_eq.
Qed.

(** ** A concrete run *)

(** Run one event of a concrete execution. *)
Ltac run_step e :=
  lazymatch goal with
  | |- rtc step ?s _ =>
      let s1 := eval vm_compute in (default s (apply e s)) in
      apply (rtc_l step s s1);
      [apply (step_event s s1 e);
       [cbn; first [exact I | lia | (intros ?? [= <-]; done)]|cbv; split; congruence|vm_compute; reflexivity]|]
  end.

(** Votes do not carry their term: a goroutine that sent its request in term 1 is counted in the
    election of term 1, but the test that follows looks at the state of the manager at that time.
    Here the manager has moved on to term 2 and becomes leader of term 2 although every vote request
    it ever created is for term 1. *)
Theorem leader_by_votes_of_an_older_term :
  exists s, reachable "db-0" (example_cluster 3) s /\
    rm_state (sys_rm s) = RaftStateLeader /\ rm_currentTerm (sys_rm s) = 2 /\
    sys_outbox s <> [] /\
    Forall (fun cm => is_vote_request cm = true /\ cm_Data cm !! "term" = Some "1") (sys_outbox s).
Proof.
  eexists. split.
  { exists 0, 0. split; [lia|].
    set (s0 := init_sys _). vm_compute in s0. subst s0.
    run_step (ElectionTimer Second Second 0).
    run_step (VoteRead 0).
    run_step (VoteSend 0 true 1).
    run_step (ElectionTimer (2 * Second) (2 * Second) 0).
    run_step (VoteCount 0 Success).
    apply rtc_refl. }
  vm_compute. by repeat constructor.
Qed.

(** ** Instances *)

Definition example_sys : Sys := init_sys example_manager.

Lemma leader_has_majority_of_requests_witness :
  exists s, rm_state (sys_rm s) = RaftStateLeader /\
    majority_requested "db-0" (example_cluster 3) (sys_elections s) (sys_outbox s).
Proof.
  assert (valid_cluster (example_cluster 3)) as Hv by (cbv; split; congruence).
  destruct (elects_itself "db-0" (example_cluster 3) 0 0) as (s & Hs & Hl & _); [done|cbn; lia..|].
  exists s. split; [done|].
  apply (leader_has_majority_of_requests "db-0" (example_cluster 3) s Hv); [|done].
  exists 0, 0. split; [lia|done].
Defined.

Definition example_voting : Sys :=
  default example_sys (apply (ElectionTimer Second Second 0) example_sys).

Lemma example_election_step : step example_sys example_voting.
Proof.
  apply (step_event _ _ (ElectionTimer Second Second 0)); [cbn; lia|cbv; split; congruence|].
  vm_compute. reflexivity.
Qed.

Lemma term_monotone_witness :
  rm_currentTerm (sys_rm example_sys) <= rm_currentTerm (sys_rm example_voting).
Proof. apply term_monotone, rtc_once, example_election_step. Defined.

Lemma role_transitions_witness : starts_election example_sys example_voting.
Proof. exact (role_transitions example_sys example_voting example_election_step). Defined.

Lemma vote_kept_witness :
  let s' := default example_sys (apply (VoteRequest 5 "db-1" 1 0 0) example_voting) in
  rm_votedFor (sys_rm s') = "db-0".
Proof.
  destruct (vote_kept (VoteRequest 5 "db-1" 1 0 0) example_voting
    (default example_sys (apply (VoteRequest 5 "db-1" 1 0 0) example_voting))) as [H|[_ H]].
  - exact I.
  - cbv; split; congruence.
  - vm_compute. reflexivity.
  - vm_compute. reflexivity.
  - vm_compute. discriminate.
  - cbv zeta. rewrite H. vm_compute. reflexivity.
  - destruct H as (now & l & prev & prevTerm & entries & lc & H). discriminate.
Defined.

Lemma single_node_never_leads_witness : rm_state (sys_rm (init_sys
  (NewRaftManager "db-0" (example_cluster 1) 0 0))) <> RaftStateLeader.
Proof.
  apply (single_node_never_leads (example_cluster 1)); [done|].
  exists 0, 0. split; [lia|apply rtc_refl].
Defined.

Lemma split_brain_reachable_witness :
  exists c, leads c "db-0" 1 /\ leads c "db-1" 1.
Proof.
  destruct (split_brain_reachable (example_cluster 3) 0 0 ["db-0"; "db-1"; "db-2"] "db-0" "db-1")
    as (c & _ & Ha & Hb).
  - cbv; split; congruence.
  - cbn; lia.
  - lia.
  - lia.
  - set_solver.
  - set_solver.
  - done.
  - by exists c.
Defined.
