(* ===== verification/Pool.v ===== *)
(** * Goroutines under a mutex

    A pool of programs that share a memory and one mutex.  A step of the pool is a step of one of its
    programs: an access to the memory, or a request with an admissible answer.  A request may take or
    release the mutex, or start a goroutine; all others are recorded.  A goroutine that panics ends
    the process: nothing moves any more. *)

From S2P Require Import Prelude Prog.

Section pool.
Context {R : Type} {resp : R -> Type} {M : Type}.

Notation prog := (prog resp M).

(** What a request does to the pool. *)
Inductive effect : Type :=
| Acquire
| Release
| Spawn (p : prog unit)
| Plain.

Context (effect_of : R -> effect) (admissible : forall r, resp r -> Prop) (bounded : M -> Prop).

Record pool := MkPool {
  threads : list (prog unit);
  shared : M;
  holder : option nat;
  history : list (event resp);
}.

Definition panicked (p : prog unit) : Prop :=
  match p with Done (Panic _) => True | _ => False end.

Definition finished (p : prog unit) : Prop :=
  match p with Done _ => True | _ => False end.

#[global] Instance finished_dec p : Decision (finished p).
Proof. destruct p; apply _. Defined.

(** The step of goroutine [i]. *)
Definition thread_step (i : nat) (s s' : pool) : Prop :=
  match threads s !! i with
  | Some (Atomic X f k) =>
      s' = MkPool (<[i := k (fst (f (shared s)))]> (threads s)) (snd (f (shared s))) (holder s) (history s)
  | Some (Ask r k) =>
      exists x, admissible r x /\
        match effect_of r with
        | Acquire => holder s = None /\
            s' = MkPool (<[i := k x]> (threads s)) (shared s) (Some i) (history s)
        | Release => holder s = Some i /\
            s' = MkPool (<[i := k x]> (threads s)) (shared s) None (history s)
        | Spawn p => s' = MkPool (<[i := k x]> (threads s) ++ [p]) (shared s) (holder s) (history s)
        | Plain => s' = MkPool (<[i := k x]> (threads s)) (shared s) (holder s)
                          (history s ++ [existT r x])
        end
  | _ => False
  end.

Definition running (s : pool) : Prop := Forall (fun p => ~ panicked p) (threads s).

Inductive pool_step (s s' : pool) : Prop :=
| pool_step_thread i : running s -> bounded (shared s) -> thread_step i s s' -> pool_step s s'.

Definition start (ps : list (prog unit)) (m : M) : pool := MkPool ps m None [].

(** ** A scheduler

    [turn answer i st]: goroutine [i] takes a step with the answer [answer] gives, if it can. *)

#[global] Instance running_dec s : Decision (running s).
Proof. apply Forall_dec. intros p. destruct p as [[]| |]; cbn; apply _. Defined.

Context `{!forall m, Decision (bounded m)}.

Definition turn (answer : forall r, resp r) (i : nat) (s : pool) : pool :=
  if decide (running s /\ bounded (shared s)) then
    match threads s !! i with
    | Some (Atomic X f k) =>
        MkPool (<[i := k (fst (f (shared s)))]> (threads s)) (snd (f (shared s))) (holder s) (history s)
    | Some (Ask r k) =>
        let x := answer r in
        let ts := <[i := k x]> (threads s) in
        match effect_of r with
        | Acquire => if decide (holder s = None) then MkPool ts (shared s) (Some i) (history s) else s
        | Release => if decide (holder s = Some i) then MkPool ts (shared s) None (history s) else s
        | Spawn p => MkPool (ts ++ [p]) (shared s) (holder s) (history s)
        | Plain => MkPool ts (shared s) (holder s) (history s ++ [existT r x])
        end
    | _ => s
    end
  else s.

Lemma turn_steps answer i s : (forall r, admissible r (answer r)) -> rtc pool_step s (turn answer i s).
Proof.
  intros Hans. unfold turn. case_decide as Hd; [|done]. destruct Hd as [Hrun Hb].
  destruct (threads s !! i) as [[o|r k|X f k]|] eqn:Ei; [done| | |done].
  - destruct (effect_of r) eqn:Er; repeat case_decide; try done; apply rtc_once, (pool_step_thread _ _ i); try done;
      unfold thread_step; rewrite Ei; exists (answer r); (split; [apply Hans|]); by rewrite Er.
  - apply rtc_once, (pool_step_thread _ _ i); try done. unfold thread_step. by rewrite Ei.
Qed.

(** A turn that changes the memory is a step. *)
Lemma turn_thread_step answer i s :
  (forall r, admissible r (answer r)) -> shared (turn answer i s) <> shared s ->
  thread_step i s (turn answer i s).
Proof.
  intros Hans Hne. unfold turn in *. case_decide; [|done].
  unfold thread_step. destruct (threads s !! i) as [[o|r k|X f k]|]; [done| |done|done].
  exfalso. destruct (effect_of r); repeat case_decide; done.
Qed.

(** Turns in order, each with the answers the world gives at the time. *)
Definition turns (ts : list (nat * (forall r, resp r))) (s : pool) : pool :=
  foldl (fun s t => turn (snd t) (fst t) s) s ts.

Lemma turns_steps ts s :
  Forall (fun t => forall r, admissible r (snd t r)) ts -> rtc pool_step s (turns ts s).
Proof.
  intros Hts. revert s. induction Hts as [|t ts Ht _ IH]; intros s; [done|]. cbn.
  etrans; [by apply turn_steps|apply IH].
Qed.

End pool.

Arguments effect {R} resp M.
Arguments pool {R} resp M.
