(* ===== verification/PoolLogic.v ===== *)
(** * Rely and guarantee for a pool

    [orderly b Q p]: while the other goroutines keep the invariant [I], the program [p] keeps it, makes
    the requests [P] allows and ends in [Q].  A flag of the memory, [made], is only ever set; [b] says
    that the program knows it to be set, which it does after any access that found or made it so, and
    what may be asked may depend on it.  [pool_orderly] is the rule of parallel composition: in a pool
    of orderly programs whose goroutines are orderly when they are started, all this holds in every
    state the pool reaches. *)

From S2P Require Import Prelude Prog Pool.

(** ** The judgement *)

Section orderly.
Context {R : Type} {resp : R -> Type} {M : Type}.
Context (I : M -> Prop) (made : M -> bool) (P : bool -> R -> Prop) (An : forall r, resp r -> Prop).

Notation prog := (prog resp M).

Fixpoint orderly {A} (b : bool) (Q : bool -> outcome A -> Prop) (p : prog A) : Prop :=
  match p with
  | Done o => Q b o
  | Ask r k => P b r /\ forall x, An r x -> orderly b Q (k x)
  | Atomic X f k => forall m, I m -> (b = true -> made m = true) ->
      I (snd (f m)) /\ (made m = true -> made (snd (f m)) = true) /\
      orderly (made (snd (f m))) Q (k (fst (f m)))
  end.

Definition orderly_post {A B} (Q : bool -> outcome B -> Prop) (k : A -> prog B) (b : bool) (o : outcome A) :
    Prop :=
  match o with
  | Ok a => orderly b Q (k a)
  | Err e => Q b (Err e)
  | Panic msg => Q b (Panic msg)
  | OutOfFuel => Q b OutOfFuel
  end.

Lemma orderly_bind {A B} b (Q : bool -> outcome B -> Prop) (p : prog A) (k : A -> prog B) :
  orderly b (orderly_post Q k) p -> orderly b Q (p ≫= k).
Proof.
  unfold mbind, prog_mbind. revert b. induction p as [[]|r k' IH|X f k' IH]; intros b; cbn; try done.
  - intros [Hr Hk]. split; [done|]. auto.
  - intros Hk m Hm Hb. destruct (Hk m Hm Hb) as (? & ? & ?). auto.
Qed.

Lemma orderly_mono {A} b (Q Q' : bool -> outcome A -> Prop) p :
  (forall b' o, (b = true -> b' = true) -> Q b' o -> Q' b' o) -> orderly b Q p -> orderly b Q' p.
Proof.
  revert b. induction p as [o|r k IH|X f k IH]; intros b HQ; cbn.
  - by apply HQ.
  - intros [Hr Hk]. split; [done|]. intros x Hx. apply IH; auto.
  - intros Hk m Hm Hb. destruct (Hk m Hm Hb) as (H1 & H2 & H3). split_and!; [done..|].
    eapply IH; [|exact H3]. intros b' o Hb'. apply HQ. auto.
Qed.

Lemma orderly_ask {A} b (Q : bool -> outcome A -> Prop) r (k : resp r -> prog A) :
  P b r -> (forall x, An r x -> orderly b Q (k x)) -> orderly b Q (ask r ≫= k).
Proof. by split. Qed.

Lemma orderly_attempt {A} b (Q : bool -> outcome (result A) -> Prop) (p : prog A) :
  orderly b (fun b o => match o with
                        | Ok a => Q b (Ok (Success a))
                        | Err e => Q b (Ok (Failure e))
                        | Panic msg => Q b (Panic msg)
                        | OutOfFuel => Q b OutOfFuel
                        end) p ->
  orderly b Q (attempt p).
Proof.
  revert b. induction p as [[]|r k IH|X f k IH]; intros b; cbn; try done.
  - intros [Hr Hk]. split; [done|]. auto.
  - intros Hk m Hm Hb. destruct (Hk m Hm Hb) as (? & ? & ?). auto.
Qed.

Lemma orderly_for_each {A} b (Q : bool -> outcome unit -> Prop) (f : A -> prog unit) l :
  (forall b', Q b' (Ok tt)) ->
  (forall b a, orderly b (fun b' o => match o with Ok _ => True | o => Q b' o end) (f a)) ->
  orderly b Q (for_each f l).
Proof.
  intros HQ Hf. revert b. induction l as [|a l IH]; intros b; [apply HQ|].
  apply orderly_bind. eapply orderly_mono; [|apply Hf].
  intros b' [[]|e|msg|] _ Ho; [apply IH|done..].
Qed.

(** Programs of which more is known. *)
Lemma orderly_within {A} b (Q : bool -> outcome A -> Prop) (PW : R -> Prop) (G : relation M) p :
  (forall b r, PW r -> P b r) ->
  (forall m m', I m -> G m m' -> I m' /\ (made m = true -> made m' = true)) ->
  (forall b' o, (b = true -> b' = true) -> Q b' o) ->
  within PW G p -> orderly b Q p.
Proof.
  intros HP HG. revert b. induction p as [o|r k IH|X f k IH]; intros b HQ; cbn.
  - intros _. by apply HQ.
  - intros [Hr Hk]. split; [by apply HP|]. auto.
  - intros Hk m Hm Hb. destruct (Hk m) as [Hg Hk']. destruct (HG _ _ Hm Hg) as [Hm' Hmade].
    split_and!; [done..|]. apply IH; [|done]. intros b' o Hb'. apply HQ. auto.
Qed.

Lemma orderly_safe {A} (Q : bool -> outcome A -> Prop) (PS : R -> Prop) (QS : outcome A -> Prop) p :
  (forall r, PS r -> P true r) -> (forall o, QS o -> Q true o) ->
  safe (fun m => I m /\ made m = true) An PS QS p -> orderly true Q p.
Proof.
  intros HP HQ. induction p as [o|r k IH|X f k IH]; cbn.
  - apply HQ.
  - intros [Hr Hk]. split; [by apply HP|]. auto.
  - intros Hk m Hm Hb. destruct (Hk m (conj Hm (Hb eq_refl))) as [[Hm' Hmade] Hk'].
    split_and!; [done..|]. rewrite Hmade. by apply IH.
Qed.

End orderly.

(** Among more requests, and on a part of the memory. *)
Lemma orderly_embed {R1 R2 M} {resp1 : R1 -> Type} {resp2 : R2 -> Type} (inj : R1 -> R2)
    (back : forall r, resp2 (inj r) -> resp1 r) (I : M -> Prop) made P1 P2 (An1 : forall r, resp1 r -> Prop)
    (An2 : forall r, resp2 r -> Prop) {A} b (Q : bool -> outcome A -> Prop) (p : prog resp1 M A) :
  (forall b r, P1 b r -> P2 b (inj r)) -> (forall r x, An2 (inj r) x -> An1 r (back r x)) ->
  orderly I made P1 An1 b Q p -> orderly I made P2 An2 b Q (embed inj back p).
Proof.
  intros HP HAn. revert b. induction p as [o|r k IH|X f k IH]; intros b; cbn; [done| |].
  - intros [Hr Hk]. split; [by apply HP|]. intros x Hx. by apply IH, Hk, HAn.
  - intros Hk m Hm Hb. destruct (Hk m Hm Hb) as (? & ? & ?). auto.
Qed.

Lemma orderly_zoom {R M1 M2} {resp : R -> Type} (get : M2 -> M1) (put : M1 -> M2 -> M2)
    (I1 : M1 -> Prop) (I2 : M2 -> Prop) made P (An : forall r, resp r -> Prop)
    {A} b (Q : bool -> outcome A -> Prop) (p : prog resp M1 A) :
  (forall s m, get (put s m) = s) -> (forall m, I2 m -> I1 (get m)) ->
  (forall s m, I2 m -> I1 s -> I2 (put s m)) ->
  orderly I1 made P An b Q p ->
  orderly I2 (fun m => made (get m)) P An b Q (zoom (fun m => Some (get m)) put p).
Proof.
  intros Hget HI1 HI2. revert b. induction p as [o|r k IH|X f k IH]; intros b; cbn; [done| |].
  - intros [Hr Hk]. split; [done|]. auto.
  - intros Hk m Hm Hb. destruct (Hk (get m)) as (H1 & H2 & H3); [auto..|]. rewrite Hget. auto.
Qed.

Lemma safe_zoom {R M1 M2} {resp : R -> Type} (get : M2 -> option M1) (put : M1 -> M2 -> M2)
    (I1 : M1 -> Prop) (I2 : M2 -> Prop) (An : forall r, resp r -> Prop)
    {A} P (Q : outcome A -> Prop) (p : prog resp M1 A) :
  (forall m, I2 m -> exists s, get m = Some s /\ I1 s /\ forall s', I1 s' -> I2 (put s' m)) ->
  safe I1 An P Q p -> safe I2 An P Q (zoom get put p).
Proof.
  intros Hget. induction p as [o|r k IH|X f k IH]; cbn; [done| |].
  - intros [Hr Hk]. split; [done|]. auto.
  - intros Hk m Hm. destruct (Hget m Hm) as (s & -> & Hs & Hput). destruct (Hk s Hs) as [Hs' Hk'].
    split; [by apply Hput|by apply IH].
Qed.

(** ** Composition *)

Section pool_orderly.
Context {R : Type} {resp : R -> Type} {M : Type}.
Context (effect_of : R -> effect resp M) (admissible : forall r, resp r -> Prop) (bounded : M -> Prop).
Context (I : M -> Prop) (made : M -> bool) (P : bool -> R -> Prop) (Q : nat -> outcome unit -> Prop) (n : nat).

(** The programs of the pool may end differently; those started later, from the number [n] on, are
    judged at every place they can take. *)
Context (Hspawn : forall b r p i, P b r -> effect_of r = Spawn p -> (n <= i)%nat ->
  orderly I made P admissible b (fun _ => Q i) p).

Record in_order (s : pool resp M) : Prop := {
  io_inv : I (shared s);
  io_size : (n <= length (threads s))%nat;
  io_threads i p : threads s !! i = Some p ->
    exists b, (b = true -> made (shared s) = true) /\ orderly I made P admissible b (fun _ => Q i) p;
  io_history : Forall (fun ev => exists b, P b (projT1 ev)) (history s);
}.

Notation judged i p m := (exists b, (b = true -> made m = true) /\ orderly I made P admissible b (fun _ => Q i) p).

Lemma judged_insert (ts : list (prog resp M unit)) m i p :
  (forall j q, ts !! j = Some q -> judged j q m) -> judged i p m ->
  forall j q, <[i := p]> ts !! j = Some q -> judged j q m.
Proof.
  intros Hts Hp j q Hj. apply list_lookup_insert_Some in Hj as [(<- & -> & _)|[_ Hj]]; [done|eauto].
Qed.

Lemma pool_in_order s s' : pool_step effect_of admissible bounded s s' -> in_order s -> in_order s'.
Proof.
  intros [i _ _ Hstep] [HI Hn Hts Hh]. unfold thread_step in Hstep.
  destruct (threads s !! i) as [[o|r k|X f k]|] eqn:Ei; [done| | |done];
    destruct (Hts i _ Ei) as (b & Hb & Hok); cbn in Hok.
  - destruct Hok as [Hr Hk]. destruct Hstep as (x & Hx & Hstep).
    assert (judged i (k x) (shared s)) as Hkx by eauto.
    pose proof (judged_insert _ _ i _ Hts Hkx) as Hts'.
    destruct (effect_of r) eqn:Er.
    + destruct Hstep as [_ ->]. split; cbn; rewrite ?length_insert; auto.
    + destruct Hstep as [_ ->]. split; cbn; rewrite ?length_insert; auto.
    + subst s'. split; cbn; [done|rewrite length_app, length_insert; lia| |done].
      intros j q Hj. apply lookup_app_Some in Hj as [Hj|[Hlen Hj]]; [by apply Hts'|].
      rewrite length_insert in Hlen. apply list_lookup_singleton_Some in Hj as [_ <-].
      exists b. split; [done|]. eapply Hspawn; [done|done|lia].
    + subst s'. split; cbn; rewrite ?length_insert; auto. apply Forall_app. split; [done|].
      repeat constructor. by exists b.
  - subst s'. destruct (Hok (shared s) HI Hb) as (HI' & Hmade & Hk). split; cbn; rewrite ?length_insert; auto.
    apply judged_insert; [|by exists (made (snd (f (shared s))))].
    intros j q Hj. destruct (Hts j q Hj) as (b' & Hb' & Hq). exists b'. auto.
Qed.

Lemma pool_orderly s s' :
  rtc (pool_step effect_of admissible bounded) s s' -> in_order s -> in_order s'.
Proof. induction 1; eauto using pool_in_order. Qed.

End pool_orderly.
