(* ===== verification/RaftThreads.v ===== *)
(** * The goroutines of [raft.go] as programs

    [Start]'s two timers, the vote goroutines and the heartbeat goroutines, statement by statement,
    with the mutex as it is taken and released.  They run in a [Pool]; the theorems say that every
    interleaving is a run of [RaftSystem], so that what is proved there holds of these programs. *)

From S2P Require Import Prelude GoLib Prog Types Kube KubeSim Raft RaftSystem Pool.

Section raft_threads.
Context {ext : Extern}.

(** ** Requests and shared memory *)

(** [Wait d] is a [select] of [ctx.Done()] and [time.After(d)]; it answers whether the timer fired. *)
Inductive raft_request : Type :=
| Api (r : request)
| Lock
| Unlock
| Wait (d : Duration)
| GoVote (k : nat) (node : string)
| GoHeartbeat (node : string).

Definition raft_response (r : raft_request) : Type :=
  match r with
  | Api r => response r
  | Wait _ => bool
  | Lock | Unlock | GoVote _ _ | GoHeartbeat _ => unit
  end.

(** The manager, and the variables [votes] and [majority] of each [startElection] call, which its
    vote goroutines capture. *)
Record Shared := MkShared {
  sh_rm : RaftManager;
  sh_elections : list Election;
}.

#[global] Instance eta_Shared : Eta Shared := fun r => MkShared (sh_rm r) (sh_elections r).

Notation raft := (prog raft_response Shared).

Definition api (r : request) : raft (response r) := ask (Api r : raft_request).

(** ** Sending *)

(** [sendMessage]: whether the ConfigMap was created. *)
Definition send_message (node : string) (data : message) : raft bool :=
  nano ← api Now;
  rm ← read_mem sh_rm;
  created ← api (Create KConfigMap (sendMessage nano rm node data));
  mret (is_success created).

(** [sendAppendEntries(node, {})] on a goroutine of its own. *)
Definition heartbeat_thread (node : string) : raft unit :=
  data ← read_mem (fun s => sendAppendEntries (sh_rm s) node []);
  match data with
  | Ok data => _ ← send_message node data; mret tt
  | _ => panic "index out of range"
  end.

Definition send_heartbeats : raft unit :=
  nodes ← read_mem (fun s => sendHeartbeats (sh_rm s));
  for_each (fun node => ask (GoHeartbeat node)) nodes.

(** ** Elections *)

(** The assignments of [startElection]; the clock and the random number are read before them. *)
Definition start_election : raft unit :=
  now ← api Now;
  rnd ← api (Intn 150);
  '(k, nodes) ← atomically (fun s =>
     let '(rm, (majority, nodes)) := startElection now rnd (sh_rm s) in
     ((length (sh_elections s), nodes), MkShared rm (sh_elections s ++ [MkElection 1 majority])));
  for_each (fun node => ask (GoVote k node)) nodes.

(** [updateClusterStatus]: the status fields, the update, and the answer decoded into the object. *)
Definition update_status : raft unit :=
  _ ← write_mem (fun s => s <| sh_rm := (sh_rm s) <| rm_cluster :=
        (rm_cluster (sh_rm s)) <| Status := statusOf (sh_rm s) |> |> |>);
  cluster ← read_mem (fun s => rm_cluster (sh_rm s));
  updated ← api (StatusUpdate cluster);
  match updated with
  | Success c => write_mem (fun s => s <| sh_rm := (sh_rm s) <| rm_cluster := c |> |>)
  | Failure _ => mret tt
  end.

(** [becomeLeader] up to the heartbeats. *)
Definition lead (rm : RaftManager) : RaftManager :=
  let rm := rm <| rm_state := RaftStateLeader |> in
  foldl init_follower rm (other_nodes rm).

(** [votes++] and the test; a manager that wins is the leader. *)
Definition count_vote (k : nat) (s : Shared) : bool * Shared :=
  match sh_elections s !! k with
  | None => (false, s)
  | Some el =>
      let votes := int64 (el_votes el + 1) in
      let won := bool_decide (el_majority el <= votes /\ rm_state (sh_rm s) = RaftStateCandidate) in
      (won, MkShared (if won then lead (sh_rm s) else sh_rm s)
              (<[k := MkElection votes (el_majority el)]> (sh_elections s)))
  end.

(** The goroutine [startElection] starts for a node. *)
Definition vote_thread (k : nat) (node : string) : raft unit :=
  data ← read_mem (fun s => sendVoteRequest (sh_rm s) node);
  created ← send_message node data;
  if created : bool then
    _ ← ask Lock;
    won ← atomically (count_vote k);
    _ ← (if won : bool then _ ← send_heartbeats; update_status else mret tt);
    ask Unlock
  else mret tt.

(** ** Timers

    The loops end when the context is done; [fuel] bounds the rounds that are looked at. *)

Definition election_round : raft (option unit) :=
  timeout ← read_mem (fun s => rm_electionTimeout (sh_rm s));
  fired ← ask (Wait timeout);
  if negb fired then mret (Some tt) else
  _ ← ask Lock;
  leads ← read_mem (fun s => bool_decide (rm_state (sh_rm s) = RaftStateLeader));
  due ← (if leads : bool then mret false else
           tested ← api Now;
           read_mem (fun s => rm_electionTimeout (sh_rm s) <? Since tested (rm_lastHeartbeat (sh_rm s))));
  _ ← (if due : bool then start_election else mret tt);
  _ ← ask Unlock;
  mret None.

Definition heartbeat_round : raft (option unit) :=
  timeout ← read_mem (fun s => rm_heartbeatTimeout (sh_rm s));
  fired ← ask (Wait timeout);
  if negb fired then mret (Some tt) else
  _ ← ask Lock;
  leads ← read_mem (fun s => heartbeat_due (sh_rm s));
  _ ← (if leads : bool then send_heartbeats else mret tt);
  _ ← ask Unlock;
  mret None.

Definition run_election_timer (fuel : nat) : raft unit := forever fuel election_round.
Definition run_heartbeat_timer (fuel : nat) : raft unit := forever fuel heartbeat_round.

(** The failovers of [raft_mysql_integration.go] that begin by forcing an election. *)
Definition force_election : raft unit :=
  _ ← ask Lock;
  _ ← write_mem (fun s => s <| sh_rm := forceElection (sh_rm s) |>);
  ask Unlock.

Definition run_failovers (n : nat) : raft unit := for_each (fun _ => force_election) (seq 0 n).

(** ** The pool *)

Definition raft_effect (r : raft_request) : effect raft_response Shared :=
  match r with
  | Lock => Acquire
  | Unlock => Release
  | GoVote k node => Spawn (vote_thread k node)
  | GoHeartbeat node => Spawn (heartbeat_thread node)
  | Api _ | Wait _ => Plain
  end.

(** What the API documents of the answers: [rand.Intn(n)] is below a positive [n], and the server answers a status
    update with the object's own metadata and spec. *)
Definition raft_admissible (r : raft_request) : raft_response r -> Prop :=
  match r return raft_response r -> Prop with
  | Api r =>
      match r return response r -> Prop with
      | Intn n => fun x => 0 < n -> 0 <= x < n
      | StatusUpdate c => fun x => forall c', x = Success c' -> Spec c' = Spec c /\ mc_meta c' = mc_meta c
      | _ => fun _ => True
      end
  | _ => fun _ => True
  end.

Definition term_bounded (s : Shared) : Prop := in_int64 (rm_currentTerm (sh_rm s) + 1).

Notation raft_step := (pool_step raft_effect raft_admissible term_bounded).

(** [Start]: the manager [NewRaftManager] made, its two timers, and the failovers. *)
Definition Start (fuel : nat) (rm : RaftManager) : pool raft_response Shared :=
  start [run_election_timer fuel; run_heartbeat_timer fuel; run_failovers fuel] (MkShared rm []).

Definition pool_reachable (fuel : nat) (id : string) (cluster : MysqlCluster)
    (s : pool raft_response Shared) : Prop :=
  exists rnd now, 0 <= rnd < 150 /\ rtc raft_step (Start fuel (NewRaftManager id cluster rnd now)) s.

(** ** A refinement logic

    What a goroutine stands for in [RaftSystem]: the entries of the system's lists it will turn into
    messages, votes and heartbeats, and, while it holds the mutex, the manager it found or made with
    the status the system's manager has.  [ok Q g p]: from a state in which the goroutine stands for
    [g] every step of [p] is matched by steps of the system, whatever the other goroutines stand for;
    it changes the memory only under the mutex, what it asks has an answer, it does not panic, and when
    it ends [Q] holds. *)

Record ghost := MkGhost {
  g_sending : list (nat * (string * option message));
  g_counting : list nat;
  g_beating : list (string * option message);
  g_held : option (RaftManager * MysqlClusterStatus);
}.

#[local] Instance eta_ghost : Eta ghost := fun r =>
  MkGhost (g_sending r) (g_counting r) (g_beating r) (g_held r).

Definition nothing : ghost := MkGhost [] [] [] None.

Definition with_status (st : MysqlClusterStatus) (rm : RaftManager) : RaftManager :=
  rm <| rm_cluster := (rm_cluster rm) <| Status := st |> |>.

Definition own_status (rm : RaftManager) : MysqlClusterStatus := Status (rm_cluster rm).

(** The ConfigMaps a history created. *)
Definition created (ev : event raft_response) : option ConfigMap :=
  match ev with
  | existT r x =>
      match r return raft_response r -> option ConfigMap with
      | Api r =>
          match r return response r -> option ConfigMap with
          | Create k o => fun x =>
              match k return obj k -> result (obj k) -> option ConfigMap with
              | KConfigMap => fun cm x => if is_success x then Some cm else None
              | _ => fun _ _ => None
              end o x
          | _ => fun _ => None
          end
      | _ => fun _ => None
      end x
  end.

Definition lock_matches (m : Shared) (s : Sys) (held : list (RaftManager * MysqlClusterStatus)) : Prop :=
  match held with
  | [] => sys_rm s = sh_rm m
  | [(rm, st)] => sh_rm m = rm /\ sys_rm s = with_status st rm
  | _ => False
  end.

Section logic.
Context (meta : ObjectMeta).

(** The system's state, the memory and what all goroutines stand for. *)
Record matches (m : Shared) (hist : list (event raft_response)) (s : Sys) (gs : list ghost) : Prop := {
  mt_sending : sys_sending s ≡ₚ gs ≫= g_sending;
  mt_counting : sys_counting s ≡ₚ gs ≫= g_counting;
  mt_beating : sys_beating s ≡ₚ gs ≫= g_beating;
  mt_elections : sys_elections s = sh_elections m;
  mt_outbox : sys_outbox s = omap created hist;
  mt_lock : lock_matches m s (omap g_held gs);
  mt_meta : mc_meta (rm_cluster (sh_rm m)) = meta;
}.

Definition moves (m : Shared) (e : list (event raft_response)) (m' : Shared) (g g' : ghost) : Prop :=
  (is_Some (g_held g') <-> is_Some (g_held g)) /\
  forall hist s fs, matches m hist s (g :: fs) ->
  exists s', rtc step s s' /\ matches m' (hist ++ e) s' (g' :: fs).

(** What a goroutine knows of the memory. *)
Definition here (m : Shared) (g : ghost) : Prop :=
  term_bounded m /\ mc_meta (rm_cluster (sh_rm m)) = meta /\
  match g_held g with Some (rm, _) => sh_rm m = rm | None => True end.

Definition ask_ok (r : raft_request) : (raft_response r -> ghost -> Prop) -> ghost -> Prop :=
  match r return (raft_response r -> ghost -> Prop) -> ghost -> Prop with
  | Lock => fun F g => g_held g = None /\ forall rm, F tt (g <| g_held := Some (rm, own_status rm) |>)
  | Unlock => fun F g => exists rm, g_held g = Some (rm, own_status rm) /\ F tt (g <| g_held := None |>)
  | Wait d => fun F g => forall b, F b g
  | GoVote k node => fun F g =>
      exists rest, g_sending g ≡ₚ (k, (node, None)) :: rest /\ F tt (g <| g_sending := rest |>)
  | GoHeartbeat node => fun F g =>
      exists rest, g_beating g ≡ₚ (node, None) :: rest /\ F tt (g <| g_beating := rest |>)
  | Api r => fun F g => (exists x, raft_admissible (Api r) x) /\
      forall m x, here m g -> raft_admissible (Api r) x ->
      exists g', moves m [existT (Api r) x] m g g' /\ F x g'
  end.

Fixpoint ok {A} (Q : ghost -> A -> Prop) (g : ghost) (p : prog raft_response Shared A) : Prop :=
  match p with
  | Done (Ok a) => Q g a
  | Done OutOfFuel => g_held g = None
  | Done _ => False
  | Ask r k => ask_ok r (fun x g' => ok Q g' (k x)) g
  | Atomic X f k => forall m, here m g ->
      (g_held g = None -> snd (f m) = m) /\
      exists g', moves m [] (snd (f m)) g g' /\ ok Q g' (k (fst (f m)))
  end.

Lemma ask_ok_mono r (F F' : raft_response r -> ghost -> Prop) g :
  (forall x g, F x g -> F' x g) -> ask_ok r F g -> ask_ok r F' g.
Proof.
  intros HF. destruct r; cbn.
  - intros [Hex H]. split; [done|]. intros m x Hm Hx. destruct (H m x Hm Hx) as (g' & ? & ?). eauto.
  - intros [? ?]. auto.
  - intros (rm & ? & ?). eauto.
  - auto.
  - intros (rest & ? & ?). eauto.
  - intros (rest & ? & ?). eauto.
Qed.

Lemma ok_mono {A} (Q Q' : ghost -> A -> Prop) g p :
  (forall g a, Q g a -> Q' g a) -> ok Q g p -> ok Q' g p.
Proof.
  intros HQ. revert g. induction p as [[a|e|msg|]|r k IH|X f k IH]; intros g; cbn; try done; auto.
  - apply ask_ok_mono. auto.
  - intros H m Hm. destruct (H m Hm) as (Hf & g' & Hg & Hok). split; [done|]. eauto.
Qed.

Lemma ok_bind {A B} (Q : ghost -> B -> Prop) g (p : prog raft_response Shared A) k :
  ok (fun g a => ok Q g (k a)) g p -> ok Q g (p ≫= k).
Proof.
  unfold mbind, prog_mbind. revert g. induction p as [[a|e|msg|]|r k' IH|X f k' IH]; intros g; cbn; try done.
  - apply ask_ok_mono. auto.
  - intros H m Hm. destruct (H m Hm) as (Hf & g' & Hg & Hok). split; [done|]. eauto.
Qed.

Lemma ok_for_each {A} (I : list A -> ghost -> Prop) (Q : ghost -> unit -> Prop) g (f : A -> prog raft_response Shared unit) l :
  I l g -> (forall g, I [] g -> Q g tt) ->
  (forall a l g, I (a :: l) g -> ok (fun g _ => I l g) g (f a)) -> ok Q g (for_each f l).
Proof.
  intros Hg Hend Hf. unfold for_each. revert g Hg. induction l as [|a l IH]; intros g Hg; cbn; [auto|].
  apply ok_bind. eapply ok_mono; [|by apply Hf]. intros g' [] Hg'. by apply IH.
Qed.

Lemma ok_forever {A} (g : ghost) (Q : ghost -> A -> Prop) fuel (body : prog raft_response Shared (option A)) :
  g_held g = None ->
  ok (fun g' o => match o with Some a => Q g' a | None => g' = g end) g body ->
  ok Q g (forever fuel body).
Proof.
  intros Hheld Hbody. induction fuel as [|fuel IH]; cbn; [done|]. apply ok_bind.
  eapply ok_mono; [|exact Hbody]. intros g' [a|]; cbn; [done|]. by intros ->.
Qed.

(** *** Rules that leave the system alone *)

Lemma moves_refl m e g : omap created e = [] -> moves m e m g g.
Proof.
  intros He. split; [done|]. intros hist s fs H. exists s. split; [done|]. destruct H. split; try done.
  by rewrite omap_app, He, app_nil_r.
Qed.

Lemma ok_read {A X} (Q : ghost -> A -> Prop) g (f : Shared -> X) k :
  (forall m, here m g -> ok Q g (k (f m))) -> ok Q g (read_mem f ≫= k).
Proof.
  intros H. apply ok_bind. cbn. intros m Hm. split; [done|]. exists g. split; [by apply moves_refl|]. auto.
Qed.

Lemma ok_access {A X} (Q : ghost -> A -> Prop) g (f : Shared -> X * Shared) k :
  (forall m, here m g -> (g_held g = None -> snd (f m) = m) /\
     exists g', moves m [] (snd (f m)) g g' /\ ok Q g' (k (fst (f m)))) -> ok Q g (atomically f ≫= k).
Proof. intros H. apply ok_bind. exact H. Qed.

(** The same, for a goroutine that only reads but lets the system move. *)
Lemma ok_observe {A X} (Q : ghost -> A -> Prop) g (f : Shared -> X) k :
  (forall m, here m g -> exists g', moves m [] m g g' /\ ok Q g' (k (f m))) -> ok Q g (read_mem f ≫= k).
Proof. intros H. apply ok_access. intros m Hm. split; [done|]. by apply H. Qed.

Lemma ok_lock {A} (Q : ghost -> A -> Prop) g k :
  g_held g = None -> (forall rm, ok Q (g <| g_held := Some (rm, own_status rm) |>) (k tt)) ->
  ok Q g (ask Lock ≫= k).
Proof. intros Hg Hk. by apply ok_bind. Qed.

Lemma ok_unlock {A} (Q : ghost -> A -> Prop) g rm k :
  g_held g = Some (rm, own_status rm) -> ok Q (g <| g_held := None |>) (k tt) -> ok Q g (ask Unlock ≫= k).
Proof. intros Hg Hk. apply ok_bind. by exists rm. Qed.

Lemma ok_api {A} (Q : ghost -> A -> Prop) g (r : request) k :
  (exists x, raft_admissible (Api r) x) ->
  (forall x, created (existT (Api r) x) = None) ->
  (forall x, raft_admissible (Api r) x -> ok Q g (k x)) -> ok Q g (api r ≫= k).
Proof.
  intros Hex Hc H. apply ok_bind. cbn. split; [done|]. intros m x Hm Hx. exists g. split; [|auto].
  apply moves_refl. cbv [omap list_omap]. by rewrite Hc.
Qed.

(** ** The pool *)

Definition child (r : raft_request) : ghost :=
  match r with
  | GoVote k node => MkGhost [(k, (node, None))] [] [] None
  | GoHeartbeat node => MkGhost [] [] [(node, None)] None
  | _ => nothing
  end.

Definition ended (g : ghost) (_ : unit) : Prop := g_held g = None.

(** The goroutines of a pool, each with what it stands for. *)
Record simulated (init : Sys) (st : pool raft_response Shared) (gs : list ghost) (s : Sys) : Prop := {
  sim_reach : rtc step init s;
  sim_ok : Forall2 (ok ended) gs (threads st);
  sim_matches : matches (shared st) (history st) s gs;
  sim_holder j g : gs !! j = Some g -> is_Some (g_held g) <-> holder st = Some j;
  sim_bound j : holder st = Some j -> (j < length gs)%nat;
}.

#[global] Instance lock_matches_perm m s : Proper ((≡ₚ) ==> iff) (lock_matches m s).
Proof.
  intros l l' Hl. destruct l as [|x [|y l]].
  - by apply Permutation_nil_l in Hl as ->.
  - by apply Permutation_singleton_l in Hl as ->.
  - pose proof (Permutation_length Hl) as Hlen. destruct l' as [|x' [|y' l']]; try done.
    cbn. by destruct x, x'.
Qed.

#[global] Instance omap_perm {A B} (f : A -> option B) : Proper ((≡ₚ) ==> (≡ₚ)) (omap f).
Proof.
  intros l l' Hl. induction Hl as [|x l l' _ IH|x y l|l1 l2 l3 _ IH1 _ IH2]; cbn; [done| | |by etrans].
  - destruct (f x); [by constructor|done].
  - destruct (f x), (f y); try done. apply Permutation_swap.
Qed.

Lemma matches_perm m hist s gs gs' : gs ≡ₚ gs' -> matches m hist s gs -> matches m hist s gs'.
Proof.
  intros Hp [? ? ? ? ? ? ?]. split; try done; by rewrite <-?Hp.
Qed.

(** One goroutine moves. *)
Lemma matches_move m e m' hist s gs i g g' :
  gs !! i = Some g -> matches m hist s gs -> moves m e m' g g' ->
  exists s', rtc step s s' /\ matches m' (hist ++ e) s' (<[i := g']> gs).
Proof.
  intros Hi Hm [_ Hmove].
  assert (forall x, <[i := x]> gs ≡ₚ x :: take i gs ++ drop (S i) gs) as Hp.
  { intros x. rewrite insert_take_drop by (by eapply lookup_lt_Some). by rewrite Permutation_middle. }
  destruct (Hmove hist s (take i gs ++ drop (S i) gs)) as (s' & Hs & Hm').
  - eapply matches_perm, Hm. by rewrite <-Hp, list_insert_id.
  - exists s'. split; [done|]. eapply matches_perm, Hm'. by rewrite Hp.
Qed.

Lemma here_sim init st gs s i g :
  simulated init st gs s -> term_bounded (shared st) -> gs !! i = Some g -> here (shared st) g.
Proof.
  intros [_ _ Hm Hh _] Hb Hi. split; [done|]. split; [by destruct Hm|].
  destruct (g_held g) as [[rm stt]|] eqn:E; [|done].
  pose proof (mt_lock _ _ _ _ Hm) as Hl.
  assert (gs ≡ₚ g :: take i gs ++ drop (S i) gs) as Hp.
  { rewrite Permutation_middle. by rewrite take_drop_middle. }
  rewrite Hp in Hl. cbn in Hl. rewrite E in Hl. cbn in Hl.
  destruct (omap g_held (take i gs ++ drop (S i) gs)); [|by destruct p]. by destruct Hl.
Qed.

(** A move of goroutine [i] that the system follows. *)
Lemma simulated_move init st gs s i g g' p' m' e :
  simulated init st gs s -> gs !! i = Some g -> moves (shared st) e m' g g' -> ok ended g' p' ->
  exists s', simulated init (MkPool (<[i := p']> (threads st)) m' (holder st) (history st ++ e)) (<[i := g']> gs) s'.
Proof.
  intros [Hr Hok Hm Hh Hb] Hi Hmove Hp'.
  destruct (matches_move _ _ _ _ _ _ _ _ _ Hi Hm Hmove) as (s' & Hs & Hm').
  exists s'. split; cbn; [by etrans|by apply Forall2_insert|done| |by rewrite length_insert].
  intros j gj Hj. destruct (decide (j = i)) as [->|Hne].
  - rewrite list_lookup_insert_eq in Hj by (by eapply lookup_lt_Some). injection Hj as <-.
    destruct Hmove as [-> _]. by apply Hh.
  - rewrite list_lookup_insert_ne in Hj by done. by apply Hh.
Qed.

Lemma perm_insert {A B} (f : A -> list B) (gs : list A) i g g' l :
  gs !! i = Some g -> f g ≡ₚ l ++ f g' -> gs ≫= f ≡ₚ l ++ (<[i := g']> gs ≫= f).
Proof.
  intros Hi Hl. rewrite insert_take_drop by (by eapply lookup_lt_Some).
  rewrite <-(take_drop_middle gs i g Hi) at 1. rewrite !bind_app. cbn. rewrite Hl.
  by rewrite <-!(assoc_L (++)), (Permutation_app_swap_app _ l).
Qed.

Lemma omap_insert_held (gs : list ghost) i g g' :
  gs !! i = Some g -> g_held g' = g_held g -> omap g_held (<[i := g']> gs) = omap g_held gs.
Proof.
  intros Hi Hh. rewrite insert_take_drop by (by eapply lookup_lt_Some).
  rewrite <-(take_drop_middle gs i g Hi) at 3. rewrite !omap_app. cbn. by rewrite Hh.
Qed.

(** Nobody holds the mutex but, perhaps, goroutine [i]. *)
Lemma held_only (gs : list ghost) i g g' :
  gs !! i = Some g -> (forall j gj, gs !! j = Some gj -> j <> i -> g_held gj = None) ->
  omap g_held (<[i := g']> gs) = match g_held g' with Some x => [x] | None => [] end.
Proof.
  intros Hi Hothers. rewrite insert_take_drop by (by eapply lookup_lt_Some).
  assert (forall l, (forall j gj, l !! j = Some gj -> g_held gj = None) -> omap g_held l = []) as Hnil.
  { intros l Hl. induction l as [|x l IH]; [done|]. cbn. rewrite (Hl 0%nat x) by done.
    apply IH. intros j gj. apply (Hl (S j)). }
  rewrite omap_app, (Hnil (take i gs)).
  - cbn. rewrite (Hnil (drop (S i) gs)); [by destruct (g_held g')|].
    intros j gj. rewrite lookup_drop. intros Hj. eapply Hothers; [exact Hj|lia].
  - intros j gj Hj. apply lookup_take_Some in Hj as [Hj Hji]. eapply Hothers; [exact Hj|lia].
Qed.

Lemma with_own_status rm : with_status (own_status rm) rm = rm.
Proof. destruct rm as [? []]. done. Qed.

(** What the other goroutines have, when [i] holds the mutex or nobody does. *)
Lemma others_free init st gs s i :
  simulated init st gs s -> holder st = None \/ holder st = Some i ->
  forall j gj, gs !! j = Some gj -> j <> i -> g_held gj = None.
Proof.
  intros Hsim Hholder j gj Hj Hne. destruct (g_held gj) eqn:E; [|done].
  assert (holder st = Some j) as Hh by (apply (sim_holder _ _ _ _ Hsim j gj Hj); by eexists).
  destruct Hholder; congruence.
Qed.

Lemma simulated_lock init st gs s i g k :
  simulated init st gs s -> gs !! i = Some g -> holder st = None ->
  ask_ok Lock (fun x g' => ok ended g' (k x)) g ->
  simulated init (MkPool (<[i := k tt]> (threads st)) (shared st) (Some i) (history st))
    (<[i := g <| g_held := Some (sh_rm (shared st), own_status (sh_rm (shared st))) |>]> gs) s.
Proof.
  intros Hsim Hi Hfree [Hg Hk]. pose proof Hsim as [Hr Hok Hm Hh Hb].
  set (g' := g <| g_held := _ |>). pose proof (lookup_lt_Some _ _ _ Hi) as Hlt.
  assert (omap g_held gs = []) as Hnone.
  { rewrite <-(list_insert_id gs i g Hi). rewrite (held_only gs i g g Hi); [by rewrite Hg|].
    eapply others_free; [exact Hsim|by left]. }
  split; cbn; [done|apply Forall2_insert; [done|apply Hk]| | |].
  - destruct Hm as [H1 H2 H3 H4 H5 H6 H7]. split; try done.
    + by rewrite (perm_insert g_sending gs i g g' [] Hi) in H1.
    + by rewrite (perm_insert g_counting gs i g g' [] Hi) in H2.
    + by rewrite (perm_insert g_beating gs i g g' [] Hi) in H3.
    + rewrite (held_only gs i g g' Hi); [|eapply others_free; [exact Hsim|by left]].
      rewrite Hnone in H6. cbn in *. split; [done|]. by rewrite with_own_status.
  - intros j gj Hj. destruct (decide (j = i)) as [->|Hne].
    + rewrite list_lookup_insert_eq in Hj by done. injection Hj as <-. split; [done|by eexists].
    + rewrite list_lookup_insert_ne in Hj by done.
      rewrite (others_free _ _ _ _ i Hsim (or_introl Hfree) j gj Hj Hne).
      split; [by intros []|congruence].
  - intros j [= <-]. by rewrite length_insert.
Qed.

Lemma simulated_unlock init st gs s i g k :
  simulated init st gs s -> gs !! i = Some g -> holder st = Some i ->
  ask_ok Unlock (fun x g' => ok ended g' (k x)) g ->
  simulated init (MkPool (<[i := k tt]> (threads st)) (shared st) None (history st))
    (<[i := g <| g_held := None |>]> gs) s.
Proof.
  intros Hsim Hi Hholder (rm & Hg & Hk). pose proof Hsim as [Hr Hok Hm Hh Hb].
  set (g' := g <| g_held := _ |>). pose proof (lookup_lt_Some _ _ _ Hi) as Hlt.
  pose proof (others_free _ _ _ _ i Hsim (or_intror Hholder)) as Hothers.
  assert (omap g_held gs = [(rm, own_status rm)]) as Hone.
  { rewrite <-(list_insert_id gs i g Hi). rewrite (held_only gs i g g Hi Hothers). by rewrite Hg. }
  split; cbn; [done|by apply Forall2_insert| | |done].
  - destruct Hm as [H1 H2 H3 H4 H5 H6 H7]. split; try done.
    + by rewrite (perm_insert g_sending gs i g g' [] Hi) in H1.
    + by rewrite (perm_insert g_counting gs i g g' [] Hi) in H2.
    + by rewrite (perm_insert g_beating gs i g g' [] Hi) in H3.
    + rewrite (held_only gs i g g' Hi Hothers). rewrite Hone in H6. destruct H6 as [Hrm Hsys]. cbn.
      by rewrite Hsys, with_own_status, Hrm.
  - intros j gj Hj. split; [|done]. destruct (decide (j = i)) as [->|Hne].
    + rewrite list_lookup_insert_eq in Hj by done. injection Hj as <-. by intros [? ?].
    + rewrite list_lookup_insert_ne in Hj by done. rewrite (Hothers j gj Hj Hne). by intros [? ?].
Qed.

(** A goroutine hands one of its entries to a goroutine it starts. *)
Lemma simulated_spawn init st gs s i g g' c p p' :
  simulated init st gs s -> gs !! i = Some g -> g_held g' = g_held g -> g_held c = None ->
  g_sending g ≡ₚ g_sending c ++ g_sending g' -> g_counting g ≡ₚ g_counting c ++ g_counting g' ->
  g_beating g ≡ₚ g_beating c ++ g_beating g' ->
  ok ended g' p' -> ok ended c p ->
  simulated init (MkPool (<[i := p']> (threads st) ++ [p]) (shared st) (holder st) (history st))
    (<[i := g']> gs ++ [c]) s.
Proof.
  intros [Hr Hok Hm Hh Hb] Hi Hheld Hc Hsend Hcount Hbeat Hp' Hp.
  pose proof (lookup_lt_Some _ _ _ Hi) as Hlt.
  split; cbn; [done| | | |].
  - apply Forall2_app; [by apply Forall2_insert|]. by constructor.
  - destruct Hm as [H1 H2 H3 H4 H5 H6 H7]. split; try done; rewrite ?bind_app; cbn; rewrite ?app_nil_r.
    + by rewrite H1, (perm_insert g_sending gs i g g' _ Hi Hsend), (comm (++)).
    + by rewrite H2, (perm_insert g_counting gs i g g' _ Hi Hcount), (comm (++)).
    + by rewrite H3, (perm_insert g_beating gs i g g' _ Hi Hbeat), (comm (++)).
    + rewrite omap_app, (omap_insert_held gs i g g' Hi Hheld). cbn. by rewrite Hc, app_nil_r.
  - intros j gj Hj. apply lookup_app_Some in Hj as [Hj|[Hlen Hj]].
    + destruct (decide (j = i)) as [->|Hne].
      * rewrite list_lookup_insert_eq in Hj by done. injection Hj as <-. rewrite Hheld. by apply Hh.
      * rewrite list_lookup_insert_ne in Hj by done. by apply Hh.
    + apply list_lookup_singleton_Some in Hj as [Hj <-]. rewrite Hc. split; [by intros []|].
      intros Hholder%Hb. rewrite length_insert in Hlen. lia.
  - intros j Hj%Hb. rewrite length_app, length_insert. cbn. lia.
Qed.

Definition children_ok : Prop :=
  (forall k node, ok ended (child (GoVote k node)) (vote_thread k node)) /\
  (forall node, ok ended (child (GoHeartbeat node)) (heartbeat_thread node)).


Lemma simulated_step init st st' gs s :
  children_ok -> simulated init st gs s -> raft_step st st' ->
  exists gs' s', simulated init st' gs' s'.
Proof.
  intros [Hvote Hbeat] Hsim [i _ Hbound Hstep]. unfold thread_step in Hstep.
  destruct (threads st !! i) as [p|] eqn:Ep; [|done].
  destruct (Forall2_lookup_r _ _ _ _ _ (sim_ok _ _ _ _ Hsim) Ep) as (g & Hi & Hok).
  pose proof (here_sim _ _ _ _ _ _ Hsim Hbound Hi) as Hhere.
  destruct p as [|r k|X f k]; [done| |].
  - destruct Hstep as (x & Hx & Hstep). cbn in Hok. destruct r as [r| | |d|kk node|node]; cbn in Hstep.
    + destruct Hok as [_ Hok]. destruct (Hok (shared st) x Hhere Hx) as (g' & Hmove & Hk). subst st'.
      destruct (simulated_move _ _ _ _ _ _ _ _ _ _ Hsim Hi Hmove Hk) as [s' Hs']. by exists (<[i := g']> gs), s'.
    + destruct Hstep as [Hfree ->]. destruct x. do 2 eexists. by eapply simulated_lock.
    + destruct Hstep as [Hfree ->]. destruct x. do 2 eexists. by eapply simulated_unlock.
    + subst st'. assert (moves (shared st) [existT (Wait d) x] (shared st) g g) as Hmove
        by (apply moves_refl; reflexivity).
      destruct (simulated_move _ _ _ _ _ _ _ _ _ _ Hsim Hi Hmove (Hok x)) as [s' Hs']. by exists (<[i := g]> gs), s'.
    + destruct Hok as (rest & Hrest & Hk). destruct x. subst st'. do 2 eexists.
      eapply (simulated_spawn _ _ _ _ _ _ (g <| g_sending := rest |>) (child (GoVote kk node)));
        [exact Hsim|exact Hi|done|done|exact Hrest|done|done|exact Hk|apply Hvote].
    + destruct Hok as (rest & Hrest & Hk). destruct x. subst st'. do 2 eexists.
      eapply (simulated_spawn _ _ _ _ _ _ (g <| g_beating := rest |>) (child (GoHeartbeat node)));
        [exact Hsim|exact Hi|done|done|done|done|exact Hrest|exact Hk|apply Hbeat].
  - cbn in Hok. destruct (Hok (shared st) Hhere) as (_ & g' & Hmove & Hk). subst st'.
    destruct (simulated_move _ _ _ _ _ _ _ _ _ _ Hsim Hi Hmove Hk) as [s' Hs'].
    exists (<[i := g']> gs), s'. by rewrite app_nil_r in Hs'.
Qed.

Lemma simulated_steps init st st' gs s :
  children_ok -> simulated init st gs s -> rtc raft_step st st' ->
  exists gs' s', simulated init st' gs' s'.
Proof.
  intros Hc Hsim Hsteps. revert gs s Hsim. induction Hsteps as [st|st1 st2 st3 H12 _ IH]; intros gs s Hsim.
  - eauto.
  - destruct (simulated_step _ _ _ _ _ Hc Hsim H12) as (gs' & s' & Hsim'). by eapply IH.
Qed.

(** ** Moves of the system *)

Lemma move_step e s s' :
  event_ok e -> in_int64 (rm_currentTerm (sys_rm s) + 1) -> apply e s = Some s' -> rtc step s s'.
Proof. intros. by eapply rtc_once, step_event. Qed.

(** The manager and the system's agree but for the status of the cluster. *)
Lemma lock_matches_view m s gs :
  lock_matches m s gs -> exists st, sys_rm s = with_status st (sh_rm m).
Proof.
  destruct gs as [|[rm st] [|]]; cbn; [| |done].
  - intros ->. exists (own_status (sh_rm m)). by rewrite with_own_status.
  - intros [<- ->]. by exists st.
Qed.

Lemma same_term m hist s gs :
  matches m hist s gs -> term_bounded m -> in_int64 (rm_currentTerm (sys_rm s) + 1).
Proof. intros Hm Hb. destruct (lock_matches_view _ _ _ (mt_lock _ _ _ _ Hm)) as [st ->]. exact Hb. Qed.

Lemma elem_perm_lookup {A} (l l' : list A) x : l ≡ₚ x :: l' -> exists i, l !! i = Some x /\ delete i l ≡ₚ l'.
Proof.
  intros Hl. assert (x ∈ l) as [i Hi]%list_elem_of_lookup by (rewrite Hl; by left).
  exists i. split; [done|]. rewrite (delete_Permutation l i x Hi) in Hl. by apply Permutation_cons_inv in Hl.
Qed.

Lemma insert_perm {A} (l l' : list A) i x y : l !! i = Some x -> delete i l ≡ₚ l' -> <[i := y]> l ≡ₚ y :: l'.
Proof.
  intros Hi Hl. rewrite insert_take_drop by (by eapply lookup_lt_Some).
  rewrite delete_take_drop in Hl. by rewrite <-Hl, Permutation_middle.
Qed.

(** A vote goroutine reads the manager. *)
Lemma moves_vote_read m k node d :
  term_bounded m ->
  moves m [] m (MkGhost [(k, (node, d))] [] [] None)
    (MkGhost [(k, (node, Some (sendVoteRequest (sh_rm m) node)))] [] [] None).
Proof.
  intros Hb. split; [done|]. intros hist s fs Hm. pose proof (same_term _ _ _ _ Hm Hb) as Ht.
  destruct (lock_matches_view _ _ _ (mt_lock _ _ _ _ Hm)) as [st Hst].
  pose proof Hm as [H1 H2 H3 H4 H5 H6 H7]. cbn in H1. apply elem_perm_lookup in H1 as (i & Hi & Hrest).
  eexists. split.
  - eapply (move_step (VoteRead i)); [done|done|]. cbn [apply]. rewrite Hi. done.
  - split; cbn; try done; [|by rewrite app_nil_r].
    rewrite (insert_perm _ _ _ _ _ Hi Hrest). rewrite Hst. done.
Qed.

(** It creates its request, or fails to. *)
Lemma moves_vote_send m k node data nano rm x :
  term_bounded m -> mc_meta (rm_cluster rm) = meta ->
  moves m [existT (Api (Create KConfigMap (sendMessage nano rm node data)) : raft_request) x] m
    (MkGhost [(k, (node, Some data))] [] [] None)
    (MkGhost [] (if is_success x then [k] else []) [] None).
Proof.
  intros Hb Hmeta. split; [done|]. intros hist s fs Hm. pose proof (same_term _ _ _ _ Hm Hb) as Ht.
  pose proof Hm as [H1 H2 H3 H4 H5 H6 H7]. cbn in H1. apply elem_perm_lookup in H1 as (i & Hi & Hrest).
  assert (sendMessage nano (sys_rm s) node data = sendMessage nano rm node data) as Hmsg.
  { destruct (lock_matches_view _ _ _ H6) as [st ->]. unfold sendMessage, cluster_Namespace. cbn.
    by rewrite H7, Hmeta. }
  eexists. split.
  - eapply (move_step (VoteSend i (is_success x) nano)); [done|done|]. cbn [apply]. rewrite Hi. cbn [mbind option_bind].
    by rewrite Hmsg.
  - destruct x as [cm|e]; cbn; split; cbn; rewrite ?omap_app; cbn; try done.
    + by rewrite (comm (++)), H2.
    + by rewrite H5.
    + by rewrite app_nil_r.
Qed.

Lemma moves_beat_read m node d data :
  term_bounded m -> sendAppendEntries (sh_rm m) node [] = Ok data ->
  moves m [] m (MkGhost [] [] [(node, d)] None) (MkGhost [] [] [(node, Some data)] None).
Proof.
  intros Hb Hdata. split; [done|]. intros hist s fs Hm. pose proof (same_term _ _ _ _ Hm Hb) as Ht.
  destruct (lock_matches_view _ _ _ (mt_lock _ _ _ _ Hm)) as [st Hst].
  pose proof Hm as [H1 H2 H3 H4 H5 H6 H7]. cbn in H3. apply elem_perm_lookup in H3 as (i & Hi & Hrest).
  assert (sendAppendEntries (sys_rm s) node [] = Ok data) as Hsys by (rewrite Hst; exact Hdata).
  eexists. split.
  - eapply (move_step (HeartbeatRead i)); [done|done|]. cbn [apply]. rewrite Hi. cbn [mbind option_bind].
    by rewrite Hsys.
  - split; cbn; try done; [|by rewrite app_nil_r]. by rewrite (insert_perm _ _ _ _ _ Hi Hrest).
Qed.

Lemma moves_beat_send m node data nano rm x :
  term_bounded m -> mc_meta (rm_cluster rm) = meta ->
  moves m [existT (Api (Create KConfigMap (sendMessage nano rm node data)) : raft_request) x] m
    (MkGhost [] [] [(node, Some data)] None) nothing.
Proof.
  intros Hb Hmeta. split; [done|]. intros hist s fs Hm. pose proof (same_term _ _ _ _ Hm Hb) as Ht.
  pose proof Hm as [H1 H2 H3 H4 H5 H6 H7]. cbn in H3. apply elem_perm_lookup in H3 as (i & Hi & Hrest).
  assert (sendMessage nano (sys_rm s) node data = sendMessage nano rm node data) as Hmsg.
  { destruct (lock_matches_view _ _ _ H6) as [st ->]. unfold sendMessage, cluster_Namespace. cbn.
    by rewrite H7, Hmeta. }
  eexists. split.
  - eapply (move_step (HeartbeatSend i (is_success x) nano)); [done|done|]. cbn [apply]. rewrite Hi. cbn [mbind option_bind].
    by rewrite Hmsg.
  - destruct x as [cm|e]; cbn; split; cbn; rewrite ?omap_app; cbn; try done.
    + by rewrite H5.
    + by rewrite app_nil_r.
Qed.

(** *** Under the mutex *)

Lemma lock_held m s rm st l :
  lock_matches m s ((rm, st) :: l) -> l = [] /\ sh_rm m = rm /\ sys_rm s = with_status st rm.
Proof. destruct l; cbn; tauto. Qed.

(** The holder changes the manager, and the system takes the step [e]. *)
Lemma moves_election m tested now rnd rm maj targets rm' :
  term_bounded m -> 0 <= rnd < 150 -> sh_rm m = rm -> election_due tested rm = true ->
  startElection now rnd rm = (rm', (maj, targets)) ->
  moves m [] (MkShared rm' (sh_elections m ++ [MkElection 1 maj]))
    (MkGhost [] [] [] (Some (rm, own_status rm)))
    (MkGhost (new_votes (length (sh_elections m)) targets) [] [] (Some (rm', own_status rm'))).
Proof.
  intros Hb Hrnd Hrm Hdue Hstart. split; [done|]. intros hist s fs Hm.
  pose proof (same_term _ _ _ _ Hm Hb) as Ht. pose proof Hm as [H1 H2 H3 H4 H5 H6 H7]. cbn in *.
  apply lock_held in H6 as (Hnil & _ & Hsys). rewrite with_own_status in Hsys.
  eexists. split.
  - eapply (move_step (ElectionTimer tested now rnd)); [done|done|]. cbn [apply].
    rewrite Hsys, Hdue, Hstart. done.
  - apply startElection_frame in Hstart as ((_ & _ & Hmeta) & _).
    split; cbn; rewrite ?H4, ?app_nil_r; try done.
    + by rewrite (comm (++)), H1.
    + rewrite Hnil. by rewrite with_own_status.
    + rewrite Hmeta, <-Hrm. exact H7.
Qed.

Lemma moves_heartbeats m rm :
  term_bounded m -> sh_rm m = rm -> heartbeat_due rm = true ->
  moves m [] m (MkGhost [] [] [] (Some (rm, own_status rm)))
    (MkGhost [] [] (new_beats (sendHeartbeats rm)) (Some (rm, own_status rm))).
Proof.
  intros Hb Hrm Hdue. split; [done|]. intros hist s fs Hm.
  pose proof (same_term _ _ _ _ Hm Hb) as Ht. pose proof Hm as [H1 H2 H3 H4 H5 H6 H7]. cbn in *.
  apply lock_held in H6 as (Hnil & _ & Hsys). pose proof Hsys as Hsys'. rewrite with_own_status in Hsys'.
  eexists. split.
  - eapply (move_step HeartbeatTimer); [done|done|]. cbn [apply]. rewrite Hsys', Hdue. done.
  - split; cbn; rewrite ?app_nil_r; try done.
    + by rewrite (comm (++)), H3.
    + by rewrite Hnil.
Qed.

Lemma moves_force m rm :
  term_bounded m -> sh_rm m = rm ->
  moves m [] (MkShared (forceElection rm) (sh_elections m)) (MkGhost [] [] [] (Some (rm, own_status rm)))
    (MkGhost [] [] [] (Some (forceElection rm, own_status (forceElection rm)))).
Proof.
  intros Hb Hrm. split; [done|]. intros hist s fs Hm.
  pose proof (same_term _ _ _ _ Hm Hb) as Ht. pose proof Hm as [H1 H2 H3 H4 H5 H6 H7]. cbn in *.
  apply lock_held in H6 as (Hnil & _ & Hsys). rewrite with_own_status in Hsys.
  eexists. split.
  - eapply (move_step ForceElection); [done|done|]. cbn [apply]. rewrite Hsys. done.
  - split; cbn; rewrite ?app_nil_r; try done.
    + rewrite Hnil. by rewrite with_own_status.
    + rewrite <-Hrm. unfold forceElection. by case_decide.
Qed.

Lemma lead_cluster rm : rm_cluster (lead rm) = rm_cluster rm.
Proof.
  unfold lead. match goal with |- context [foldl init_follower ?r ?l] =>
    destruct (foldl_init_follower r l) as (ni & mi & ->) end. done.
Qed.

(** A vote is counted; the system's manager writes its status at once, the goroutine still has to. *)
Lemma moves_count m k rm el won m' :
  term_bounded m -> sh_rm m = rm -> sh_elections m !! k = Some el -> count_vote k m = (won, m') ->
  moves m [] m' (MkGhost [] [k] [] (Some (rm, own_status rm)))
    (MkGhost [] [] (if won then new_beats (sendHeartbeats (sh_rm m')) else [])
      (Some (sh_rm m', if won then statusOf (sh_rm m') else own_status (sh_rm m')))).
Proof.
  intros Hb Hrm Hel Hcount. split; [done|]. intros hist s fs Hm.
  pose proof (same_term _ _ _ _ Hm Hb) as Ht. pose proof Hm as [H1 H2 H3 H4 H5 H6 H7].
  cbn [omap list_omap g_held] in H6. apply lock_held in H6 as (Hnil & _ & Hsys). rewrite with_own_status in Hsys.
  cbn in H1, H2, H3. apply elem_perm_lookup in H2 as (i & Hi & Hrest).
  unfold count_vote in Hcount. rewrite Hel, Hrm in Hcount. injection Hcount as <- <-.
  destruct (bool_decide (el_majority el <= int64 (el_votes el + 1) /\ rm_state rm = RaftStateCandidate)) eqn:Hwon.
  all: eexists; split;
    [eapply (move_step (VoteCount i (fun _ => Failure (Errorf "")))); [done|done|];
     cbn [apply]; rewrite Hi; cbn [mbind option_bind]; rewrite H4, Hel; cbn [mbind option_bind];
     unfold countVote; rewrite Hsys, Hwon; reflexivity|].
  all: split; cbn -[statusOf lead sendHeartbeats foldl]; rewrite ?app_nil_r; try done.
  - by rewrite (comm (++)), H3.
  - by rewrite Hnil.
  - rewrite lead_cluster, <-Hrm. exact H7.
  - rewrite Hnil. cbn. by rewrite with_own_status.
  - rewrite <-Hrm. exact H7.
Qed.

Lemma moves_write_status m rm beats :
  sh_rm m = rm ->
  let rm' := with_status (statusOf rm) rm in
  moves m [] (m <| sh_rm := rm' |>) (MkGhost [] [] beats (Some (rm, statusOf rm)))
    (MkGhost [] [] beats (Some (rm', own_status rm'))).
Proof.
  intros Hrm rm'. split; [done|]. intros hist s fs [H1 H2 H3 H4 H5 H6 H7]. exists s. split; [done|].
  cbn [omap list_omap g_held] in H6. apply lock_held in H6 as (Hnil & _ & Hsys).
  split; cbn -[statusOf]; rewrite ?app_nil_r; try done.
  - rewrite Hnil. split; [done|]. rewrite Hsys. by destruct rm as [? []].
  - rewrite <-Hrm. exact H7.
Qed.

Lemma moves_decode m rm c :
  term_bounded m -> sh_rm m = rm -> Spec c = Spec (rm_cluster rm) -> mc_meta c = mc_meta (rm_cluster rm) ->
  moves m [] (m <| sh_rm := rm <| rm_cluster := c |> |>) (MkGhost [] [] [] (Some (rm, own_status rm)))
    (MkGhost [] [] [] (Some (rm <| rm_cluster := c |>, own_status (rm <| rm_cluster := c |>)))).
Proof.
  intros Hb Hrm Hspec Hmeta. split; [done|]. intros hist s fs Hm.
  pose proof (same_term _ _ _ _ Hm Hb) as Ht. pose proof Hm as [H1 H2 H3 H4 H5 H6 H7]. cbn in *.
  apply lock_held in H6 as (Hnil & _ & Hsys). rewrite with_own_status in Hsys.
  eexists. split.
  - eapply (move_step (StatusWrite (Status c))); [done|done|]. reflexivity.
  - split; cbn; rewrite ?app_nil_r; try done.
    + rewrite Hnil. cbn. split; [done|]. rewrite Hsys, with_own_status. destruct c as [cm cs ct].
      cbn in *. subst cm cs. by destruct rm as [? []].
    + by rewrite Hmeta, <-Hrm.
Qed.

(** ** The programs *)

Lemma ok_ret {A} (Q : ghost -> A -> Prop) g (a : A) : Q g a -> ok Q g (mret a).
Proof. done. Qed.

Lemma here_meta m g : here m g -> mc_meta (rm_cluster (sh_rm m)) = meta.
Proof. by intros (_ & ? & _). Qed.

Lemma here_held m g rm st : here m g -> g_held g = Some (rm, st) -> sh_rm m = rm.
Proof. intros (_ & _ & H) E. by rewrite E in H. Qed.

Lemma ok_send_vote k node data :
  ok (fun g ok => g = MkGhost [] (if ok : bool then [k] else []) [] None)
    (MkGhost [(k, (node, Some data))] [] [] None) (send_message node data).
Proof.
  unfold send_message. apply ok_api; [by exists 0|done|]. intros nano _. apply ok_read. intros m1 Hm1.
  apply ok_bind. cbn. split; [by exists (Failure (Errorf ""))|]. intros m x Hm _. eexists. split; [apply moves_vote_send; [apply Hm|by apply here_meta in Hm1]|done].
Qed.

Lemma ok_send_beat node data :
  ok (fun g _ => g = nothing) (MkGhost [] [] [(node, Some data)] None) (send_message node data).
Proof.
  unfold send_message. apply ok_api; [by exists 0|done|]. intros nano _. apply ok_read. intros m1 Hm1.
  apply ok_bind. cbn. split; [by exists (Failure (Errorf ""))|]. intros m x Hm _. eexists. split; [apply moves_beat_send; [apply Hm|by apply here_meta in Hm1]|done].
Qed.

Lemma heartbeat_thread_ok node : ok ended (child (GoHeartbeat node)) (heartbeat_thread node).
Proof.
  unfold heartbeat_thread. apply ok_observe. intros m Hm.
  destruct (sendAppendEntries_total (sh_rm m) node []) as [data Hdata]. rewrite Hdata.
  eexists. split; [eapply moves_beat_read; [apply Hm|exact Hdata]|].
  apply ok_bind. eapply ok_mono; [|apply ok_send_beat]. by intros g b ->.
Qed.

(** [send_heartbeats] hands out the heartbeats it stands for. *)
Lemma ok_send_heartbeats rm st :
  ok (fun g _ => g = MkGhost [] [] [] (Some (rm, st)))
    (MkGhost [] [] (new_beats (sendHeartbeats rm)) (Some (rm, st))) send_heartbeats.
Proof.
  unfold send_heartbeats. apply ok_read. intros m Hm. rewrite (here_held _ _ _ _ Hm eq_refl).
  eapply (ok_for_each (fun l g => g = MkGhost [] [] (new_beats l) (Some (rm, st)))); [done|by intros g ->|].
  intros a l g ->. exists (new_beats l). split; [done|done].
Qed.

Lemma ok_update_status rm :
  ok (fun g _ => exists rm', g = MkGhost [] [] [] (Some (rm', own_status rm')))
    (MkGhost [] [] [] (Some (rm, statusOf rm))) update_status.
Proof.
  unfold update_status. apply ok_access. intros m Hm. split; [done|].
  pose proof (here_held _ _ _ _ Hm eq_refl) as Hrm. eexists. split.
  { cbn [fst snd]. rewrite Hrm. by apply moves_write_status. }
  set (rm' := with_status (statusOf rm) rm). apply ok_read. intros m1 Hm1.
  rewrite (here_held _ _ _ _ Hm1 eq_refl). apply ok_api; [by exists (Failure (Errorf ""))|done|]. intros [c|e] Hc; [|by exists rm'].
  destruct (Hc c eq_refl) as [Hspec Hmeta]. intros m2 Hm2. split; [done|].
  pose proof (here_held _ _ _ _ Hm2 eq_refl) as Hrm2. eexists. split.
  { cbn [fst snd]. rewrite Hrm2. by apply moves_decode; [apply Hm2|..]. }
  by eexists.
Qed.

Lemma vote_thread_ok k node : ok ended (child (GoVote k node)) (vote_thread k node).
Proof.
  unfold vote_thread. apply ok_observe. intros m Hm. eexists. split; [apply moves_vote_read, Hm|].
  apply ok_bind. eapply ok_mono; [|apply ok_send_vote]. intros g [] ->; [|done].
  apply ok_lock; [done|]. intros rm. apply ok_access. intros m1 Hm1. split; [done|].
  pose proof (here_held _ _ _ _ Hm1 eq_refl) as Hrm.
  destruct (sh_elections m1 !! k) as [el|] eqn:Hel.
  - destruct (count_vote k m1) as [won m'] eqn:Hcount. eexists. split.
    { cbn [snd]. eapply moves_count; [apply Hm1|exact Hrm|exact Hel|exact Hcount]. }
    cbn [fst]. apply ok_bind. destruct won.
    + apply ok_bind. eapply ok_mono; [|apply ok_send_heartbeats]. intros g [] ->.
      eapply ok_mono; [|apply ok_update_status]. intros g [] [rm' ->]. by exists rm'.
    + by exists (sh_rm m').
  - unfold count_vote. rewrite Hel. eexists. split; [by apply moves_refl|]. by exists rm.
Qed.

Lemma ok_start_election rm tested :
  election_due tested rm = true ->
  ok (fun g _ => exists rm', g = MkGhost [] [] [] (Some (rm', own_status rm')))
    (MkGhost [] [] [] (Some (rm, own_status rm))) start_election.
Proof.
  intros Hdue. unfold start_election. apply ok_api; [by exists 0|done|]. intros now _. apply ok_api; [exists 0; cbn; lia|done|].
  intros rnd Hrnd. apply ok_access. intros m Hm. split; [done|].
  pose proof (here_held _ _ _ _ Hm eq_refl) as Hrm. rewrite Hrm.
  destruct (startElection now rnd rm) as [rm' [maj nodes]] eqn:Hstart. eexists. split.
  { cbn [snd]. eapply moves_election; [apply Hm|by apply Hrnd|exact Hrm|exact Hdue|exact Hstart]. }
  cbn [fst].
  eapply (ok_for_each (fun l g => g = MkGhost (new_votes (length (sh_elections m)) l) [] [] (Some (rm', own_status rm'))));
    [done|intros g ->; by eexists|].
  intros node l g ->. exists (new_votes (length (sh_elections m)) l). split; [done|done].
Qed.

Lemma election_round_ok :
  ok (fun g o => match o with Some a => ended g a | None => g = nothing end) nothing election_round.
Proof.
  unfold election_round. apply ok_read. intros m0 _. apply ok_bind. intros [|]; [|done]. cbn [negb].
  apply ok_lock; [done|]. intros rm. apply ok_read. intros m1 Hm1.
  rewrite (here_held _ _ _ _ Hm1 eq_refl).
  assert (forall rm', ok (fun g o => match o with Some a => ended g a | None => g = nothing end)
    (MkGhost [] [] [] (Some (rm', own_status rm'))) (_ ← ask Unlock; mret None)) as Hend.
  { intros rm'. by eapply ok_unlock. }
  destruct (bool_decide (rm_state rm = RaftStateLeader)) eqn:Hlead.
  - apply ok_bind, ok_ret. apply ok_bind, ok_ret. apply Hend.
  - apply ok_bind. apply ok_api; [by exists 0|done|]. intros tested _. intros m2 Hm2. split; [done|].
    eexists. split; [by apply moves_refl|]. cbn [fst]. rewrite (here_held _ _ _ _ Hm2 eq_refl).
    destruct (rm_electionTimeout rm <? Since tested (rm_lastHeartbeat rm)) eqn:Hdue.
    + apply ok_bind. eapply ok_mono; [|apply (ok_start_election rm tested)].
      * intros g [] [rm' ->]. apply Hend.
      * unfold election_due. rewrite Hdue. apply bool_decide_eq_false in Hlead. by rewrite bool_decide_eq_true_2.
    + apply ok_bind, ok_ret. apply Hend.
Qed.

Lemma heartbeat_round_ok :
  ok (fun g o => match o with Some a => ended g a | None => g = nothing end) nothing heartbeat_round.
Proof.
  unfold heartbeat_round. apply ok_read. intros m0 _. apply ok_bind. intros [|]; [|done]. cbn [negb].
  apply ok_lock; [done|]. intros rm. apply ok_observe. intros m1 Hm1.
  pose proof (here_held _ _ _ _ Hm1 eq_refl) as Hrm. rewrite Hrm.
  destruct (heartbeat_due rm) eqn:Hdue.
  - eexists. split; [by apply moves_heartbeats; [apply Hm1|..]|]. apply ok_bind.
    eapply ok_mono; [|apply ok_send_heartbeats]. intros g [] ->. by eapply ok_unlock.
  - eexists. split; [by apply moves_refl|]. apply ok_bind, ok_ret. by eapply ok_unlock.
Qed.

Lemma force_election_ok : ok (fun g _ => g = nothing) nothing force_election.
Proof.
  unfold force_election. apply ok_lock; [done|]. intros rm. apply ok_access. intros m Hm. split; [done|].
  pose proof (here_held _ _ _ _ Hm eq_refl) as Hrm. eexists. split.
  { cbn [snd]. rewrite Hrm. by apply moves_force; [apply Hm|]. }
  by exists (forceElection rm).
Qed.

Lemma start_ok fuel :
  Forall2 (ok ended) [nothing; nothing; nothing]
    [run_election_timer fuel; run_heartbeat_timer fuel; run_failovers fuel].
Proof.
  repeat constructor.
  - by apply ok_forever; [|apply election_round_ok].
  - by apply ok_forever; [|apply heartbeat_round_ok].
  - eapply (ok_for_each (fun _ g => g = nothing)); [done|by intros g ->|].
    intros a l g ->. apply force_election_ok.
Qed.

End logic.

(** ** What the programs do *)

Notation requests_made st := (omap created (history st)).

Lemma simulated_start fuel id cluster rnd now :
  let rm := NewRaftManager id cluster rnd now in
  simulated (mc_meta cluster) (init_sys rm) (Start fuel rm) [nothing; nothing; nothing] (init_sys rm).
Proof.
  intros rm. split; [done|apply start_ok|by split| |done].
  intros j g Hj. assert (g = nothing) as -> by (by destruct j as [|[|[|]]]; simplify_eq/=).
  split; [by intros []|done].
Qed.

(** Every reachable pool is simulated. *)
Lemma pool_simulated fuel id cluster st :
  pool_reachable fuel id cluster st ->
  exists rnd now gs s, 0 <= rnd < 150 /\
    simulated (mc_meta cluster) (init_sys (NewRaftManager id cluster rnd now)) st gs s.
Proof.
  intros (rnd & now & Hrnd & Hsteps).
  destruct (simulated_steps (mc_meta cluster) _ _ _ _ _
    (conj (vote_thread_ok (mc_meta cluster)) (heartbeat_thread_ok (mc_meta cluster)))
    (simulated_start fuel id cluster rnd now) Hsteps) as (gs & s & Hsim).
  by exists rnd, now, gs, s.
Qed.

(** Everybody's view of a reachable pool. *)
Lemma pool_view fuel id cluster st :
  pool_reachable fuel id cluster st ->
  exists s, reachable id cluster s /\ sys_outbox s = requests_made st /\
    sys_elections s = sh_elections (shared st) /\
    (exists status, sys_rm s = with_status status (sh_rm (shared st))) /\
    (holder st = None -> sys_rm s = sh_rm (shared st)).
Proof.
  intros (rnd & now & gs & s & Hrnd & Hsim)%pool_simulated. pose proof Hsim as [Hr _ Hm Hh _].
  exists s. split; [by exists rnd, now|]. pose proof Hm as [_ _ _ H4 H5 H6 _].
  split; [done|]. split; [done|]. split; [by eapply lock_matches_view|]. intros Hfree.
  assert (omap g_held gs = []) as Hnil.
  { destruct (omap g_held gs) as [|x l] eqn:E; [done|].
    assert (x ∈ omap g_held gs) as Hx by (rewrite E; by left).
    apply list_elem_of_omap in Hx as (g & [j Hj]%list_elem_of_lookup & Hg).
    assert (is_Some (g_held g)) as Hs by by eexists. apply (Hh j g Hj) in Hs. congruence. }
  by rewrite Hnil in H6.
Qed.

(** C2: the goroutines of [raft.go] refine the system of critical sections: whatever way the timers, the
    vote goroutines, the heartbeats and the failovers are interleaved, statement by statement with
    reads outside the mutex, what they have created and counted is that of a run of the system, and
    so is the manager whenever nobody holds the mutex. *)
Theorem threads_refine_system fuel id cluster st :
  pool_reachable fuel id cluster st ->
  exists s, reachable id cluster s /\ sys_outbox s = requests_made st /\
    sys_elections s = sh_elections (shared st) /\
    (holder st = None -> sys_rm s = sh_rm (shared st)).
Proof. intros (s & Hs & Ho & He & _ & Hrm)%pool_view. by exists s. Qed.

(** C1: in every interleaving of the goroutines a manager that leads, whether or not somebody holds the
    mutex at the time, has had vote requests created for a majority of the nodes: in one of its
    elections it counted its own vote and one for each of some other nodes of the cluster, no two the
    same, a vote request addressed to each of these nodes was created, and with itself these are
    more than half of the nodes. *)
Theorem threads_leader_has_majority fuel id cluster st :
  valid_cluster cluster -> pool_reachable fuel id cluster st ->
  rm_state (sh_rm (shared st)) = RaftStateLeader ->
  majority_requested id cluster (sh_elections (shared st)) (requests_made st).
Proof.
  intros Hv (s & Hs & <- & <- & [status Hrm] & _)%pool_view Hlead.
  eapply leader_majority; [done|done|]. by rewrite Hrm.
Qed.

(** C17: the manager and the vote counters are written by the goroutine that holds the mutex only; every
    other goroutine reads. *)
Theorem threads_write_under_mutex fuel id cluster st st' i :
  pool_reachable fuel id cluster st -> term_bounded (shared st) ->
  thread_step raft_effect raft_admissible i st st' -> shared st' <> shared st -> holder st = Some i.
Proof.
  intros (rnd & now & gs & s & _ & Hsim)%pool_simulated Hb Hstep Hne. unfold thread_step in Hstep.
  destruct (threads st !! i) as [p|] eqn:Ep; [|done].
  destruct (Forall2_lookup_r _ _ _ _ _ (sim_ok _ _ _ _ _ Hsim) Ep) as (g & Hi & Hok).
  pose proof (here_sim _ _ _ _ _ _ _ Hsim Hb Hi) as Hhere. destruct p as [|r k|X f k]; [done| |].
  - destruct Hstep as (x & _ & Hstep). exfalso. apply Hne.
    destruct (raft_effect r); [destruct Hstep as [_ ->]|destruct Hstep as [_ ->]|subst st'|subst st']; done.
  - subst st'. cbn in Hne, Hok. destruct (Hok (shared st) Hhere) as [Hkeep _].
    apply (sim_holder _ _ _ _ _ Hsim i g Hi). destruct (g_held g); [by eexists|]. by rewrite Hkeep in Hne.
Qed.

(** A request that is not a wait for the mutex can be answered. *)
Lemma ask_moves meta g r (k : raft_response r -> prog raft_response Shared unit) i st :
  threads st !! i = Some (Ask r k) -> ok meta ended g (Ask r k) ->
  (g_held g = None -> holder st = None) -> (is_Some (g_held g) -> holder st = Some i) ->
  exists st', thread_step raft_effect raft_admissible i st st'.
Proof.
  intros Hi Hok Hfree Hheld. unfold thread_step. rewrite Hi. destruct r as [r| | |d|kk node|node]; cbn in *.
  - destruct Hok as [[x Hx] _]. by exists (MkPool (<[i := k x]> (threads st)) (shared st) (holder st)
      (history st ++ [existT (Api r) x])), x.
  - destruct Hok as [Hg _]. eexists _, tt. by split_and!; [|apply Hfree|].
  - destruct Hok as (rm & Hg & _). eexists _, tt. split_and!; [done| |done]. apply Hheld. rewrite Hg. by eexists.
  - by eexists _, true.
  - by eexists _, tt.
  - by eexists _, tt.
Qed.

(** C16: the goroutines neither panic nor block each other for good: in every state they reach either all
    have ended or one of them can take a step, so no two wait for the mutex while nobody holds it or
    its holder waits as well. *)
Theorem threads_never_stuck fuel id cluster st :
  pool_reachable fuel id cluster st -> term_bounded (shared st) ->
  running st /\ (Forall finished (threads st) \/ exists st', raft_step st st').
Proof.
  intros (rnd & now & gs & s & _ & Hsim)%pool_simulated Hb.
  assert (running st) as Hrun.
  { apply Forall_lookup. intros i p Ep Hp.
    destruct (Forall2_lookup_r _ _ _ _ _ (sim_ok _ _ _ _ _ Hsim) Ep) as (g & _ & Hok).
    by destruct p as [[]| |]. }
  split; [done|].
  assert (forall i p g, threads st !! i = Some p -> gs !! i = Some g -> ok (mc_meta cluster) ended g p ->
    ~ finished p -> (g_held g = None -> holder st = None) -> exists st', raft_step st st') as Hstep.
  { intros i p g Ep Hi Hok Hp Hfree. pose proof (sim_holder _ _ _ _ _ Hsim i g Hi) as Hh.
    destruct p as [o|r k|X f k]; [by contradict Hp| |].
    - destruct (ask_moves _ g r k i st Ep Hok Hfree) as [st' Hst']; [by apply Hh|].
      exists st'. by eapply pool_step_thread.
    - eexists. eapply (pool_step_thread _ _ _ _ _ i); [done|done|]. unfold thread_step. by rewrite Ep. }
  destruct (holder st) as [j|] eqn:Hholder.
  - right. destruct (lookup_lt_is_Some_2 gs j (sim_bound _ _ _ _ _ Hsim j Hholder)) as [g Hj].
    destruct (Forall2_lookup_l _ _ _ _ _ (sim_ok _ _ _ _ _ Hsim) Hj) as (p & Ep & Hok).
    assert (is_Some (g_held g)) as [x Hg] by (by apply (sim_holder _ _ _ _ _ Hsim j g Hj)).
    apply (Hstep j p g Ep Hj Hok); [|congruence].
    intros Hfin. destruct p as [[[]|e|msg|]|r k|X f k]; try done; cbn in Hok; unfold ended in *; congruence.
  - destruct (decide (Forall finished (threads st))) as [|Hnot]; [by left|right].
    apply not_Forall_Exists, Exists_exists in Hnot as (p & [i Ep]%list_elem_of_lookup & Hp); [|apply _].
    destruct (Forall2_lookup_r _ _ _ _ _ (sim_ok _ _ _ _ _ Hsim) Ep) as (g & Hi & Hok).
    by apply (Hstep i p g Ep Hi Hok).
Qed.
End raft_threads.

(** ** A concrete run *)

#[local] Existing Instance sim_extern.

#[local] Instance term_bounded_dec (s : Shared) : Decision (term_bounded s).
Proof. unfold term_bounded, in_int64. apply _. Defined.

(** The server of [grant], a clock that stands at [now]. *)
Definition grant_all (now : Time) (r : raft_request) : raft_response r :=
  match r return raft_response r with
  | Api r => grant now r
  | Wait _ => true
  | Lock | Unlock | GoVote _ _ | GoHeartbeat _ => tt
  end.

Lemma grant_all_admissible now r : raft_admissible r (grant_all now r).
Proof. destruct r as [[]| | | | |]; cbn; try done; try lia; by intros c' [= ->]. Qed.

Definition run_turns (now : Time) (ts : list nat) (st : pool raft_response Shared) :
    pool raft_response Shared :=
  turns raft_effect term_bounded ((fun i => (i, grant_all now)) <$> ts) st.

(** Three nodes, one round of the timers and no failover. *)
Definition example_start : pool raft_response Shared :=
  Start 1 (NewRaftManager "db-0" (example_cluster 3) 0 0).

Lemma run_turns_reachable now ts : pool_reachable 1 "db-0" (example_cluster 3) (run_turns now ts example_start).
Proof.
  exists 0, 0. split; [lia|]. apply turns_steps, Forall_fmap, Forall_true.
  intros i r. apply grant_all_admissible.
Qed.

(** The election timer fires and starts an election; the goroutine of [db-1] has its request created
    and counts it. *)
Definition example_led : pool raft_response Shared :=
  run_turns Second (replicate 20 0%nat ++ replicate 6 3%nat) example_start.

Lemma example_led_leads : rm_state (sh_rm (shared example_led)) = RaftStateLeader.
Proof. vm_compute. reflexivity. Qed.

Lemma threads_refine_system_witness :
  exists s, reachable "db-0" (example_cluster 3) s /\ sys_outbox s = omap created (history example_led) /\
    sys_elections s = sh_elections (shared example_led) /\
    (holder example_led = None -> sys_rm s = sh_rm (shared example_led)).
Proof. exact (threads_refine_system 1 _ _ example_led (run_turns_reachable _ _)). Defined.

Lemma threads_leader_has_majority_witness :
  majority_requested "db-0" (example_cluster 3) (sh_elections (shared example_led))
    (omap created (history example_led)).
Proof.
  apply (threads_leader_has_majority 1 "db-0" (example_cluster 3) example_led).
  - cbv; split; congruence.
  - apply run_turns_reachable.
  - exact example_led_leads.
Defined.

(** The election timer about to start the election. *)
Definition example_due : pool raft_response Shared := run_turns Second (replicate 8 0%nat) example_start.

Definition example_candidate : pool raft_response Shared :=
  turn raft_effect term_bounded (grant_all Second) 0 example_due.

Lemma example_due_writes : shared example_candidate <> shared example_due.
Proof.
  intros H. apply (f_equal (fun s => length (sh_elections s))) in H. vm_compute in H. discriminate.
Qed.

Lemma example_due_bounded : term_bounded (shared example_due).
Proof. apply (bool_decide_unpack _). vm_compute. done. Qed.

Lemma threads_write_under_mutex_witness : holder example_due = Some 0%nat.
Proof.
  apply (threads_write_under_mutex 1 "db-0" (example_cluster 3) example_due example_candidate 0).
  - apply run_turns_reachable.
  - exact example_due_bounded.
  - apply turn_thread_step; [apply grant_all_admissible|exact example_due_writes].
  - exact example_due_writes.
Defined.

Lemma threads_never_stuck_witness :
  running example_due /\ (Forall finished (threads example_due) \/
    exists st', pool_step raft_effect raft_admissible term_bounded example_due st').
Proof.
  apply (threads_never_stuck 1 "db-0" (example_cluster 3));
    [apply run_turns_reachable|exact example_due_bounded].
Defined.
