(* ===== verification/Resources.v ===== *)
(** * Creating and labelling Kubernetes resources ([internal/controller/utlis.go])

    Each method of the reconciler in that file is a program over the requests of [Kube].  The
    reconciler's logging is left out. *)

From S2P Require Import Prelude GoLib Prog Types Kube KubeSim.

(** ** Constants ([mysqlcluster_controller.go]) *)

Definition MySQLPassword : string := "password".
Definition MysqlClusterKind : string := "MysqlCluster".
Definition MysqlClusterAPIVersion : string := "apps.ryansu.com/v1".

Definition nl : string := String (ascii_of_nat 10) EmptyString.

Fixpoint lines (l : list string) : string :=
  match l with
  | [] => ""
  | [s] => s
  | s :: l' => s +:+ nl +:+ lines l'
  end.

(** [mysql -uroot -p... -e "sql"] *)
Definition mysql_e (sql : string) : string :=
  "mysql -uroot -p" +:+ MySQLPassword +:+ " -e " +:+ dq +:+ sql +:+ dq.

Section resources.
Context {ext : Extern} {M : Type}.

#[local] Notation io := (prog response M).

(** ** Objects the operator creates *)

Definition ownerRef (apiVersion : string) (cluster : MysqlCluster) : OwnerReference := {|
  or_APIVersion := apiVersion;
  or_Kind := MysqlClusterKind;
  or_Name := cluster_Name cluster;
  or_UID := om_UID (mc_meta cluster);
  or_Controller := true;
|}.

Definition configMapData (serverID : Z) : string :=
  lines ["[mysqld]"; "server-id=" +:+ fmt_d serverID; "binlog_format=row"; "log-bin=mysql-bin";
         "skip-name-resolve"; "gtid-mode=on"; "enforce-gtid-consistency=true";
         "log-slave-updates=1"; "relay_log_purge=0"; "# other configurations"].

Definition new_meta (name namespace : string) (labels : option (gmap string string))
    (owner : OwnerReference) : ObjectMeta := {|
  om_Name := name;
  om_Namespace := namespace;
  om_UID := "";
  om_Labels := labels;
  om_Annotations := None;
  om_OwnerReferences := [owner];
|}.

Definition new_ConfigMap (name : string) (serverID : Z) (namespace : string)
    (cluster : MysqlCluster) : ConfigMap := {|
  cm_meta := new_meta name namespace None (ownerRef MysqlClusterAPIVersion cluster);
  cm_Data := {["my.cnf" := configMapData serverID]};
|}.

(** [resource.MustParse] panics on a text that is not a quantity. *)
Definition MustParse (s : string) : io Quantity :=
  match ParseQuantity s with
  | Some q => mret q
  | None => panic ("cannot parse '" +:+ s +:+ "'")
  end.

Definition new_PVC (name storageClassName namespace : string) (storage : Quantity)
    (cluster : MysqlCluster) : PersistentVolumeClaim := {|
  pvc_meta := new_meta name namespace (Some {["app" := "mysql"]})
                (ownerRef "database.kubebuilder.io/v1" cluster);
  pvc_AccessModes := ["ReadWriteOnce"];
  pvc_storage := storage;
  pvc_StorageClassName := storageClassName;
|}.

Definition new_Pod (name image configMapName pvcName namespace : string)
    (requests limits : ResourceList) (cluster : MysqlCluster) : Pod := {|
  pod_meta := new_meta name namespace (Some {["app" := "mysql"]})
                (ownerRef MysqlClusterAPIVersion cluster);
  pod_spec := {|
    Containers := [{|
      c_Name := "mysql";
      c_Image := image;
      c_Requests := requests;
      c_Limits := limits;
      c_Env := [("MYSQL_ROOT_PASSWORD", "password")];
      c_Ports := [("mysql", 3306)];
      c_VolumeMounts := [
        {| vm_Name := "mysql-config"; vm_MountPath := "/etc/my.cnf"; vm_SubPath := "my.cnf" |};
        {| vm_Name := "mysql-data"; vm_MountPath := "/var/lib/mysql"; vm_SubPath := "" |}];
    |}];
    Volumes := [("mysql-config", ConfigMapVolume configMapName);
                ("mysql-data", PersistentVolumeClaimVolume pvcName)];
  |};
  pod_status := {| Phase := ""; ContainerStatuses := [] |};
|}.

Definition role_labels (role : string) : gmap string string :=
  <["app" := "mysql"]> {["role" := role]}.

Definition createService (name role namespace : string) (cluster : MysqlCluster) : Service := {|
  svc_meta := new_meta name namespace (Some (role_labels role))
                (ownerRef MysqlClusterAPIVersion cluster);
  svc_Selector := role_labels role;
  svc_Ports := [{| sp_Port := 3306; sp_TargetPort := 3306; sp_Protocol := "TCP" |}];
  svc_Type := "ClusterIP";
|}.

(** ** Operations *)

Definition createConfigMap (name : string) (serverID : Z) (namespace : string)
    (cluster : MysqlCluster) : io unit :=
  existing ← ask (Get KConfigMap (MkObjectKey namespace name));
  match existing with
  | Success _ => mret tt
  | Failure _ =>
      created ← ask (Create KConfigMap (new_ConfigMap name serverID namespace cluster));
      match created with
      | Success _ => mret tt
      | Failure e => throw e
      end
  end.

Definition createPVC (name storageClassName namespace storageSize : string)
    (cluster : MysqlCluster) : io unit :=
  existing ← ask (Get KPVC (MkObjectKey namespace name));
  match existing with
  | Success _ => mret tt
  | Failure _ =>
      storage ← MustParse storageSize;
      created ← ask (Create KPVC (new_PVC name storageClassName namespace storage cluster));
      match created with
      | Success _ => mret tt
      | Failure e => throw e
      end
  end.

(** [pod.Status.Phase == v1.PodRunning && ... ContainerStatuses[0].Ready] *)
Definition isPodHealthy (pod : Pod) : bool :=
  bool_decide (Phase (pod_status pod) = "Running") &&
  default false (head (ContainerStatuses (pod_status pod))).

(** One round of the loop at the end of [createPod]. *)
Definition poll_pod (podKey : ObjectKey) : io (option unit) :=
  _ ← ask (Sleep (5 * Second));
  got ← ask (Get KPod podKey);
  match got with
  | Failure _ => mret None
  | Success pod => if isPodHealthy pod then mret (Some tt) else mret None
  end.

Definition createPod (fuel : nat) (name image configMapName pvcName namespace : string)
    (cluster : MysqlCluster) : io unit :=
  existing ← ask (Get KPod (MkObjectKey namespace name));
  match existing with
  | Success _ => mret tt
  | Failure _ =>
      let res := Resources (Spec cluster) in
      requests_cpu ← MustParse (req_CPU (Requests res));
      requests_memory ← MustParse (req_Memory (Requests res));
      limits_cpu ← MustParse (lim_CPU (Limits res));
      limits_memory ← MustParse (lim_Memory (Limits res));
      let pod := new_Pod name image configMapName pvcName namespace
                   (MkResourceList requests_cpu requests_memory)
                   (MkResourceList limits_cpu limits_memory) cluster in
      created ← ask (Create KPod pod);
      match created with
      | Failure e => throw e
      | Success _ => forever fuel (poll_pod (MkObjectKey namespace name))
      end
  end.

Definition getOrCreateService (serviceName role namespace : string) (cluster : MysqlCluster) :
    io Service :=
  got ← ask (Get KService (MkObjectKey namespace serviceName));
  match got with
  | Success service => mret service
  | Failure e =>
      if IsNotFound e then
        created ← ask (Create KService (createService serviceName role namespace cluster));
        lift created
      else throw e
  end.

(** [pod.Labels] is made when it is nil. *)
Definition labelPod (podName role : string) (cluster : MysqlCluster) : io unit :=
  got ← ask (Get KPod (MkObjectKey (cluster_Namespace cluster) podName));
  match got with
  | Failure e => throw (Wrapf ("failed to get pod " +:+ podName) e)
  | Success pod =>
      let pod := set_label "role" role (default ∅ (pod_Labels pod)) pod in
      updated ← ask (Update KPod pod);
      match updated with
      | Failure e => throw (Wrapf ("failed to update pod " +:+ podName) e)
      | Success _ => mret tt
      end
  end.

Definition exec_params (container command : string) : list (string * string) :=
  [("stdin", "false"); ("stdout", "true"); ("stderr", "true"); ("tty", "false");
   ("container", container); ("command", "/bin/sh"); ("command", "-c"); ("command", command)].

Definition execCommandOnPod (pod : Pod) (command : string) : io string :=
  config ← (ask InClusterConfig ≫= lift);
  kubeClient ← (ask (NewForConfig config) ≫= lift);
  match Containers (pod_spec pod) with
  | [] => panic "index out of range [0] with length 0"
  | c :: _ =>
      let req := MkExecRequest (key_of KPod pod) (exec_params (c_Name c) command) in
      executor ← (ask (NewSPDYExecutor config kubeClient req) ≫= lift);
      ask (Stream executor) ≫= lift
  end.

Definition createUserCommand : string :=
  mysql_e ("CREATE USER IF NOT EXISTS 'replica'@'%' IDENTIFIED BY 'password'; " +:+
           "GRANT REPLICATION SLAVE ON *.* TO 'replica'@'%';STOP slave;").

Definition changeMasterCommand (masterServiceName : string) : string :=
  mysql_e ("STOP SLAVE;CHANGE MASTER TO MASTER_HOST='" +:+ masterServiceName +:+
           "', MASTER_USER='replica', MASTER_PASSWORD='password', MASTER_AUTO_POSITION=1; START SLAVE;").

(** The body of the loop over the slaves. *)
Definition setupSlave (cluster : MysqlCluster) (slaveName : string) : io unit :=
  slavePod ← wrapf ("failed to get slave pod " +:+ slaveName)
    (ask (Get KPod (MkObjectKey (cluster_Namespace cluster) slaveName)) ≫= lift);
  _ ← wrapf ("failed to execute command on slave pod " +:+ slaveName)
    (execCommandOnPod slavePod (changeMasterCommand (MasterService (Spec cluster))));
  wrapf ("failed to label slave pod " +:+ slaveName) (labelPod slaveName "slave" cluster).

Definition setupMasterSlaveReplication (masterName : string) (slaveNames : list string)
    (cluster : MysqlCluster) : io unit :=
  masterPod ← wrapf ("failed to get master pod " +:+ masterName)
    (ask (Get KPod (MkObjectKey (cluster_Namespace cluster) masterName)) ≫= lift);
  _ ← wrapf ("failed to label master pod " +:+ masterName) (labelPod masterName "master" cluster);
  _ ← wrapf ("failed to execute command on master pod " +:+ masterName)
    (execCommandOnPod masterPod createUserCommand);
  for_each (setupSlave cluster) slaveNames.

(** The first address of the first subset, when there is one. *)
Definition first_address (endpoints : Endpoints) : option (option string) :=
  head (Subsets endpoints) ≫= head.

(** [TargetRef] is a pointer: nil panics. *)
Definition getMasterPodNameFromEndpoints (cluster : MysqlCluster) : io string :=
  let service := MasterService (Spec cluster) in
  endpoints ← wrapf ("failed to get endpoints for service " +:+ service)
    (ask (Get KEndpoints (MkObjectKey (cluster_Namespace cluster) service)) ≫= lift);
  match first_address endpoints with
  | None => throw (Errorf ("no endpoints found for service " +:+ service))
  | Some None => panic "invalid memory address or nil pointer dereference"
  | Some (Some masterPodName) => mret masterPodName
  end.

(** [reconcile_replicas.go]: a failed list counts as no replicas. *)
Definition getActualReplicaInfo (cluster : MysqlCluster) : io (Z * list string) :=
  listed ← ask (ListPods (cluster_Namespace cluster) {["app" := "mysql"]});
  match listed with
  | Failure _ => mret (0, [])
  | Success pods => mret (int32 (Z.of_nat (length pods)), pod_Name <$> pods)
  end.

Definition getReplicaPodsNames (cluster : MysqlCluster) (masterPodName : string) :
    io (list string) :=
  '(actualReplicaCount, podNames) ← getActualReplicaInfo cluster;
  if actualReplicaCount =? 0 then mret []
  else mret (filter (fun podName => podName <> masterPodName) podNames).


(** ** Ensuring that an object exists *)

Lemma createConfigMap_ensures name serverID namespace cluster t :
  exec (createConfigMap name serverID namespace cluster) t (Ok tt) ->
  confirmed t KConfigMap (MkObjectKey namespace name).
Proof. unfold createConfigMap. intros H. exec_inv; show_confirmed. Qed.

Lemma createPVC_ensures name storageClassName namespace storageSize cluster t :
  exec (createPVC name storageClassName namespace storageSize cluster) t (Ok tt) ->
  confirmed t KPVC (MkObjectKey namespace name).
Proof. unfold createPVC, MustParse. intros H. exec_inv; show_confirmed. Qed.

Lemma createPod_ensures fuel name image configMapName pvcName namespace cluster t :
  exec (createPod fuel name image configMapName pvcName namespace cluster) t (Ok tt) ->
  confirmed t KPod (MkObjectKey namespace name).
Proof. unfold createPod, MustParse. intros H. exec_inv; show_confirmed. Qed.

(** What the three of them ask for: reads, and the creation of their object. *)
Lemma always_createConfigMap (P : request -> Prop) Q name serverID namespace cluster :
  P (Get KConfigMap (MkObjectKey namespace name)) ->
  P (Create KConfigMap (new_ConfigMap name serverID namespace cluster)) ->
  (forall o, Q o) -> always P Q (createConfigMap name serverID namespace cluster : io unit).
Proof.
  intros Hg Hc HQ. cbn. split; [done|]. intros [o|e]; cbn; [apply HQ|]. split; [done|].
  intros []; apply HQ.
Qed.

Lemma always_createPVC (P : request -> Prop) Q name storageClassName namespace storageSize cluster :
  P (Get KPVC (MkObjectKey namespace name)) ->
  (forall q, P (Create KPVC (new_PVC name storageClassName namespace q cluster))) ->
  (forall o, Q o) ->
  always P Q (createPVC name storageClassName namespace storageSize cluster : io unit).
Proof.
  intros Hg Hc HQ. unfold createPVC, MustParse. cbn. split; [done|]. intros [o|e]; cbn; [done|].
  destruct (ParseQuantity storageSize); cbn; [|apply HQ]. split; [done|]. intros []; apply HQ.
Qed.

Lemma always_MustParse {A} (P : request -> Prop) (Q : outcome A -> Prop) s (k : Quantity -> io A) :
  (forall o, Q o) -> (forall q, always P Q (k q)) -> always P Q (MustParse s ≫= k).
Proof.
  intros HQ Hk. apply always_bind. unfold MustParse. destruct (ParseQuantity s); cbn; [apply Hk|apply HQ].
Qed.

Lemma always_createPod (P : request -> Prop) Q fuel name image configMapName pvcName namespace cluster :
  P (Get KPod (MkObjectKey namespace name)) -> P (Sleep (5 * Second)) ->
  (forall rq rl, P (Create KPod (new_Pod name image configMapName pvcName namespace rq rl cluster))) ->
  (forall o, Q o) ->
  always P Q (createPod fuel name image configMapName pvcName namespace cluster : io unit).
Proof.
  intros Hg Hs Hc HQ. unfold createPod. always_ask; [done|].
  destruct x as [o|e]; [apply HQ|].
  do 4 (apply always_MustParse; [done|]; intros ?).
  always_ask; [apply Hc|]. destruct x as [pod|e']; [|apply HQ].
  apply always_forever; [done|]. unfold poll_pod. always_ask; [done|]. always_ask; [done|].
  destruct x0 as [pod'|e']; [|done]. destruct (isPodHealthy pod'); [apply HQ|done].
Qed.

(** A new pod is waited for: the last thing seen of it is that it is healthy. *)
Definition pod_seen_healthy (t : list (event response)) (key : ObjectKey) : Prop :=
  exists t' pod, t = t' ++ [existT (Get KPod key) (Success pod)] /\ isPodHealthy pod = true.

Lemma wait_writes_nothing fuel podKey t o :
  exec (forever fuel (poll_pod podKey)) t o -> filter (fun ev => writes ev = true) t = [].
Proof.
  intros H. apply filter_none.
  apply (always_exec (fun r => is_write r = false) (fun _ => True)) in H as [Hw _].
  - eapply Forall_impl; [exact Hw|]. intros ev Hev. unfold writes. by rewrite Hev.
  - apply always_forever; [done|]. cbn. split; [done|]. intros _. split; [done|].
    intros [pod|e]; [|done]. by destruct (isPodHealthy pod).
Qed.

Lemma wait_ends_healthy fuel podKey t :
  exec (forever fuel (poll_pod podKey)) t (Ok tt) -> pod_seen_healthy t podKey.
Proof.
  intros (t1 & t2 & -> & H)%exec_forever_last. unfold poll_pod in H. exec_inv.
  eexists (t1 ++ [_]), _. rewrite <-app_assoc. split; [done|]. done.
Qed.

(** Rounds of the wait, none of which found the pod healthy. *)
Inductive never_healthy (key : ObjectKey) : nat -> list (event response) -> Prop :=
| never_0 : never_healthy key 0 []
| never_S n x got t :
    (forall pod, got = Success pod -> isPodHealthy pod = false) ->
    never_healthy key n t ->
    never_healthy key (S n)
      (existT (Sleep (5 * Second)) x :: existT (Get KPod key) got :: t).

Lemma wait_never_healthy fuel podKey t :
  exec (forever fuel (poll_pod podKey)) t OutOfFuel -> never_healthy podKey fuel t.
Proof.
  revert t. induction fuel as [|fuel IH]; intros t H; cbn [forever] in H.
  { apply exec_done_inv in H as [-> _]. constructor. }
  unfold poll_pod in H. apply exec_bind_fuel in H as [H|(o & t1 & t2 & -> & H1 & H2)].
  { exec_inv. }
  exec_inv; constructor; try (by apply IH); intros pod' [= ->]; done.
Qed.

Lemma MustParse_ends s t : ~ exec (MustParse s : io Quantity) t OutOfFuel.
Proof. apply ends_exec. unfold MustParse. ends. Qed.

(** [createPod] runs out of fuel only in its wait, for a pod it created. *)
Lemma createPod_fuel fuel name image configMapName pvcName namespace cluster t :
  exec (createPod fuel name image configMapName pvcName namespace cluster) t OutOfFuel ->
  let key := MkObjectKey namespace name in
  exists t1 t2, t = t1 ++ t2 /\
    (exists pod created, existT (Create KPod pod) (Success created) ∈ t1 /\ key_of KPod pod = key) /\
    never_healthy key fuel t2.
Proof.
  intros H. cbv zeta. unfold createPod in H.
  apply exec_bind_fuel in H as [H|(existing & t1 & u & -> & _ & H)]; [exec_inv|].
  destruct existing as [?|e]; [exec_inv|].
  do 4 (apply exec_bind_fuel in H as [H|(? & ? & ? & -> & _ & H)];
        [exfalso; by apply MustParse_ends in H|]).
  apply exec_bind_fuel in H as [H|(created & t2 & t3 & -> & H1 & H)]; [exec_inv|].
  exec_inv_one H1. destruct x6 as [created|e']; [|exec_inv].
  apply wait_never_healthy in H. rewrite !app_assoc. eexists _, t3. split; [done|]. split; [|done].
  eexists _, created. split; [apply elem_of_app; right; left|done].
Qed.

(** When [createPod] returns without an error then either the pod was there before and nothing was
    written, or exactly one pod was created, with the name and labels asked for, and the last answer
    before the return showed it running with its container ready. *)
Theorem createPod_ready fuel name image configMapName pvcName namespace cluster t :
  exec (createPod fuel name image configMapName pvcName namespace cluster) t (Ok tt) ->
  let key := MkObjectKey namespace name in
  (exists pod, t = [existT (Get KPod key) (Success pod)]) \/
  (exists pod pod',
     filter (fun ev => writes ev = true) t = [existT (Create KPod pod) (Success pod')] /\
     key_of KPod pod = key /\ pod_Labels pod = Some {["app" := "mysql"]} /\
     pod_seen_healthy t key).
Proof.
  intros H. cbv zeta. unfold createPod, MustParse in H. exec_inv.
  { left. by eexists. }
  right. pose proof (wait_writes_nothing _ _ _ _ Hx5) as Hw.
  apply wait_ends_healthy in Hx5 as (u & pod & -> & Hh). eexists _, _. split_and!.
  - cbn [app]. rewrite filter_cons_False by done. rewrite filter_cons_True by done.
    f_equal. exact Hw.
  - done.
  - done.
  - eexists (_ :: _ :: u), pod. split; [|done]. done.
Qed.

(** ** Setting up replication *)

(** The actions of a successful set up: the master is labelled before it gets its command, each slave
    after, and the slaves follow the master in their order. *)
Definition slave_script (cluster : MysqlCluster) (slave : string) : list Action :=
  let key := MkObjectKey (cluster_Namespace cluster) slave in
  [Command key (changeMasterCommand (MasterService (Spec cluster))); SetRole key "slave"].

Definition replication_script (cluster : MysqlCluster) (master : string) (slaves : list string) :
    list Action :=
  let key := MkObjectKey (cluster_Namespace cluster) master in
  [SetRole key "master"; Command key createUserCommand] ++ flat_map (slave_script cluster) slaves.

(** What the answers of a run are taken to be: the pod asked for, and an executor for the request. *)
Definition pods_answered (t : list (event response)) : Prop :=
  names_answered t /\ executors_answered t.

Lemma pods_answered_app t u : pods_answered (t ++ u) <-> pods_answered t /\ pods_answered u.
Proof. unfold pods_answered. rewrite names_answered_app, executors_answered_app. tauto. Qed.

(** A step that ends well carries out its whole script, one that fails stops somewhere in it. *)
Definition follows {A} (t : list (event response)) (o : outcome A) (s : list Action) : Prop :=
  match o with
  | Ok _ => attempts t = accepted s
  | _ => stops_in s (attempts t)
  end.

Lemma follows_bind {A B} (p : io A) (k : A -> io B) t o s1 s2 :
  pods_answered t -> exec (p ≫= k) t o ->
  (forall t1 o1, pods_answered t1 -> exec p t1 o1 -> follows t1 o1 s1) ->
  (forall a t1 t2, pods_answered t1 -> exec p t1 (Ok a) -> pods_answered t2 ->
     exec (k a) t2 o -> follows t2 o s2) ->
  follows t o (s1 ++ s2).
Proof.
  intros Hn [(a & t1 & t2 & H1 & H2 & ->)|(o1 & H1 & Ho)]%exec_bind_inv Hp Hk.
  - apply pods_answered_app in Hn as [Hn1 Hn2].
    specialize (Hp t1 _ Hn1 H1). cbn in Hp. specialize (Hk a t1 t2 Hn1 H1 Hn2 H2).
    destruct o; cbn in *; rewrite attempts_app, Hp;
      [by rewrite Hk, accepted_app|by apply stops_in_app..].
  - specialize (Hp t o1 Hn H1). destruct o1, o; cbn in *; simplify_eq; by apply stops_in_app_r.
Qed.

Lemma follows_wrapf {A} prefix (p : io A) t o s :
  pods_answered t -> exec (wrapf prefix p) t o ->
  (forall o1, exec p t o1 -> follows t o1 s) -> follows t o s.
Proof.
  intros Hn (o' & H & ->)%exec_wrapf_inv Hp. specialize (Hp o' H). by destruct o'.
Qed.

Lemma labelPod_follows podName role cluster t o :
  pods_answered t -> exec (labelPod podName role cluster) t o ->
  follows t o [SetRole (MkObjectKey (cluster_Namespace cluster) podName) role].
Proof.
  intros [Hn _] H. unfold labelPod in H. exec_inv; try (cbn; constructor).
  all: destruct (names_answered_get KPod _ _ _ Hn) as [<- _].
  all: unfold follows, attempts, acted; cbn; unfold map_index; cbn; rewrite lookup_insert_eq;
    first [done|constructor].
Qed.

Lemma execCommandOnPod_follows pod command t o :
  pods_answered t -> exec (execCommandOnPod pod command) t o ->
  follows t o [Command (key_of KPod pod) command].
Proof.
  intros [_ Hx] H. unfold execCommandOnPod in H. exec_inv; try (cbn; constructor).
  all: apply Forall_cons in Hx as [_ Hx]; apply Forall_cons in Hx as [_ Hx];
    apply Forall_cons in Hx as [Hex _]; cbn in Hex.
  all: unfold follows, attempts, acted; cbn; rewrite ?Hex; cbn; first [done|constructor].
Qed.

Definition fetch_pod (namespace name : string) : io Pod :=
  ask (Get KPod (MkObjectKey namespace name)) ≫= lift.

Lemma fetch_pod_follows namespace name t o :
  exec (fetch_pod namespace name) t o -> follows t o [].
Proof. unfold fetch_pod. intros H. exec_inv; first [done|constructor]. Qed.

Lemma fetch_pod_key prefix namespace name t pod :
  pods_answered t -> exec (wrapf prefix (fetch_pod namespace name)) t (Ok pod) ->
  key_of KPod pod = MkObjectKey namespace name.
Proof.
  intros [Hn _] H. unfold fetch_pod in H. exec_inv. by destruct (names_answered_get KPod _ _ _ Hn).
Qed.

(** A wrapped call in the sequence, by the lemma for the call. *)
Ltac follow_call lem :=
  intros ? ? ? ?; eapply follows_wrapf; [eassumption..|]; intros ? ?; eapply lem; eassumption.

Lemma setupSlave_follows cluster slaveName t o :
  pods_answered t -> exec (setupSlave cluster slaveName) t o ->
  follows t o (slave_script cluster slaveName).
Proof.
  intros Hn H.
  refine (follows_bind _ _ _ _ [] (slave_script cluster slaveName) Hn H _ _);
    [follow_call fetch_pod_follows|].
  intros pod t1 t2 Hn1 H1 Hn2 H2. apply fetch_pod_key in H1 as Hk; [|done].
  unfold slave_script. rewrite <-Hk.
  refine (follows_bind _ _ _ _ [_] [_] Hn2 H2 _ _); [follow_call execCommandOnPod_follows|].
  intros out3 t3 t4 _ _ Hn4 H4. rewrite Hk. eapply follows_wrapf; [exact Hn4|exact H4|]. intros o1 H5. by apply labelPod_follows.
Qed.

Lemma setupSlaves_follow cluster slaveNames t o :
  pods_answered t -> exec (for_each (setupSlave cluster) slaveNames) t o ->
  follows t o (flat_map (slave_script cluster) slaveNames).
Proof.
  unfold for_each. revert t. induction slaveNames as [|slave slaves IH]; intros t Hn H.
  - by apply exec_ret_inv in H as [-> ->].
  - refine (follows_bind _ _ _ _ (slave_script cluster slave) _ Hn H _ _).
    + intros. by apply setupSlave_follows.
    + intros [] t1 t2 _ _ Hn2 H2. by apply IH.
Qed.

Lemma setupMasterSlaveReplication_follows masterName slaveNames cluster t o :
  pods_answered t -> exec (setupMasterSlaveReplication masterName slaveNames cluster) t o ->
  follows t o (replication_script cluster masterName slaveNames).
Proof.
  intros Hn H.
  refine (follows_bind _ _ _ _ [] _ Hn H _ _); [follow_call fetch_pod_follows|].
  intros pod t1 t2 Hn1 H1 Hn2 H2. apply fetch_pod_key in H1 as Hk; [|done].
  refine (follows_bind _ _ _ _ [_] (Command _ _ :: _) Hn2 H2 _ _); [follow_call labelPod_follows|].
  intros out3 t3 t4 _ _ Hn4 H4. rewrite <-Hk.
  refine (follows_bind _ _ _ _ [_] _ Hn4 H4 _ _); [follow_call execCommandOnPod_follows|].
  intros out5 t5 t6 _ _ Hn6 H6. by apply setupSlaves_follow.
Qed.

(** C5: [setupMasterSlaveReplication] changes the pods in this order and in no other way: the new master
    gets its role label, then its command runs; then each slave in turn runs the command that points
    it at the master service and gets its label.  When the call succeeds every label of the list was
    accepted by the API server and every command ran to its end without an error.  A call that fails
    stops in the list: what it did are accepted actions from the start of the list, perhaps with the
    next one tried and refused, so a slave is never labelled before its command has run, and nothing
    is done to a slave before the master has its label. *)
Theorem setupMasterSlaveReplication_script masterName slaveNames cluster t o :
  names_answered t -> executors_answered t ->
  exec (setupMasterSlaveReplication masterName slaveNames cluster) t o ->
  match o with
  | Ok _ => attempts t = accepted (replication_script cluster masterName slaveNames)
  | _ => stops_in (replication_script cluster masterName slaveNames) (attempts t)
  end.
Proof. intros Hn Hx. by apply setupMasterSlaveReplication_follows. Qed.

(** ** Services *)

(** The service made for a role selects exactly the pods with that role label among those labelled
    as MySQL pods: a relabelled pod leaves the service of its old role and joins that of the new
    one. *)
Lemma createService_selects name role role' namespace cluster labels pod :
  labels !! "app" = Some "mysql" ->
  selects (svc_Selector (createService name role namespace cluster))
    (pod_Labels (set_label "role" role' labels pod)) <-> role' = role.
Proof.
  intros Happ. unfold selects. cbn -[insert]. split.
  - intros H. assert (role_labels role !! "role" = Some role) as Hr by done.
    specialize (H _ _ Hr). cbn -[insert] in H. rewrite lookup_insert_eq in H. congruence.
  - intros -> k v. unfold role_labels. rewrite lookup_insert_Some.
    intros [[<- <-]|[Hne [<- <-]%lookup_singleton_Some]]; cbn -[insert].
    + by rewrite lookup_insert_ne.
    + by rewrite lookup_insert_eq.
Qed.

(** [getOrCreateService] returns the service the server has; it creates one, with the role's
    selector, only after the server said there is none, and any other error of the read is returned
    without a write. *)
Lemma getOrCreateService_spec serviceName role namespace cluster t o :
  exec (getOrCreateService serviceName role namespace cluster) t o ->
  exists got, head t = Some (existT (Get KService (MkObjectKey namespace serviceName)) got) /\
  match got with
  | Success service => o = Ok service /\ tail t = []
  | Failure e =>
      if IsNotFound e
      then exists created, o = of_result created /\
             tail t = [existT (Create KService (createService serviceName role namespace cluster)) created]
      else o = Err e /\ tail t = []
  end.
Proof.
  intros H. unfold getOrCreateService in H. exec_inv; eexists; (split; [reflexivity|]); cbn;
    rewrite ?E; first [done | eexists; split; [|reflexivity]; done].
Qed.

(** ** The wait for a new pod *)

Section waiting.
Context {W : Type} (h : handler response M W) (podKey : ObjectKey).

Definition poll_answer (s : M * W) : result Pod * (M * W) :=
  let '(_, s1) := h (Sleep (5 * Second)) s in h (Get KPod podKey) s1.

(** The world after [n] rounds of the wait, and whether the next round finds the pod healthy. *)
Fixpoint after_rounds (n : nat) (s : M * W) : M * W :=
  match n with
  | O => s
  | S n' => after_rounds n' (snd (poll_answer s))
  end.

Definition healthy_in_round (n : nat) (s : M * W) : bool :=
  match fst (poll_answer (after_rounds n s)) with
  | Success pod => isPodHealthy pod
  | Failure _ => false
  end.

Lemma run_poll m w :
  run h (poll_pod podKey) m w =
  let '(_, (m1, w1)) := h (Sleep (5 * Second)) (m, w) in
  let '(got, (m2, w2)) := h (Get KPod podKey) (m1, w1) in
  RunResult (Ok (match got with
                 | Success pod => if isPodHealthy pod then Some tt else None
                 | Failure _ => None
                 end)) m2 w2
    [existT (Sleep (5 * Second)) tt; existT (Get KPod podKey) got].
Proof.
  unfold poll_pod. cbn. destruct (h (Sleep _) (m, w)) as [[] [m1 w1]].
  destruct (h (Get KPod podKey) (m1, w1)) as [[pod|e] [m2 w2]]; cbn; [|done].
  by destruct (isPodHealthy pod).
Qed.

Lemma run_wait fuel m w :
  out (run h (forever fuel (poll_pod podKey)) m w) =
  if existsb (fun n => healthy_in_round n (m, w)) (seq 0 fuel) then Ok tt else OutOfFuel.
Proof.
  revert m w. induction fuel as [|fuel IH]; intros m w; [done|]. cbn [forever seq existsb].
  rewrite run_bind, run_poll. unfold healthy_in_round at 1. cbn [after_rounds].
  unfold poll_answer at 1.
  destruct (h (Sleep (5 * Second)) (m, w)) as [[] [m1 w1]] eqn:E1.
  destruct (h (Get KPod podKey) (m1, w1)) as [got [m2 w2]] eqn:E2. cbn [fst].
  assert (existsb (fun n => healthy_in_round n (m, w)) (seq 1 fuel) =
          existsb (fun n => healthy_in_round n (m2, w2)) (seq 0 fuel)) as ->.
  { clear IH. rewrite <-seq_shift.
    assert (snd (poll_answer (m, w)) = (m2, w2)) as Hs by (unfold poll_answer; by rewrite E1, E2).
    induction (seq 0 fuel) as [|n l IHl]; [done|]. cbn. rewrite IHl.
    unfold healthy_in_round. cbn [after_rounds]. by rewrite Hs. }
  unfold continue; cbn. destruct got as [pod|e]; cbn; [|by rewrite IH].
  destruct (isPodHealthy pod); cbn; [done|]. by rewrite IH.
Qed.

End waiting.

(** C35: once the pod is created, [createPod] returns exactly when some round of its wait finds the pod
    healthy: with fuel for that round it returns without an error, and while no round does, no
    amount of fuel is enough. *)
Theorem createPod_waits {W} (h : handler response M W) name image configMapName pvcName namespace
    cluster m w e s1 q1 q2 q3 q4 pod s2 :
  let key := MkObjectKey namespace name in
  let res := Resources (Spec cluster) in
  let created := new_Pod name image configMapName pvcName namespace
                   (MkResourceList q1 q2) (MkResourceList q3 q4) cluster in
  h (Get KPod key) (m, w) = (Failure e, s1) ->
  ParseQuantity (req_CPU (Requests res)) = Some q1 ->
  ParseQuantity (req_Memory (Requests res)) = Some q2 ->
  ParseQuantity (lim_CPU (Limits res)) = Some q3 ->
  ParseQuantity (lim_Memory (Limits res)) = Some q4 ->
  h (Create KPod created) s1 = (Success pod, s2) ->
  let ends fuel :=
    out (run h (createPod fuel name image configMapName pvcName namespace cluster) m w) in
  (forall n fuel, healthy_in_round h key n s2 = true -> (n < fuel)%nat -> ends fuel = Ok tt) /\
  (forall fuel, (forall n, (n < fuel)%nat -> healthy_in_round h key n s2 = false) ->
     ends fuel = OutOfFuel).
Proof.
  intros key res created Hget H1 H2 H3 H4 Hcreate ends.
  assert (forall fuel, ends fuel =
    if existsb (fun n => healthy_in_round h key n s2) (seq 0 fuel) then Ok tt else OutOfFuel) as Hends.
  { intros fuel. unfold ends, createPod, MustParse. fold res. rewrite H1, H2, H3, H4.
    cbn -[forever]. fold key. rewrite Hget. destruct s1 as [m1 w1]. cbn -[forever].
    fold created. rewrite Hcreate. destruct s2 as [m2 w2]. cbn -[forever]. apply run_wait. }
  split.
  - intros n fuel Hn Hlt. rewrite Hends.
    replace (existsb _ _) with true; [done|]. symmetry. apply existsb_exists.
    exists n. split; [apply in_seq; lia|done].
  - intros fuel Hn. rewrite Hends. replace (existsb _ _) with false; [done|]. symmetry.
    apply not_true_iff_false. rewrite existsb_exists. intros (n & Hin%in_seq & Ht).
    rewrite Hn in Ht; [done|lia].
Qed.

(** A storage size that is not a quantity stops the operator: [createPVC] panics before it asks the
    server for anything but the existing claim. *)
Lemma createPVC_panics name storageClassName namespace storageSize cluster t o :
  ParseQuantity storageSize = None ->
  exec (createPVC name storageClassName namespace storageSize cluster) t o ->
  exists got, t = [existT (Get KPVC (MkObjectKey namespace name)) got] /\
    o = match got with
        | Success _ => Ok tt
        | Failure _ => Panic ("cannot parse '" +:+ storageSize +:+ "'")
        end.
Proof.
  intros Hq H. unfold createPVC, MustParse in H. rewrite Hq in H.
  exec_inv; eexists; (split; [reflexivity|]); done.
Qed.

End resources.

(** ** Instances *)

#[local] Existing Instance sim_extern.

Definition example_world : World := empty_world quiet_shell.

(** A store with one healthy pod, and one with two and the master service. *)
Definition example_pod (name role : string) : Pod :=
  kubelet (set_label "role" role {["app" := "mysql"]}
    (new_Pod name "mysql:8.0" "mysql-config-01" name "default" (MkResourceList "1" "1")
       (MkResourceList "1" "1") (example_cluster 2))).

Definition example_world2 : World :=
  put KService (createService "mysql-master" "master" "default" (example_cluster 2))
    (put KPod (example_pod "mysql-01" "master")
       (put KPod (example_pod "mysql-02" "slave") example_world)).

(** Apply a theorem about executions to a run of the example server that ends in [v]. *)
Ltac run_to p m w v He :=
  pose proof (run_exec sim p m w) as He;
  let Ho := fresh "Ho" in
  assert (out (run sim p m w) = v) as Ho by (vm_compute; reflexivity);
  rewrite Ho in He; clear Ho.
Ltac run_ok p m w He := run_to p m w (Ok tt) He.

Lemma createPod_ready_witness :
  exists t, exec (createPod 1 "mysql-01" "mysql:8.0" "mysql-config-01" "mysql-01" "default"
                    (example_cluster 1) : prog response unit unit) t (Ok tt) /\
            pod_seen_healthy t (MkObjectKey "default" "mysql-01").
Proof.
  eexists. split.
  - run_ok (createPod 1 "mysql-01" "mysql:8.0" "mysql-config-01" "mysql-01" "default"
              (example_cluster 1) : prog response unit unit) tt example_world He.
    exact He.
  - run_ok (createPod 1 "mysql-01" "mysql:8.0" "mysql-config-01" "mysql-01" "default"
              (example_cluster 1) : prog response unit unit) tt example_world He.
    destruct (createPod_ready _ _ _ _ _ _ _ _ He) as [[pod H]|(pod & pod' & _ & _ & _ & H)].
    + exfalso. apply (f_equal length) in H. vm_compute in H. discriminate.
    + exact H.
Defined.

Lemma setupMasterSlaveReplication_script_witness :
  attempts (trace (run sim (setupMasterSlaveReplication "mysql-01" ["mysql-02"] (example_cluster 2))
                     tt example_world2)) =
  accepted (replication_script (example_cluster 2) "mysql-01" ["mysql-02"]).
Proof.
  run_ok (setupMasterSlaveReplication "mysql-01" ["mysql-02"] (example_cluster 2) :
            prog response unit unit) tt example_world2 He.
  refine (setupMasterSlaveReplication_script _ _ _ _ _ _ _ He); check_answers.
Defined.

Lemma createPod_waits_witness :
  out (run sim (createPod 3 "mysql-01" "mysql:8.0" "mysql-config-01" "mysql-01" "default"
                  (example_cluster 1)) tt example_world) = Ok tt.
Proof.
  eapply (createPod_waits sim "mysql-01" "mysql:8.0" "mysql-config-01" "mysql-01" "default"
            (example_cluster 1) tt example_world) with (n := 0%nat).
  1-6: reflexivity.
  - vm_compute. reflexivity.
  - lia.
Defined.

