(* ===== verification/Replicas.v ===== *)
(** * Reconciling the replicas ([internal/controller/reconcile_replicas.go])

    Pods are numbered: replica [i] is the pod [mysql-NN] with its claim of the same name and its
    ConfigMap [mysql-config-NN].  The numbers expected by the spec that no listed pod has are
    created. *)

From S2P Require Import Prelude GoLib Prog Types Kube KubeSim Resources.

(** ** Numbers and names *)

(** [FindStringSubmatch] of the pattern [mysql-(\d+)]: the leftmost match, its digits as long as they
    go. *)
Fixpoint find_pod_number (name : string) : option string :=
  let here :=
    if HasPrefix name "mysql-" then take_digits (drop_bytes 6 name) else "" in
  if decide (here = "") then
    match name with
    | EmptyString => None
    | String _ name' => find_pod_number name'
    end
  else Some here.

Definition extractPodNumbers (podNames : list string) : list string :=
  omap find_pod_number podNames.

Definition generateExpectedPodNumbers (count : Z) : list string := fmt_02d <$> seqZ 1 count.

Definition pod_name (podNumber : string) : string := "mysql-" +:+ podNumber.
Definition config_name (podNumber : string) : string := "mysql-config-" +:+ podNumber.

Section replicas.
Context {ext : Extern} {M : Type}.

#[local] Notation io := (prog response M).

(** The loop over the map takes its keys in an order of its own. *)
Definition findMissingPodNumbers (expected actual : list string) : io (list string) :=
  let expectedSet : gset string := foldl (fun s pod => {[pod]} ∪ s) ∅ expected in
  let expectedSet := foldl (fun s pod => s ∖ {[pod]}) expectedSet actual in
  ask (RangeKeys expectedSet).

(** The body of the loop over the missing numbers; [strconv.Atoi]'s error is dropped. *)
Definition createReplica (fuel : nat) (cluster : MysqlCluster) (podNumber : string) : io unit :=
  let spec := Spec cluster in
  let podName := pod_name podNumber in
  let configMapName := config_name podNumber in
  let pvcName := pod_name podNumber in
  _ ← createPVC pvcName (StorageClassName (Storage spec)) (cluster_Namespace cluster)
        (Size (Storage spec)) cluster;
  let serverIdNum := fst (Atoi podNumber) in
  _ ← createConfigMap configMapName serverIdNum (cluster_Namespace cluster) cluster;
  createPod fuel podName (Image spec) configMapName pvcName (cluster_Namespace cluster) cluster.

Definition reconcileReplicas (fuel : nat) (cluster : MysqlCluster) : io unit :=
  '(actualReplicaCount, actualReplicaNames) ← getActualReplicaInfo cluster;
  let expectedReplicaCount := Replicas (Spec cluster) in
  if bool_decide (actualReplicaCount <> expectedReplicaCount) then
    let actualPodNumbers := extractPodNumbers actualReplicaNames in
    let expectedPodNumbers := generateExpectedPodNumbers expectedReplicaCount in
    missingPodNumbers ← findMissingPodNumbers expectedPodNumbers actualPodNumbers;
    for_each (createReplica fuel cluster) missingPodNumbers
  else mret tt.

(** ** Names and numbers round trip *)

Lemma find_pod_number_eq name :
  find_pod_number name =
  let here := if HasPrefix name "mysql-" then take_digits (drop_bytes 6 name) else "" in
  if decide (here = "") then
    match name with
    | EmptyString => None
    | String _ name' => find_pod_number name'
    end
  else Some here.
Proof. by destruct name. Qed.

Lemma find_pod_number_digits d :
  all_digits d = true -> d <> "" -> find_pod_number (pod_name d) = Some d.
Proof.
  intros Hd Hne. rewrite find_pod_number_eq. unfold pod_name.
  rewrite (proj2 (HasPrefix_spec ("mysql-" +:+ d) "mysql-")) by (by exists d).
  change (drop_bytes 6 ("mysql-" +:+ d)) with d. rewrite (take_digits_all d Hd). cbv zeta iota.
  by case_decide.
Qed.

Lemma elem_of_generateExpectedPodNumbers count d :
  d ∈ generateExpectedPodNumbers count <-> exists i, 1 <= i <= count /\ d = fmt_02d i.
Proof.
  unfold generateExpectedPodNumbers. rewrite list_elem_of_fmap. setoid_rewrite elem_of_seqZ.
  split; intros (i & ? & ?); exists i; split; done || lia.
Qed.

Lemma expected_number_digits count d :
  d ∈ generateExpectedPodNumbers count -> all_digits d = true /\ d <> "".
Proof.
  rewrite elem_of_generateExpectedPodNumbers. intros (i & Hi & ->).
  split; [apply all_digits_fmt_02d|apply fmt_02d_not_empty]; lia.
Qed.

(** C40: the numbers of the pods the operator creates are read back from their names, in order: with
    [fmt_02d] and [mysql-] on the way out and the pattern on the way in nothing is lost. *)
Theorem extractPodNumbers_names count :
  extractPodNumbers (pod_name <$> generateExpectedPodNumbers count) =
  generateExpectedPodNumbers count.
Proof.
  assert (forall l, (forall d, d ∈ l -> d ∈ generateExpectedPodNumbers count) ->
            extractPodNumbers (pod_name <$> l) = l) as H; [|by apply H].
  unfold extractPodNumbers.
  induction l as [|d l IH]; intros Hl; [done|]. cbn -[find_pod_number].
  destruct (expected_number_digits count d) as [Hd Hne]; [apply Hl; left|].
  rewrite find_pod_number_digits by done. f_equal. apply IH. intros d' Hd'. apply Hl. by right.
Qed.

(** The server id written into the configuration of replica [i] is [i]: the two digit number parses
    back, for every replica count the API accepts. *)
Lemma server_id_of_number count d :
  in_int32 count -> d ∈ generateExpectedPodNumbers count ->
  exists i, 1 <= i <= count /\ d = fmt_02d i /\ Atoi d = (i, None).
Proof.
  intros Hc (i & Hi & ->)%elem_of_generateExpectedPodNumbers. exists i. split_and!; [lia..|done|].
  unfold Atoi, strconv_call. rewrite parse_int64_fmt_02d; [done|]. unfold in_int32 in Hc. lia.
Qed.

(** ** The missing numbers *)

Lemma foldl_union (l : list string) (X : gset string) d :
  d ∈ foldl (fun s pod => {[pod]} ∪ s) X l <-> d ∈ l \/ d ∈ X.
Proof. revert X. induction l as [|a l IH]; intros X; cbn; [set_solver|]. rewrite IH. set_solver. Qed.

Lemma foldl_difference (l : list string) (X : gset string) d :
  d ∈ foldl (fun s pod => s ∖ {[pod]}) X l <-> d ∈ X /\ d ∉ l.
Proof. revert X. induction l as [|a l IH]; intros X; cbn; [set_solver|]. rewrite IH. set_solver. Qed.

Lemma findMissingPodNumbers_exec expected actual t o :
  keys_answered t -> exec (findMissingPodNumbers expected actual) t o ->
  exists missing, o = Ok missing /\ NoDup missing /\
    (forall d, d ∈ missing <-> d ∈ expected /\ d ∉ actual) /\
    exists keys, t = [existT (RangeKeys keys) missing].
Proof.
  intros Hkeys H. unfold findMissingPodNumbers in H. exec_inv. eexists. split; [reflexivity|].
  apply Forall_cons in Hkeys as [Hkeys _]. cbn in Hkeys.
  split; [rewrite Hkeys; apply NoDup_elements|]. split; [|by eexists]. intros d.
  rewrite Hkeys, elem_of_elements, foldl_difference, foldl_union. set_solver.
Qed.

(** ** One replica *)

(** The objects of replica [i], as the operator creates them. *)
Inductive replica_object (cluster : MysqlCluster) (i : Z) : request -> Prop :=
| replica_pvc storage :
    replica_object cluster i
      (Create KPVC (new_PVC (pod_name (fmt_02d i)) (StorageClassName (Storage (Spec cluster)))
                      (cluster_Namespace cluster) storage cluster))
| replica_config :
    replica_object cluster i
      (Create KConfigMap (new_ConfigMap (config_name (fmt_02d i)) i (cluster_Namespace cluster) cluster))
| replica_pod requests limits :
    replica_object cluster i
      (Create KPod (new_Pod (pod_name (fmt_02d i)) (Image (Spec cluster)) (config_name (fmt_02d i))
                      (pod_name (fmt_02d i)) (cluster_Namespace cluster) requests limits cluster)).

Definition replica_confirmed (t : list (event response)) (cluster : MysqlCluster) (d : string) : Prop :=
  let ns := cluster_Namespace cluster in
  confirmed t KPVC (MkObjectKey ns (pod_name d)) /\
  confirmed t KConfigMap (MkObjectKey ns (config_name d)) /\
  confirmed t KPod (MkObjectKey ns (pod_name d)).

Lemma replica_confirmed_app_l t u cluster d :
  replica_confirmed t cluster d -> replica_confirmed (t ++ u) cluster d.
Proof. intros (? & ? & ?). split_and!; eauto with go. Qed.

Lemma replica_confirmed_app_r t u cluster d :
  replica_confirmed u cluster d -> replica_confirmed (t ++ u) cluster d.
Proof. intros (? & ? & ?). split_and!; eauto with go. Qed.

Lemma createReplica_confirmed fuel cluster d t :
  exec (createReplica fuel cluster d) t (Ok tt) -> replica_confirmed t cluster d.
Proof.
  unfold createReplica. intros H.
  apply exec_bind_ok in H as ([] & t1 & t2 & H1 & H & ->).
  apply exec_bind_ok in H as ([] & t3 & t4 & H3 & H4 & ->).
  apply createPVC_ensures in H1. apply createConfigMap_ensures in H3.
  apply createPod_ensures in H4. split_and!; eauto with go.
Qed.

Lemma createReplica_writes fuel cluster i t o :
  0 <= i < 2 ^ 63 -> exec (createReplica fuel cluster (fmt_02d i)) t o ->
  Forall (fun ev => writes ev = true -> replica_object cluster i (projT1 ev)) t.
Proof.
  intros Hi H. apply (always_exec (fun r => is_write r = true -> replica_object cluster i r)
                       (fun _ => True)) in H as [Hw _]; [exact Hw|].
  assert (fst (Atoi (fmt_02d i)) = i) as Hid
    by (unfold Atoi, strconv_call; by rewrite parse_int64_fmt_02d).
  unfold createReplica. rewrite Hid.
  apply always_bind, always_createPVC; [done|intros q _; apply replica_pvc|].
  intros [[]|e|msg|]; cbn [bind_post]; try done.
  apply always_bind, always_createConfigMap; [done|intros _; apply replica_config|].
  intros [[]|e|msg|]; cbn [bind_post]; try done.
  apply always_createPod; [done|done| |done]. intros rq rl _. apply replica_pod.
Qed.

Lemma exec_for_each_confirmed fuel cluster l t :
  exec (for_each (createReplica fuel cluster) l) t (Ok tt) ->
  forall d, d ∈ l -> replica_confirmed t cluster d.
Proof.
  unfold for_each. intros H.
  refine (exec_for_range_ok _ (fun l1 _ t1 => forall d, d ∈ l1 -> replica_confirmed t1 cluster d)
            tt l tt t _ _ H); [set_solver|].
  intros l1 d l2 [] t1 [] t2 _ IH H2 d' [Hd|Hd]%elem_of_app.
  - by apply replica_confirmed_app_l, IH.
  - apply list_elem_of_singleton in Hd as ->. by eapply replica_confirmed_app_r, createReplica_confirmed.
Qed.

(** ** The reconciliation *)

(** The answer the reconciliation starts from, as its two results. *)
Definition listed_names (listed : result (list Pod)) : list string :=
  match listed with
  | Success pods => pod_Name <$> pods
  | Failure _ => []
  end.

Definition missing_number (listed : result (list Pod)) (cluster : MysqlCluster) (d : string) : Prop :=
  d ∈ generateExpectedPodNumbers (Replicas (Spec cluster)) /\
  d ∉ extractPodNumbers (listed_names listed).

Lemma exec_getActualReplicaInfo cluster t o :
  exec (getActualReplicaInfo cluster : io _) t o ->
  exists listed, t = [existT (ListPods (cluster_Namespace cluster) {["app" := "mysql"]}) listed] /\
    o = Ok (int32 (Z.of_nat (length (listed_names listed))), listed_names listed).
Proof.
  intros H. unfold getActualReplicaInfo in H. exec_inv; eexists; (split; [reflexivity|]); [|done].
  cbn. by rewrite length_fmap.
Qed.

(** C4: a reconciliation that returns without an error leaves nothing missing: it starts from one list of
    the pods; if their number is the one asked for it does nothing more; otherwise the claim, the
    configuration and the pod of every expected number that no pod had were seen or created. *)
Theorem reconcileReplicas_completes fuel cluster t :
  keys_answered t -> exec (reconcileReplicas fuel cluster) t (Ok tt) ->
  exists listed,
    head t = Some (existT (ListPods (cluster_Namespace cluster) {["app" := "mysql"]}) listed) /\
    if decide (int32 (Z.of_nat (length (listed_names listed))) = Replicas (Spec cluster))
    then tail t = []
    else forall d, missing_number listed cluster d -> replica_confirmed t cluster d.
Proof.
  intros Hkeys H. unfold reconcileReplicas in H.
  apply exec_bind_ok in H as ([count names] & t1 & t2 & H1 & H & ->).
  apply exec_getActualReplicaInfo in H1 as (listed & -> & [= -> ->]).
  exists listed. split; [done|]. case_bool_decide as Hc.
  - rewrite decide_False by done.
    apply exec_bind_ok in H as (missing & t3 & t4 & H3 & H4 & ->).
    apply keys_answered_app in Hkeys as [_ Hkeys]. apply keys_answered_app in Hkeys as [Hkeys _].
    destruct (findMissingPodNumbers_exec _ _ _ _ Hkeys H3) as (missing' & [= <-] & _ & Hm & _).
    intros d Hd. apply Hm in Hd. rewrite app_assoc. apply replica_confirmed_app_r.
    by eapply exec_for_each_confirmed.
  - rewrite decide_True by done. by apply exec_ret_inv in H as [-> _].
Qed.

Lemma exec_for_each_writes fuel cluster (l : list Z) t o :
  (forall i, i ∈ l -> 0 <= i < 2 ^ 63) ->
  exec (for_each (createReplica fuel cluster) (fmt_02d <$> l)) t o ->
  Forall (fun ev => writes ev = true -> exists i, i ∈ l /\ replica_object cluster i (projT1 ev)) t.
Proof.
  unfold for_each. revert t. induction l as [|i l IH]; intros t Hl H.
  - apply exec_ret_inv in H as [-> _]. constructor.
  - assert (0 <= i < 2 ^ 63) as Hi by (apply Hl; left).
    apply exec_bind_inv in H as [([] & t1 & t2 & H1 & H2 & ->)|(o1 & H1 & _)].
    + apply createReplica_writes in H1; [|done]. apply IH in H2; [|intros; apply Hl; by right].
      apply Forall_app. split; (eapply Forall_impl; [eassumption|]); cbn; intros ev Hev Hw.
      * exists i. split; [left|auto].
      * destruct (Hev Hw) as (j & ? & ?). exists j. split; [by right|done].
    + apply createReplica_writes in H1; [|done]. eapply Forall_impl; [eassumption|].
      cbn; intros ev Hev Hw. exists i. split; [left|auto].
Qed.

(** C33: whatever happens, the reconciliation writes nothing but the objects of missing replicas: every
    write is the creation of the claim, the configuration or the pod of a number that is expected and
    that no pod has, the configuration with the server id of that number.  Nothing is updated and
    nothing of an existing replica is created again. *)
Theorem reconcileReplicas_writes fuel cluster t o :
  in_int32 (Replicas (Spec cluster)) -> keys_answered t ->
  exec (reconcileReplicas fuel cluster) t o ->
  exists listed,
    head t = Some (existT (ListPods (cluster_Namespace cluster) {["app" := "mysql"]}) listed) /\
    Forall (fun ev => writes ev = true ->
      exists i, 1 <= i <= Replicas (Spec cluster) /\
        missing_number listed cluster (fmt_02d i) /\ replica_object cluster i (projT1 ev)) t.
Proof.
  intros Hr Hkeys H. unfold reconcileReplicas in H.
  apply exec_bind_inv in H as [([count names] & t1 & t2 & H1 & H & ->)|(o1 & H1 & Ho)].
  2:{ apply exec_getActualReplicaInfo in H1 as (listed & -> & ->). done. }
  apply exec_getActualReplicaInfo in H1 as (listed & -> & [= -> ->]).
  exists listed. split; [done|]. constructor; [done|].
  case_bool_decide as Hc; [|apply exec_ret_inv in H as [-> _]; constructor].
  apply keys_answered_app in Hkeys as [_ Hkeys].
  apply exec_bind_inv in H as [(missing & t3 & t4 & H3 & H4 & ->)|(o1 & H1 & Ho)].
  - apply keys_answered_app in Hkeys as [Hkeys _].
    destruct (findMissingPodNumbers_exec _ _ _ _ Hkeys H3) as (missing' & [= <-] & _ & Hm & ks & ->).
    constructor; [done|].
    assert (exists l, missing = fmt_02d <$> l /\ forall i, i ∈ l ->
      1 <= i <= Replicas (Spec cluster) /\ missing_number listed cluster (fmt_02d i)) as (l & -> & Hl).
    { assert (forall d, d ∈ missing -> missing_number listed cluster d) as Hall by (intros d; apply Hm).
      clear -Hall. induction missing as [|d missing IH]; [exists []; set_solver|].
      destruct IH as (l & -> & Hl); [intros; apply Hall; by right|].
      assert (missing_number listed cluster d) as Hd by (apply Hall; left).
      destruct (proj1 (elem_of_generateExpectedPodNumbers _ _) (proj1 Hd)) as (i & Hi & ->).
      exists (i :: l). split; [done|]. intros j [->|?]%elem_of_cons; auto. }
    apply exec_for_each_writes in H4.
    2:{ intros i Hi%Hl. unfold in_int32 in Hr. lia. }
    eapply Forall_impl; [exact H4|]. cbn. intros ev Hev Hw. destruct (Hev Hw) as (i & Hi & ?).
    exists i. destruct (Hl i Hi). done.
  - destruct (findMissingPodNumbers_exec _ _ _ _ Hkeys H1) as (missing' & -> & _). done.
Qed.

End replicas.

(** ** Instances *)

#[local] Existing Instance sim_extern.

Definition example_reconciliation : prog response unit unit := reconcileReplicas 1 (example_cluster 2).

Lemma reconcileReplicas_completes_witness :
  replica_confirmed (trace (run sim example_reconciliation tt example_world)) (example_cluster 2) "02".
Proof.
  assert (keys_answered (trace (run sim example_reconciliation tt example_world))) as Hk
    by check_answers.
  run_ok example_reconciliation tt example_world He.
  destruct (reconcileReplicas_completes 1 (example_cluster 2) _ Hk He)
    as (listed & Hhead & H).
  assert (listed_names listed = []) as Hl.
  { destruct listed as [[|pod l]|e]; try done. exfalso.
    apply (f_equal (fun ev => match ev with
                              | Some (existT (ListPods _ _) (Success [])) => true
                              | _ => false
                              end)) in Hhead. vm_compute in Hhead. discriminate. }
  rewrite Hl in H. rewrite decide_False in H by (vm_compute; discriminate).
  apply H. split.
  - apply elem_of_generateExpectedPodNumbers. exists 2. split; [cbn; lia|vm_compute; reflexivity].
  - rewrite Hl. apply not_elem_of_nil.
Defined.

Lemma reconcileReplicas_writes_witness :
  exists listed, Forall (fun ev => writes ev = true ->
    exists i, 1 <= i <= 2 /\ missing_number listed (example_cluster 2) (fmt_02d i) /\
              replica_object (example_cluster 2) i (projT1 ev))
    (trace (run sim example_reconciliation tt example_world)).
Proof.
  assert (keys_answered (trace (run sim example_reconciliation tt example_world))) as Hk
    by check_answers.
  assert (in_int32 (Replicas (Spec (example_cluster 2)))) as Hr by (cbv; split; congruence).
  destruct (reconcileReplicas_writes 1 (example_cluster 2) _ _ Hr Hk (run_exec sim example_reconciliation tt example_world))
    as (listed & _ & H).
  exists listed. exact H.
Defined.
