(* ===== verification/Reconciler.v ===== *)
(** * The reconciler's own state ([mysqlcluster_controller.go])

    The fields of [MysqlClusterReconciler] that change.  They are the memory the programs of the
    controller share with the goroutines it starts: the snapshot loop writes the GTID snapshot, the
    Raft goroutines change the manager. *)

From S2P Require Import Prelude GoLib Prog Types Kube Raft.

(** [RaftIntegration] is set together with [RaftManager] and holds the same manager and the same
    cluster object, so of it there is only whether it is set. *)
Record MysqlClusterReconciler := MkReconciler {
  r_MasterGTIDSnapshot : string;
  r_SnapGoIsEnabled : bool;
  r_RaftManager : option RaftManager;
  r_RaftIntegration : bool;
}.

#[export] Instance eta_Reconciler : Eta MysqlClusterReconciler := fun r =>
  MkReconciler (r_MasterGTIDSnapshot r) (r_SnapGoIsEnabled r) (r_RaftManager r) (r_RaftIntegration r).

Definition new_reconciler : MysqlClusterReconciler := MkReconciler "" false None false.

(** Programs of the controller. *)
Notation controller := (prog response MysqlClusterReconciler).
