(* ===== verification/Election.v ===== *)
(** * Choosing a new master ([internal/controller/elect_new_master.go])

    A slave's score is the share of the master's GTIDs it has plus the size of its data directory, in
    the arithmetic of [Float64]; the healthy slave with the highest score wins.  The module asks for Go
    1.22, so [&pod] in the loop of [electNewMaster] is the variable of that round. *)

From S2P Require Import Prelude GoLib Float64 Prog Types Kube KubeSim Resources Raft Reconciler.

(** ** Scores *)

Definition comma : ascii := ascii_of_nat 44.

(** Each of the master's GTIDs counts once when the slave has it. *)
Definition gtid_count (masterGTIDs slaveGTIDs : list string) : Z :=
  Z.of_nat (length (filter (fun masterGTID => masterGTID ∈ slaveGTIDs) masterGTIDs)).

Definition calculateGTIDScore (masterGTIDSet slaveGTIDSet : string) : float64 :=
  if bool_decide (masterGTIDSet = "") || bool_decide (slaveGTIDSet = "") then float_of_int 0 else
  let masterGTIDs := Split masterGTIDSet comma in
  let slaveGTIDs := Split slaveGTIDSet comma in
  float_div (float_of_int (gtid_count masterGTIDs slaveGTIDs))
            (float_of_int (Z.of_nat (length masterGTIDs))).

Definition calculateDataScore (dataSize : Z) : float64 := float_of_int dataSize.

Section election.
Context {ext : Extern}.

Definition show_status_command (status field : string) : string :=
  mysql_e ("SHOW " +:+ status +:+ " STATUS\G") +:+ " | grep '" +:+ field +:+
  ":' | awk '{print $2}'".

Definition getMasterGTIDSet (pod : Pod) : controller string :=
  execCommandOnPod pod (show_status_command "MASTER" "Executed_Gtid_Set").

Definition getSlaveGTIDSet (pod : Pod) : controller string :=
  execCommandOnPod pod (show_status_command "SLAVE" "Retrieved_Gtid_Set").

Definition dataSizeCommand : string := "du -sb /var/lib/mysql | awk '{print $1}'".

Definition getDataSize (pod : Pod) : controller Z :=
  output ← execCommandOnPod pod dataSizeCommand;
  match ParseInt (TrimSpace output) with
  | (dataSize, None) => mret dataSize
  | (_, Some err) => throw err
  end.

Definition getDataScore (pod : Pod) : controller float64 :=
  masterGTIDSet ← read_mem r_MasterGTIDSnapshot;
  slaveGTIDSet ← wrapf "failed to get slave GTID set" (getSlaveGTIDSet pod);
  let gtidScore := calculateGTIDScore masterGTIDSet slaveGTIDSet in
  dataSize ← wrapf "failed to get data size" (getDataSize pod);
  let dataScore := calculateDataScore dataSize in
  mret (float_add gtidScore dataScore).

(** ** The election *)

(** One slave of the loop; [best] is [bestSlave] with [highestScore]. *)
Definition consider (best : option Pod * float64) (pod : Pod) : controller (option Pod * float64) :=
  if negb (isPodHealthy pod) then mret best else
  dataScore ← wrapf ("failed to get data score for pod " +:+ pod_Name pod) (getDataScore pod);
  let '(bestSlave, highestScore) := best in
  if float_ltb highestScore dataScore then mret (Some pod, dataScore)
  else mret (bestSlave, highestScore).

Definition electNewMaster (cluster : MysqlCluster) : controller (string * list string) :=
  slavePods ← wrapf "failed to list slave pods"
    (ask (ListPods (cluster_Namespace cluster) {["role" := "slave"]}) ≫= lift);
  '(bestSlave, _) ← for_range consider (None, float_of_int (-1)) slavePods;
  match bestSlave with
  | None => throw (Errorf "no suitable slave found to be promoted to master")
  | Some best =>
      let newMasterName := pod_Name best in
      mret (newMasterName, filter (fun name => name <> newMasterName) (pod_Name <$> slavePods))
  end.

(** ** The snapshot loop

    One round of the goroutine that [startAndUpdateGTIDSnapshot] starts. *)
Definition snapshot_round (cluster : MysqlCluster) : controller unit :=
  listed ← ask (ListPods (cluster_Namespace cluster) {["role" := "master"]});
  match listed with
  | Failure _ => ask (Sleep (1 * Second))
  | Success [] =>
      _ ← write_mem (fun r => r <| r_MasterGTIDSnapshot := "" |>);
      ask (Sleep (1 * Minute))
  | Success (pod :: _) =>
      got ← attempt (getMasterGTIDSet pod);
      _ ← match got with
          | Failure _ => mret tt
          | Success gtidSet => write_mem (fun r => r <| r_MasterGTIDSnapshot := gtidSet |>)
          end;
      ask (Sleep (1 * Minute))
  end.

Definition startAndUpdateGTIDSnapshot (cluster : MysqlCluster) : controller unit :=
  ask (Go (gtidSnapshotLoop cluster)).

(** ** The winner *)

(** The trace of a score: some part of the trace is the run of [getDataScore] for the pod. *)
Definition scored (t : list (event response)) (pod : Pod) (score : float64) : Prop :=
  exists t1 t2 t3, t = t1 ++ t2 ++ t3 /\ exec (getDataScore pod) t2 (Ok score).

Lemma scored_app_l t u pod score : scored t pod score -> scored (t ++ u) pod score.
Proof. intros (t1 & t2 & t3 & -> & H). exists t1, t2, (t3 ++ u). by rewrite <-!app_assoc. Qed.

Lemma scored_app_r t u pod score : scored u pod score -> scored (t ++ u) pod score.
Proof. intros (t1 & t2 & t3 & -> & H). exists (t ++ t1), t2, t3. by rewrite <-!app_assoc. Qed.

(** The loop's invariant: every healthy pod seen has a score, none is above the highest one, and the
    best pod has it. *)
Record seen (t : list (event response)) (pods : list Pod) (best : option Pod * float64)
    (scores : list (Pod * float64)) : Prop := {
  seen_pods : fst <$> scores = filter (fun pod => isPodHealthy pod = true) pods;
  seen_scored pod score : (pod, score) ∈ scores -> scored t pod score;
  seen_highest pod score : (pod, score) ∈ scores -> float_ltb (snd best) score = false;
  seen_start : float_ltb (snd best) (float_of_int (-1)) = false;
  seen_best pod : fst best = Some pod -> (pod, snd best) ∈ scores /\
    float_ltb (float_of_int (-1)) (snd best) = true;
  seen_none : fst best = None -> snd best = float_of_int (-1);
}.

Lemma consider_seen t pods best scores pod best' t2 :
  seen t pods best scores -> exec (consider best pod) t2 (Ok best') ->
  exists scores', seen (t ++ t2) (pods ++ [pod]) best' scores'.
Proof.
  intros [Hp Hs Hh Hst Hb Hn] H. unfold consider in H.
  destruct (isPodHealthy pod) eqn:Hhealthy; cbn [negb] in H.
  - apply exec_bind_ok in H as (score & t3 & t4 & H3 & H & ->).
    apply exec_wrapf_inv in H3 as (o & H3 & Ho).
    assert (o = Ok score) as -> by (by destruct o; simplify_eq). clear Ho.
    destruct best as [bestSlave highest]. cbn [fst snd] in *.
    exists (scores ++ [(pod, score)]).
    assert (t4 = [] /\ best' = if float_ltb highest score then (Some pod, score) else (bestSlave, highest))
      as [-> ->] by (destruct (float_ltb highest score); by apply exec_ret_inv in H as [-> [= <-]]).
    rewrite app_nil_r. clear H.
    split; cbn.
    + by rewrite fmap_app, filter_app, Hp, filter_cons_True.
    + intros q s [Hq|Hq]%elem_of_app; [by apply scored_app_l, Hs|].
      apply list_elem_of_singleton in Hq as [= -> ->]. apply scored_app_r.
      exists [], t3, []. by rewrite app_nil_r.
    + intros q s Hq. apply not_true_iff_false. intros Hlt.
      destruct (float_ltb highest score) eqn:E; cbn [snd] in Hlt.
      * apply elem_of_app in Hq as [Hq|Hq%list_elem_of_singleton]; [|injection Hq as -> ->].
        -- pose proof (float_ltb_trans _ _ _ E Hlt). by rewrite (Hh q s) in *.
        -- by rewrite float_ltb_irrefl in Hlt.
      * apply elem_of_app in Hq as [Hq|Hq%list_elem_of_singleton]; [|injection Hq as -> ->].
        -- by rewrite (Hh q s) in Hlt.
        -- congruence.
    + destruct (float_ltb highest score) eqn:E; [|done]. cbn. apply not_true_iff_false. intros Hlt.
      by rewrite (float_ltb_trans _ _ _ E Hlt) in Hst.
    + intros q Hq. destruct (float_ltb highest score) eqn:E; cbn in *.
      * injection Hq as <-. split; [apply elem_of_app; right; left|].
        destruct bestSlave as [b|].
        -- destruct (Hb b eq_refl). by eapply float_ltb_trans.
        -- by rewrite (Hn eq_refl) in E.
      * destruct (Hb q Hq). split; [apply elem_of_app; by left|done].
    + destruct (float_ltb highest score); [done|apply Hn].
  - apply exec_ret_inv in H as [-> [= <-]]. exists scores. rewrite app_nil_r. split; try done.
    rewrite filter_app, Hp, filter_cons_False by congruence. by rewrite app_nil_r.
Qed.

Lemma consider_all pods best t :
  exec (for_range consider (None, float_of_int (-1)) pods) t (Ok best) ->
  exists scores, seen t pods best scores.
Proof.
  intros H.
  refine (exec_for_range_ok _ (fun l b t => exists scores, seen t l b scores) _ _ _ _ _ _ H).
  - exists []. split; cbn; try done; intros ? ? Hnil; inversion Hnil.
  - intros l1 pod l2 b1 t1 b2 t2 _ [scores Hseen] Hstep. by eapply consider_seen.
Qed.

(** C10: the new master is a healthy slave that no healthy slave outscores: every healthy pod among the
    slaves listed was given its score by [getDataScore], the winner's is above -1 and no other is
    above the winner's.  The remaining slaves are all the other names, healthy or not. *)
Theorem electNewMaster_best cluster t newMaster remaining :
  exec (electNewMaster cluster) t (Ok (newMaster, remaining)) ->
  exists pods scores best score,
    head t = Some (existT (ListPods (cluster_Namespace cluster) {["role" := "slave"]}) (Success pods)) /\
    fst <$> scores = filter (fun pod => isPodHealthy pod = true) pods /\
    (forall pod s, (pod, s) ∈ scores -> scored t pod s /\ float_ltb score s = false) /\
    (best, score) ∈ scores /\ float_ltb (float_of_int (-1)) score = true /\
    newMaster = pod_Name best /\
    remaining = filter (fun name => name <> newMaster) (pod_Name <$> pods).
Proof.
  intros H. unfold electNewMaster in H.
  apply exec_bind_ok in H as (pods & t1 & t2 & H1 & H & ->).
  apply exec_bind_ok in H as ([bestSlave highest] & t3 & t4 & H3 & H & ->).
  apply consider_all in H3 as (scores & [Hp Hs Hh Hst Hb Hn]). cbn [fst snd] in *.
  destruct bestSlave as [best|]; [|by apply exec_throw_inv in H as [_ ?]].
  apply exec_ret_inv in H as [-> [= -> ->]]. destruct (Hb best eq_refl) as [Hin Hgt].
  exists pods, scores, best, highest. split_and!; try done.
  - exec_inv. done.
  - intros pod s Hps. split; [|by eapply Hh]. apply scored_app_r, scored_app_l. by apply Hs.
Qed.

Lemma execCommandOnPod_reads (P : request -> Prop) Q (pod : Pod) command :
  (forall r, is_write r = false -> P r) -> (forall o, Q o) ->
  always P Q (execCommandOnPod pod command : controller string).
Proof.
  intros HP HQ. unfold execCommandOnPod. apply always_bind. always_ask; [by apply HP|].
  destruct x as [config|e]; cbn [lift of_result always bind_post]; [|apply HQ].
  apply always_bind. always_ask; [by apply HP|].
  destruct x as [cs|e]; cbn [lift of_result always bind_post]; [|apply HQ].
  destruct (Containers (pod_spec pod)) as [|c l]; [apply HQ|].
  apply always_bind. always_ask; [by apply HP|].
  destruct x as [executor|e]; cbn [lift of_result always bind_post]; [|apply HQ].
  always_ask; [by apply HP|]. apply HQ.
Qed.

Lemma getDataScore_reads (P : request -> Prop) Q pod :
  (forall r, is_write r = false -> P r) -> (forall o, Q o) -> always P Q (getDataScore pod).
Proof.
  intros HP HQ. unfold getDataScore. apply always_bind. cbn [read_mem atomically always].
  intros gtid. cbn [bind_post]. apply always_bind, always_wrapf, execCommandOnPod_reads; [done|].
  intros o1. destruct o1; cbn [bind_post]; try apply HQ.
  apply always_bind, always_wrapf. unfold getDataSize. apply always_bind, execCommandOnPod_reads; [done|].
  intros [output| | |]; cbn [bind_post]; try apply HQ.
  destruct (ParseInt (TrimSpace output)) as [n [e|]]; apply HQ.
Qed.

Lemma electNewMaster_reads (P : request -> Prop) Q cluster :
  (forall r, is_write r = false -> P r) -> (forall o, Q o) -> always P Q (electNewMaster cluster).
Proof.
  intros HP HQ. unfold electNewMaster. apply always_bind, always_wrapf. always_ask; [by apply HP|].
  destruct x as [pods|e]; cbn [lift of_result always bind_post]; [|apply HQ].
  apply always_bind. eapply always_mono; [done| |apply (always_for_range P (fun _ => True) (fun _ => True)); [done|]].
  - intros [[[best|] s]| | |] _; cbn [bind_post]; apply HQ.
  - intros b pod _ _. unfold consider. destruct (negb (isPodHealthy pod)); [done|].
    apply always_bind, always_wrapf, getDataScore_reads; [done|].
    intros [score| | |]; cbn [bind_post]; try done.
    destruct b as [bs hs]. by destruct (float_ltb hs score).
Qed.

Lemma best_none_scores t best highest pods scores :
  seen t pods (best, highest) scores -> best = None ->
  forall pod, pod ∈ pods -> isPodHealthy pod = true ->
  exists s, scored t pod s /\ float_ltb (float_of_int (-1)) s = false.
Proof.
  intros [Hp Hs Hh _ _ Hn] Hb pod Hpod Hhealthy. cbn [fst snd] in *.
  assert (pod ∈ fst <$> scores) as Hin by (rewrite Hp; by apply list_elem_of_filter).
  apply list_elem_of_fmap in Hin as ([pod' s] & -> & Hin). exists s.
  split; [by apply Hs|]. rewrite <-(Hn Hb). by eapply Hh.
Qed.

Lemma exec_list_slaves ns sel t o :
  exec (wrapf "failed to list slave pods" (ask (ListPods ns sel) ≫= lift) : controller (list Pod)) t o ->
  exists x, t = [existT (ListPods ns sel) x] /\
    o = match x with Success l => Ok l | Failure e => Err (Wrapf "failed to list slave pods" e) end.
Proof.
  intros (o1 & H & ->)%exec_wrapf_inv. apply exec_Ask_inv in H as (x & t' & -> & H).
  exists x. by destruct x; apply exec_done_inv in H as [-> ->].
Qed.

Lemma consider_fails best pods t e :
  exec (for_range consider best pods) t (Err e) ->
  exists pod e', pod ∈ pods /\ isPodHealthy pod = true /\
    e = Wrapf ("failed to get data score for pod " +:+ pod_Name pod) e' /\
    exists t1 t2, t = t1 ++ t2 /\ exec (getDataScore pod) t2 (Err e').
Proof.
  intros (l1 & pod & l2 & b1 & t1 & t2 & -> & -> & H)%exec_for_range_err.
  unfold consider in H. destruct (isPodHealthy pod) eqn:Hh; cbn [negb] in H;
    [|by apply exec_ret_inv in H as [_ ?]].
  assert (exists e', e = Wrapf ("failed to get data score for pod " +:+ pod_Name pod) e' /\
            exec (getDataScore pod) t2 (Err e')) as (e' & -> & He).
  { apply exec_bind_inv in H as [(s & u1 & u2 & _ & H & ->)|(o1 & H & Ho)].
    - destruct b1 as [bs hs], (float_ltb hs s); by apply exec_ret_inv in H as [_ ?].
    - destruct o1; cbn in Ho; simplify_eq. apply exec_wrapf_inv in H as (o2 & H & Ho2).
      destruct o2; simplify_eq. eauto. }
  exists pod, e'. split_and!; [set_solver|done|done|]. eauto.
Qed.

(** C31: an election that returns an error has one of three causes: the slaves could not be listed; a
    healthy slave could not be scored; or no healthy slave's score is above -1, where the search for
    the highest one starts. *)
Theorem electNewMaster_fails cluster t e :
  exec (electNewMaster cluster) t (Err e) ->
  let list := ListPods (cluster_Namespace cluster) {["role" := "slave"]} in
  (exists e', t = [existT list (Failure e')] /\ e = Wrapf "failed to list slave pods" e') \/
  exists pods rest, t = existT list (Success pods) :: rest /\
    ((exists pod e', pod ∈ pods /\ isPodHealthy pod = true /\
        e = Wrapf ("failed to get data score for pod " +:+ pod_Name pod) e' /\
        exists t1 t2, rest = t1 ++ t2 /\ exec (getDataScore pod) t2 (Err e')) \/
     (e = Errorf "no suitable slave found to be promoted to master" /\
      forall pod, pod ∈ pods -> isPodHealthy pod = true ->
        exists s, scored rest pod s /\ float_ltb (float_of_int (-1)) s = false)).
Proof.
  intros H. cbv zeta. unfold electNewMaster in H.
  apply exec_bind_inv in H as [(pods & t1 & t2 & H1 & H & ->)|(o1 & H1 & Ho)].
  - apply exec_list_slaves in H1 as (x & -> & Hx). destruct x as [l|e']; [|done]. injection Hx as <-.
    right. exists pods, t2. split; [done|].
    apply exec_bind_inv in H as [([best highest] & t3 & t4 & H3 & H & ->)|(o2 & H2 & Ho)].
    + right. apply consider_all in H3 as (scores & Hseen).
      destruct best as [best|]; [by apply exec_ret_inv in H as [_ ?]|].
      apply exec_throw_inv in H as [-> [= ->]]. rewrite app_nil_r. split; [done|].
      by eapply best_none_scores.
    + left. destruct o2; cbn in Ho; simplify_eq. apply consider_fails in H2 as (pod & e' & ? & ? & -> & ?).
      by exists pod, e'.
  - left. apply exec_list_slaves in H1 as (x & -> & ->). destruct x as [l|e']; [done|].
    cbn in Ho. injection Ho as <-. by exists e'.
Qed.

(** The share of the GTIDs is a share: between none and all. *)
Lemma gtid_score_between masterGTIDSet slaveGTIDSet :
  Z.of_nat (String.length masterGTIDSet) < 2 ^ 52 ->
  between 0 1 (calculateGTIDScore masterGTIDSet slaveGTIDSet).
Proof.
  intros Hm. unfold calculateGTIDScore.
  destruct (_ || _); [exists 0, 0; split; [by apply is_zero|lia]|].
  pose proof (length_Split masterGTIDSet comma) as Hl.
  assert (1 <= length (Split masterGTIDSet comma))%nat as Hne
    by (pose proof (Split_not_nil masterGTIDSet comma); destruct (Split masterGTIDSet comma); [done|cbn; lia]).
  apply float_div_between; unfold gtid_count; [|lia].
  pose proof (length_filter (fun g => g ∈ Split slaveGTIDSet comma) (Split masterGTIDSet comma)). lia.
Qed.

(** C32: the size of the data decides an election.  For any two GTID texts, a slave with at least two bytes
    more outscores the other one, whatever transactions the two have (below [2 ^ 53] bytes, where the
    sum is exact to one); and any size that is not negative scores above -1, so a healthy slave with
    such a size is never passed over for want of a score. *)
Theorem data_size_decides master slave1 slave2 size1 size2 :
  Z.of_nat (String.length master) < 2 ^ 52 -> 0 <= size1 < 2 ^ 63 ->
  let score slave size := float_add (calculateGTIDScore master slave) (calculateDataScore size) in
  float_ltb (float_of_int (-1)) (score slave1 size1) = true /\
  (size1 + 2 <= size2 < 2 ^ 53 - 1 ->
   float_ltb (score slave1 size1) (score slave2 size2) = true).
Proof.
  intros Hm Hs. cbv zeta. pose proof (gtid_score_between master slave1 Hm) as H1.
  pose proof (gtid_score_between master slave2 Hm) as H2. split.
  - by apply nonneg_above, float_add_nonneg.
  - intros Hs2.
    eapply (between_lt (0 + size1) (1 + size1) (0 + size2) (1 + size2)); [| |lia];
      apply float_add_between; first [lia | done | apply float_of_int_between; lia].
Qed.

End election.

(** ** Instances *)

#[local] Existing Instance sim_extern.

(** A shell in which [mysql-02] has less data than the other pods. *)
Definition example_shell (pod command : string) : result string :=
  if decide (command = dataSizeCommand)
  then Success (if decide (pod = "mysql-02") then "1000" else "2000")
  else Success "a:1-5".

(** Two slaves; the master's service is there, the master is not. *)
Definition lost_master_world : World :=
  put KService (createService "mysql-master" "master" "default" (example_cluster 3))
    (put KPod (example_pod "mysql-02" "slave")
       (put KPod (example_pod "mysql-03" "slave") (empty_world example_shell))).

Lemma electNewMaster_best_witness :
  exists pods : list Pod, "mysql-03" ∈ pod_Name <$> pods.
Proof.
  run_to (electNewMaster (example_cluster 3)) new_reconciler lost_master_world
    (Ok ("mysql-03", ["mysql-02"]) : outcome (string * list string)) He.
  destruct (electNewMaster_best _ _ _ _ He)
    as (pods & scores & best & score & _ & Hs & _ & Hin & _ & Hname & _).
  exists pods. rewrite Hname. apply list_elem_of_fmap. exists best. split; [done|].
  assert (best ∈ scores.*1) as Hb by (apply list_elem_of_fmap; by exists (best, score)).
  rewrite Hs in Hb. by apply list_elem_of_filter in Hb as [_ ?].
Defined.

(** Without any slave the error is the last of the three. *)
Lemma electNewMaster_fails_witness :
  exists rest : list (event response),
    trace (run sim (electNewMaster (example_cluster 3)) new_reconciler (empty_world example_shell)) =
    existT (ListPods "default" {["role" := "slave"]}) (Success []) :: rest.
Proof.
  run_to (electNewMaster (example_cluster 3)) new_reconciler (empty_world example_shell)
    (Err (Errorf "no suitable slave found to be promoted to master") : outcome (string * list string)) He.
  pose proof (electNewMaster_fails _ _ _ He) as H. cbv zeta in H.
  destruct H as [(e' & _ & Hx)|(pods & rest & Ht & H)]; [discriminate Hx|].
  exists rest. assert (pods = []) as ->; [|exact Ht].
  apply (f_equal (fun t => match t with
                           | existT (ListPods _ _) x :: _ =>
                               match x with Success l => Some l | Failure _ => None end
                           | _ => None
                           end)) in Ht.
  vm_compute in Ht. by injection Ht.
Defined.

Lemma data_size_decides_witness :
  let gtids := "a:1-5,b:1-9" in
  float_ltb (float_add (calculateGTIDScore gtids gtids) (calculateDataScore 1000))
            (float_add (calculateGTIDScore gtids "") (calculateDataScore 1002)) = true.
Proof.
  cbv zeta.
  apply (data_size_decides "a:1-5,b:1-9" "a:1-5,b:1-9" "" 1000 1002); [|lia|lia].
  vm_compute. reflexivity.
Defined.
