(* ===== verification/MasterSlave.v ===== *)
(** * Master and slaves ([internal/controller/reconcile_master_slave.go])

    Is the master there, which slaves do not replicate, and putting both right. *)

From S2P Require Import Prelude GoLib Prog Types Kube KubeSim Resources Raft Reconciler Election.

Section master_slave.
Context {ext : Extern}.

(** ** Operations *)

Definition checkMasterStatus (cluster : MysqlCluster) : controller bool :=
  endpoints ← (ask (Get KEndpoints (MkObjectKey (cluster_Namespace cluster)
                                      (MasterService (Spec cluster)))) ≫= lift);
  mret (bool_decide (is_Some (first_address endpoints))).

Definition handleMasterFailure (cluster : MysqlCluster) : controller unit :=
  '(newMasterName, remainingSlaves) ← electNewMaster cluster;
  setupMasterSlaveReplication newMasterName remainingSlaves cluster.

Definition sqlQuery : string := mysql_e "SHOW SLAVE STATUS \G".

Definition replicating (output : string) : bool :=
  Contains output "Slave_SQL_Running: Yes" && Contains output "Slave_IO_Running: Yes".

(** The body of the loop over the replicas. *)
Definition checkReplica (cluster : MysqlCluster) (failedReplicas : list string)
    (replicaPodName : string) : controller (list string) :=
  pod ← wrapf ("failed to get pod " +:+ replicaPodName)
    (ask (Get KPod (MkObjectKey (cluster_Namespace cluster) replicaPodName)) ≫= lift);
  output ← wrapf ("failed to execute command on pod " +:+ replicaPodName)
    (execCommandOnPod pod sqlQuery);
  mret (if replicating output then failedReplicas else failedReplicas ++ [replicaPodName]).

Definition checkReplicaStatus (cluster : MysqlCluster) : controller (string * list string) :=
  masterPodName ← wrapf "failed to get master pod name" (getMasterPodNameFromEndpoints cluster);
  replicaPodNames ← wrapf "failed to get replica pods" (getReplicaPodsNames cluster masterPodName);
  failedReplicas ← for_range (checkReplica cluster) [] replicaPodNames;
  mret (masterPodName, failedReplicas).

(** [pod.Labels["role"] = "slave"] panics when the pod has no labels. *)
Definition ensureSlaveRole (masterPodName : string) (pod : Pod) : controller unit :=
  if bool_decide (pod_Name pod <> masterPodName) && bool_decide (map_index (pod_Labels pod) "role" <> "slave")
  then
    match pod_Labels pod with
    | None => panic "assignment to entry in nil map"
    | Some labels =>
        updated ← ask (Update KPod (set_label "role" "slave" labels pod));
        match updated with
        | Success _ => mret tt
        | Failure e => throw e
        end
    end
  else mret tt.

Definition ensureSlaveRoles (cluster : MysqlCluster) : controller unit :=
  masterPodName ← getMasterPodNameFromEndpoints cluster;
  pods ← (ask (ListPods (cluster_Namespace cluster) {["app" := "mysql"]}) ≫= lift);
  for_each (ensureSlaveRole masterPodName) pods.

Definition reconcileMasterSlave (cluster : MysqlCluster) : controller unit :=
  masterAlive ← checkMasterStatus cluster;
  if negb masterAlive then handleMasterFailure cluster
  else
    '(masterPodName, failedReplicas) ← checkReplicaStatus cluster;
    _ ← setupMasterSlaveReplication masterPodName failedReplicas cluster;
    ensureSlaveRoles cluster.

(** ** The failure of a master *)

(** The role labels a run tries to write, in order, with whether the API server accepted each. *)
Definition role_of (a : Action) : option (ObjectKey * string) :=
  match a with
  | SetRole pod role => Some (pod, role)
  | Command _ _ => None
  end.

Definition roles (t : list (event response)) : list (ObjectKey * string * bool) :=
  attempts_of role_of (attempts t).

Lemma roles_app t u : roles (t ++ u) = roles t ++ roles u.
Proof. unfold roles. by rewrite attempts_app, attempts_of_app. Qed.

Lemma no_writes_no_roles t : Forall (fun ev => is_write (projT1 ev) = false) t -> roles t = [].
Proof.
  induction 1 as [|[r x] t Hr _ IH]; [done|]. change (existT r x :: t) with ([existT r x] ++ t).
  rewrite roles_app, IH, app_nil_r. destruct r; cbn in Hr; first [discriminate Hr | reflexivity].
Qed.

Definition replication_roles (cluster : MysqlCluster) (master : string) (slaves : list string) :
    list (ObjectKey * string) :=
  let key := MkObjectKey (cluster_Namespace cluster) in
  (key master, "master") :: ((fun s => (key s, "slave")) <$> slaves).

Lemma roles_of_replication cluster master slaves :
  omap role_of (replication_script cluster master slaves) = replication_roles cluster master slaves.
Proof.
  unfold replication_roles. cbn. f_equal.
  induction slaves as [|s slaves IH]; [done|]. cbn. by rewrite IH.
Qed.

Lemma follows_roles {A} t (o : outcome A) cluster master slaves :
  follows t o (replication_script cluster master slaves) ->
  match o with
  | Ok _ => roles t = accepted (replication_roles cluster master slaves)
  | _ => stops_in (replication_roles cluster master slaves) (roles t)
  end.
Proof.
  rewrite <-roles_of_replication. unfold roles.
  destruct o; cbn [follows]; [intros ->; apply attempts_of_accepted|by apply attempts_of_stops..].
Qed.

(** C11: a failover names one master: the slave [electNewMaster] chose gets the master label, before the
    other listed slaves are pointed at it and labelled, and when the failover succeeds the API server
    accepted every one of these labels.  No other pod's label is touched, so the pod that failed
    keeps its master label.  A failover that fails has either the error of the election, and then it
    wrote nothing at all, or it fails after an election, and then the labels it wrote stop in the
    list for the master that election chose. *)
Theorem handleMasterFailure_roles cluster t o :
  names_answered t -> executors_answered t -> exec (handleMasterFailure cluster) t o ->
  (exists t1 t2 newMaster remaining, t = t1 ++ t2 /\
     exec (electNewMaster cluster) t1 (Ok (newMaster, remaining)) /\
     filter (fun ev => writes ev = true) t1 = [] /\
     exec (setupMasterSlaveReplication newMaster remaining cluster : controller unit) t2 o /\
     match o with
     | Ok _ => roles t = accepted (replication_roles cluster newMaster remaining)
     | _ => stops_in (replication_roles cluster newMaster remaining) (roles t)
     end) \/
  (exists o1, exec (electNewMaster cluster) t o1 /\ raised o1 = Some o /\
     filter (fun ev => writes ev = true) t = []).
Proof.
  intros Hn Hx H. unfold handleMasterFailure in H.
  assert (forall t1 o1, exec (electNewMaster cluster) t1 o1 ->
            Forall (fun ev => is_write (projT1 ev) = false) t1) as Hreads.
  { intros t1 o1 H1. eapply (always_exec (fun r => is_write r = false) (fun _ => True)); [|exact H1].
    by apply electNewMaster_reads. }
  assert (forall t1 : list (event response), Forall (fun ev => is_write (projT1 ev) = false) t1 ->
            filter (fun ev => writes ev = true) t1 = []) as Hnone.
  { intros t1 Ht1. apply filter_none. eapply Forall_impl; [exact Ht1|].
    intros ev Hev. unfold writes. by rewrite Hev. }
  apply exec_bind_inv in H as [([newMaster remaining] & t1 & t2 & H1 & H2 & ->)|(o1 & H1 & Ho)].
  - left. exists t1, t2, newMaster, remaining. split_and!; [done..|by eapply Hnone, Hreads|done|].
    rewrite roles_app, (no_writes_no_roles t1 (Hreads _ _ H1)).
    apply names_answered_app in Hn as [_ Hn2]. apply executors_answered_app in Hx as [_ Hx2].
    apply follows_roles. exact (setupMasterSlaveReplication_follows _ _ _ _ _ (conj Hn2 Hx2) H2).
  - right. exists o1. split_and!; [|by destruct o1; simplify_eq|].
    + exact H1.
    + by eapply Hnone, Hreads.
Qed.

(** ** Relabelling *)

Definition needs_slave_role (masterPodName : string) (pod : Pod) : Prop :=
  pod_Name pod <> masterPodName /\ map_index (pod_Labels pod) "role" <> "slave".

#[global] Instance needs_slave_role_dec m p : Decision (needs_slave_role m p).
Proof. unfold needs_slave_role. apply _. Defined.

Lemma ensureSlaveRole_roles master pod t :
  exec (ensureSlaveRole master pod) t (Ok tt) ->
  roles t = if decide (needs_slave_role master pod) then [(key_of KPod pod, "slave", true)] else [].
Proof.
  intros H. unfold ensureSlaveRole in H. rewrite <-bool_decide_and in H.
  fold (needs_slave_role master pod) in H. case_bool_decide as Hneeds.
  - rewrite decide_True by done. exec_inv. unfold roles, attempts, acted; cbn. unfold map_index; cbn.
    by rewrite lookup_insert_eq.
  - rewrite decide_False by done. by apply exec_ret_inv in H as [-> _].
Qed.

Lemma ensureSlaveRole_all master pods t :
  exec (for_each (ensureSlaveRole master) pods) t (Ok tt) ->
  roles t = accepted ((fun pod => (key_of KPod pod, "slave")) <$> filter (needs_slave_role master) pods).
Proof.
  intros H.
  refine (exec_for_range_ok _ (fun l _ t => roles t = accepted ((fun pod => (key_of KPod pod, "slave")) <$>
            filter (needs_slave_role master) l)) _ _ _ _ _ _ H); [done|].
  intros l1 pod l2 [] t1 [] t2 _ IH H2%ensureSlaveRole_roles.
  rewrite roles_app, IH, H2, filter_app, fmap_app, accepted_app, filter_cons. by case_decide.
Qed.

Lemma getMasterPodName_roles cluster t o :
  exec (getMasterPodNameFromEndpoints cluster : controller string) t o -> roles t = [].
Proof. unfold getMasterPodNameFromEndpoints. intros H. exec_inv; done. Qed.

(** After [ensureSlaveRoles] every MySQL pod but the master is a slave: exactly the listed pods that
    are not the endpoint's pod and have another role are updated, each once, in order, to the slave
    role. *)
Theorem ensureSlaveRoles_spec cluster t :
  exec (ensureSlaveRoles cluster) t (Ok tt) ->
  exists t1 t2 master pods,
    t = t1 ++ existT (ListPods (cluster_Namespace cluster) {["app" := "mysql"]}) (Success pods) :: t2 /\
    exec (getMasterPodNameFromEndpoints cluster : controller string) t1 (Ok master) /\
    roles t = accepted ((fun pod => (key_of KPod pod, "slave")) <$> filter (needs_slave_role master) pods).
Proof.
  intros H. unfold ensureSlaveRoles in H.
  apply exec_bind_ok in H as (master & t1 & t2 & H1 & H & ->).
  apply exec_bind_ok in H as (pods & t3 & t4 & H3 & H4 & ->).
  pose proof (getMasterPodName_roles _ _ _ H1) as Hr1. exec_inv.
  exists t1, t4, master, a. split_and!; [done..|].
  rewrite !roles_app, Hr1. cbn [app]. change (roles [_]) with (@nil (ObjectKey * string * bool)).
  apply ensureSlaveRole_all in H4. exact H4.
Qed.

(** ** Checking *)

Lemma first_address_spec endpoints :
  bool_decide (is_Some (first_address endpoints)) =
  match Subsets endpoints with
  | (_ :: _) :: _ => true
  | _ => false
  end.
Proof.
  unfold first_address.
  destruct (Subsets endpoints) as [|[|a l] l']; [done..|]. by apply bool_decide_eq_true.
Qed.

(** The master counts as alive exactly when its service has an address: the first subset of its
    endpoints exists and is not empty; only a failed read is an error. *)
Lemma checkMasterStatus_spec cluster t o :
  exec (checkMasterStatus cluster) t o ->
  exists got, t = [existT (Get KEndpoints (MkObjectKey (cluster_Namespace cluster)
                                             (MasterService (Spec cluster)))) got] /\
    match got with
    | Success endpoints =>
        o = Ok (match Subsets endpoints with
                | (_ :: _) :: _ => true
                | _ => false
                end)
    | Failure e => o = Err e
    end.
Proof.
  intros H. unfold checkMasterStatus in H. exec_inv; eexists; (split; [reflexivity|]); [|done].
  by rewrite first_address_spec.
Qed.

(** The status query ran in the pod of that name and gave that output. *)
Definition queried (cluster : MysqlCluster) (t : list (event response)) (name output : string) : Prop :=
  exists pod t1 t2 t3, t = t1 ++ t2 ++ t3 /\
    existT (Get KPod (MkObjectKey (cluster_Namespace cluster) name)) (Success pod) ∈ t1 /\
    exec (execCommandOnPod pod sqlQuery : controller string) t2 (Ok output).

Lemma queried_app_l cluster t u name output : queried cluster t name output -> queried cluster (t ++ u) name output.
Proof. intros (p & t1 & t2 & t3 & -> & ? & ?). exists p, t1, t2, (t3 ++ u). by rewrite <-!app_assoc. Qed.

Lemma queried_app_r cluster t u name output : queried cluster u name output -> queried cluster (t ++ u) name output.
Proof.
  intros (p & t1 & t2 & t3 & -> & ? & ?). exists p, (t ++ t1), t2, t3. rewrite <-!app_assoc.
  split_and!; [done|apply elem_of_app; by right|done].
Qed.

Lemma checkReplica_ok cluster failed name t failed' :
  exec (checkReplica cluster failed name) t (Ok failed') ->
  exists output, queried cluster t name output /\
    failed' = if replicating output then failed else failed ++ [name].
Proof.
  intros H. unfold checkReplica in H.
  apply exec_bind_ok in H as (pod & t1 & t2 & H1 & H & ->).
  apply exec_bind_ok in H as (output & t3 & t4 & H3 & H4 & ->).
  apply exec_ret_inv in H4 as [-> [= ->]].
  apply exec_wrapf_inv in H3 as (o & H3 & Ho). destruct o; simplify_eq.
  exists a. split; [|done]. exists pod, t1, t3, []. split_and!; [done| |done].
  exec_inv. cbn. left.
Qed.

Lemma replica_names_not_master cluster master t names :
  exec (getReplicaPodsNames cluster master : controller (list string)) t (Ok names) -> master ∉ names.
Proof.
  intros H. unfold getReplicaPodsNames in H.
  apply exec_bind_ok in H as ([count podNames] & t1 & t2 & _ & H & _).
  destruct (count =? 0); apply exec_ret_inv in H as [_ [= ->]].
  - apply not_elem_of_nil.
  - rewrite list_elem_of_filter. by intros [? _].
Qed.

(** The replicas reported as failed are those, in order, whose status output does not show both
    threads running; the others are left out and the master is the pod of the first endpoint. *)
Theorem checkReplicaStatus_spec cluster t master failed :
  exec (checkReplicaStatus cluster) t (Ok (master, failed)) ->
  exists checked,
    failed = fst <$> filter (fun p => replicating (snd p) = false) checked /\
    (forall name output, (name, output) ∈ checked -> queried cluster t name output) /\
    master ∉ fst <$> checked /\
    exists t1 t2 t3 names, t = t1 ++ t2 ++ t3 /\
      exec (getMasterPodNameFromEndpoints cluster : controller string) t1 (Ok master) /\
      exec (getReplicaPodsNames cluster master : controller (list string)) t2 (Ok names) /\
      fst <$> checked = names.
Proof.
  intros H. unfold checkReplicaStatus in H.
  apply exec_bind_ok in H as (m & t1 & t2 & H1 & H & ->).
  apply exec_bind_ok in H as (names & t3 & t4 & H3 & H & ->).
  apply exec_bind_ok in H as (f & t5 & t6 & H5 & H & ->).
  apply exec_ret_inv in H as [-> [= -> ->]]. rewrite app_nil_r.
  apply exec_wrapf_inv in H1 as (o1 & H1 & Ho1). destruct o1; simplify_eq.
  apply exec_wrapf_inv in H3 as (o3 & H3 & Ho3). destruct o3; simplify_eq.
  assert (exists checked, f = fst <$> filter (fun p => replicating (snd p) = false) checked /\
    (forall name output, (name, output) ∈ checked -> queried cluster t5 name output) /\
    fst <$> checked = a0) as (checked & -> & Hq & Hnames).
  { refine (exec_for_range_ok _ (fun l f t => exists checked,
      f = fst <$> filter (fun p => replicating (snd p) = false) checked /\
      (forall name output, (name, output) ∈ checked -> queried cluster t name output) /\
      fst <$> checked = l) _ _ _ _ _ _ H5).
    - exists []. split_and!; [done| |done]. intros ? ? Hnil. inversion Hnil.
    - intros l1 name l2 f1 u1 f2 u2 _ (checked & -> & Hq & <-) (output & Hout & ->)%checkReplica_ok.
      exists (checked ++ [(name, output)]). split_and!.
      + rewrite filter_app, fmap_app, filter_cons. cbn [snd].
        destruct (replicating output); [rewrite decide_False by done; by rewrite app_nil_r|].
        by rewrite decide_True.
      + intros n out [Hin|Hin]%elem_of_app; [by apply queried_app_l, Hq|].
        apply list_elem_of_singleton in Hin as [= -> ->]. by apply queried_app_r.
      + by rewrite fmap_app. }
  exists checked. split_and!; [done| | |].
  - intros name output Hin. by apply queried_app_r, queried_app_r, Hq.
  - rewrite Hnames. by eapply replica_names_not_master.
  - by exists t1, t3, t5, a0.
Qed.

End master_slave.

(** ** Instances *)

#[local] Existing Instance sim_extern.

Lemma handleMasterFailure_roles_witness :
  exists newMaster remaining,
    roles (trace (run sim (handleMasterFailure (example_cluster 3)) new_reconciler lost_master_world)) =
    accepted (replication_roles (example_cluster 3) newMaster remaining).
Proof.
  assert (executors_answered (trace (run sim (handleMasterFailure (example_cluster 3))
                                       new_reconciler lost_master_world))) as Hx by check_answers.
  assert (names_answered (trace (run sim (handleMasterFailure (example_cluster 3))
                                   new_reconciler lost_master_world))) as Hn by check_answers.
  run_ok (handleMasterFailure (example_cluster 3)) new_reconciler lost_master_world He.
  destruct (handleMasterFailure_roles _ _ _ Hn Hx He)
    as [(t1 & t2 & newMaster & remaining & _ & _ & _ & _ & Hr)|(o1 & _ & Ho & _)].
  - exists newMaster, remaining. exact Hr.
  - destruct o1; discriminate Ho.
Defined.

(** A pod with a stale role next to the master. *)
Definition stale_role_world : World := put KPod (example_pod "mysql-02" "master2") example_world2.

Lemma ensureSlaveRoles_spec_witness :
  exists master pods,
    roles (trace (run sim (ensureSlaveRoles (example_cluster 2)) new_reconciler stale_role_world)) =
    accepted ((fun pod => (key_of KPod pod, "slave")) <$> filter (needs_slave_role master) pods).
Proof.
  run_ok (ensureSlaveRoles (example_cluster 2)) new_reconciler stale_role_world He.
  destruct (ensureSlaveRoles_spec _ _ He) as (t1 & t2 & master & pods & _ & _ & Hr).
  exists master, pods. exact Hr.
Defined.

Lemma checkReplicaStatus_spec_witness :
  exists checked, ["mysql-02"] = fst <$> filter (fun p => replicating (snd p) = false) checked.
Proof.
  run_to (checkReplicaStatus (example_cluster 2)) new_reconciler example_world2
    (Ok ("mysql-01", ["mysql-02"]) : outcome (string * list string)) He.
  destruct (checkReplicaStatus_spec _ _ _ _ He) as (checked & Hf & _).
  exists checked. exact Hf.
Defined.
