(* ===== verification/Integration.v ===== *)
(** * Failover driven by Raft ([internal/controller/raft_mysql_integration.go])

    [RaftMySQLIntegration] waits for its Raft manager to lead, then makes the leading node's pod the
    MySQL master.  Its manager and its cluster object are the ones of the reconciler's memory. *)

From S2P Require Import Prelude GoLib Prog Types Kube KubeSim Resources Raft RaftSystem Reconciler.
From S2P Require Import MasterSlave Replicas.

Section integration.
Context {ext : Extern}.

(** ** Access to the shared manager *)

(** A read of the manager under its lock; without a manager the pointer is nil. *)
Definition the_manager {X} (f : RaftManager -> X) : controller X :=
  o ← read_mem (X := option X) (fun r => f <$> r_RaftManager r);
  match o with
  | Some x => mret x
  | None => panic "invalid memory address or nil pointer dereference"
  end.

Definition update_manager (f : RaftManager -> RaftManager) : controller unit :=
  ok ← atomically (fun r => match r_RaftManager r with
                            | Some rm => (true, r <| r_RaftManager := Some (f rm) |>)
                            | None => (false, r)
                            end);
  if ok : bool then mret tt else panic "invalid memory address or nil pointer dereference".

(** ** The election *)

Definition maxWaitTime : Duration := 30 * Second.

Definition timeout_error : error := Errorf "Raft选举超时".

(** One round of the wait: the end of the call, or another round. *)
Definition election_round (startTime : Time) :
    controller (option (result (string * list string))) :=
  now ← ask Now;
  if Since now startTime <? maxWaitTime then
    leader ← the_manager (fun rm => if decide (rm_state rm = RaftStateLeader)
                                    then Some (rm_nodeId rm) else None);
    match leader with
    | Some newMaster =>
        nodes ← the_manager getClusterNodes;
        mret (Some (Success (newMaster, filter (fun node => node <> newMaster) nodes)))
    | None =>
        _ ← ask (Sleep (100 * Millisecond));
        mret None
    end
  else mret (Some (Failure timeout_error)).

Definition RaftBasedMasterElection (fuel : nat) : controller (string * list string) :=
  startTime ← ask Now;
  ended ← forever fuel (election_round startTime);
  lift ended.

(** ** Commands and pods *)

(** The method of this file returns a fixed result. *)
Definition rmi_execCommandOnPod (pod : Pod) (command : string) : controller string := mret "".

Definition getPodByName (podName : string) : controller Pod :=
  namespace ← the_manager (fun rm => cluster_Namespace (rm_cluster rm));
  ask (Get KPod (MkObjectKey namespace podName)) ≫= lift.

(** The loop over SQL commands of the two semi-sync methods: errors that contain [already exists] are
    passed over. *)
Definition run_commands (what : string) (pod : Pod) (commands : list string) : controller unit :=
  for_each (fun cmd =>
    got ← attempt (rmi_execCommandOnPod pod (mysql_e cmd));
    match got with
    | Failure err =>
        if negb (Contains (Error err) "already exists")
        then throw (Wrapf (what +:+ " [" +:+ cmd +:+ "]") err) else mret tt
    | Success _ => mret tt
    end) commands.

Definition configureMasterSemiSync (masterName : string) : controller unit :=
  pod ← getPodByName masterName;
  run_commands "执行主库半同步配置命令失败" pod
    ["INSTALL PLUGIN rpl_semi_sync_master SONAME 'semisync_master.so';";
     "SET GLOBAL rpl_semi_sync_master_enabled = 1;";
     "SET GLOBAL rpl_semi_sync_master_timeout = 1000;";
     "SET GLOBAL rpl_semi_sync_master_wait_for_slave_count = 1;"].

Definition configureSlaveSemiSync (slaveName : string) : controller unit :=
  pod ← getPodByName slaveName;
  run_commands "执行从库半同步配置命令失败" pod
    ["INSTALL PLUGIN rpl_semi_sync_slave SONAME 'semisync_slave.so';";
     "SET GLOBAL rpl_semi_sync_slave_enabled = 1;";
     "STOP SLAVE IO_THREAD;";
     "START SLAVE IO_THREAD;"].

(** The body of the loop over the slaves: a slave that cannot be asked is passed over. *)
Definition verifySlave (slaveName : string) : controller unit :=
  got ← attempt (getPodByName slaveName);
  match got with
  | Failure _ => mret tt
  | Success slavePod =>
      res ← attempt (rmi_execCommandOnPod slavePod
                       (mysql_e "SHOW STATUS LIKE 'Rpl_semi_sync_slave_status';"));
      match res with
      | Failure _ => mret tt
      | Success slaveResult =>
          if negb (Contains slaveResult "ON")
          then throw (Errorf ("从库 " +:+ slaveName +:+ " 半同步复制未启用")) else mret tt
      end
  end.

Definition VerifySemiSyncStatus (masterName : string) (slaveNames : list string) : controller unit :=
  masterPod ← getPodByName masterName;
  masterResult ← wrapf "检查主库半同步状态失败"
    (rmi_execCommandOnPod masterPod (mysql_e "SHOW STATUS LIKE 'Rpl_semi_sync_master_status';"));
  if negb (Contains masterResult "ON") then throw (Errorf "主库半同步复制未启用")
  else for_each verifySlave slaveNames.

Definition ConfigureSemiSyncReplication (masterName : string) (slaveNames : list string) :
    controller unit :=
  _ ← wrapf "配置主库半同步复制失败" (configureMasterSemiSync masterName);
  _ ← for_each (fun slaveName => _ ← attempt (configureSlaveSemiSync slaveName); mret tt) slaveNames;
  VerifySemiSyncStatus masterName slaveNames.

(** ** Roles *)

(** [pod.Labels["role"] = role] on a map that may be nil, then [Update]. *)
Definition set_role (pod : Pod) (role : string) : controller unit :=
  match pod_Labels pod with
  | None => panic "assignment to entry in nil map"
  | Some labels =>
      updated ← ask (Update KPod (set_label "role" role labels pod));
      match updated with
      | Success _ => mret tt
      | Failure e => throw e
      end
  end.

Definition ensureMySQLMasterRole (masterName : string) : controller unit :=
  pod ← getPodByName masterName;
  _ ← for_each (fun cmd =>
        _ ← wrapf ("执行主库配置命令失败 [" +:+ cmd +:+ "]") (rmi_execCommandOnPod pod (mysql_e cmd));
        mret tt)
      ["RESET MASTER;"; "SET GLOBAL read_only = 0;"; "SET GLOBAL super_read_only = 0;"];
  set_role pod "master".

Definition ensureMySQLSlaveRole (slaveName masterName : string) : controller unit :=
  slavePod ← getPodByName slaveName;
  _ ← attempt (rmi_execCommandOnPod slavePod (mysql_e "STOP SLAVE;"));
  masterService ← the_manager (fun rm =>
    MasterService (Spec (rm_cluster rm)) +:+ "." +:+ cluster_Namespace (rm_cluster rm) +:+
    ".svc.cluster.local");
  _ ← wrapf "配置从库主库连接失败" (rmi_execCommandOnPod slavePod
        (mysql_e ("CHANGE MASTER TO MASTER_HOST='" +:+ masterService +:+
                  "', MASTER_USER='root', MASTER_PASSWORD='" +:+ MySQLPassword +:+
                  "', MASTER_AUTO_POSITION=1;")));
  _ ← wrapf "启动从库复制失败" (rmi_execCommandOnPod slavePod (mysql_e "START SLAVE;"));
  _ ← attempt (rmi_execCommandOnPod slavePod
        (mysql_e "SET GLOBAL read_only = 1; SET GLOBAL super_read_only = 1;"));
  set_role slavePod "slave".

Definition setupMySQLMasterSlaveReplication (masterName : string) (slaveNames : list string) :
    controller unit :=
  _ ← wrapf "设置MySQL主库角色失败" (ensureMySQLMasterRole masterName);
  for_each (fun slaveName =>
    wrapf ("设置MySQL从库角色失败 [" +:+ slaveName +:+ "]") (ensureMySQLSlaveRole slaveName masterName))
    slaveNames.

(** ** Failover *)

Definition HandleRaftBasedFailover (fuel : nat) : controller unit :=
  _ ← update_manager forceElection;
  '(newMaster, slaves) ← wrapf "Raft故障转移失败" (RaftBasedMasterElection fuel);
  _ ← wrapf "配置MySQL主从关系失败" (setupMySQLMasterSlaveReplication newMaster slaves);
  _ ← attempt (ConfigureSemiSyncReplication newMaster slaves);
  mret tt.

(** ** The wait ends *)

Section termination.
Context {W : Type} (h : handler response MysqlClusterReconciler W) (clock : W -> Time).
Hypothesis time : keeps_time h clock.

Lemma run_the_manager {X} (f : RaftManager -> X) m w :
  run h (the_manager f) m w =
  RunResult (match r_RaftManager m with
             | Some rm => Ok (f rm)
             | None => Panic "invalid memory address or nil pointer dereference"
             end) m w [].
Proof. unfold the_manager. cbn. by destruct (r_RaftManager m). Qed.

(** A round that asks for another one has begun before the limit and taken a tenth of a second. *)
Lemma election_round_progress start m w :
  let res := run h (election_round start) m w in
  match out res with
  | Ok None => clock w < start + maxWaitTime /\ clock w + 100 * Millisecond <= clock (world res)
  | OutOfFuel => False
  | _ => True
  end.
Proof.
  cbv zeta. unfold election_round. cbn [ask mbind prog_mbind prog_bind run].
  pose proof (clock_now _ _ time m w) as Hnow. pose proof (clock_forward _ _ time Now m w) as Hfwd.
  destruct (h Now (m, w)) as [now [m1 w1]]. cbn [fst snd] in *.
  destruct (Z.ltb_spec (Since now start) maxWaitTime) as [Hlt|Hge]; [|done].
  assert (clock w < start + maxWaitTime) as Hw
    by (unfold Since, maxWaitTime, Second, Millisecond in *; lia).
  rewrite run_bind, run_the_manager. unfold continue. cbn [out after].
  destruct (r_RaftManager m1) as [rm|]; [|done]. cbn [out mem world trace].
  case_decide.
  - rewrite run_bind, run_the_manager. unfold continue. cbn. by destruct (r_RaftManager m1).
  - cbn. pose proof (clock_sleep _ _ time (100 * Millisecond) m1 w1) as Hs.
    destruct (h (Sleep (100 * Millisecond)) (m1, w1)) as [[] [m2 w2]]. cbn in *. lia.
Qed.

Lemma election_wait_ends fuel start k m w :
  start + Z.of_nat k * (100 * Millisecond) <= clock w -> (k <= 300 < fuel + k)%nat ->
  out (run h (forever fuel (election_round start)) m w) <> OutOfFuel.
Proof.
  revert k m w. induction fuel as [|fuel IH]; intros k m w Hw Hk; [lia|].
  cbn [forever]. rewrite run_bind. unfold continue.
  pose proof (election_round_progress start m w) as Hround. cbv zeta in Hround.
  destruct (out (run h (election_round start) m w)) as [[a|]| | |]; [done| |done..].
  cbn [after out]. destruct Hround as [Hlim Hclock].
  apply (IH (S k)); [lia|]. unfold maxWaitTime, Second, Millisecond in *. lia.
Qed.

(** C12: waiting for the election ends: with a clock that keeps time the call comes to its result within
    301 rounds, whatever the manager does meanwhile and however long the requests take. *)
Theorem RaftBasedMasterElection_terminates fuel m w :
  (300 < fuel)%nat -> out (run h (RaftBasedMasterElection fuel) m w) <> OutOfFuel.
Proof.
  intros Hfuel. unfold RaftBasedMasterElection. cbn [ask mbind prog_mbind prog_bind run].
  pose proof (clock_now _ _ time m w) as Hnow.
  destruct (h Now (m, w)) as [start [m1 w1]]. cbn [fst snd] in *.
  pose proof (election_wait_ends fuel start 0 m1 w1 ltac:(lia) ltac:(lia)) as Hend.
  cbn [after out]. change (prog_bind ?k ?p) with (p ≫= k). rewrite run_bind. unfold continue.
  destruct (out (run h (forever fuel (election_round start)) m1 w1)) as [[res|e]| | |]; done.
Qed.

End termination.

(** ** What the failover asks for *)

(** The manager stays there, with its node id and the parts of its cluster object that the nodes
    depend on; nothing in the program changes them. *)
Definition steady (rm0 : RaftManager) (r : MysqlClusterReconciler) : Prop :=
  exists rm, r_RaftManager r = Some rm /\ same_config rm0 rm.

Definition any_answer (r : request) (x : response r) : Prop := True.

Lemma safe_the_manager {X} rm0 An P (Q : outcome X -> Prop) (f : RaftManager -> X) :
  (forall rm, same_config rm0 rm -> Q (Ok (f rm))) ->
  safe (steady rm0) An P Q (the_manager f).
Proof.
  intros HQ. cbn. intros r (rm & Hr & Hc). split; [by exists rm|]. rewrite Hr. cbn. by apply HQ.
Qed.

Lemma safe_election rm0 An (P : request -> Prop) (Q : outcome (string * list string) -> Prop) fuel :
  P Now -> P (Sleep (100 * Millisecond)) ->
  Q (Ok (rm_nodeId rm0, other_nodes rm0)) -> Q (Err timeout_error) -> Q OutOfFuel ->
  safe (steady rm0) An P Q (RaftBasedMasterElection fuel).
Proof.
  intros HN HS HOk HErr HFuel. unfold RaftBasedMasterElection. safe_ask; [done|].
  apply safe_bind, safe_forever; [exact HFuel|]. unfold election_round. safe_ask; [done|].
  destruct (Since x0 x <? maxWaitTime); [|exact HErr].
  apply safe_bind, safe_the_manager. intros rm Hc. cbn [safe_post]. case_decide.
  - apply safe_bind, safe_the_manager. intros rm' Hc'. cbn [safe_post mret prog_ret safe].
    destruct (same_config_nodes _ _ Hc') as [-> _]. destruct Hc as (-> & _). exact HOk.
  - safe_ask; done.
Qed.

(** The election's result is the node the manager runs as with all the other nodes of the cluster as
    slaves, or the timeout error, whatever happens to the rest of the manager meanwhile. *)
Lemma RaftBasedMasterElection_result {W} (h : handler response MysqlClusterReconciler W) rm0 fuel m w :
  (forall r m w, steady rm0 m -> steady rm0 (fst (snd (h r (m, w))))) -> steady rm0 m ->
  let o := out (run h (RaftBasedMasterElection fuel) m w) in
  o = Ok (rm_nodeId rm0, other_nodes rm0) \/ o = Err timeout_error \/ o = OutOfFuel.
Proof.
  intros Hh Hm o.
  apply (safe_run (steady rm0) any_answer h (fun _ => True)
           (fun o => o = Ok (rm_nodeId rm0, other_nodes rm0) \/ o = Err timeout_error \/ o = OutOfFuel));
    [intros r' m' w' Hm'; split; [done|by apply Hh]| |done].
  apply safe_election; auto.
Qed.

(** The requests of a failover: time, pods read and pods updated. *)
Definition waiting_request (r : request) : Prop :=
  match r with
  | Now | Sleep _ | Get KPod _ => True
  | _ => False
  end.

Definition failover_request (r : request) : Prop :=
  waiting_request r \/ match r with Update KPod _ => True | _ => False end.

Lemma getPodByName_requests (P : request -> Prop) (Q : outcome Pod -> Prop) name :
  (forall r, waiting_request r -> P r) -> (forall o, Q o) -> always P Q (getPodByName name).
Proof.
  intros HP HQ. unfold getPodByName, the_manager. apply always_bind. cbn. intros [ns|]; cbn; [|apply HQ].
  split; [by apply HP|]. intros [pod|e]; cbn; apply HQ.
Qed.

Lemma run_commands_requests (P : request -> Prop) (Q : outcome unit -> Prop) what pod cmds :
  Q (Ok tt) -> always P Q (run_commands what pod cmds).
Proof. intros HQ. unfold run_commands, for_each. induction cmds as [|c l IH]; cbn; done. Qed.

Lemma set_role_requests (P : request -> Prop) (Q : outcome unit -> Prop) pod role :
  (forall r, failover_request r -> P r) -> (forall o, Q o) -> always P Q (set_role pod role).
Proof.
  intros HP HQ. unfold set_role. destruct (pod_Labels pod); [|apply HQ].
  always_ask; [apply HP; by right|]. destruct x; apply HQ.
Qed.

Lemma for_each_requests {A} (P : request -> Prop) (Q : outcome unit -> Prop)
    (f : A -> controller unit) l :
  (forall o, Q o) -> (forall a (Q' : outcome unit -> Prop), (forall o, Q' o) -> always P Q' (f a)) ->
  always P Q (for_each f l).
Proof.
  intros HQ Hf. unfold for_each. induction l as [|a l IH]; [apply HQ|]. cbn [for_range].
  apply always_bind, Hf. intros [[]| | |]; cbn [bind_post]; try apply HQ. exact IH.
Qed.

Lemma manager_then {X A} (P : request -> Prop) (Q : outcome A -> Prop) (f : RaftManager -> X)
    (k : X -> controller A) :
  (forall o, Q o) -> (forall x, always P Q (k x)) -> always P Q (the_manager f ≫= k).
Proof.
  intros HQ Hk. apply always_bind. unfold the_manager. cbn. intros [x|]; cbn; [apply Hk|apply HQ].
Qed.

Lemma update_manager_then {A} (P : request -> Prop) (Q : outcome A -> Prop) f (k : unit -> controller A) :
  (forall o, Q o) -> always P Q (k tt) -> always P Q (update_manager f ≫= k).
Proof.
  intros HQ Hk. apply always_bind. unfold update_manager. cbn. intros [|]; cbn; [apply Hk|apply HQ].
Qed.

Lemma getPod_then {A} (P : request -> Prop) (Q : outcome A -> Prop) name (k : Pod -> controller A) :
  (forall r, waiting_request r -> P r) -> (forall o, Q o) -> (forall pod, always P Q (k pod)) ->
  always P Q (getPodByName name ≫= k).
Proof.
  intros HP HQ Hk. apply always_bind, getPodByName_requests; [done|].
  intros [pod| | |]; cbn [bind_post]; [apply Hk|apply HQ..].
Qed.

Lemma VerifySemiSyncStatus_requests (P : request -> Prop) (Q : outcome unit -> Prop) master slaves :
  (forall r, waiting_request r -> P r) -> (forall o, o <> Ok tt -> Q o) ->
  always P Q (VerifySemiSyncStatus master slaves).
Proof.
  intros HP HQ. unfold VerifySemiSyncStatus. apply always_bind, getPodByName_requests; [done|].
  intros [pod|e|msg|]; cbn [bind_post]; by apply HQ.
Qed.

Lemma ConfigureSemiSyncReplication_requests (P : request -> Prop) (Q : outcome unit -> Prop) master slaves :
  (forall r, waiting_request r -> P r) -> (forall o, o <> Ok tt -> Q o) ->
  always P Q (ConfigureSemiSyncReplication master slaves).
Proof.
  intros HP HQ. unfold ConfigureSemiSyncReplication. apply always_bind, always_wrapf.
  unfold configureMasterSemiSync. apply always_bind, getPodByName_requests; [done|].
  intros [pod|e|msg|]; cbn [bind_post]; [|by apply HQ..].
  apply run_commands_requests. cbn [bind_post]. apply always_bind, for_each_requests.
  - intros [[]|e|msg|]; cbn [bind_post]; [by apply VerifySemiSyncStatus_requests|by apply HQ..].
  - intros slave Q' HQ'. apply always_bind, always_attempt.
    unfold configureSlaveSemiSync. apply getPod_then; [done|intros []; apply HQ'|].
    intros slavePod. apply run_commands_requests. apply HQ'.
Qed.

Lemma ensureMySQLMasterRole_requests (P : request -> Prop) (Q : outcome unit -> Prop) master :
  (forall r, failover_request r -> P r) -> (forall o, Q o) -> always P Q (ensureMySQLMasterRole master).
Proof.
  intros HP HQ. unfold ensureMySQLMasterRole. apply getPod_then; [intros r Hr; apply HP; by left|done|]. intros pod.
  by apply set_role_requests.
Qed.

Lemma ensureMySQLSlaveRole_requests (P : request -> Prop) (Q : outcome unit -> Prop) slave master :
  (forall r, failover_request r -> P r) -> (forall o, Q o) ->
  always P Q (ensureMySQLSlaveRole slave master).
Proof.
  intros HP HQ. unfold ensureMySQLSlaveRole. apply getPod_then; [intros r Hr; apply HP; by left|done|]. intros pod.
  apply always_bind. cbn [attempt rmi_execCommandOnPod mret prog_ret always bind_post].
  apply manager_then; [done|]. intros service. by apply set_role_requests.
Qed.

Lemma setupMySQL_requests (P : request -> Prop) (Q : outcome unit -> Prop) master slaves :
  (forall r, failover_request r -> P r) -> (forall o, Q o) ->
  always P Q (setupMySQLMasterSlaveReplication master slaves).
Proof.
  intros HP HQ. unfold setupMySQLMasterSlaveReplication.
  apply always_bind, always_wrapf, ensureMySQLMasterRole_requests; [done|].
  intros [[]|e|msg|]; cbn [bind_post]; [|by apply HQ..].
  apply for_each_requests; [done|]. intros slave Q' HQ'. by apply always_wrapf, ensureMySQLSlaveRole_requests.
Qed.

Lemma RaftBasedMasterElection_requests (P : request -> Prop) (Q : outcome (string * list string) -> Prop) fuel :
  (forall r, waiting_request r -> P r) -> (forall o, Q o) -> always P Q (RaftBasedMasterElection fuel).
Proof.
  intros HP HQ. unfold RaftBasedMasterElection. always_ask; [by apply HP|].
  apply always_bind, always_forever; [apply HQ|]. unfold election_round. always_ask; [by apply HP|].
  destruct (Since x0 x <? maxWaitTime); [|apply HQ].
  apply manager_then; [by intros [[[]|]| | |]; cbn; try apply HQ|]. intros [newMaster|].
  - apply manager_then; [by intros [[[]|]| | |]; cbn; try apply HQ|]. intros nodes. apply HQ.
  - always_ask; [by apply HP|]. done.
Qed.

Lemma HandleRaftBasedFailover_requests fuel :
  always failover_request (fun _ => True) (HandleRaftBasedFailover fuel).
Proof.
  unfold HandleRaftBasedFailover. apply update_manager_then; [done|].
  apply always_bind, always_wrapf, RaftBasedMasterElection_requests; [by left|].
  intros [[newMaster slaves]|e|msg|]; cbn [bind_post]; try done.
  apply always_bind, always_wrapf, setupMySQL_requests; [done|].
  intros [[]|e|msg|]; cbn [bind_post]; try done.
  apply always_bind, always_attempt, ConfigureSemiSyncReplication_requests; [by left|].
  by intros [[]|e|msg|] _.
Qed.

(** Configuring semi-synchronous replication never succeeds: the verification looks for ON in the
    output of a command, and the method that runs commands returns the empty text. *)
Theorem ConfigureSemiSyncReplication_never_succeeds master slaves t o :
  exec (ConfigureSemiSyncReplication master slaves) t o -> o <> Ok tt.
Proof.
  intros H. eapply (always_exec (fun _ => True) (fun o => o <> Ok tt)); [|exact H].
  by apply ConfigureSemiSyncReplication_requests.
Qed.

(** A failover runs no command in any pod: all its requests are the clock, reads of pods and label
    updates of pods, so the SQL that would make a pod a master or a slave is never executed. *)
Theorem failover_runs_no_command fuel t o :
  exec (HandleRaftBasedFailover fuel) t o -> Forall (fun ev => failover_request (projT1 ev)) t.
Proof.
  intros H. eapply (always_exec failover_request (fun _ => True)); [|exact H].
  apply HandleRaftBasedFailover_requests.
Qed.

(** ** The nodes and the pods *)

Lemma dash_digits_inj a b d d' :
  all_digits d = true -> all_digits d' = true -> a +:+ "-" +:+ d = b +:+ "-" +:+ d' -> a = b /\ d = d'.
Proof.
  intros Hd Hd'. revert b. induction a as [|c a IH]; intros [|c' b] H.
  - split; [done|]. by injection H.
  - change (String "-" d = String c' (b +:+ "-" +:+ d')) in H. injection H as _ ->.
    rewrite !all_digits_app in Hd. by destruct (all_digits b).
  - change (String c (a +:+ "-" +:+ d) = String "-" d') in H. injection H as _ <-.
    rewrite !all_digits_app in Hd'. by destruct (all_digits a).
  - change (String c (a +:+ "-" +:+ d) = String c' (b +:+ "-" +:+ d')) in H.
    injection H as -> H. destruct (IH b H) as [-> ->]. done.
Qed.

(** A node of the Raft cluster and a pod the operator creates have the same name only when the
    cluster itself is called mysql and the number has two digits: the node a failover makes the
    master, number 0, is never one of the operator's pods. *)
Theorem node_is_not_a_pod cluster i j :
  0 <= i < 2 ^ 63 -> 1 <= j < 2 ^ 63 -> node_name cluster i = pod_name (fmt_02d j) ->
  cluster_Name cluster = "mysql" /\ i = j /\ 10 <= i.
Proof.
  intros Hi Hj H. unfold node_name, pod_name in H.
  change ("mysql-" +:+ fmt_02d j) with ("mysql" +:+ "-" +:+ fmt_02d j) in H.
  apply dash_digits_inj in H as [-> H]; [|apply all_digits_fmt_d; lia|apply all_digits_fmt_02d; lia].
  split; [done|].
  assert (i = j) as ->.
  { pose proof (parse_int64_fmt_d i ltac:(unfold in_int64; lia)) as H1.
    pose proof (parse_int64_fmt_02d j ltac:(lia)) as H2. rewrite H in H1. congruence. }
  split; [done|]. unfold fmt_02d in H. case_decide as Hlt; [|lia].
  apply (f_equal String.length) in H. rewrite string_app_length in H. cbn [String.length] in H. lia.
Qed.

(** ** The result of a failover *)

(** The role labels tried, by the name of the pod, with whether the API server accepted each. *)
Definition named_roles (t : list (event response)) : list (string * string * bool) :=
  (fun p => (key_Name (fst (fst p)), snd (fst p), snd p)) <$> roles t.

Lemma named_roles_app t u : named_roles (t ++ u) = named_roles t ++ named_roles u.
Proof. unfold named_roles. by rewrite roles_app, fmap_app. Qed.

(** Programs that write no label. *)
Lemma no_label_roles {A} (p : controller A) t o :
  always (fun r => match r with Update _ _ => False | _ => True end) (fun _ => True) p ->
  exec p t o -> named_roles t = [].
Proof.
  intros Hp H. destruct (always_exec _ _ _ _ _ Hp H) as [Hw _]. unfold named_roles, roles.
  cut (attempts_of role_of (attempts t) = []); [by intros ->|]. clear -Hw.
  induction Hw as [|[r x] t Hr _ IH]; [done|]. change (existT r x :: t) with ([existT r x] ++ t).
  rewrite attempts_app, attempts_of_app, IH, app_nil_r. by destruct r.
Qed.

Lemma getPodByName_ok name t pod :
  names_answered t -> exec (getPodByName name) t (Ok pod) ->
  key_Name (key_of KPod pod) = name /\ named_roles t = [].
Proof.
  intros Hn H. unfold getPodByName, the_manager in H. exec_inv.
  destruct (names_answered_get KPod _ _ _ Hn) as [-> _]. done.
Qed.

Lemma set_role_ok pod role t :
  exec (set_role pod role) t (Ok tt) -> named_roles t = [(key_Name (key_of KPod pod), role, true)].
Proof.
  intros H. unfold set_role in H. exec_inv. unfold named_roles, roles, attempts, acted; cbn.
  unfold map_index; cbn. by rewrite lookup_insert_eq.
Qed.

Lemma ensureMySQLMasterRole_ok name t :
  names_answered t -> exec (ensureMySQLMasterRole name) t (Ok tt) -> named_roles t = [(name, "master", true)].
Proof.
  intros Hn H. unfold ensureMySQLMasterRole in H.
  apply exec_bind_ok in H as (pod & t1 & t2 & H1 & H2 & ->). apply names_answered_app in Hn as [Hn1 Hn2].
  destruct (getPodByName_ok _ _ _ Hn1 H1) as [Hname Hr1].
  apply exec_bind_ok in H2 as ([] & t3 & t4 & H3 & H4 & ->). apply set_role_ok in H4.
  rewrite !named_roles_app, Hr1, H4, Hname.
  cbn [for_each for_range] in H3. unfold rmi_execCommandOnPod in H3. exec_inv. done.
Qed.

Lemma ensureMySQLSlaveRole_ok name master t :
  names_answered t -> exec (ensureMySQLSlaveRole name master) t (Ok tt) ->
  named_roles t = [(name, "slave", true)].
Proof.
  intros Hn H. unfold ensureMySQLSlaveRole in H.
  apply exec_bind_ok in H as (pod & t1 & t2 & H1 & H2 & ->). apply names_answered_app in Hn as [Hn1 Hn2].
  destruct (getPodByName_ok _ _ _ Hn1 H1) as [Hname Hr1].
  unfold rmi_execCommandOnPod, the_manager in H2.
  exec_inv.
  match goal with H : exec (set_role _ _) _ _ |- _ => apply set_role_ok in H as Hset end.
  rewrite named_roles_app, Hr1. cbn [app]. by rewrite ?Hset.
Qed.

Definition failover_roles (master : string) (slaves : list string) : list (string * string) :=
  (master, "master") :: ((fun s => (s, "slave")) <$> slaves).

Lemma setupMySQL_ok master slaves t :
  names_answered t -> exec (setupMySQLMasterSlaveReplication master slaves) t (Ok tt) ->
  named_roles t = accepted (failover_roles master slaves).
Proof.
  intros Hn H. unfold setupMySQLMasterSlaveReplication in H.
  apply exec_bind_ok in H as ([] & t1 & t2 & H1 & H2 & ->). apply names_answered_app in Hn as [Hn1 Hn2].
  apply exec_wrapf_inv in H1 as (o & H1 & Ho). destruct o; simplify_eq.
  apply ensureMySQLMasterRole_ok in H1; [|done].
  rewrite named_roles_app, H1. cbn. f_equal. clear H1 Hn1 t1.
  revert t2 Hn2 H2. unfold for_each. induction slaves as [|slave slaves IH]; intros t Hn H.
  - by apply exec_ret_inv in H as [-> _].
  - cbn [for_range] in H. apply exec_bind_ok in H as ([] & t1 & t2 & H1 & H2 & ->).
    apply names_answered_app in Hn as [Hn1 Hn2].
    apply exec_wrapf_inv in H1 as (o & H1 & Ho). destruct o; simplify_eq.
    apply ensureMySQLSlaveRole_ok in H1; [|done]. rewrite named_roles_app, H1. cbn. f_equal. by apply IH.
Qed.

Lemma waiting_no_label {A} (p : controller A) t o :
  always waiting_request (fun _ => True) p -> exec p t o -> named_roles t = [].
Proof.
  intros Hp. apply no_label_roles. eapply always_mono; [|done|exact Hp]. by intros [].
Qed.

(** C34: a failover that succeeds gives the master label to the pod named after the elected node and the
    slave label to the pods of the other nodes, one each, the master's first; the API server accepted
    every one of these labels, and no other was tried; that semi-synchronous replication could not be
    configured does not matter to it. *)
Theorem failover_relabels fuel t :
  names_answered t -> exec (HandleRaftBasedFailover fuel) t (Ok tt) ->
  exists t1 t2 newMaster slaves,
    t = t1 ++ t2 /\ exec (RaftBasedMasterElection fuel) t1 (Ok (newMaster, slaves)) /\
    named_roles t = accepted (failover_roles newMaster slaves).
Proof.
  intros Hn H. unfold HandleRaftBasedFailover in H.
  apply exec_bind_ok in H as ([] & t0 & u & H0 & H & ->).
  assert (t0 = []) as -> by (unfold update_manager in H0; by exec_inv).
  apply exec_bind_ok in H as ([newMaster slaves] & t1 & t2 & H1 & H & ->).
  apply exec_wrapf_inv in H1 as (o1 & H1 & Ho1). destruct o1; simplify_eq.
  apply exec_bind_ok in H as ([] & t3 & t4 & H3 & H & ->).
  apply exec_wrapf_inv in H3 as (o3 & H3 & Ho3). destruct o3; simplify_eq.
  apply exec_bind_ok in H as (r5 & t5 & t6 & H5 & H6 & ->). apply exec_ret_inv in H6 as [-> _].
  apply exec_attempt_inv in H5 as (o5 & H5 & _).
  cbn [app] in *. rewrite app_nil_r in *.
  apply names_answered_app in Hn as [Hn1 Hn]. apply names_answered_app in Hn as [Hn3 _].
  exists t1, (t3 ++ t5), newMaster, slaves. split_and!; [done..|].
  apply setupMySQL_ok in H3; [|done]. rewrite !named_roles_app, H3.
  rewrite (waiting_no_label (RaftBasedMasterElection fuel) t1 _) by
    (exact H1 || by apply RaftBasedMasterElection_requests).
  rewrite (waiting_no_label (ConfigureSemiSyncReplication newMaster slaves) t5 _) by
    (exact H5 || by apply ConfigureSemiSyncReplication_requests).
  by rewrite app_nil_r.
Qed.

(** The server has no pod of that name. *)
Definition no_pod (name : string) (r : request) (x : response r) : Prop :=
  match r return response r -> Prop with
  | Get KPod key => fun x => key_Name key = name -> is_success x = false
  | _ => fun _ => True
  end x.

Lemma forceElection_config rm : same_config rm (forceElection rm).
Proof. unfold forceElection. by case_decide. Qed.

Lemma safe_missing_master rm0 (Q : outcome unit -> Prop) :
  (forall o, o <> Ok tt -> Q o) ->
  safe (steady rm0) (no_pod (rm_nodeId rm0)) (fun _ => True) Q (ensureMySQLMasterRole (rm_nodeId rm0)).
Proof.
  intros HQ. unfold ensureMySQLMasterRole, getPodByName. apply safe_bind, safe_bind, safe_the_manager.
  intros rm Hc. cbn [safe_post]. apply (safe_ask _ _ _ _ (Get KPod (MkObjectKey _ _))); [done|].
  intros x Hx. specialize (Hx eq_refl). destruct x; [done|]. by apply HQ.
Qed.

Lemma safe_failover rm0 fuel :
  safe (steady rm0) (no_pod (rm_nodeId rm0)) (fun _ => True) (fun o => o <> Ok tt)
    (HandleRaftBasedFailover fuel).
Proof.
  unfold HandleRaftBasedFailover, update_manager. apply safe_bind.
  intros r (rm & Hr & Hc). rewrite Hr. cbn [fst snd]. split.
  { exists (forceElection rm). split; [done|]. etrans; [exact Hc|apply forceElection_config]. }
  cbn [safe safe_post]. apply safe_bind, safe_wrapf.
  apply safe_election; try done. cbn [safe_post].
  apply safe_bind, safe_wrapf. unfold setupMySQLMasterSlaveReplication.
  apply safe_bind, safe_wrapf, safe_missing_master. intros [[]|e|msg|]; done.
Qed.

(** A failover cannot succeed while there is no pod named after the node the manager runs as; with
    the node names and the pod names the operator uses, that is always so. *)
Lemma failover_needs_node_pod {W} (h : handler response MysqlClusterReconciler W) rm0 fuel m w :
  (forall r m w, steady rm0 m -> no_pod (rm_nodeId rm0) r (fst (h r (m, w))) /\
     steady rm0 (fst (snd (h r (m, w))))) ->
  steady rm0 m -> out (run h (HandleRaftBasedFailover fuel) m w) <> Ok tt.
Proof. intros Hh Hm. apply (safe_run _ _ h _ _ _ m w Hh (safe_failover rm0 fuel) Hm). Qed.

End integration.

(** ** Instances *)

#[local] Existing Instance sim_extern.

(** A manager that leads, with the pods of its nodes there: the names of the pods are the node names. *)
Definition leading_reconciler : MysqlClusterReconciler :=
  MkReconciler "" false
    (Some ((NewRaftManager "db-0" (example_cluster 2) 0 0) <| rm_state := RaftStateLeader |>)) true.

Definition node_pods_world : World :=
  put KPod (example_pod "db-0" "slave") (put KPod (example_pod "db-1" "slave") example_world).

Lemma RaftBasedMasterElection_terminates_witness :
  out (run sim (RaftBasedMasterElection 301) new_reconciler example_world) <> OutOfFuel.
Proof.
  apply (RaftBasedMasterElection_terminates sim w_now (sim_keeps_time _)). lia.
Defined.

Lemma ConfigureSemiSyncReplication_never_succeeds_witness :
  out (run sim (ConfigureSemiSyncReplication "db-0" ["db-1"]) leading_reconciler node_pods_world) <> Ok tt.
Proof.
  exact (ConfigureSemiSyncReplication_never_succeeds _ _ _ _
    (run_exec sim (ConfigureSemiSyncReplication "db-0" ["db-1"]) leading_reconciler node_pods_world)).
Defined.

Lemma failover_runs_no_command_witness :
  Forall (fun ev => failover_request (projT1 ev))
    (trace (run sim (HandleRaftBasedFailover 2) leading_reconciler node_pods_world)).
Proof.
  exact (failover_runs_no_command _ _ _
    (run_exec sim (HandleRaftBasedFailover 2) leading_reconciler node_pods_world)).
Defined.

(** The exception: in a cluster called mysql, node 10 and pod 10. *)
Lemma node_is_not_a_pod_witness :
  let mysql := (example_cluster 12) <| mc_meta := example_meta "mysql" |> in
  node_name mysql 10 = pod_name (fmt_02d 10) /\
  cluster_Name mysql = "mysql" /\ 10 = 10 /\ 10 <= 10.
Proof.
  split; [vm_compute; reflexivity|].
  apply (node_is_not_a_pod ((example_cluster 12) <| mc_meta := example_meta "mysql" |>) 10 10);
    [lia|lia|vm_compute; reflexivity].
Defined.

Lemma failover_relabels_witness :
  exists newMaster slaves,
    named_roles (trace (run sim (HandleRaftBasedFailover 2) leading_reconciler node_pods_world)) =
    accepted (failover_roles newMaster slaves).
Proof.
  assert (names_answered (trace (run sim (HandleRaftBasedFailover 2) leading_reconciler node_pods_world)))
    as Hn by check_answers.
  run_ok (HandleRaftBasedFailover 2) leading_reconciler node_pods_world He.
  destruct (failover_relabels _ _ Hn He) as (t1 & t2 & newMaster & slaves & _ & _ & Hr).
  exists newMaster, slaves. exact Hr.
Defined.
