(* ===== verification/Monitoring.v ===== *)
(** * The Raft monitor ([internal/controller/raft_monitoring.go])

    Metrics, the health of the cluster as the manager sees it, and the status it writes back.  The
    monitor's manager and cluster are those of the reconciler's memory.  What a method does under the
    read lock is done on one reading of the manager; what it logs is its result. *)

From S2P Require Import Prelude GoLib Prog Types Kube KubeSim Resources Raft RaftSystem Reconciler.
From S2P Require Import MasterSlave Replicas Integration.

(** ** Data *)

Record RaftMetrics := MkRaftMetrics {
  CurrentTerm : Z;
  CurrentState : RaftState;
  LeaderNodeId : string;
  mt_ClusterSize : Z;
  ActiveNodes : Z;
  ElectionCount : Z;
  LastElection : Time;
  ElectionTimeout : Duration;
  LogIndex : Z;
  CommitIndex : Z;
  AppliedIndex : Z;
  HeartbeatCount : Z;
  LastHeartbeat : Time;
  NetworkLatency : gmap string Duration;
  MasterNode : string;
  SlaveNodes : list string;
  SemiSyncEnabled : bool;
  ReplicationLag : gmap string Duration;
}.

Record ClusterHealth := MkClusterHealth {
  total_nodes : Z;
  active_nodes : Z;
  has_quorum : bool;
  current_leader : string;
  current_term : Z;
  cluster_state : RaftState;
  last_election : Time;
}.

Inductive Warning : Type :=
| ElectionTimedOut
| PossiblePartition (active total majority_required : Z)
| ApplyLag (commit applied : Z).

Section monitoring.
Context {ext : Extern}.

(** ** Peers *)

(** [time.Since(peer.LastContact) < 2*heartbeatInterval] *)
Definition peer_active (now : Time) (rm : RaftManager) (peer : PeerInfo) : bool :=
  Since now (pi_LastContact peer) <? int64 (2 * rm_heartbeatInterval rm).

(** [for _, peer := range rm.raftManager.peers]: [f] gets the peer and whether it is active, by a
    clock read for each peer. *)
Definition range_peers {A} (rm : RaftManager) (f : A -> PeerInfo -> bool -> A) (a : A) : controller A :=
  keys ← ask (RangeKeys (dom (rm_peers rm)));
  for_range (fun a key =>
    match rm_peers rm !! key with
    | None => mret a
    | Some peer =>
        now ← ask Now;
        mret (f a peer (peer_active now rm peer))
    end) a keys.

Definition totalNodes (rm : RaftManager) : Z := Z.of_nat (size (rm_peers rm)) + 1.

Definition count_active (rm : RaftManager) : controller Z :=
  range_peers rm (fun activeNodes _ active => if active : bool then activeNodes + 1 else activeNodes) 0.

(** ** Metrics *)

Definition gatherMetrics : controller RaftMetrics :=
  rm ← the_manager id;
  let st := Status (rm_cluster rm) in
  '(activeNodes, latency) ← range_peers rm (fun '(activeNodes, latency) peer active =>
      (if active : bool then activeNodes + 1 else activeNodes,
       <[pi_NodeId peer := pi_LastLatency peer]> latency)) (0, ∅);
  mret {|
    CurrentTerm := rm_currentTerm rm;
    CurrentState := rm_state rm;
    LeaderNodeId := rm_leaderId rm;
    mt_ClusterSize := totalNodes rm;
    ActiveNodes := activeNodes;
    ElectionCount := rm_electionCount rm;
    LastElection := rm_lastElection rm;
    ElectionTimeout := rm_electionTimeout rm;
    LogIndex := log_len rm;
    CommitIndex := rm_commitIndex rm;
    AppliedIndex := rm_lastApplied rm;
    HeartbeatCount := rm_heartbeatCount rm;
    LastHeartbeat := rm_lastHeartbeat rm;
    NetworkLatency := latency;
    MasterNode := Master st;
    SlaveNodes := Slaves st;
    SemiSyncEnabled := false;
    ReplicationLag := ∅;
  |}.

Definition metrics_data (now : Time) (metrics : RaftMetrics) : gmap string string :=
  list_to_map [
    ("current_term", fmt_d (CurrentTerm metrics));
    ("current_state", RaftState_string (CurrentState metrics));
    ("leader_node_id", LeaderNodeId metrics);
    ("cluster_size", fmt_d (mt_ClusterSize metrics));
    ("active_nodes", fmt_d (ActiveNodes metrics));
    ("election_count", fmt_d (ElectionCount metrics));
    ("log_index", fmt_d (LogIndex metrics));
    ("commit_index", fmt_d (CommitIndex metrics));
    ("heartbeat_count", fmt_d (HeartbeatCount metrics));
    ("master_node", MasterNode metrics);
    ("last_updated", Format_RFC3339 now)].

Definition metrics_ConfigMap (name : string) (cluster : MysqlCluster) (data : gmap string string) :
    ConfigMap := {|
  cm_meta := {|
    om_Name := name;
    om_Namespace := cluster_Namespace cluster;
    om_UID := "";
    om_Labels := Some (list_to_map [("app", "mysql-cluster"); ("cluster", cluster_Name cluster);
                                    ("type", "raft-metrics")]);
    om_Annotations := None;
    om_OwnerReferences := [];
  |};
  cm_Data := data;
|}.

Definition createOrUpdateConfigMap (name : string) (data : gmap string string) : controller unit :=
  cluster ← the_manager rm_cluster;
  created ← ask (Create KConfigMap (metrics_ConfigMap name cluster data));
  match created with
  | Success _ => mret tt
  | Failure _ =>
      existing ← (ask (Get KConfigMap (MkObjectKey (cluster_Namespace cluster) name)) ≫= lift);
      updated ← ask (Update KConfigMap (existing <| cm_Data := data |>));
      match updated with
      | Success _ => mret tt
      | Failure e => throw e
      end
  end.

Definition updateMetricsConfigMap (metrics : RaftMetrics) : controller unit :=
  name ← the_manager (fun rm => cluster_Name (rm_cluster rm) +:+ "-raft-metrics");
  now ← ask Now;
  _ ← attempt (createOrUpdateConfigMap name (metrics_data now metrics));
  mret tt.

Definition GetMetrics : controller RaftMetrics := gatherMetrics.

(** ** Status *)

Definition self_info (now : Time) (rm : RaftManager) : RaftNodeInfo := {|
  ni_NodeId := rm_nodeId rm;
  ni_State := rm_state rm;
  ni_Term := rm_currentTerm rm;
  ni_LastContact := now;
  ni_IsActive := true;
|}.

Definition peer_info (rm : RaftManager) (peer : PeerInfo) (active : bool) : RaftNodeInfo := {|
  ni_NodeId := pi_NodeId peer;
  ni_State := RaftStateFollower;
  ni_Term := rm_currentTerm rm;
  ni_LastContact := pi_LastContact peer;
  ni_IsActive := active;
|}.

Definition monitor_status (rm : RaftManager) (nodes : gmap string RaftNodeInfo)
    (st : MysqlClusterStatus) : MysqlClusterStatus :=
  st <| RaftNodes := Some nodes |> <| RaftLeader := rm_leaderId rm |>
     <| RaftTerm := rm_currentTerm rm |> <| ClusterSize := totalNodes rm |>.

(** The server's object is decoded into the shared cluster when the update succeeds. *)
Definition syncClusterStatus : controller unit :=
  rm ← the_manager id;
  now ← ask Now;
  nodes ← range_peers rm (fun nodes peer active => <[pi_NodeId peer := peer_info rm peer active]> nodes)
            {[rm_nodeId rm := self_info now rm]};
  _ ← update_manager (fun rm' =>
        rm' <| rm_cluster := (rm_cluster rm') <| Status := monitor_status rm nodes (Status (rm_cluster rm')) |> |>);
  cluster ← the_manager rm_cluster;
  updated ← ask (StatusUpdate cluster);
  match updated with
  | Success c => update_manager (fun rm' => rm' <| rm_cluster := c |>)
  | Failure _ => mret tt
  end.

(** ** Health *)

Definition performHealthCheck : controller (list Warning) :=
  rm ← the_manager id;
  timedOut ← (if decide (rm_state rm = RaftStateFollower) then
                now ← ask Now;
                mret (if rm_electionTimeout rm <? Since now (rm_lastHeartbeat rm)
                      then [ElectionTimedOut] else [])
              else mret []);
  activeNodes ← count_active rm;
  let total := totalNodes rm in
  let partition := if activeNodes <? total / 2
                   then [PossiblePartition activeNodes total (total / 2 + 1)] else [] in
  let lag := if rm_lastApplied rm <? rm_commitIndex rm
             then [ApplyLag (rm_commitIndex rm) (rm_lastApplied rm)] else [] in
  mret (timedOut ++ partition ++ lag).

Definition GetClusterHealth : controller ClusterHealth :=
  rm ← the_manager id;
  activeNodes ← count_active rm;
  mret {|
    total_nodes := totalNodes rm;
    active_nodes := activeNodes;
    has_quorum := totalNodes rm / 2 <=? activeNodes;
    current_leader := rm_leaderId rm;
    current_term := rm_currentTerm rm;
    cluster_state := rm_state rm;
    last_election := rm_lastElection rm;
  |}.

(** [Start]: the monitor's three goroutines. *)
Definition monitor_Start : controller unit :=
  _ ← ask (Go collectMetrics);
  _ ← ask (Go updateClusterStatusLoop);
  ask (Go healthCheckLoop).

(** ** Counting the active peers *)

Lemma exec_the_manager {X} (f : RaftManager -> X) t x :
  exec (the_manager f) t (Ok x) -> t = [] /\ exists rm, x = f rm.
Proof.
  intros H. unfold the_manager in H.
  apply exec_bind_ok in H as (o & t1 & t2 & H1 & H2 & ->).
  apply exec_atomically_inv in H1 as (m & -> & [= ->]). cbn in H2.
  destruct (r_RaftManager m) as [rm|]; cbn in H2.
  - apply exec_ret_inv in H2 as [-> [= ->]]. split; [done|]. by exists rm.
  - apply exec_done_inv in H2 as [_ ?]. done.
Qed.

Lemma count_active_bounds rm t n :
  keys_answered t -> exec (count_active rm) t (Ok n) -> 0 <= n <= Z.of_nat (size (rm_peers rm)).
Proof.
  intros Hk H. unfold count_active, range_peers in H.
  apply exec_bind_ok in H as (keys & t1 & t2 & H1 & H & ->).
  apply keys_answered_app in Hk as [Hk _].
  exec_inv_one H1. rename x into keys. apply Forall_cons in Hk as [Hk _]. cbn in Hk.
  assert (length keys = size (rm_peers rm)) as <-.
  { rewrite (Permutation_length Hk). change (length (elements ?X)) with (size X). by rewrite size_dom. }
  refine (exec_for_range_ok _ (fun l n _ => 0 <= n <= Z.of_nat (length l)) _ _ _ _ _ _ H); [cbn; lia|].
  intros l1 key l2 n1 t1 n2 u Hl Hn1 Hstep. rewrite length_app. cbn [length].
  destruct (rm_peers rm !! key) as [peer|].
  - apply exec_bind_ok in Hstep as (now & u1 & u2 & _ & Hstep & _).
    apply exec_ret_inv in Hstep as [_ [= ->]]. destruct (peer_active now rm peer); lia.
  - apply exec_ret_inv in Hstep as [_ [= ->]]. lia.
Qed.

(** The quorum test of [GetClusterHealth] is the majority test of Raft: it holds exactly when the
    active peers and the node itself are more than half of the nodes counted. *)
Theorem has_quorum_majority t health :
  keys_answered t -> exec GetClusterHealth t (Ok health) ->
  0 <= active_nodes health < total_nodes health /\
  (has_quorum health = true <-> total_nodes health < 2 * (active_nodes health + 1)).
Proof.
  intros Hk H. unfold GetClusterHealth in H.
  apply exec_bind_ok in H as (rm & t1 & t2 & H1 & H & ->). apply exec_the_manager in H1 as [-> _].
  apply exec_bind_ok in H as (n & t3 & t4 & H3 & H & ->).
  apply exec_ret_inv in H as [-> [= ->]]. rewrite app_nil_r in Hk.
  apply count_active_bounds in H3; [|done]. cbn. unfold totalNodes.
  split; [lia|]. rewrite Z.leb_le.
  pose proof (Z.div_mod (Z.of_nat (size (rm_peers rm)) + 1) 2).
  pose proof (Z.mod_pos_bound (Z.of_nat (size (rm_peers rm)) + 1) 2). lia.
Qed.

(** ** The ConfigMap of the metrics *)

(** [createOrUpdateConfigMap] creates or replaces: when it returns without an error the last write
    was accepted and carried the new data, either in a new ConfigMap or in the existing one with the
    rest of it unchanged; the existing one is read only after the creation failed, and an error of
    that read is returned without a further write. *)
Lemma createOrUpdateConfigMap_spec name data t o :
  exec (createOrUpdateConfigMap name data) t o ->
  (exists msg, t = [] /\ o = Panic msg) \/
  exists cluster created rest,
    t = existT (Create KConfigMap (metrics_ConfigMap name cluster data)) created :: rest /\
    match created with
    | Success _ => rest = [] /\ o = Ok tt
    | Failure _ =>
        exists got rest',
          rest = existT (Get KConfigMap (MkObjectKey (cluster_Namespace cluster) name)) got :: rest' /\
          match got with
          | Failure e => rest' = [] /\ o = Err e
          | Success existing =>
              exists updated,
                rest' = [existT (Update KConfigMap (existing <| cm_Data := data |>)) updated] /\
                o = match updated with Success _ => Ok tt | Failure e => Err e end
          end
    end.
Proof.
  intros H. unfold createOrUpdateConfigMap, the_manager in H. exec_inv;
    first [left; by eexists|right; eexists _, _, _; split; [reflexivity|]];
    first [by split|eexists _, _; split; [reflexivity|]]; first [by split|eexists; by split].
Qed.

(** ** The status *)

(** Fields of the manager that no code of the operator sets. *)
Record unset (rm : RaftManager) : Prop := {
  unset_leaderId : rm_leaderId rm = "";
  unset_peers : rm_peers rm = ∅;
  unset_electionCount : rm_electionCount rm = 0;
  unset_lastApplied : rm_lastApplied rm = 0;
  unset_heartbeatCount : rm_heartbeatCount rm = 0;
}.

Lemma unset_vote now c term lli llt rm :
  unset rm -> unset (snd (HandleVoteRequest now c term lli llt rm)).
Proof.
  intros [? ? ? ? ?]. rewrite HandleVoteRequest_eq. unfold step_down. repeat case_decide; by split.
Qed.

Lemma unset_append now l term prev prevTerm entries lc rm :
  unset rm -> unset (snd (HandleAppendEntries now l term prev prevTerm entries lc rm)).
Proof.
  intros [? ? ? ? ?]. rewrite HandleAppendEntries_eq. unfold commit_to. case_decide; [by split|].
  cbv zeta. destruct (prev_entry_matches _ _ _) as [[]|]; repeat case_decide; by split.
Qed.

Lemma unset_step rm rm' : rm_step rm rm' -> unset rm -> unset rm'.
Proof.
  intros Hstep Hu. destruct Hstep as [->|tested now rnd _ ->|reply Hr _ ->|? ? ? ? ? ->|? ? ? ? ? ? ? ->| -> |st ->].
  - done.
  - by destruct Hu.
  - destruct (becomeLeader_frame reply rm Hr) as (c & ni & mi & -> & _). by destruct Hu.
  - by apply unset_vote.
  - by apply unset_append.
  - unfold forceElection. destruct Hu. by case_decide.
  - by destruct Hu.
Qed.

Lemma reachable_unset id cluster s : reachable id cluster s -> unset (sys_rm s).
Proof.
  intros (rnd & now & _ & Hsteps).
  refine (rtc_ind_r (fun s => unset (sys_rm s)) _ _ _ _ Hsteps); [by split|].
  intros s1 s2 _ [e Hok _ He] Hu. by eapply unset_step, Hu; eapply apply_rm_step.
Qed.

Lemma reachable_nodeId id cluster s : reachable id cluster s -> rm_nodeId (sys_rm s) = id.
Proof. intros (rnd & now & _ & Hsteps). by destruct (steps_config _ _ Hsteps) as (-> & _). Qed.

(** The monitor takes back what the manager wrote: in every reachable state a manager that leads
    records itself as the leader of its term, with the size of the cluster, and the monitor's next
    status names no leader and a cluster of one node, because the fields it reads from are never
    set. *)
Theorem monitor_erases_leader id cluster s nodes :
  reachable id cluster s -> rm_state (sys_rm s) = RaftStateLeader ->
  let written := statusOf (sys_rm s) in
  let monitored := monitor_status (sys_rm s) nodes written in
  RaftLeader written = id /\ ClusterSize written = Replicas (Spec cluster) /\
  RaftLeader monitored = "" /\ ClusterSize monitored = 1 /\ RaftTerm monitored = RaftTerm written.
Proof.
  intros Hreach Hlead. pose proof (reachable_unset _ _ _ Hreach) as [Hl Hp _ _ _].
  pose proof (reachable_nodeId _ _ _ Hreach) as Hid.
  destruct Hreach as (rnd & now & _ & Hsteps). destruct (steps_config _ _ Hsteps) as (_ & Hspec & _).
  cbn in Hspec. unfold statusOf, monitor_status, totalNodes. rewrite decide_True by done. cbn.
  rewrite Hl, Hp, Hid, Hspec. done.
Qed.

(** For such a manager the health report is always the same: one node, no active peer, quorum. *)
Lemma health_always_quorum {W} (h : handler response MysqlClusterReconciler W) m w :
  (forall r m w, (exists rm, r_RaftManager m = Some rm /\ unset rm) ->
     exists rm, r_RaftManager (fst (snd (h r (m, w)))) = Some rm /\ unset rm) ->
  (exists rm, r_RaftManager m = Some rm /\ unset rm) ->
  exists health, out (run h GetClusterHealth m w) = Ok health /\
    total_nodes health = 1 /\ active_nodes health = 0 /\ has_quorum health = true /\
    current_leader health = "".
Proof.
  intros Hh Hm.
  apply (safe_run (fun r => exists rm, r_RaftManager r = Some rm /\ unset rm) any_answer h (fun _ => True)
    (fun o => exists health, o = Ok health /\ total_nodes health = 1 /\ active_nodes health = 0 /\
       has_quorum health = true /\ current_leader health = "")); [|clear m w Hm|done].
  { intros r m' w' Hm'. split; [done|by apply Hh]. }
  unfold GetClusterHealth, the_manager. apply safe_bind. intros m (rm & Hrm & Hu).
  cbn [fst snd]. split; [by exists rm|]. destruct Hu as [Hl Hp _ _ _]. rewrite Hrm. cbn [fmap option_fmap option_map safe safe_post id].
  apply safe_bind. unfold count_active, range_peers. safe_ask; [done|].
  rewrite Hp. induction x as [|key keys IH];
    [|cbn [for_range]; rewrite lookup_empty; exact (IH I)].
  cbn. eexists. split_and!; try done; unfold totalNodes; by rewrite Hp.
Qed.

End monitoring.

(** ** Instances *)

#[local] Existing Instance sim_extern.

Lemma sim_memory M r (m : M) w : fst (snd (sim r (m, w))) = m.
Proof. destruct r; cbn; repeat case_match; done. Qed.

Lemma has_quorum_majority_witness :
  exists health, out (run sim GetClusterHealth leading_reconciler example_world) = Ok health /\
    has_quorum health = true.
Proof.
  assert (keys_answered (trace (run sim GetClusterHealth leading_reconciler example_world))) as Hk
    by check_answers.
  pose proof (run_exec sim GetClusterHealth leading_reconciler example_world) as He.
  destruct (out (run sim GetClusterHealth leading_reconciler example_world)) as [health| | |] eqn:Ho;
    try (vm_compute in Ho; discriminate).
  exists health. split; [done|]. destruct (has_quorum_majority _ _ Hk He) as [_ Hq]. apply Hq.
  vm_compute in Ho. injection Ho as <-. vm_compute. reflexivity.
Defined.

Lemma monitor_erases_leader_witness :
  exists s, rm_state (sys_rm s) = RaftStateLeader /\
    RaftLeader (monitor_status (sys_rm s) ∅ (statusOf (sys_rm s))) = "".
Proof.
  destruct (elects_itself "db-0" (example_cluster 3) 0 0) as (s & Hs & Hl & _);
    [cbv; split; congruence|cbn; lia|lia|lia|].
  exists s. split; [done|].
  apply (monitor_erases_leader "db-0" (example_cluster 3) s ∅); [|done].
  exists 0, 0. split; [lia|done].
Defined.
