(* ===== verification/MonitorLoops.v ===== *)
(** * The loops of the Raft monitor ([internal/controller/raft_monitoring.go])

    The three goroutines of the monitor: a ticker, and at each tick one of the methods of [Monitoring].
    They run while the rest of the operator changes the memory; what they need of it is that the
    manager stays and manages the same cluster. *)

From S2P Require Import Prelude GoLib Prog Types Kube KubeSim Raft RaftSystem Reconciler.
From S2P Require Import Integration Monitoring.

Section monitor_loops.
Context {ext : Extern}.

(** ** Requests *)

Inductive log_value : Type :=
| LogInt (z : Z)
| LogString (s : string)
| LogState (s : RaftState).

(** [Tick d] is the [select] of [ctx.Done()] and a ticker of period [d]; it answers whether the ticker
    won. *)
Inductive monitor_request : Type :=
| MonitorApi (r : request)
| Tick (d : Duration)
| LogInfo (fields : list (string * log_value))
| LogWarning (w : Warning).

Definition monitor_response (r : monitor_request) : Type :=
  match r with
  | MonitorApi r => response r
  | Tick _ => bool
  | LogInfo _ | LogWarning _ => unit
  end.

Notation monitor := (prog monitor_response MysqlClusterReconciler).

(** A method of [Monitoring] called in a loop. *)
Definition call {A} (p : controller A) : monitor A := embed MonitorApi (fun _ x => x) p.

(** ** The goroutines *)

(** [for { select { case <-ctx.Done(): return; case <-ticker.C: body } }], looked at for [fuel]
    rounds. *)
Definition on_tick (d : Duration) (body : monitor unit) (fuel : nat) : monitor unit :=
  forever fuel (
    ticked ← ask (Tick d : monitor_request);
    if ticked : bool then _ ← body; mret None else mret (Some tt)).

Definition metrics_fields (metrics : RaftMetrics) : list (string * log_value) := [
  ("term", LogInt (CurrentTerm metrics));
  ("state", LogState (CurrentState metrics));
  ("leader", LogString (LeaderNodeId metrics));
  ("cluster_size", LogInt (mt_ClusterSize metrics));
  ("active_nodes", LogInt (ActiveNodes metrics));
  ("log_index", LogInt (LogIndex metrics));
  ("commit_index", LogInt (CommitIndex metrics))].

Definition logMetrics (metrics : RaftMetrics) : monitor unit :=
  ask (LogInfo (metrics_fields metrics) : monitor_request).

Definition collectMetrics_loop (fuel : nat) : monitor unit :=
  on_tick (30 * Second) (
    metrics ← call gatherMetrics;
    _ ← logMetrics metrics;
    call (updateMetricsConfigMap metrics)) fuel.

Definition updateClusterStatus_loop (fuel : nat) : monitor unit :=
  on_tick (10 * Second) (call syncClusterStatus) fuel.

Definition healthCheck_loop (fuel : nat) : monitor unit :=
  on_tick (5 * Second) (
    warnings ← call performHealthCheck;
    for_each (fun w => ask (LogWarning w : monitor_request)) warnings) fuel.

(** The goroutines [monitor_Start] starts. *)
Definition monitor_loops (fuel : nat) : list (monitor unit) :=
  [collectMetrics_loop fuel; updateClusterStatus_loop fuel; healthCheck_loop fuel].

(** ** What the loops keep *)

(** The manager [node] of the cluster [key]; the fields that no code sets are not set. *)
Record manages (key : ObjectKey) (node : string) (rm : RaftManager) : Prop := {
  manages_key : key_of KMysqlCluster (rm_cluster rm) = key;
  manages_node : rm_nodeId rm = node;
  manages_unset : unset rm;
}.

Definition managed (key : ObjectKey) (node : string) (m : MysqlClusterReconciler) : Prop :=
  exists rm, r_RaftManager m = Some rm /\ manages key node rm.

Lemma manages_cluster key node rm c :
  manages key node rm -> key_of KMysqlCluster c = key -> manages key node (rm <| rm_cluster := c |>).
Proof. intros [_ ? []] Hc. by split. Qed.

(** The API's answers: an object read is the one asked for, an update of the status answers with the
    cluster that was updated. *)
Definition kept_answer (r : request) : response r -> Prop :=
  match r return response r -> Prop with
  | Get k key => fun x => forall o, x = Success o -> key_of k o = key
  | StatusUpdate c => fun x => forall c', x = Success c' -> key_of KMysqlCluster c' = key_of KMysqlCluster c
  | _ => fun _ => True
  end.

Definition monitor_answer (r : monitor_request) : monitor_response r -> Prop :=
  match r return monitor_response r -> Prop with
  | MonitorApi r => kept_answer r
  | _ => fun _ => True
  end.

(** What the monitor may write: the metrics of its cluster and the status of its cluster. *)
Definition monitor_writes_only (key : ObjectKey) (r : request) : Prop :=
  match r with
  | Create KConfigMap o | Update KConfigMap o =>
      key_of KConfigMap o = MkObjectKey (key_Namespace key) (key_Name key +:+ "-raft-metrics")
  | StatusUpdate c => key_of KMysqlCluster c = key
  | r => is_write r = false /\ is_exec r = false
  end.

(** Of the warnings it never gives that of a partition. *)
Definition monitor_allowed (key : ObjectKey) (r : monitor_request) : Prop :=
  match r with
  | MonitorApi r => monitor_writes_only key r
  | LogWarning (PossiblePartition _ _ _) => False
  | _ => True
  end.

Section kept.
Context (key : ObjectKey) (node : string).

Notation keeps := (safe (managed key node) kept_answer (monitor_writes_only key)).

(** The methods return, and only do what is allowed. *)
Definition returns {A} (o : outcome A) : Prop := exists a, o = Ok a.

Lemma keeps_the_manager {X B} (f : RaftManager -> X) (Q : outcome B -> Prop) (k : X -> controller B) :
  (forall rm, manages key node rm -> keeps Q (k (f rm))) -> keeps Q (the_manager f ≫= k).
Proof.
  intros Hk. apply safe_bind. unfold the_manager. apply safe_bind.
  intros m (rm & Hrm & Hmeta). cbn [fst snd]. split; [by exists rm|].
  rewrite Hrm. cbn. by apply Hk.
Qed.

Lemma keeps_update_manager {B} f (Q : outcome B -> Prop) (k : unit -> controller B) :
  (forall rm, manages key node rm -> manages key node (f rm)) ->
  keeps Q (k tt) -> keeps Q (update_manager f ≫= k).
Proof.
  intros Hf Hk. apply safe_bind. unfold update_manager. apply safe_bind.
  intros m (rm & Hrm & Hmeta). rewrite Hrm. cbn. split; [|done].
  exists (f rm). split; [done|by apply Hf].
Qed.

Lemma keeps_update_manager_last f :
  (forall rm, manages key node rm -> manages key node (f rm)) ->
  keeps returns (update_manager f).
Proof.
  intros Hf. unfold update_manager. apply safe_bind.
  intros m (rm & Hrm & Hmeta). rewrite Hrm. cbn. split; [|by exists tt].
  exists (f rm). split; [done|by apply Hf].
Qed.

Lemma keeps_range_peers {X B} rm (f : X -> PeerInfo -> bool -> X) a (Q : outcome B -> Prop)
    (k : X -> controller B) :
  (forall x, keeps Q (k x)) -> keeps Q (range_peers rm f a ≫= k).
Proof.
  intros Hk. apply safe_bind. unfold range_peers. safe_ask; [by cbn|].
  revert a. induction x as [|peer peers IH]; intros a; cbn [for_range]; [apply Hk|].
  apply safe_bind. destruct (rm_peers rm !! peer) as [info|]; [|by apply IH].
  safe_ask; [by cbn|]. by apply IH.
Qed.

Lemma keeps_gatherMetrics : keeps returns gatherMetrics.
Proof.
  apply keeps_the_manager. intros rm Hrm. apply keeps_range_peers. intros [n latency]. by eexists.
Qed.

Lemma keeps_createOrUpdate data :
  keeps (fun o => returns o \/ exists e, o = Err e)
    (createOrUpdateConfigMap (key_Name key +:+ "-raft-metrics") data).
Proof.
  apply keeps_the_manager. intros rm [<- _ _]. safe_ask; [done|]. destruct x as [?|?]; [by left; eexists|].
  apply safe_bind. safe_ask; [by cbn|]. destruct x as [existing|e']; [|right; by exists e'].
  specialize (H0 existing eq_refl). split; [exact H0|].
  intros [?|?] _; [by left; eexists|right; by eexists].
Qed.

Lemma keeps_updateMetrics metrics : keeps returns (updateMetricsConfigMap metrics).
Proof.
  apply keeps_the_manager. intros rm Hrm. safe_ask; [by cbn|].
  apply safe_bind, safe_attempt. replace (cluster_Name (rm_cluster rm)) with (key_Name key) by (by destruct Hrm as [<- _ _]).
  eapply safe_mono; [done| |apply keeps_createOrUpdate]. by intros ? [[? ->]|[? ->]]; eexists.
Qed.

Lemma keeps_syncClusterStatus : keeps returns syncClusterStatus.
Proof.
  apply keeps_the_manager. intros rm Hrm. safe_ask; [by cbn|]. apply keeps_range_peers. intros nodes.
  apply keeps_update_manager; [intros rm' Hrm'; apply manages_cluster; [done|apply Hrm']|].
  apply keeps_the_manager. intros rm' [Hrm' _ _]. safe_ask; [done|]. destruct x0 as [c|e]; [|by eexists].
  apply keeps_update_manager_last. intros rm'' Hrm''. apply manages_cluster; [done|].
  cbn in H0. by rewrite (H0 c).
Qed.

Lemma keeps_no_active {B} rm (Q : outcome B -> Prop) (k : Z -> controller B) :
  rm_peers rm = ∅ -> keeps Q (k 0) -> keeps Q (count_active rm ≫= k).
Proof.
  intros Hp Hk. unfold count_active, range_peers. rewrite Hp. apply safe_bind. safe_ask; [by cbn|].
  induction x as [|peer peers IH]; [exact Hk|]. cbn [for_range]. rewrite lookup_empty. exact (IH I).
Qed.

(** Warnings it may give. *)
Definition reports (o : outcome (list Warning)) : Prop :=
  exists warnings, o = Ok warnings /\ Forall (fun w => monitor_allowed key (LogWarning w)) warnings.

Lemma keeps_performHealthCheck : keeps reports performHealthCheck.
Proof.
  apply keeps_the_manager. intros rm [_ _ [_ Hp _ _ _]]. apply safe_bind.
  assert (forall timedOut, Forall (fun w => monitor_allowed key (LogWarning w)) timedOut ->
    keeps reports (activeNodes ← count_active rm;
    mret (timedOut ++
      (if activeNodes <? totalNodes rm / 2
       then [PossiblePartition activeNodes (totalNodes rm) (totalNodes rm / 2 + 1)] else []) ++
      (if rm_lastApplied rm <? rm_commitIndex rm
       then [ApplyLag (rm_commitIndex rm) (rm_lastApplied rm)] else [])))) as Hrest.
  { intros timedOut Ht. apply keeps_no_active; [done|]. eexists. split; [reflexivity|].
    unfold totalNodes. rewrite Hp. apply Forall_app. split; [done|].
    destruct (rm_lastApplied rm <? rm_commitIndex rm); by repeat constructor. }
  destruct (decide _); [|by apply Hrest]. safe_ask; [by cbn|]. apply Hrest.
  destruct (rm_electionTimeout (id rm) <? _); by repeat constructor.
Qed.

End kept.

(** ** The loops *)

(** The answers of the ticker. *)
Definition tick (ev : event monitor_response) : option (Duration * bool) :=
  match ev with
  | existT r x => match r return monitor_response r -> option (Duration * bool) with
                  | Tick d => fun ticked => Some (d, ticked)
                  | _ => fun _ => None
                  end x
  end.

Definition ticks (t : list (event monitor_response)) : list (Duration * bool) := omap tick t.

Definition silent (r : monitor_request) : Prop := match r with Tick _ => False | _ => True end.

Lemma silent_ticks t : Forall (fun ev => silent (projT1 ev)) t -> ticks t = [].
Proof. induction 1 as [|[[] x] t Hr _ IH]; done. Qed.

(** A body that does not listen to the ticker and comes to an end. *)
Definition tick_body (body : monitor unit) : Prop := always silent (fun o => o <> OutOfFuel) body.

Lemma call_tick_body (p : controller unit) : ends p -> tick_body (call p).
Proof. intros Hp. apply always_embed. eapply always_mono; [| |exact Hp]; done. Qed.

Lemma call_bind_tick_body {A} (p : controller A) (k : A -> monitor unit) :
  ends p -> (forall a, tick_body (k a)) -> tick_body (a ← call p; k a).
Proof.
  intros Hp Hk. apply always_bind, always_embed. eapply always_mono; [| |exact Hp]; [done|].
  intros [a|e|msg|] Ho; [apply Hk|done..].
Qed.

Lemma on_tick_ticks d body n t o :
  tick_body body -> exec (on_tick d body n) t o ->
  match o with
  | Ok _ => exists k, (k < n)%nat /\ ticks t = replicate k (d, true) ++ [(d, false)]
  | OutOfFuel => ticks t = replicate n (d, true)
  | _ => True
  end.
Proof.
  intros Hbody. unfold on_tick. revert t. induction n as [|n IH]; intros t H; cbn [forever] in H.
  { apply exec_done_inv in H as [-> ->]. done. }
  assert (forall u (o' : outcome (option unit)), exec (_ ← body; mret None) u o' ->
    ticks u = [] /\ (o' = OutOfFuel -> False) /\
    (forall a, o' = Ok a -> a = None)) as Hround.
  { intros u o' (?%silent_ticks & ? & Ha)%(always_exec silent (fun o' : outcome (option unit) => (o' = OutOfFuel -> False) /\
      forall a, o' = Ok a -> a = None)); [done|].
    apply always_bind. eapply always_mono; [| |exact Hbody]; [done|]. intros [[]|e|msg|] Ho; try done.
    cbn. split; [done|]. by intros a [= <-]. }
  apply exec_bind_inv in H as [(a & t1 & t2 & H1 & H2 & ->)|(o1 & H1 & Ho)].
  - apply exec_bind_ok in H1 as (ticked & u1 & u2 & Hu & H1 & ->).
    exec_inv_one Hu. destruct x.
    + destruct (Hround _ _ H1) as (Hu2 & _ & Ha). rewrite (Ha a eq_refl) in H2.
      specialize (IH _ H2). unfold ticks in *. rewrite !omap_app, Hu2. cbn.
      destruct o; [|done..|by rewrite IH]. destruct IH as (k & Hk & ->). exists (S k). split; [lia|done].
    + apply exec_ret_inv in H1 as [-> [= ->]]. apply exec_ret_inv in H2 as [-> ->].
      exists 0%nat. split; [lia|done].
  - destruct o1; cbn in Ho; simplify_eq; [done..|].
    apply exec_bind_inv in H1 as [(ticked & u1 & u2 & Hu & H1 & ->)|(o1 & H1 & Ho)].
    + destruct ticked; [by destruct (Hround _ _ H1) as (_ & [] & _)|by apply exec_ret_inv in H1 as [_ ?]].
    + destruct o1; exec_inv_one H1; done.
Qed.

Definition monitor_period (i : nat) : Duration := default 0 ([30 * Second; 10 * Second; 5 * Second] !! i).

Lemma monitor_loops_ticks i n p t o :
  monitor_loops n !! i = Some p -> exec p t o ->
  match o with
  | Ok _ => exists k, (k < n)%nat /\ ticks t = replicate k (monitor_period i, true) ++ [(monitor_period i, false)]
  | OutOfFuel => ticks t = replicate n (monitor_period i, true)
  | _ => True
  end.
Proof.
  intros Hp H. assert (exists body, tick_body body /\ p = on_tick (monitor_period i) body n) as (body & Hbody & ->).
  { destruct i as [|[|[|]]]; cbn in Hp; simplify_eq; eexists; (split; [|reflexivity]).
    - apply call_bind_tick_body; [by unfold gatherMetrics, range_peers, the_manager; ends|].
      intros metrics. split; [done|]. intros ?.
      apply call_tick_body. by unfold updateMetricsConfigMap, createOrUpdateConfigMap, the_manager; ends.
    - apply call_tick_body. by unfold syncClusterStatus, update_manager, range_peers, the_manager; ends.
    - apply call_bind_tick_body; [by unfold performHealthCheck, count_active, range_peers, the_manager; ends|].
      intros warnings. eapply always_mono; [done| |
        apply (always_for_range silent (fun _ => True) (fun o => o <> OutOfFuel)); done]. by intros []. }
  by eapply on_tick_ticks.
Qed.

Lemma keeps_loop key node d body n :
  safe (managed key node) monitor_answer (monitor_allowed key) returns body ->
  safe (managed key node) monitor_answer (monitor_allowed key)
    (fun o => o = Ok tt \/ o = OutOfFuel) (on_tick d body n).
Proof.
  intros Hbody. apply safe_forever; [by right|]. safe_ask; [done|]. destruct x; [|by left].
  apply safe_bind. eapply safe_mono; [done| |exact Hbody]. by intros o [[] ->].
Qed.

Lemma keeps_call {A} key node (p : controller A) :
  safe (managed key node) kept_answer (monitor_writes_only key) returns p ->
  safe (managed key node) monitor_answer (monitor_allowed key) returns (call p).
Proof. intros Hp. by apply (safe_embed MonitorApi _ _ kept_answer). Qed.

Lemma keeps_call_bind {A B} key node (p : controller A) (k : A -> monitor B) :
  safe (managed key node) kept_answer (monitor_writes_only key) returns p ->
  (forall a, safe (managed key node) monitor_answer (monitor_allowed key) returns (k a)) ->
  safe (managed key node) monitor_answer (monitor_allowed key) returns (a ← call p; k a).
Proof.
  intros Hp Hk. apply safe_bind. eapply safe_mono; [done| |by apply keeps_call].
  intros o [a ->]. apply Hk.
Qed.

Lemma keeps_monitor_loops key node i n p :
  monitor_loops n !! i = Some p ->
  safe (managed key node) monitor_answer (monitor_allowed key) (fun o => o = Ok tt \/ o = OutOfFuel) p.
Proof.
  intros Hp. destruct i as [|[|[|]]]; cbn in Hp; simplify_eq; apply keeps_loop.
  - apply keeps_call_bind; [apply keeps_gatherMetrics|]. intros metrics. split; [done|]. intros [] _.
    apply keeps_call, keeps_updateMetrics.
  - apply keeps_call, keeps_syncClusterStatus.
  - apply safe_bind, (safe_embed MonitorApi _ _ kept_answer); [done|].
    eapply safe_mono; [done| |apply keeps_performHealthCheck]. intros o (warnings & -> & Hw).
    induction Hw as [|w warnings Hw _ IH]; [by exists tt|]. split; [done|]. intros [] _. exact IH.
Qed.

Section monitoring_runs.
Context {W : Type} (h : handler monitor_response MysqlClusterReconciler W) (key : ObjectKey) (node : string).
Context (Hh : forall r m w, managed key node m ->
  monitor_answer r (fst (h r (m, w))) /\ managed key node (fst (snd (h r (m, w))))).

(** C23: whatever the rest of the operator and the API do, as long as the manager is there with its
    cluster and nobody registers peers, the three loops of the monitor write nothing but the metrics
    of their cluster, in the ConfigMap named for it, and the status of their cluster; they run no
    command, and never warn of a partition. *)
Theorem monitor_writes i n p m w :
  monitor_loops n !! i = Some p -> managed key node m ->
  Forall (fun ev => monitor_allowed key (projT1 ev)) (trace (run h p m w)).
Proof.
  intros Hp Hm. by destruct (safe_run _ _ h _ _ p m w Hh (keeps_monitor_loops key node i n p Hp) Hm) as [? _].
Qed.

(** C21: the monitor goes on until its context is done: errors of the API, of a write or of a read, end
    none of its loops.  A loop that has ended was told so by its [select], at the last tick it waited
    for; otherwise it has done a round for every tick of its period. *)
Theorem monitor_survives i n p m w :
  monitor_loops n !! i = Some p -> managed key node m ->
  let res := run h p m w in
  (out res = Ok tt /\ exists k, (k < n)%nat /\
     ticks (trace res) = replicate k (monitor_period i, true) ++ [(monitor_period i, false)]) \/
  (out res = OutOfFuel /\ ticks (trace res) = replicate n (monitor_period i, true)).
Proof.
  intros Hp Hm. cbv zeta. pose proof (monitor_loops_ticks i n p _ _ Hp (run_exec h p m w)) as Ht.
  destruct (safe_run _ _ h _ _ p m w Hh (keeps_monitor_loops key node i n p Hp) Hm) as (_ & [Ho|Ho] & _);
    rewrite Ho in Ht; [left|right]; by split.
Qed.

End monitoring_runs.

(** ** The health check *)

Lemma no_peers_active {W} (h : handler response MysqlClusterReconciler W) rm m w :
  rm_peers rm = ∅ -> out (run h (count_active rm) m w) = Ok 0.
Proof.
  intros Hp. unfold count_active, range_peers. rewrite Hp, run_bind. cbn [run ask].
  destruct (h (RangeKeys (dom ∅)) (m, w)) as [keys [m' w']]. unfold continue. cbn.
  induction keys as [|key keys IH]; [done|]. cbn [for_range]. by rewrite lookup_empty.
Qed.

(** What the health check can report of a manager whose peers nobody has registered, which is every
    manager of the operator: never a partition, an election timeout exactly when a follower's time
    is up by the clock it reads, and that committed entries are not applied exactly when there are
    any. *)
Theorem health_check_blind {W} (h : handler response MysqlClusterReconciler W) m w rm :
  r_RaftManager m = Some rm -> unset rm ->
  exists warnings, out (run h performHealthCheck m w) = Ok warnings /\
    (forall active total majority, PossiblePartition active total majority ∉ warnings) /\
    (ElectionTimedOut ∈ warnings <->
       rm_state rm = RaftStateFollower /\
       rm_electionTimeout rm < Since (fst (h Now (m, w))) (rm_lastHeartbeat rm)) /\
    (forall commit applied, ApplyLag commit applied ∈ warnings <->
       commit = rm_commitIndex rm /\ applied = 0 /\ 0 < commit).
Proof.
  intros Hrm Hu. pose proof Hu as [_ Hp _ Ha _].
  assert (forall timedOut m' w', out (run h (activeNodes ← count_active rm;
    mret (timedOut ++
      (if activeNodes <? totalNodes rm / 2
       then [PossiblePartition activeNodes (totalNodes rm) (totalNodes rm / 2 + 1)] else []) ++
      (if rm_lastApplied rm <? rm_commitIndex rm
       then [ApplyLag (rm_commitIndex rm) (rm_lastApplied rm)] else []))) m' w') =
    Ok (timedOut ++ if 0 <? rm_commitIndex rm then [ApplyLag (rm_commitIndex rm) 0] else [])) as Hrest.
  { intros timedOut m' w'. rewrite run_bind. unfold continue. rewrite no_peers_active by done.
    cbn. unfold totalNodes. by rewrite Hp, Ha. }
  assert (exists timedOut, out (run h performHealthCheck m w) =
      Ok (timedOut ++ if 0 <? rm_commitIndex rm then [ApplyLag (rm_commitIndex rm) 0] else []) /\
    timedOut = if decide (rm_state rm = RaftStateFollower /\
      rm_electionTimeout rm < Since (fst (h Now (m, w))) (rm_lastHeartbeat rm)) then [ElectionTimedOut] else [])
    as (timedOut & Hout & Ht).
  { unfold performHealthCheck. rewrite run_bind, run_the_manager, Hrm. unfold continue. cbn [out mem world trace].
    rewrite run_bind. unfold continue. case_decide as Hf.
    - destruct (h Now (m, w)) as [now [m' w']] eqn:Enow. unfold id. cbn -[count_active]. rewrite Enow. cbn -[count_active].
      eexists. split; [exact (Hrest _ m' w')|].
      destruct (Z.ltb_spec (rm_electionTimeout rm) (Since now (rm_lastHeartbeat rm)));
        [by rewrite decide_True|by rewrite decide_False by (intros [_ ?]; lia)].
    - eexists. split; [exact (Hrest _ _ _)|]. by rewrite decide_False by (by intros [? _]). }
  exists (timedOut ++ if 0 <? rm_commitIndex rm then [ApplyLag (rm_commitIndex rm) 0] else []).
  split; [done|]. clear Hout Hrest. subst timedOut.
  destruct (Z.ltb_spec 0 (rm_commitIndex rm)); case_decide; set_solver by lia.
Qed.

End monitor_loops.

(** ** Instances *)

#[local] Existing Instance sim_extern.

(** A world that is a clock: tickers move it, the context is done after half a minute. *)
Definition ticking : handler monitor_response MysqlClusterReconciler Time := fun r s =>
  match r return monitor_response r * (MysqlClusterReconciler * Time) with
  | MonitorApi r => (grant (snd s) r, s)
  | Tick d => (bool_decide (snd s < 30 * Second), (fst s, snd s + d))
  | LogInfo _ => (tt, s)
  | LogWarning _ => (tt, s)
  end.

Lemma ticking_answers key node r m w :
  managed key node m ->
  monitor_answer r (fst (ticking r (m, w))) /\ managed key node (fst (snd (ticking r (m, w)))).
Proof.
  intros Hm. destruct r as [[]| | |]; (split; [|exact Hm]); cbn; try done. by intros c' [= ->].
Qed.

Lemma leading_managed : managed (key_of KMysqlCluster (example_cluster 3)) "db-0" leading_reconciler.
Proof. eexists. split; [reflexivity|]. split; [vm_compute; reflexivity..|by split]. Qed.

Lemma monitor_writes_witness :
  length (trace (run ticking (updateClusterStatus_loop 4) leading_reconciler 0)) = 13%nat /\
  Forall (fun ev => monitor_allowed (key_of KMysqlCluster (example_cluster 3)) (projT1 ev))
    (trace (run ticking (updateClusterStatus_loop 4) leading_reconciler 0)).
Proof.
  split; [vm_compute; reflexivity|].
  exact (monitor_writes ticking _ _ (ticking_answers _ _) 1 4 _ _ 0 eq_refl leading_managed).
Defined.

Lemma monitor_survives_witness :
  exists k, ticks (trace (run ticking (healthCheck_loop 10) leading_reconciler 0)) =
    replicate k (5 * Second, true) ++ [(5 * Second, false)].
Proof.
  destruct (monitor_survives ticking _ _ (ticking_answers _ _) 2 10 _ _ 0 eq_refl leading_managed)
    as [(_ & k & _ & Ht)|[Ho _]].
  - exists k. exact Ht.
  - exfalso. vm_compute in Ho. discriminate.
Defined.

Lemma health_check_blind_witness :
  exists warnings, out (run (fun r s => (grant (snd s) r, s)) performHealthCheck
      (MkReconciler "" false (Some example_manager) false) (1 * Second)) = Ok warnings /\
    ElectionTimedOut ∈ warnings.
Proof.
  destruct (health_check_blind (fun r s => (grant (snd s) r, s))
    (MkReconciler "" false (Some example_manager) false) (1 * Second) example_manager eq_refl)
    as (warnings & Hout & _ & Htimed & _); [by split|].
  exists warnings. split; [exact Hout|]. apply Htimed. split; [reflexivity|vm_compute; reflexivity].
Defined.
