(* ===== verification/Controller.v ===== *)
(** * The reconciler ([mysqlcluster_controller.go], [initialization.go])

    [Reconcile] initialises a new cluster once, and afterwards puts the replicas and the master right
    at every event.  Its local cluster object becomes the manager's when the manager is made in the
    same call; from then on it is the one in the shared memory. *)

From S2P Require Import Prelude GoLib Prog Types Kube KubeSim Resources Raft RaftSystem Reconciler.
From S2P Require Import Replicas Election MasterSlave Integration Monitoring.

Section controller.
Context {ext : Extern}.

(** ** Initialisation *)

(** [for i := int32(lo); i <= hi; i++ { body }], the counter wrapping around as an [int32] does. *)
Fixpoint int32_loop (fuel : nat) (i hi : Z) (body : Z -> controller unit) : controller unit :=
  match fuel with
  | O => Done OutOfFuel
  | S fuel' =>
      if i <=? hi then _ ← body i; int32_loop fuel' (int32 (i + 1)) hi body
      else mret tt
  end.

(** The names of the slaves; the loops before it do not end for the largest [int32]. *)
Definition slavePodNames (replicas : Z) : list string :=
  (fun i => pod_name (fmt_02d i)) <$> seqZ 2 (replicas - 1).

Definition masterPodName : string := "mysql-01".

Definition init (fuel : nat) (cluster : MysqlCluster) : controller unit :=
  let ns := cluster_Namespace cluster in
  let spec := Spec cluster in
  _ ← wrapf "failed to create master service" (getOrCreateService (MasterService spec) "master" ns cluster);
  _ ← wrapf "failed to create slave service" (getOrCreateService (SlaveService spec) "slave" ns cluster);
  let replicas := Replicas spec in
  if replicas <? 1 then throw (Errorf ("invalid replica count: " +:+ fmt_d replicas)) else
  _ ← int32_loop fuel 1 replicas (fun i =>
        let configMapName := config_name (fmt_02d i) in
        wrapf ("failed to create configmap " +:+ configMapName)
          (createConfigMap configMapName i ns cluster));
  _ ← int32_loop fuel 1 replicas (fun i =>
        createPVC (pod_name (fmt_02d i)) (StorageClassName (Storage spec)) ns (Size (Storage spec)) cluster);
  _ ← int32_loop fuel 1 replicas (fun i =>
        let podName := pod_name (fmt_02d i) in
        wrapf ("failed to create pod " +:+ podName)
          (createPod fuel podName (Image spec) (config_name (fmt_02d i)) (pod_name (fmt_02d i)) ns cluster));
  wrapf "failed to setup master-slave"
    (setupMasterSlaveReplication masterPodName (slavePodNames replicas) cluster).

(** ** Raft *)

Definition getCurrentNodeId (cluster : MysqlCluster) : string := cluster_Name cluster +:+ "-0".

Definition initializeRaft (cluster : MysqlCluster) : controller unit :=
  let nodeId := getCurrentNodeId cluster in
  rnd ← ask (Intn 150);
  now ← ask Now;
  _ ← write_mem (fun r => r <| r_RaftManager := Some (NewRaftManager nodeId cluster rnd now) |>
                            <| r_RaftIntegration := true |>);
  _ ← ask (Go runElectionTimer);
  ask (Go runHeartbeatTimer).

Definition reconcileRaftBasedMasterSlave (fuel : nat) (cluster : MysqlCluster) : controller unit :=
  currentState ← the_manager rm_state;
  masterAlive ← checkMasterStatus cluster;
  if negb masterAlive then HandleRaftBasedFailover fuel
  else if decide (currentState = RaftStateLeader) then
    '(masterPodName, failedReplicas) ← checkReplicaStatus cluster;
    _ ← (if (0 <? Z.of_nat (length failedReplicas))
         then setupMasterSlaveReplication masterPodName failedReplicas cluster else mret tt);
    ensureSlaveRoles cluster
  else mret tt.

Definition ensureSemiSyncReplication (cluster : MysqlCluster) : controller unit :=
  integration ← read_mem r_RaftIntegration;
  if negb integration then mret tt else
  let masterName := Master (Status cluster) in
  if decide (masterName = "") then mret tt else
  let slaves := Slaves (Status cluster) in
  if decide (slaves = []) then mret tt else
  ConfigureSemiSyncReplication masterName slaves.

(** ** Reconcile *)

(** The local variable [cluster]: a value of its own, or the object the manager holds. *)
Inductive local_cluster : Type :=
| Own (cluster : MysqlCluster)
| Shared.

Definition read_cluster (c : local_cluster) : controller MysqlCluster :=
  match c with
  | Own cluster => mret cluster
  | Shared => the_manager rm_cluster
  end.

Definition initialized (cluster : MysqlCluster) : bool :=
  map_has (om_Annotations (mc_meta cluster)) "initialized".

Definition mark_initialized (cluster : MysqlCluster) : MysqlCluster :=
  let annotations := default ∅ (om_Annotations (mc_meta cluster)) in
  MkMysqlCluster ((mc_meta cluster) <| om_Annotations := Some (<["initialized" := "true"]> annotations) |>)
    (Spec cluster) (Status cluster).

(** The branch of a cluster that is not initialised; the server's object is decoded into the local
    one. *)
Definition initialize (fuel : nat) (cluster : MysqlCluster) : controller local_cluster :=
  _ ← init fuel cluster;
  updated ← ask (Update KMysqlCluster (mark_initialized cluster));
  match updated with
  | Success c => mret (Own c)
  | Failure e => throw e
  end.

(** The manager and the monitor, once per process. *)
Definition ensureRaft (cluster : MysqlCluster) : controller local_cluster :=
  isNil ← read_mem (fun r => match r_RaftManager r with None => true | Some _ => false end);
  if isNil : bool then
    _ ← initializeRaft cluster;
    _ ← monitor_Start;
    mret Shared
  else mret (Own cluster).

(** The branch of an initialised cluster. *)
Definition maintain (fuel : nat) (cluster : MysqlCluster) : controller local_cluster :=
  local ← ensureRaft cluster;
  c ← read_cluster local;
  _ ← reconcileReplicas fuel c;
  c ← read_cluster local;
  _ ← reconcileRaftBasedMasterSlave fuel c;
  c ← read_cluster local;
  _ ← attempt (ensureSemiSyncReplication c);
  mret local.

(** The snapshot loop is started once per process. *)
Definition enable_snapshots (local : local_cluster) : controller unit :=
  enabled ← read_mem r_SnapGoIsEnabled;
  if negb enabled then
    c ← read_cluster local;
    _ ← startAndUpdateGTIDSnapshot c;
    write_mem (fun r => r <| r_SnapGoIsEnabled := true |>)
  else mret tt.

Definition Reconcile (fuel : nat) (req : ObjectKey) : controller unit :=
  got ← ask (Get KMysqlCluster req);
  match got with
  | Failure e => if IsNotFound e then mret tt else throw e
  | Success cluster =>
      local ← (if negb (initialized cluster) then initialize fuel cluster else maintain fuel cluster);
      enable_snapshots local
  end.

(** ** Loops *)

Lemma exec_int32_loop fuel i hi body t :
  in_int32 i -> in_int32 hi -> exec (int32_loop fuel i hi body) t (Ok tt) ->
  forall j, i <= j <= hi -> exists t1 t2 t3, t = t1 ++ t2 ++ t3 /\ exec (body j) t2 (Ok tt).
Proof.
  revert i t. induction fuel as [|fuel IH]; intros i t Hi Hhi H; cbn [int32_loop] in H.
  { by apply exec_done_inv in H as [_ ?]. }
  destruct (Z.leb_spec i hi) as [Hle|Hgt]; [|intros j Hj; lia].
  apply exec_bind_ok in H as ([] & t1 & t2 & H1 & H2 & ->). intros j Hj.
  destruct (decide (j = i)) as [->|Hne]; [by exists [], t1, t2|].
  assert (in_int32 (i + 1)) as Hi1 by (unfold in_int32 in *; lia).
  rewrite int32_id in H2 by done.
  destruct (IH (i + 1) t2 Hi1 Hhi H2 j) as (u1 & u2 & u3 & -> & Hu); [lia|].
  exists (t1 ++ u1), u2, u3. by rewrite <-!app_assoc.
Qed.

Lemma always_int32_loop P Q fuel i hi body :
  (forall o, Q o) -> (forall j (Q' : outcome unit -> Prop), (forall o, Q' o) -> always P Q' (body j)) ->
  always P Q (int32_loop fuel i hi body).
Proof.
  intros HQ Hb. revert i. induction fuel as [|fuel IH]; intros i; cbn [int32_loop]; [apply HQ|].
  destruct (i <=? hi); [|apply HQ]. apply always_bind, Hb.
  intros [[]|e|msg|]; cbn [bind_post]; [apply IH|apply HQ..].
Qed.

(** With a unit of fuel more than it has numbers the loop runs out of fuel only in its body. *)
Lemma exec_int32_loop_fuel fuel i hi body t :
  in_int32 i -> in_int32 (hi + 1) -> (Z.to_nat (hi + 1 - i) < fuel)%nat ->
  exec (int32_loop fuel i hi body) t OutOfFuel ->
  exists j t1 t2, i <= j <= hi /\ t = t1 ++ t2 /\ exec (body j) t2 OutOfFuel.
Proof.
  revert i t. induction fuel as [|fuel IH]; intros i t Hi Hhi Hf H; [lia|]. cbn [int32_loop] in H.
  destruct (Z.leb_spec i hi) as [Hle|Hgt]; [|by apply exec_ret_inv in H as [_ ?]].
  apply exec_bind_fuel in H as [H|([] & t1 & t2 & -> & _ & H)].
  { exists i, [], t. split_and!; [lia..|done|done]. }
  assert (in_int32 (i + 1)) as Hi1 by (unfold in_int32 in *; lia). rewrite int32_id in H by done.
  destruct (IH _ _ Hi1 Hhi ltac:(lia) H) as (j & u1 & u2 & Hj & -> & Hb).
  exists j, (t1 ++ u1), u2. split_and!; [lia..|by rewrite app_assoc|done].
Qed.

(** ** Initialisation *)

Definition no_action (r : request) : Prop :=
  match r with
  | Update _ _ | NewSPDYExecutor _ _ _ | Stream _ => False
  | _ => True
  end.

Lemma no_action_attempts {A} (p : controller A) t o :
  always no_action (fun _ => True) p -> exec p t o -> attempts t = [].
Proof.
  intros Hp H. destruct (always_exec _ _ _ _ _ Hp H) as [Hw _]. clear -Hw.
  induction Hw as [|[r x] t Hr _ IH]; [done|]. change (existT r x :: t) with ([existT r x] ++ t).
  rewrite attempts_app, IH, app_nil_r. by destruct r.
Qed.

Lemma always_getOrCreateService (P : request -> Prop) (Q : outcome Service -> Prop) name role ns cluster :
  P (Get KService (MkObjectKey ns name)) -> P (Create KService (createService name role ns cluster)) ->
  (forall o, Q o) -> always P Q (getOrCreateService name role ns cluster : controller Service).
Proof.
  intros Hg Hc HQ. unfold getOrCreateService. always_ask; [done|]. destruct x as [s|e]; [apply HQ|].
  destruct (IsNotFound e); [|apply HQ]. always_ask; [done|]. apply HQ.
Qed.

(** Every pod that was created is found healthy later on. *)
Definition comes_up (ev : event response) (later : list (event response)) : Prop :=
  match projT1 ev with
  | Create KPod pod =>
      exists found, existT (Get KPod (key_of KPod pod)) (Success found) ∈ later /\
                    isPodHealthy found = true
  | _ => True
  end.

Fixpoint pods_come_up (t : list (event response)) : Prop :=
  match t with
  | [] => True
  | ev :: t' => comes_up ev t' /\ pods_come_up t'
  end.

Lemma comes_up_app ev t u : comes_up ev t -> comes_up ev (t ++ u).
Proof.
  destruct ev as [[] x]; cbn; try done. destruct k; try done.
  intros (found & Hin & Hh). exists found. split; [|done]. apply elem_of_app. by left.
Qed.

Lemma pods_come_up_app t u : pods_come_up t -> pods_come_up u -> pods_come_up (t ++ u).
Proof.
  intros Ht Hu. induction t as [|ev t IH]; [done|]. destruct Ht as [Hev Ht].
  split; [by apply comes_up_app|by apply IH].
Qed.

Definition no_pod_created (r : request) : Prop :=
  match r with Create KPod _ => False | _ => True end.

Lemma no_pods_come_up {A} (p : controller A) t o :
  always no_pod_created (fun _ => True) p -> exec p t o -> pods_come_up t.
Proof.
  intros Hp H. destruct (always_exec _ _ _ _ _ Hp H) as [Hw _]. clear -Hw.
  induction Hw as [|[r x] t Hr _ IH]; [done|]. split; [|exact IH]. destruct r; try done. by destruct k.
Qed.

Lemma createPod_come_up fuel name image config pvc ns cluster t :
  exec (createPod fuel name image config pvc ns cluster : controller unit) t (Ok tt) -> pods_come_up t.
Proof.
  intros H. unfold createPod, MustParse in H. exec_inv; [by repeat split|].
  match type of Hx5 with exec _ ?u _ => assert (pods_come_up u) as Hwait end.
  { refine (no_pods_come_up _ _ _ _ Hx5). apply always_forever; [done|]. cbn. split; [done|].
    intros _. split; [done|]. intros [pod|?]; [|done]. by destruct (isPodHealthy pod). }
  apply wait_ends_healthy in Hx5 as (u & pod & -> & Hh). split; [done|]. split; [|exact Hwait].
  exists pod. split; [|done]. cbn [app]. apply elem_of_app. right. by left.
Qed.

(** What holds of the trace of every round holds of the trace of the loop. *)
Lemma exec_int32_loop_traces (P : list (event response) -> Prop) fuel i hi body t :
  P [] -> (forall t u, P t -> P u -> P (t ++ u)) ->
  (forall j t, exec (body j) t (Ok tt) -> P t) ->
  exec (int32_loop fuel i hi body) t (Ok tt) -> P t.
Proof.
  intros Hnil Happ Hbody. revert i t. induction fuel as [|fuel IH]; intros i t H; cbn [int32_loop] in H.
  { by apply exec_done_inv in H as [_ ?]. }
  destruct (i <=? hi); [|by apply exec_ret_inv in H as [-> _]].
  apply exec_bind_ok in H as ([] & t1 & t2 & H1 & H2 & ->). eauto.
Qed.

Lemma getOrCreateService_ensures prefix name role ns cluster t s :
  exec (wrapf prefix (getOrCreateService name role ns cluster : controller Service)) t (Ok s) ->
  confirmed t KService (MkObjectKey ns name) /\ attempts t = [] /\ pods_come_up t.
Proof.
  intros H. split_and!.
  - apply exec_wrapf_inv in H as (o & H & Ho). destruct o; simplify_eq.
    unfold getOrCreateService in H. exec_inv; show_confirmed.
  - refine (no_action_attempts _ t _ _ H). by apply always_wrapf, always_getOrCreateService.
  - refine (no_pods_come_up _ t _ _ H). by apply always_wrapf, always_getOrCreateService.
Qed.

(** The three calls made for a replica, in a longer trace. *)
Lemma replica_made fuel cluster i t1 t2 t3 t4 u1 u2 u3 pc pp :
  let d := fmt_02d i in
  let ns := cluster_Namespace cluster in
  let spec := Spec cluster in
  exec (wrapf pc (createConfigMap (config_name d) i ns cluster : controller unit)) u1 (Ok tt) ->
  exec (createPVC (pod_name d) (StorageClassName (Storage spec)) ns (Size (Storage spec)) cluster :
          controller unit) u2 (Ok tt) ->
  exec (wrapf pp (createPod fuel (pod_name d) (Image spec) (config_name d) (pod_name d) ns cluster :
          controller unit)) u3 (Ok tt) ->
  replica_confirmed (t1 ++ u1 ++ t2 ++ u2 ++ t3 ++ u3 ++ t4) cluster d.
Proof.
  intros d ns spec Hcm Hpvc Hpod.
  apply exec_wrapf_inv in Hcm as (o & Hcm & Ho). destruct o; simplify_eq.
  apply exec_wrapf_inv in Hpod as (o & Hpod & Ho'). destruct o; simplify_eq.
  apply createConfigMap_ensures in Hcm. apply createPVC_ensures in Hpvc.
  apply createPod_ensures in Hpod. split_and!; eauto 12 with go.
Qed.

(** The part of [init] before it sets up replication. *)
Lemma init_split fuel cluster t :
  in_int32 (Replicas (Spec cluster)) -> exec (init fuel cluster) t (Ok tt) ->
  1 <= Replicas (Spec cluster) /\
  exists t1 t2, t = t1 ++ t2 /\ attempts t1 = [] /\
    confirmed t1 KService (MkObjectKey (cluster_Namespace cluster) (MasterService (Spec cluster))) /\
    confirmed t1 KService (MkObjectKey (cluster_Namespace cluster) (SlaveService (Spec cluster))) /\
    (forall i, 1 <= i <= Replicas (Spec cluster) -> replica_confirmed t1 cluster (fmt_02d i)) /\
    pods_come_up t1 /\
    exec (setupMasterSlaveReplication "mysql-01" (slavePodNames (Replicas (Spec cluster))) cluster :
            controller unit) t2 (Ok tt).
Proof.
  intros Hr H. unfold init in H.
  apply exec_bind_ok in H as (s1 & t1 & t2 & H1 & H & ->).
  apply exec_bind_ok in H as (s2 & t3 & t4 & H3 & H & ->).
  destruct (Z.ltb_spec (Replicas (Spec cluster)) 1) as [?|Hge]; [by apply exec_throw_inv in H as [_ ?]|].
  apply exec_bind_ok in H as ([] & t5 & t6 & H5 & H & ->).
  apply exec_bind_ok in H as ([] & t7 & t8 & H7 & H & ->).
  apply exec_bind_ok in H as ([] & t9 & t10 & H9 & H10 & ->).
  apply getOrCreateService_ensures in H1 as (H1 & Ha1 & Hu1).
  apply getOrCreateService_ensures in H3 as (H3 & Ha3 & Hu3).
  assert (in_int32 1) as H1r by (unfold in_int32; lia).
  split; [done|]. exists (t1 ++ t3 ++ t5 ++ t7 ++ t9), t10. split_and!.
  - by rewrite <-!app_assoc.
  - rewrite !attempts_app, Ha1, Ha3.
    rewrite (no_action_attempts _ t5 _ ltac:(apply always_int32_loop; [done|]; intros;
      apply always_wrapf, always_createConfigMap; done) H5).
    rewrite (no_action_attempts _ t7 _ ltac:(apply always_int32_loop; [done|]; intros;
      apply always_createPVC; done) H7).
    by rewrite (no_action_attempts _ t9 _ ltac:(apply always_int32_loop; [done|]; intros;
      apply always_wrapf, always_createPod; done) H9).
  - auto with go.
  - auto with go.
  - intros i Hi.
    destruct (exec_int32_loop _ _ _ _ _ H1r Hr H5 i Hi) as (u1 & u2 & u3 & -> & Hcm).
    destruct (exec_int32_loop _ _ _ _ _ H1r Hr H7 i Hi) as (v1 & v2 & v3 & -> & Hpvc).
    destruct (exec_int32_loop _ _ _ _ _ H1r Hr H9 i Hi) as (x1 & x2 & x3 & -> & Hpod).
    pose proof (replica_made fuel cluster i (t1 ++ t3 ++ u1) (u3 ++ v1) (v3 ++ x1) x3
      u2 v2 x2 _ _ Hcm Hpvc Hpod) as Hmade.
    by rewrite <-!app_assoc in Hmade |- *.
  - repeat apply pods_come_up_app; [done|done| | |].
    + refine (no_pods_come_up _ t5 _ _ H5). apply always_int32_loop; [done|]. intros.
      by apply always_wrapf, always_createConfigMap.
    + refine (no_pods_come_up _ t7 _ _ H7). apply always_int32_loop; [done|]. intros.
      by apply always_createPVC.
    + refine (exec_int32_loop_traces pods_come_up _ _ _ _ _ _ pods_come_up_app _ H9); [done|].
      intros j t (o & H & Ho)%exec_wrapf_inv. destruct o as [[]| | |]; simplify_eq. by eapply createPod_come_up.
  - apply exec_wrapf_inv in H10 as (o & H10 & Ho). by destruct o; simplify_eq.
Qed.

(** C6: an initialisation that returns without an error did two things, one after the other.  First it
    put everything in place, without a label or a command: the two services, and for every replica
    the claim, the configuration and the pod were seen or created with success, and every pod it
    created it later found healthy.  After all of that it set up replication with
    the first pod as the master of all the others, where every label was accepted and every command
    ran. *)
Theorem init_completes fuel cluster t :
  in_int32 (Replicas (Spec cluster)) -> names_answered t -> executors_answered t ->
  exec (init fuel cluster) t (Ok tt) ->
  1 <= Replicas (Spec cluster) /\
  exists t1 t2, t = t1 ++ t2 /\ attempts t1 = [] /\
    confirmed t1 KService (MkObjectKey (cluster_Namespace cluster) (MasterService (Spec cluster))) /\
    confirmed t1 KService (MkObjectKey (cluster_Namespace cluster) (SlaveService (Spec cluster))) /\
    (forall i, 1 <= i <= Replicas (Spec cluster) -> replica_confirmed t1 cluster (fmt_02d i)) /\
    pods_come_up t1 /\
    exec (setupMasterSlaveReplication "mysql-01" (slavePodNames (Replicas (Spec cluster))) cluster :
            controller unit) t2 (Ok tt) /\
    attempts t2 = accepted (replication_script cluster "mysql-01" (slavePodNames (Replicas (Spec cluster)))).
Proof.
  intros Hr Hn Hx H.
  destruct (init_split _ _ _ Hr H) as (Hge & t1 & t2 & -> & Ha & Hm & Hs & Hall & Hup & H2).
  split; [done|]. exists t1, t2. split_and!; try done.
  apply names_answered_app in Hn as [_ Hn]. apply executors_answered_app in Hx as [_ Hx].
  exact (setupMasterSlaveReplication_follows _ _ _ _ _ (conj Hn Hx) H2).
Qed.

(** What [init] calls besides the wait for a pod. *)
Lemma getOrCreateService_ends name role ns cluster :
  ends (getOrCreateService name role ns cluster : controller Service).
Proof. unfold getOrCreateService. ends. Qed.

Lemma createConfigMap_ends name id ns cluster : ends (createConfigMap name id ns cluster : controller unit).
Proof. unfold createConfigMap. ends. Qed.

Lemma createPVC_ends name class ns sz cluster : ends (createPVC name class ns sz cluster : controller unit).
Proof. unfold createPVC, MustParse. ends. Qed.

Lemma setup_ends master slaves cluster :
  ends (setupMasterSlaveReplication master slaves cluster : controller unit).
Proof. unfold setupMasterSlaveReplication, setupSlave, labelPod, execCommandOnPod. ends. Qed.

(** C30: the initialisation ends, unless a pod it created does not come up: with a unit of fuel more than
    there are replicas, its loops and calls use up none of it; if it runs out, then in the wait for
    the pod of some replica, which that many rounds in a row did not find healthy. *)
Theorem init_ends fuel cluster t :
  in_int32 (Replicas (Spec cluster) + 1) -> (Z.to_nat (Replicas (Spec cluster)) < fuel)%nat ->
  exec (init fuel cluster) t OutOfFuel ->
  exists i t1 t2, 1 <= i <= Replicas (Spec cluster) /\ t = t1 ++ t2 /\
    let key := MkObjectKey (cluster_Namespace cluster) (pod_name (fmt_02d i)) in
    (exists pod created, existT (Create KPod pod) (Success created) ∈ t1 /\ key_of KPod pod = key) /\
    never_healthy key fuel t2.
Proof.
  intros Hr Hf H. unfold init in H.
  assert (in_int32 1) as H1 by (unfold in_int32; lia).
  apply exec_bind_fuel in H as [H|(? & t1 & u1 & -> & _ & H)];
    [by apply exec_wrapf_fuel, ends_exec in H; [|apply getOrCreateService_ends]|].
  apply exec_bind_fuel in H as [H|(? & t2 & u2 & -> & _ & H)];
    [by apply exec_wrapf_fuel, ends_exec in H; [|apply getOrCreateService_ends]|].
  destruct (Replicas (Spec cluster) <? 1); [by apply exec_throw_inv in H as [_ ?]|].
  apply exec_bind_fuel in H as [H|(? & t3 & u3 & -> & _ & H)].
  { apply exec_int32_loop_fuel in H as (j & v1 & v2 & _ & _ & H); [|done|done|lia].
    by apply exec_wrapf_fuel, ends_exec in H; [|apply createConfigMap_ends]. }
  apply exec_bind_fuel in H as [H|(? & t4 & u4 & -> & _ & H)].
  { apply exec_int32_loop_fuel in H as (j & v1 & v2 & _ & _ & H); [|done|done|lia].
    by apply ends_exec in H; [|apply createPVC_ends]. }
  apply exec_bind_fuel in H as [H|(? & t5 & u5 & -> & _ & H)];
    [|by apply exec_wrapf_fuel, ends_exec in H; [|apply setup_ends]].
  apply exec_int32_loop_fuel in H as (j & v1 & v2 & Hj & -> & H); [|done|done|lia].
  apply exec_wrapf_fuel, createPod_fuel in H as (w1 & w2 & -> & (pod & created & Hin & Hk) & Hnever).
  exists j, (t1 ++ t2 ++ t3 ++ t4 ++ v1 ++ w1), w2. split; [done|]. split; [by rewrite <-!app_assoc|].
  split; [|done]. exists pod, created. split; [|done]. rewrite !elem_of_app. tauto.
Qed.

(** A replica count below one is rejected, after the two services were made: the initialisation
    returns an error and writes nothing but services. *)
Theorem init_rejects fuel cluster t o :
  Replicas (Spec cluster) < 1 -> exec (init fuel cluster) t o ->
  (exists e, o = Err e) /\
  Forall (fun ev => writes ev = true -> exists svc, projT1 ev = Create KService svc) t.
Proof.
  intros Hr H. unfold init, getOrCreateService in H.
  replace (Replicas (Spec cluster) <? 1) with true in H by (symmetry; by apply Z.ltb_lt).
  exec_inv; (split; [by eexists|]); repeat constructor; cbn; try done; intros _; by eexists.
Qed.

(** ** Reconciling *)

(** [Reconcile] starts by reading the resource; when the server does not know it the call ends
    without an error and without another request, and any other error of the read is returned. *)
Lemma Reconcile_unknown fuel req t o :
  exec (Reconcile fuel req) t o ->
  exists got rest, t = existT (Get KMysqlCluster req) got :: rest /\
    match got with
    | Failure e => rest = [] /\ o = if IsNotFound e then Ok tt else Err e
    | Success _ => True
    end.
Proof.
  intros H. unfold Reconcile in H.
  apply exec_Ask_inv in H as (got & t' & -> & H). exists got, t'. split; [done|].
  destruct got as [cluster|e]; [done|]. cbn in H.
  destruct (IsNotFound e); by apply exec_done_inv in H as [-> ->].
Qed.

(** C38: a manager that does not lead leaves a living master alone: while it stays out of the lead and the
    master service has an address, the call only reads the endpoints. *)
Theorem follower_leaves_master_alone {W} (h : handler response MysqlClusterReconciler W) fuel cluster m w :
  (forall r m w, (exists rm, r_RaftManager m = Some rm /\ rm_state rm <> RaftStateLeader) ->
     exists rm, r_RaftManager (fst (snd (h r (m, w)))) = Some rm /\ rm_state rm <> RaftStateLeader) ->
  (forall key m w, exists ep, fst (h (Get KEndpoints key) (m, w)) = Success ep /\ is_Some (first_address ep)) ->
  (exists rm, r_RaftManager m = Some rm /\ rm_state rm <> RaftStateLeader) ->
  let res := run h (reconcileRaftBasedMasterSlave fuel cluster) m w in
  out res = Ok tt /\
  Forall (fun ev => exists key, projT1 ev = Get KEndpoints key) (trace res).
Proof.
  intros Hh Hep Hm. cbv zeta.
  pose (alive := fun r : request => match r return response r -> Prop with
    | Get KEndpoints key => fun x => exists ep, x = Success ep /\ is_Some (first_address ep)
    | _ => fun _ => True
    end).
  destruct (safe_run (fun r => exists rm, r_RaftManager r = Some rm /\ rm_state rm <> RaftStateLeader) alive h
    (fun r => exists key, r = Get KEndpoints key) (fun o => o = Ok tt)
    (reconcileRaftBasedMasterSlave fuel cluster) m w) as (Ht & Ho & _); [| |done|done].
  - intros r m' w' Hm'. split; [|by apply Hh]. destruct r as [[]| | | | | | | | | | | | |]; try done.
    cbn. apply Hep.
  - unfold reconcileRaftBasedMasterSlave, the_manager. apply safe_bind.
    intros m' (rm & Hrm & Hs). cbn [fst snd]. split; [by exists rm|]. rewrite Hrm. cbn [fmap option_fmap option_map safe safe_post].
    apply safe_bind. unfold checkMasterStatus. apply safe_bind.
    apply (safe_ask _ _ _ _ (Get KEndpoints _)); [by eexists|].
    intros x (ep & -> & Haddr). cbn. rewrite bool_decide_eq_true_2 by done. cbn.
    by rewrite decide_False.
Qed.

(** A master that is lost is never replaced: while the master service has no address and there is no
    pod named after the node the manager runs as, the call does not succeed. *)
Theorem lost_master_not_replaced {W} (h : handler response MysqlClusterReconciler W) rm0 fuel cluster m w :
  (forall r m w, steady rm0 m -> no_pod (rm_nodeId rm0) r (fst (h r (m, w))) /\
     steady rm0 (fst (snd (h r (m, w))))) ->
  (forall key m w ep, fst (h (Get KEndpoints key) (m, w)) = Success ep -> first_address ep = None) ->
  steady rm0 m -> out (run h (reconcileRaftBasedMasterSlave fuel cluster) m w) <> Ok tt.
Proof.
  intros Hh Hep Hm.
  pose (lost := fun (r : request) (x : response r) => no_pod (rm_nodeId rm0) r x /\
    match r return response r -> Prop with
    | Get KEndpoints key => fun x => forall ep, x = Success ep -> first_address ep = None
    | _ => fun _ => True
    end x).
  apply (safe_run (steady rm0) lost h (fun _ => True) (fun o => o <> Ok tt)); [| |done].
  - intros r m' w' Hm'. destruct (Hh r m' w' Hm'). split; [|done]. split; [done|].
    destruct r as [[]| | | | | | | | | | | | |]; try done. cbn. apply Hep.
  - unfold reconcileRaftBasedMasterSlave. apply safe_bind, safe_the_manager. intros rm _. cbn [safe_post].
    apply safe_bind. unfold checkMasterStatus. apply safe_bind.
    apply (safe_ask _ _ _ _ (Get KEndpoints _)); [done|].
    intros x [_ Hx]. destruct x as [ep|e]; [|done]. cbn [lift of_result safe safe_post mret prog_ret].
    rewrite bool_decide_eq_false_2 by (rewrite (Hx ep eq_refl); by intros []). cbn [negb].
    apply (safe_weaken _ (no_pod (rm_nodeId rm0)) lost); [by intros r x []|apply safe_failover].
Qed.

(** ** What a call may do after the initialisation *)

(** Creations of replica objects and updates of pods; everything that is not a write. *)
Definition maintenance_request (r : request) : Prop :=
  match r with
  | Create KPVC _ | Create KConfigMap _ | Create KPod _ | Update KPod _ => True
  | Create _ _ | Update _ _ | StatusUpdate _ => False
  | _ => True
  end.

(** The same without starting goroutines. *)
Definition quiet_request (r : request) : Prop :=
  match r with
  | Go _ => False
  | r => maintenance_request r
  end.

(** Only [Reconcile] itself makes the manager and sets the flag of the snapshot loop: everything else
    leaves both as they are. *)
Definition has_manager (r : MysqlClusterReconciler) : bool :=
  match r_RaftManager r with None => false | Some _ => true end.

Definition keeps (r r' : MysqlClusterReconciler) : Prop :=
  has_manager r' = has_manager r /\ r_SnapGoIsEnabled r' = r_SnapGoIsEnabled r.

(** More exactly, all they do to the manager is to force an election. *)
Definition holds (r r' : MysqlClusterReconciler) : Prop :=
  (r_RaftManager r' = r_RaftManager r \/ r_RaftManager r' = forceElection <$> r_RaftManager r) /\
  r_SnapGoIsEnabled r' = r_SnapGoIsEnabled r.

Lemma holds_keeps r r' : holds r r' -> keeps r r'.
Proof. intros [[H|H] ?]; (split; [|done]); unfold has_manager; rewrite H; by destruct (r_RaftManager r). Qed.

Lemma holds_same r : holds r r.
Proof. split; [by left|done]. Qed.

#[local] Hint Resolve holds_same : core.

#[local] Notation quiet := (within quiet_request holds).

Lemma quiet_the_manager {X} (f : RaftManager -> X) : quiet (the_manager f).
Proof. unfold the_manager. within. done. Qed.

Lemma quiet_force : quiet (update_manager forceElection).
Proof.
  unfold update_manager. within. destruct (r_RaftManager m) as [rm|] eqn:E; [|done].
  unfold holds. cbn. rewrite E. by split; [right|].
Qed.

Lemma quiet_MustParse s : quiet (MustParse s).
Proof. unfold MustParse. within. Qed.

Lemma quiet_exec pod command : quiet (execCommandOnPod pod command).
Proof. unfold execCommandOnPod. within; done. Qed.

#[local] Hint Resolve quiet_the_manager quiet_force quiet_MustParse quiet_exec : within.

Lemma quiet_createConfigMap name id ns cluster : quiet (createConfigMap name id ns cluster).
Proof. unfold createConfigMap. within; done. Qed.

Lemma quiet_createPVC name class ns sz cluster : quiet (createPVC name class ns sz cluster).
Proof. unfold createPVC. within; done. Qed.

Lemma quiet_createPod fuel name image cm pvc ns cluster :
  quiet (createPod fuel name image cm pvc ns cluster).
Proof. unfold createPod, poll_pod. within; done. Qed.

Lemma quiet_labelPod name role cluster : quiet (labelPod name role cluster).
Proof. unfold labelPod. within; done. Qed.

Lemma quiet_getActualReplicaInfo cluster : quiet (getActualReplicaInfo cluster).
Proof. unfold getActualReplicaInfo. within; done. Qed.

Lemma quiet_master_name cluster : quiet (getMasterPodNameFromEndpoints cluster).
Proof. unfold getMasterPodNameFromEndpoints. within; done. Qed.

#[local] Hint Resolve quiet_createConfigMap quiet_createPVC quiet_createPod quiet_labelPod
  quiet_getActualReplicaInfo quiet_master_name : within.

Lemma quiet_setup master slaves cluster : quiet (setupMasterSlaveReplication master slaves cluster).
Proof. unfold setupMasterSlaveReplication, setupSlave. within; done. Qed.

Lemma quiet_reconcileReplicas fuel cluster : quiet (reconcileReplicas fuel cluster).
Proof. unfold reconcileReplicas, findMissingPodNumbers, createReplica. within; done. Qed.

Lemma quiet_getPodByName name : quiet (getPodByName name).
Proof. unfold getPodByName. within; done. Qed.

Lemma quiet_set_role pod role : quiet (set_role pod role).
Proof. unfold set_role. within; done. Qed.

#[local] Hint Resolve quiet_setup quiet_getPodByName quiet_set_role : within.

Lemma quiet_semisync master slaves : quiet (ConfigureSemiSyncReplication master slaves).
Proof.
  unfold ConfigureSemiSyncReplication, configureMasterSemiSync, configureSlaveSemiSync,
    VerifySemiSyncStatus, verifySlave, run_commands, rmi_execCommandOnPod. within; done.
Qed.

#[local] Hint Resolve quiet_semisync : within.

Lemma quiet_failover fuel : quiet (HandleRaftBasedFailover fuel).
Proof.
  unfold HandleRaftBasedFailover, RaftBasedMasterElection, election_round,
    setupMySQLMasterSlaveReplication, ensureMySQLMasterRole, ensureMySQLSlaveRole,
    rmi_execCommandOnPod. within; done.
Qed.

#[local] Hint Resolve quiet_failover : within.

Lemma quiet_raft fuel cluster : quiet (reconcileRaftBasedMasterSlave fuel cluster).
Proof.
  unfold reconcileRaftBasedMasterSlave, checkMasterStatus, checkReplicaStatus, checkReplica,
    getReplicaPodsNames, ensureSlaveRoles, ensureSlaveRole. within; done.
Qed.

Lemma quiet_read_cluster local : quiet (read_cluster local).
Proof. unfold read_cluster. within. Qed.

#[local] Hint Resolve quiet_raft quiet_reconcileReplicas quiet_read_cluster : within.

(** The starters: what they do is maintenance, but not quiet. *)
Lemma maintain_maintains fuel cluster :
  within maintenance_request (fun _ _ => True) (maintain fuel cluster).
Proof.
  assert (forall A (p : controller A), quiet p -> within maintenance_request (fun _ _ => True) p) as Hq.
  { intros A p. apply within_mono; [|done]. by intros []. }
  unfold maintain, ensureRaft, initializeRaft, monitor_Start, ensureSemiSyncReplication.
  within; first [done | apply Hq; auto with within].
Qed.

Lemma enable_snapshots_maintains local :
  within maintenance_request (fun _ _ => True) (enable_snapshots local).
Proof. unfold enable_snapshots, startAndUpdateGTIDSnapshot, read_cluster, the_manager. within; done. Qed.

(** Once a cluster is initialised, reconciling it writes only replica objects and pods: no service is
    made, the resource is not written again and its status is left to the Raft goroutines. *)
Theorem Reconcile_initialized fuel req t o :
  exec (Reconcile fuel req) t o ->
  exists got rest, t = existT (Get KMysqlCluster req) got :: rest /\
    match got with
    | Success cluster =>
        initialized cluster = true -> Forall (fun ev => maintenance_request (projT1 ev)) t
    | Failure _ => True
    end.
Proof.
  intros H. unfold Reconcile in H.
  apply exec_Ask_inv in H as (got & t' & -> & H). exists got, t'. split; [done|].
  destruct got as [cluster|e]; [|done]. intros Hi. constructor; [done|].
  eapply (within_exec maintenance_request (fun _ _ => True)); [|exact H].
  cbn [prog_bind]. rewrite Hi. apply (within_bind _ _ (maintain fuel cluster)); [apply maintain_maintains|].
  apply enable_snapshots_maintains.
Qed.

(** ** Initialising once *)

Definition writes_no_mark (r : request) : Prop :=
  match r with
  | Update KMysqlCluster _ => False
  | _ => True
  end.

(** Creations of services and replica objects and updates of pods: the resource is not among them. *)
Definition init_request (r : request) : Prop :=
  match r with
  | Create KService _ => True
  | r => quiet_request r
  end.

Lemma within_int32_loop P G fuel i hi body :
  (forall j, within P G (body j)) -> within P G (int32_loop fuel i hi body).
Proof.
  intros Hb. revert i. induction fuel as [|fuel IH]; intros i; cbn [int32_loop]; [done|].
  destruct (i <=? hi); [|done]. apply within_bind; [apply Hb|]. intros []. apply IH.
Qed.

Lemma init_inits fuel cluster : within init_request holds (init fuel cluster).
Proof.
  assert (forall A (p : controller A), quiet p -> within init_request holds p) as Hq.
  { intros A p. apply within_mono; [|done]. by intros [[]|?|[]|[]| | | | | | | | | |]. }
  unfold init, getOrCreateService.
  within; first [done | apply within_int32_loop; intros j; within | apply Hq; auto with within];
    apply Hq; auto with within.
Qed.

Lemma init_writes_no_mark fuel cluster t o :
  exec (init fuel cluster) t o -> Forall (fun ev => writes_no_mark (projT1 ev)) t.
Proof.
  intros H. eapply Forall_impl; [exact (within_exec _ _ _ _ _ (init_inits fuel cluster) H)|].
  intros [r x]. by destruct r as [| | |[]| | | | | | | | | |].
Qed.

Lemma initialized_mark cluster :
  initialized (mark_initialized cluster) = true /\
  Spec (mark_initialized cluster) = Spec cluster /\
  key_of KMysqlCluster (mark_initialized cluster) = key_of KMysqlCluster cluster.
Proof.
  split_and!; try done. unfold initialized, mark_initialized, map_has. cbn.
  by rewrite lookup_insert_eq.
Qed.

(** What the read of the resource answered. *)
Definition cluster_read (ev : event response) : option (result MysqlCluster) :=
  match ev with
  | existT r x =>
      match r return response r -> option (result MysqlCluster) with
      | Get KMysqlCluster _ => Some
      | _ => fun _ => None
      end x
  end.

Lemma Reconcile_read fuel req cluster t o :
  exec (Reconcile fuel req) (existT (Get KMysqlCluster req) (Success cluster) :: t) o ->
  exec (local ← (if negb (initialized cluster) then initialize fuel cluster else maintain fuel cluster);
        enable_snapshots local) t o.
Proof.
  intros H. unfold Reconcile in H. apply exec_Ask_inv in H as (got & t' & Ht & H).
  apply (inj2 cons) in Ht as [Hev <-]. apply (f_equal cluster_read) in Hev as [= <-]. exact H.
Qed.

(** With a cluster object of its own the end of a call starts at most a goroutine. *)
Lemma enable_snapshots_own c t o :
  exec (enable_snapshots (Own c)) t o -> o = Ok tt /\ Forall (fun ev => writes ev = false) t.
Proof.
  unfold enable_snapshots, read_cluster, startAndUpdateGTIDSnapshot. intros H.
  exec_inv; split; try done; repeat constructor.
Qed.

(** C13: a cluster is marked as initialised only when its initialisation succeeded, and then at once: a
    call for a cluster without the mark runs [init] on it; if that fails the call ends with its error
    and the mark is not written; if it returns, the next request writes the same resource with the mark,
    and when the server accepts it the call ends well without another write.  A marked resource
    takes the other branch from then on. *)
Theorem Reconcile_initializes fuel req cluster t o :
  initialized cluster = false ->
  exec (Reconcile fuel req) (existT (Get KMysqlCluster req) (Success cluster) :: t) o ->
  let marked := mark_initialized cluster in
  initialized marked = true /\ Spec marked = Spec cluster /\
  key_of KMysqlCluster marked = key_of KMysqlCluster cluster /\
  exists t1 o1 rest, t = t1 ++ rest /\ exec (init fuel cluster) t1 o1 /\
    Forall (fun ev => writes_no_mark (projT1 ev)) t1 /\
    match o1 with
    | Ok _ => exists updated rest', rest = existT (Update KMysqlCluster marked) updated :: rest' /\
        match updated with
        | Success _ => o = Ok tt /\ Forall (fun ev => writes ev = false) rest'
        | Failure e => o = Err e /\ rest' = []
        end
    | o1 => raised o1 = Some o /\ rest = []
    end.
Proof.
  intros Hi H. cbv zeta. destruct (initialized_mark cluster) as (Hm & Hs & Hk). split_and!; [done..|].
  apply Reconcile_read in H. rewrite Hi in H. cbn [negb] in H.
  apply exec_bind_inv in H as [(local & t1 & t2 & H1 & H2 & ->)|(o1 & H1 & Ho)].
  - unfold initialize in H1. apply exec_bind_ok in H1 as ([] & u1 & u2 & Hinit & H1 & ->).
    exists u1, (Ok tt), (u2 ++ t2). split_and!; [by rewrite app_assoc|done|by eapply init_writes_no_mark|].
    exec_inv. eexists (Success _), t2. split; [done|]. by eapply enable_snapshots_own.
  - unfold initialize in H1. apply exec_bind_inv in H1 as [([] & u1 & u2 & Hinit & H1 & ->)|(o2 & Hinit & Ho2)].
    + exists u1, (Ok tt), u2. split_and!; [done|done|by eapply init_writes_no_mark|].
      exec_inv; by eexists (Failure _), [].
    + exists t, o2, []. rewrite app_nil_r. split_and!; [done|done|by eapply init_writes_no_mark|].
      destruct o2; cbn in *; simplify_eq; cbn in *; by simplify_eq.
Qed.

(** ** The goroutines of a process *)

Definition goroutine (ev : event response) : option Goroutine :=
  match projT1 ev with
  | Go g => Some g
  | _ => None
  end.

Definition is_snapshot_loop (g : Goroutine) : Prop :=
  match g with
  | gtidSnapshotLoop _ => True
  | _ => False
  end.

#[local] Instance is_snapshot_loop_dec g : Decision (is_snapshot_loop g).
Proof. destruct g; apply _. Defined.

Definition starts_nothing (r : request) : Prop :=
  match r with
  | Go _ => False
  | _ => True
  end.

(** The goroutines a trace started: those of the snapshot loop, and the others. *)
Definition started (t : list (event response)) : list Goroutine := omap goroutine t.
Definition snapshot_loops (t : list (event response)) : nat :=
  length (filter is_snapshot_loop (started t)).
Definition raft_loops (t : list (event response)) : list Goroutine :=
  filter (fun g => ~ is_snapshot_loop g) (started t).

(** [RaftManager.Start] and [RaftMonitor.Start]. *)
Definition manager_goroutines : list Goroutine :=
  [runElectionTimer; runHeartbeatTimer; collectMetrics; updateClusterStatusLoop; healthCheckLoop].

(** The goroutines started so far, and the two fields that say so. *)
Definition stage (loops : list Goroutine) (snapshots : nat) (manager enabled : bool)
    (t : list (event response)) (m : MysqlClusterReconciler) : Prop :=
  raft_loops t = loops /\ snapshot_loops t = snapshots /\
  has_manager m = manager /\ r_SnapGoIsEnabled m = enabled.

Definition loops_of (manager : bool) : list Goroutine := if manager then manager_goroutines else [].
Definition snapshots_of (enabled : bool) : nat := if enabled then 1%nat else 0%nat.

Definition goroutines_match (t : list (event response)) (m : MysqlClusterReconciler) : Prop :=
  stage (loops_of (has_manager m)) (snapshots_of (r_SnapGoIsEnabled m))
    (has_manager m) (r_SnapGoIsEnabled m) t m.

Lemma started_app t u : started (t ++ u) = started t ++ started u.
Proof. apply omap_app. Qed.

Lemma snapshot_loops_app t u : snapshot_loops (t ++ u) = (snapshot_loops t + snapshot_loops u)%nat.
Proof. unfold snapshot_loops. by rewrite started_app, filter_app, length_app. Qed.

Lemma raft_loops_app t u : raft_loops (t ++ u) = raft_loops t ++ raft_loops u.
Proof. unfold raft_loops. by rewrite started_app, filter_app. Qed.

Lemma stage_match n k a b t m :
  n = loops_of a -> k = snapshots_of b -> stage n k a b t m -> goroutines_match t m.
Proof. intros -> -> (H1 & H2 & <- & <-). by split_and!. Qed.

Lemma stage_keeps n k a b t m m' : stage n k a b t m -> keeps m m' -> stage n k a b t m'.
Proof. intros (H1 & H2 & <- & <-) [H3 H4]. by split_and!. Qed.

Lemma idle_stage n k a b t m r (x : response r) :
  stage n k a b t m -> starts_nothing r -> stage n k a b (t ++ [existT r x]) m.
Proof.
  intros (H1 & H2 & H3 & H4) Hr. split_and!; [| |done|done].
  - etrans; [apply raft_loops_app|]. rewrite H1. destruct r; try done; apply app_nil_r.
  - etrans; [apply snapshot_loops_app|]. rewrite H2. destruct r; try done; apply Nat.add_0_r.
Qed.

Lemma stage_idle {A} n k a b (p : controller A) :
  within starts_nothing keeps p -> triple keeps (stage n k a b) p (fun _ => stage n k a b).
Proof. apply triple_frame; [apply stage_keeps|apply idle_stage]. Qed.

Lemma quiet_idle {A} (p : controller A) : quiet p -> within starts_nothing keeps p.
Proof. apply within_mono; [by intros []|apply holds_keeps]. Qed.

Lemma initialize_idle fuel cluster : within starts_nothing keeps (initialize fuel cluster).
Proof.
  unfold initialize. within; [|done]. eapply within_mono; [|apply holds_keeps|apply init_inits].
  by intros [].
Qed.

Lemma stage_go {A} n k a b g (f : unit -> controller A) post :
  ~ is_snapshot_loop g -> triple keeps (stage (n ++ [g]) k a b) (f tt) post ->
  triple keeps (stage n k a b) (ask (Go g) ≫= f) post.
Proof.
  intros Hg Hf. apply (triple_ask_then _ _ _ _ (fun _ => stage (n ++ [g]) k a b)); [|by intros []].
  intros x t m m' Hs Hk. eapply stage_keeps; [|exact Hk].
  destruct Hs as (H1 & H2 & H3 & H4). split_and!; [| |done|done].
  - etrans; [apply raft_loops_app|]. rewrite H1. by destruct g.
  - etrans; [apply snapshot_loops_app|]. rewrite H2. destruct g; try done; apply Nat.add_0_r.
Qed.

Lemma stage_go_snapshot {A} n k a b c (f : unit -> controller A) post :
  triple keeps (stage n (S k) a b) (f tt) post ->
  triple keeps (stage n k a b) (ask (Go (gtidSnapshotLoop c)) ≫= f) post.
Proof.
  intros Hf. apply (triple_ask_then _ _ _ _ (fun _ => stage n (S k) a b)); [|by intros []].
  intros x t m m' Hs Hk. eapply stage_keeps; [|exact Hk].
  destruct Hs as (H1 & H2 & H3 & H4). split_and!; [| |done|done].
  - etrans; [apply raft_loops_app|]. rewrite H1. apply app_nil_r.
  - etrans; [apply snapshot_loops_app|]. rewrite H2. apply Nat.add_1_r.
Qed.

Lemma stage_ask {A} n k a b r (f : response r -> controller A) post :
  starts_nothing r -> (forall x, triple keeps (stage n k a b) (f x) post) ->
  triple keeps (stage n k a b) (ask r ≫= f) post.
Proof.
  intros Hr. apply triple_ask_then. intros x t m m' Hs Hk. eapply stage_keeps; [|exact Hk].
  by apply idle_stage.
Qed.

(** A quiet step in the middle of a program: when it does not finish well the stage stays as it was. *)
Lemma stage_then {A B} n k a b (p : controller A) (f : A -> controller B) post :
  quiet p -> (forall o t m, stage n k a b t m -> post (o : outcome B) t m) ->
  (forall x, triple keeps (stage n k a b) (f x) post) ->
  triple keeps (stage n k a b) (p ≫= f) post.
Proof.
  intros Hp Hpost Hf. eapply triple_bind; [|exact Hf].
  eapply triple_conseq; [done| |by apply (stage_idle n k a b), quiet_idle]. intros [] t m; eauto.
Qed.

Lemma stage_enable_snapshots n a b local :
  triple keeps (stage n (snapshots_of b) a b) (enable_snapshots local)
    (fun _ t m => exists b', stage n (snapshots_of b') a b' t m).
Proof.
  unfold enable_snapshots.
  apply (triple_atomically_then _ _ _ _ (fun enabled t m => enabled = b /\ stage n (snapshots_of b) a b t m)).
  { intros t m Hs. split; [apply Hs|done]. }
  intros enabled. apply triple_fact. intros ->. destruct b; cbn [negb]; [apply triple_done; eauto|].
  apply stage_then; [apply quiet_read_cluster|by exists false|]. intros c.
  apply stage_go_snapshot, triple_atomically. intros t m (H1 & H2 & H3 & H4). exists true. by split_and!.
Qed.

(** The manager and the monitor start together, when there was no manager. *)
Lemma stage_ensureRaft k a b cluster :
  triple keeps (stage (loops_of a) k a b) (ensureRaft cluster)
    (fun _ => stage manager_goroutines k true b).
Proof.
  unfold ensureRaft.
  apply (triple_atomically_then _ _ _ _ (fun isNil t m => isNil = negb a /\ stage (loops_of a) k a b t m)).
  { intros t m Hs. split; [|done]. destruct Hs as (_ & _ & <- & _). unfold has_manager.
    by destruct (r_RaftManager m). }
  intros isNil. apply triple_fact. intros ->. destruct a; cbn [negb]; [by apply triple_done|].
  change (triple keeps (stage [] k false b)
    (rnd ← ask (Intn 150);
     now ← ask Now;
     _ ← write_mem (fun r => r <| r_RaftManager := Some (NewRaftManager (getCurrentNodeId cluster) cluster rnd now) |>
                               <| r_RaftIntegration := true |>);
     _ ← ask (Go runElectionTimer);
     _ ← ask (Go runHeartbeatTimer);
     _ ← ask (Go collectMetrics);
     _ ← ask (Go updateClusterStatusLoop);
     _ ← ask (Go healthCheckLoop);
     mret Shared) (fun _ => stage manager_goroutines k true b)).
  do 2 (apply stage_ask; [done|intros ?]).
  apply (triple_atomically_then _ _ _ _ (fun _ => stage [] k true b)).
  { intros t m (H1 & H2 & H3 & H4). by split_and!. }
  intros _. do 5 (apply stage_go; [by intros []|]). by apply triple_done.
Qed.

Lemma stage_maintain a b fuel cluster :
  triple keeps (stage (loops_of a) (snapshots_of b) a b) (maintain fuel cluster)
    (fun _ => stage manager_goroutines (snapshots_of b) true b).
Proof.
  unfold maintain. eapply triple_bind; [|intros local].
  { eapply triple_conseq; [done| |apply stage_ensureRaft]. intros [] t m Hs; exact Hs. }
  apply stage_idle, quiet_idle. unfold ensureSemiSyncReplication. within; done.
Qed.

Lemma stage_Reconcile a b fuel req :
  triple keeps (stage (loops_of a) (snapshots_of b) a b) (Reconcile fuel req)
    (fun _ t m => exists a' b', stage (loops_of a') (snapshots_of b') a' b' t m).
Proof.
  unfold Reconcile. apply stage_ask; [done|]. intros [cluster|e];
    [|destruct (IsNotFound e); apply triple_done; eauto].
  eapply (triple_bind _ _ _ _ (fun _ t m => exists a', stage (loops_of a') (snapshots_of b) a' b t m)).
  - destruct (negb (initialized cluster)).
    + eapply triple_conseq; [done| |apply stage_idle, initialize_idle]. intros [] t m Hs; eauto.
    + eapply triple_conseq; [done| |apply stage_maintain].
      intros [] t m Hs; first [by exists true | by exists true, b].
  - intros local W h Hh m w t (a' & Hs). exists a'.
    exact (stage_enable_snapshots (loops_of a') a' b local W h Hh m w t Hs).
Qed.

Lemma goroutines_Reconcile fuel req :
  triple keeps goroutines_match (Reconcile fuel req) (fun _ => goroutines_match).
Proof.
  intros W h Hh m w t Hs. cbv zeta.
  destruct (stage_Reconcile _ _ fuel req W h Hh m w t Hs) as (a & b & Hs').
  exact (stage_match _ _ _ _ _ _ eq_refl eq_refl Hs').
Qed.

(** A process: one call of [Reconcile] after another, the queue going on after an error. *)
Definition process (fuel : nat) (reqs : list ObjectKey) : controller unit :=
  for_each (fun req => _ ← attempt (Reconcile fuel req); mret tt) reqs.

(** C29: the goroutines of a process are started once: over any sequence of calls, for any clusters
    and with any failures in between, the Raft manager's two timers and the monitor's three loops are
    started exactly once each, in order, when the process has made its manager, and not at all
    before; the snapshot loop is started exactly once when its flag is set.  Of the other goroutines
    it is used only that they neither make nor drop the manager and leave the flag alone. *)
Theorem goroutines_started_once {W} (h : handler response MysqlClusterReconciler W) fuel reqs w :
  (forall r m w, keeps m (fst (snd (h r (m, w))))) ->
  let res := run h (process fuel reqs) new_reconciler w in
  raft_loops (trace res) = (if has_manager (mem res) then manager_goroutines else []) /\
  snapshot_loops (trace res) = (if r_SnapGoIsEnabled (mem res) then 1%nat else 0%nat).
Proof.
  intros Hh. cbv zeta.
  assert (triple keeps goroutines_match (process fuel reqs) (fun _ => goroutines_match)) as Hp.
  { apply triple_for_range. intros [] req. apply (triple_bind _ _ _ _ (fun _ => goroutines_match)).
    - apply triple_attempt. eapply triple_conseq; [done| |apply goroutines_Reconcile]. by intros [].
    - intros _. by apply triple_done. }
  by destruct (Hp W h Hh new_reconciler w []) as (H1 & H2 & _).
Qed.

End controller.

(** ** Instances *)

#[local] Existing Instance sim_extern.

Lemma init_completes_witness :
  exists t1 t2, trace (run sim (init 4 (example_cluster 2)) new_reconciler example_world) = t1 ++ t2 /\
    replica_confirmed t1 (example_cluster 2) "02" /\
    pods_come_up t1 /\
    attempts t2 = accepted (replication_script (example_cluster 2) "mysql-01" ["mysql-02"]).
Proof.
  assert (names_answered (trace (run sim (init 4 (example_cluster 2)) new_reconciler example_world)))
    as Hn by check_answers.
  assert (executors_answered (trace (run sim (init 4 (example_cluster 2)) new_reconciler example_world)))
    as Hx by check_answers.
  assert (in_int32 (Replicas (Spec (example_cluster 2)))) as Hr by (cbv; split; congruence).
  run_ok (init 4 (example_cluster 2)) new_reconciler example_world He.
  destruct (init_completes 4 (example_cluster 2) _ Hr Hn Hx He)
    as (_ & t1 & t2 & Ht & _ & _ & _ & Hall & Hup & _ & Ha2).
  exists t1, t2. split; [exact Ht|]. split; [apply (Hall 2); cbn; lia|].
  split; [exact Hup|exact Ha2].
Defined.

(** A handler that knows no object: pods are created and never come up, and no service has an address. *)
Definition lost_sim {M} : handler response M World := fun r s =>
  match r return response r * (M * World) with
  | Get k key => (Failure not_found, s)
  | r => sim r s
  end.

Lemma init_ends_witness :
  exists i t1 t2, 1 <= i <= 2 /\
    trace (run lost_sim (init 3 (example_cluster 2)) new_reconciler example_world) = t1 ++ t2 /\
    never_healthy (MkObjectKey "default" (pod_name (fmt_02d i))) 3 t2.
Proof.
  pose proof (run_exec lost_sim (init 3 (example_cluster 2)) new_reconciler example_world) as He.
  assert (out (run lost_sim (init 3 (example_cluster 2)) new_reconciler example_world) = OutOfFuel) as Ho
    by (vm_compute; reflexivity).
  rewrite Ho in He.
  destruct (init_ends 3 (example_cluster 2) _ ltac:(cbv; split; congruence) ltac:(cbn; lia) He)
    as (i & t1 & t2 & Hi & Ht & _ & Hn).
  exists i, t1, t2. split; [exact Hi|]. split; [exact Ht|exact Hn].
Defined.

Lemma init_rejects_witness :
  exists e, out (run sim (init 4 (example_cluster 0)) new_reconciler example_world) = Err e.
Proof.
  destruct (init_rejects 4 (example_cluster 0) _ _ ltac:(vm_compute; reflexivity)
    (run_exec sim (init 4 (example_cluster 0)) new_reconciler example_world)) as [H _].
  exact H.
Defined.

(** A handler on which the master service always has an address. *)
Definition alive_endpoints : Endpoints :=
  {| ep_meta := example_meta "mysql-master"; Subsets := [[Some "mysql-01"]] |}.

Definition alive_sim {M} : handler response M World := fun r s =>
  match r return response r * (M * World) with
  | Get KEndpoints key => (Success alive_endpoints, s)
  | r => sim r s
  end.

Lemma alive_sim_memory M r (m : M) w : fst (snd (alive_sim r (m, w))) = m.
Proof. destruct r as [[]| | | | | | | | | | | | |]; try apply sim_memory. done. Qed.

Definition following_reconciler : MysqlClusterReconciler :=
  MkReconciler "" false (Some (NewRaftManager "db-0" (example_cluster 2) 0 0)) true.

Lemma follower_leaves_master_alone_witness :
  out (run alive_sim (reconcileRaftBasedMasterSlave 1 (example_cluster 2)) following_reconciler
         example_world) = Ok tt.
Proof.
  apply (follower_leaves_master_alone alive_sim 1 (example_cluster 2) following_reconciler example_world).
  - intros r m w Hm. by rewrite alive_sim_memory.
  - intros key m w. exists alive_endpoints. split; [reflexivity|]. by eexists.
  - eexists. split; [reflexivity|]. done.
Defined.

Lemma lost_sim_memory M r (m : M) w : fst (snd (lost_sim r (m, w))) = m.
Proof. destruct r; try apply sim_memory. done. Qed.

Lemma lost_master_not_replaced_witness :
  out (run lost_sim (reconcileRaftBasedMasterSlave 1 (example_cluster 2)) following_reconciler
         example_world) <> Ok tt.
Proof.
  apply (lost_master_not_replaced lost_sim (NewRaftManager "db-0" (example_cluster 2) 0 0)).
  - intros r m w Hm. rewrite lost_sim_memory. split; [|done].
    destruct r as [[]| | | | | | | | | | | | |]; try exact I. by intros _.
  - intros key m w ep H. discriminate H.
  - eexists. split; [reflexivity|]. done.
Defined.

Definition initialized_world : World :=
  put KMysqlCluster (mark_initialized (example_cluster 1)) example_world2.

Lemma Reconcile_initialized_witness :
  Forall (fun ev => maintenance_request (projT1 ev))
    (trace (run sim (Reconcile 2 (MkObjectKey "default" "db")) new_reconciler initialized_world)).
Proof.
  pose proof (Reconcile_initialized 2 (MkObjectKey "default" "db") _ _
    (run_exec sim (Reconcile 2 (MkObjectKey "default" "db")) new_reconciler initialized_world))
    as (got & rest & Ht & H).
  assert (exists cluster, got = Success cluster /\ initialized cluster = true) as (cluster & -> & Hi).
  { apply (f_equal (fun t => match t with
                             | existT (Get KMysqlCluster _) x :: _ =>
                                 match x with Success c => Some c | Failure _ => None end
                             | _ => None
                             end)) in Ht.
    destruct got as [cluster|e].
    - exists cluster. split; [done|]. vm_compute in Ht. injection Ht as <-. vm_compute. reflexivity.
    - vm_compute in Ht. discriminate. }
  apply H, Hi.
Defined.

Lemma goroutines_started_once_witness :
  raft_loops (trace (run sim (process 4 [MkObjectKey "default" "db"; MkObjectKey "default" "db"])
                       new_reconciler initialized_world)) = manager_goroutines.
Proof.
  destruct (goroutines_started_once sim 4 [MkObjectKey "default" "db"; MkObjectKey "default" "db"]
    initialized_world) as [H _].
  - intros r m w. by rewrite sim_memory.
  - etrans; [exact H|]. vm_compute. reflexivity.
Defined.

Lemma cons_hd_tail {A} (l : list A) x : hd_error l = Some x -> l = x :: tail l.
Proof. destruct l; by intros [= ->]. Qed.

Definition new_world : World := put KMysqlCluster (example_cluster 1) example_world.

Lemma Reconcile_initializes_witness :
  let res := run sim (Reconcile 4 (MkObjectKey "default" "db")) new_reconciler new_world in
  out res = Ok tt /\
  exists t1, exec (init 4 (example_cluster 1)) t1 (Ok tt) /\ t1 `prefix_of` tail (trace res).
Proof.
  cbv zeta. pose proof (run_exec sim (Reconcile 4 (MkObjectKey "default" "db")) new_reconciler new_world) as He.
  rewrite (cons_hd_tail (trace _) (existT (Get KMysqlCluster (MkObjectKey "default" "db"))
    (Success (example_cluster 1)))) in He by (vm_compute; reflexivity).
  assert (out (run sim (Reconcile 4 (MkObjectKey "default" "db")) new_reconciler new_world) = Ok tt) as Ho
    by (vm_compute; reflexivity).
  rewrite Ho in He. split; [exact Ho|].
  destruct (Reconcile_initializes 4 _ (example_cluster 1) _ _ eq_refl He)
    as (_ & _ & _ & t1 & o1 & rest & Ht & Hinit & _ & Hrest).
  rewrite Ht. exists t1. split; [|by eexists].
  destruct o1 as [[]|e|msg|]; [exact Hinit|destruct Hrest; discriminate..].
Defined.
