(* ===== verification/Process.v ===== *)
(** * The whole process

    The worker that calls [Reconcile], and every goroutine it starts: the Raft timers with the vote and
    heartbeat goroutines they start in turn, the monitor's loops and the snapshot loop, on one memory.
    A [go] statement of any of them adds its program to the pool.  The runtime may abort the process
    while two goroutines access the map of nodes they share ([process_step]).  What the components
    assume of the rest of the process is proved of it here. *)

From S2P Require Import Prelude GoLib Prog Types Kube KubeSim Raft RaftSystem Pool PoolLogic RaftThreads.
From S2P Require Import Resources Reconciler Election Integration Monitoring MonitorLoops Controller.

Section process.
Context {ext : Extern}.

(** ** Memory and requests *)

(** The reconciler with its manager, and the variables the vote goroutines capture. *)
Record Process := MkProcess {
  ps_reconciler : MysqlClusterReconciler;
  ps_elections : list Election;
}.

Inductive process_request : Type :=
| Ctl (r : request)
| OfRaft (r : raft_request)
| OfMonitor (r : monitor_request).

Definition process_response (r : process_request) : Type :=
  match r with
  | Ctl r => response r
  | OfRaft r => raft_response r
  | OfMonitor r => monitor_response r
  end.

Notation process_prog := (prog process_response Process).

(** ** Its goroutines *)

Definition set_reconciler (r : MysqlClusterReconciler) (m : Process) : Process :=
  MkProcess r (ps_elections m).

(** Programs of the controller and of the monitor, on the reconciler's memory. *)
Definition of_controller {A} (p : controller A) : process_prog A :=
  embed Ctl (fun _ x => x) (zoom (fun m => Some (ps_reconciler m)) set_reconciler p).

Definition of_monitor {A} (p : prog monitor_response MysqlClusterReconciler A) : process_prog A :=
  embed OfMonitor (fun _ x => x) (zoom (fun m => Some (ps_reconciler m)) set_reconciler p).

(** The goroutines of the manager have it as their receiver: it is the reconciler's. *)
Definition raft_memory (m : Process) : option RaftThreads.Shared :=
  (fun rm => MkShared rm (ps_elections m)) <$> r_RaftManager (ps_reconciler m).

Definition set_raft_memory (s : RaftThreads.Shared) (m : Process) : Process :=
  MkProcess ((ps_reconciler m) <| r_RaftManager := Some (sh_rm s) |>) (sh_elections s).

Definition of_raft {A} (p : prog raft_response RaftThreads.Shared A) : process_prog A :=
  embed OfRaft (fun _ x => x) (zoom raft_memory set_raft_memory p).

(** The loop of [startAndUpdateGTIDSnapshot] has no end. *)
Definition snapshot_loop (fuel : nat) (cluster : MysqlCluster) : controller unit :=
  forever fuel (_ ← snapshot_round cluster; mret None).

Definition goroutine_program (fuel : nat) (g : Goroutine) : process_prog unit :=
  match g with
  | runElectionTimer => of_raft (run_election_timer fuel)
  | runHeartbeatTimer => of_raft (run_heartbeat_timer fuel)
  | gtidSnapshotLoop cluster => of_controller (snapshot_loop fuel cluster)
  | collectMetrics => of_monitor (collectMetrics_loop fuel)
  | updateClusterStatusLoop => of_monitor (updateClusterStatus_loop fuel)
  | healthCheckLoop => of_monitor (healthCheck_loop fuel)
  end.

Definition process_effect (fuel : nat) (r : process_request) : effect process_response Process :=
  match r with
  | Ctl (Go g) => Spawn (goroutine_program fuel g)
  | OfRaft Lock => Acquire
  | OfRaft Unlock => Release
  | OfRaft (GoVote k node) => Spawn (of_raft (vote_thread k node))
  | OfRaft (GoHeartbeat node) => Spawn (of_raft (heartbeat_thread node))
  | _ => Plain
  end.

(** What the API documents of the answers: an object read is the one asked for, an update of a status
    answers with the cluster updated, a pod has a container. *)
Definition controller_answer (r : request) : response r -> Prop :=
  match r return response r -> Prop with
  | ListPods _ _ => fun x => forall pods, x = Success pods -> Forall (fun pod => Containers (pod_spec pod) <> []) pods
  | r => kept_answer r
  end.

Definition process_admissible (r : process_request) : process_response r -> Prop :=
  match r return process_response r -> Prop with
  | Ctl r => controller_answer r
  | OfRaft r => raft_admissible r
  | OfMonitor r => monitor_answer r
  end.

(** ** Runs

    A process starts with the worker alone; the queue hands it the cluster [key], as often as it
    likes.  Terms and the number of rounds are not bounded. *)
Definition start_process (fuel n : nat) (key : ObjectKey) : pool process_response Process :=
  start [of_controller (process fuel (replicate n key))] (MkProcess new_reconciler []).

Definition process_reachable (fuel n : nat) (key : ObjectKey) (st : pool process_response Process) : Prop :=
  rtc (pool_step (process_effect fuel) process_admissible (fun _ => True)) (start_process fuel n key) st.

(** ** Concurrent accesses to a map

    Go aborts a process, with an error that no goroutine can recover from, when it notices that a map is
    read or written by one goroutine while another writes it.  The map two goroutines of the operator
    share is that of the nodes in the status of the cluster, which the manager and the monitor hold by
    the same pointer. *)
Definition raft_nodes (m : Process) : option (option (gmap string RaftNodeInfo)) :=
  (fun rm => RaftNodes (Status (rm_cluster rm))) <$> r_RaftManager (ps_reconciler m).

(** [syncClusterStatus] has released the lock when it sends the object: the client encodes the map, and
    decodes the answer into it. *)
Definition monitor_sends (p : process_prog unit) : Prop :=
  match p with
  | Ask (OfMonitor (MonitorApi (StatusUpdate _))) _ => True
  | _ => False
  end.

(** [updateClusterStatus] of the manager writes an entry of the map, under the lock, or sends the
    object. *)
Definition raft_records (st : pool process_response Process) (j : nat) (p : process_prog unit) : Prop :=
  match p with
  | Ask (OfRaft (Api (StatusUpdate _))) _ => True
  | Atomic X f k => holder st = Some j /\ raft_nodes (snd (f (shared st))) <> raft_nodes (shared st)
  | _ => False
  end.


#[global] Instance monitor_sends_dec p : Decision (monitor_sends p).
Proof. destruct p as [|[| |[[]| | |]]|]; cbn; apply _. Defined.

#[global] Instance raft_records_dec st j p : Decision (raft_records st j p).
Proof. destruct p as [|[|[[]| | | | |]|]|]; cbn; apply _. Defined.







(** ** What the process keeps *)

Section kept.
Context (fuel : nat) (key : ObjectKey).

(** The node of the process. *)
Definition own_node : string := key_Name key +:+ "-0".

(** A manager is that of the cluster and of its first node. *)
Definition own_manager : RaftManager -> Prop := manages key own_node.

Definition own_reconciler (m : MysqlClusterReconciler) : Prop :=
  forall rm, r_RaftManager m = Some rm -> own_manager rm.

(** What the goroutines of the manager may ask: to create messages from this node in the namespace of
    the cluster, and to update the status of the cluster. *)
Definition raft_allowed (r : raft_request) : Prop :=
  match r with
  | Api (Create KConfigMap o) =>
      om_Namespace (cm_meta o) = key_Namespace key /\ cm_Data o !! "from" = Some own_node
  | Api (StatusUpdate c) => key_of KMysqlCluster c = key
  | Api Now | Api (Intn _) => True
  | Api _ => False
  | _ => True
  end.

(** What the worker may ask: anything, except that a goroutine of the manager needs a manager and that
    a status is updated by those goroutines only. *)
Definition controller_allowed (b : bool) (r : request) : Prop :=
  match r with
  | Go (gtidSnapshotLoop _) => True
  | Go _ => b = true
  | StatusUpdate _ => False
  | _ => True
  end.

Definition process_allowed (b : bool) (r : process_request) : Prop :=
  match r with
  | Ctl r => controller_allowed b r
  | OfRaft r => b = true /\ raft_allowed r
  | OfMonitor r => b = true /\ monitor_allowed key r
  end.

(** ** The goroutines of the manager *)

Definition raft_kept (s : RaftThreads.Shared) : Prop := own_manager (sh_rm s).

(** How a goroutine may end. *)
Definition at_end (o : outcome unit) : Prop := o = Ok tt \/ o = OutOfFuel.

Notation raft_safe Q p := (safe raft_kept raft_admissible raft_allowed Q p).

Lemma own_manager_config rm rm' :
  own_manager rm -> unset rm' -> same_config rm rm' -> own_manager rm'.
Proof.
  intros [Hk Hn _] Hu (Hid & _ & Hmeta). split; [|congruence|done].
  rewrite <-Hk. unfold key_of. cbn [obj_meta]. by rewrite Hmeta.
Qed.

Lemma raft_send_message {B} node data (Q : outcome B -> Prop) (k : bool -> prog raft_response RaftThreads.Shared B) :
  data !! "from" = Some own_node -> (forall b, raft_safe Q (k b)) ->
  raft_safe Q (send_message node data ≫= k).
Proof.
  intros Hfrom Hk. split; [done|]. intros nano _ s Hs. split; [done|].
  split; [|intros created _; apply Hk].
  split; [|done]. destruct Hs as [<- _ _]. done.
Qed.

Lemma raft_heartbeat_thread node : raft_safe at_end (heartbeat_thread node).
Proof.
  intros s Hs. split; [done|]. cbn [fst].
  destruct (sendAppendEntries_total (sh_rm s) node []) as [data Hdata]. rewrite Hdata.
  apply raft_send_message; [|by left]. clear -Hs Hdata.
  unfold sendAppendEntries in Hdata. case_match; [|done]. injection Hdata as <-. destruct Hs as [_ <- _]. done.
Qed.

Lemma raft_send_heartbeats {B} (Q : outcome B -> Prop) (k : unit -> prog raft_response RaftThreads.Shared B) :
  raft_safe Q (k tt) -> raft_safe Q (send_heartbeats ≫= k).
Proof.
  intros Hk s Hs. split; [done|]. cbn [fst].
  generalize (sendHeartbeats (sh_rm s)). intros nodes.
  induction nodes as [|node nodes IH]; [done|]. split; [done|]. intros [] _. exact IH.
Qed.

Lemma own_startElection now rnd rm : own_manager rm -> own_manager (fst (startElection now rnd rm)).
Proof.
  intros H. destruct (startElection now rnd rm) as [rm' [maj nodes]] eqn:E.
  pose proof (startElection_frame _ _ _ _ _ _ E) as [Hsame _].
  eapply own_manager_config; [exact H| |exact Hsame].
  assert (rm' = fst (startElection now rnd rm)) as -> by by rewrite E. by destruct H as [_ _ []].
Qed.

#[local] Opaque startElection.

Lemma raft_start_election {B} (Q : outcome B -> Prop) (k : unit -> prog raft_response RaftThreads.Shared B) :
  raft_safe Q (k tt) -> raft_safe Q (start_election ≫= k).
Proof.
  intros Hk. split; [done|]. intros now _. split; [done|]. intros rnd _ s Hs.
  pose proof (own_startElection now rnd (sh_rm s) Hs) as Hrm'.
  destruct (startElection now rnd (sh_rm s)) as [rm' [maj nodes]].
  split; [exact Hrm'|]. clear Hrm'. cbn [fst]. generalize (length (sh_elections s)). intros n.
  induction nodes as [|node nodes IH]; [exact Hk|]. split; [done|]. intros [] _. exact IH.
Qed.

Lemma raft_update_status : raft_safe (fun o => o = Ok tt) update_status.
Proof.
  intros s1 Hs1. split; [by apply manages_cluster; [|apply Hs1]|].
  intros s2 Hs2. split; [done|]. split; [apply Hs2|]. intros [c|e] Hans; [|done].
  destruct (Hans c eq_refl) as [_ Hmeta].
  intros s3 Hs3. split; [|done]. apply manages_cluster; [done|].
  destruct Hs2 as [<- _ _]. unfold key_of. cbn [obj_meta]. by rewrite Hmeta.
Qed.

Lemma own_lead rm : own_manager rm -> own_manager (lead rm).
Proof.
  intros H. unfold lead. destruct (foldl_init_follower (rm <| rm_state := RaftStateLeader |>)
    (other_nodes (rm <| rm_state := RaftStateLeader |>))) as (ni & mi & ->).
  eapply own_manager_config; [exact H| |done]. by destruct H as [_ _ []].
Qed.

Lemma raft_unlock : raft_safe at_end (ask (Unlock : raft_request)).
Proof. split; [done|]. intros [] _. by left. Qed.

Lemma raft_vote_thread k node : raft_safe at_end (vote_thread k node).
Proof.
  intros s Hs. split; [done|]. apply raft_send_message; [by destruct Hs as [_ <- _]|].
  intros [|]; [|by left]. split; [done|]. intros [] _ s' Hs'. unfold count_vote.
  destruct (sh_elections s' !! k) as [el|]; [|by split; [|apply raft_unlock]].
  case_bool_decide; [|by split; [|apply raft_unlock]].
  split; [by apply own_lead|].
  change (raft_safe at_end ((_ ← send_heartbeats; update_status) ≫= fun _ => ask Unlock)).
  apply safe_bind, raft_send_heartbeats. eapply safe_mono; [done| |apply raft_update_status].
  intros ? ->. apply raft_unlock.
Qed.

Lemma raft_forever n (round : prog raft_response RaftThreads.Shared (option unit)) :
  raft_safe (fun o => exists x, o = Ok x) round -> raft_safe at_end (forever n round).
Proof.
  intros Hround. apply safe_forever; [by right|]. eapply safe_mono; [done| |exact Hround].
  intros ? [[[]|] ->]; [by left|done].
Qed.

Lemma raft_election_timer n : raft_safe at_end (run_election_timer n).
Proof.
  apply raft_forever. intros s Hs. split; [done|]. split; [done|]. intros fired _.
  destruct fired; cbn [negb]; [|by eexists]. split; [done|]. intros [] _ s' Hs'. split; [done|]. cbn [fst].
  case_bool_decide.
  - split; [done|]. intros [] _. by eexists.
  - split; [done|]. intros tested _ s2 Hs2. split; [done|]. cbn [fst]. destruct (_ <? _).
    + apply raft_start_election. split; [done|]. intros [] _. by eexists.
    + split; [done|]. intros [] _. by eexists.
Qed.

Lemma raft_heartbeat_timer n : raft_safe at_end (run_heartbeat_timer n).
Proof.
  apply raft_forever. intros s Hs. split; [done|]. split; [done|]. intros fired _.
  destruct fired; cbn [negb]; [|by eexists]. split; [done|]. intros [] _ s' Hs'. split; [done|]. cbn [fst].
  destruct (heartbeat_due (sh_rm s')).
  - apply raft_send_heartbeats. split; [done|]. intros [] _. by eexists.
  - split; [done|]. intros [] _. by eexists.
Qed.

(** ** On the memory of the process *)

Definition own (m : Process) : Prop := own_reconciler (ps_reconciler m).
Definition made (m : Process) : bool := has_manager (ps_reconciler m).

Notation ordered b Q p := (orderly own made process_allowed process_admissible b (fun _ => Q) p).

Lemma ordered_raft (p : prog raft_response RaftThreads.Shared unit) :
  raft_safe at_end p -> ordered true at_end (of_raft p).
Proof.
  intros Hp. apply (orderly_safe _ _ _ _ _ (process_allowed true) at_end); [done|done|].
  apply (safe_embed OfRaft _ _ raft_admissible); [done|].
  eapply safe_zoom; [|eapply safe_mono; [|done|exact Hp]; by split].
  intros m [Hown Hmade]. unfold made, has_manager in Hmade. unfold raft_memory.
  destruct (r_RaftManager (ps_reconciler m)) as [rm|] eqn:E; [|done].
  eexists. split; [reflexivity|]. split; [by apply Hown|].
  intros s' Hs'. split; [|done]. intros rm' [= <-]. exact Hs'.
Qed.

Lemma ordered_monitor (p : prog monitor_response MysqlClusterReconciler unit) :
  safe (managed key own_node) monitor_answer (monitor_allowed key) at_end p ->
  ordered true at_end (of_monitor p).
Proof.
  intros Hp. apply (orderly_safe _ _ _ _ _ (process_allowed true) at_end); [done|done|].
  apply (safe_embed OfMonitor _ _ monitor_answer); [done|].
  eapply safe_zoom; [|eapply safe_mono; [|done|exact Hp]; by split].
  intros m [Hown Hmade]. unfold made, has_manager in Hmade.
  eexists. split; [reflexivity|]. split.
  - destruct (r_RaftManager (ps_reconciler m)) as [rm|] eqn:E; [|done].
    exists rm. split; [done|by apply Hown].
  - intros r (rm & Hrm & Hm). split; [|by unfold made, has_manager; cbn; rewrite Hrm].
    intros rm' Hrm'. cbn in Hrm'. by simplify_eq.
Qed.

(** The controller's programs, on the reconciler's memory. *)
Notation controlled b Q p :=
  (orderly own_reconciler has_manager controller_allowed controller_answer b Q p).

Lemma ordered_controller b (Q : outcome unit -> Prop) (p : controller unit) :
  controlled b (fun _ => Q) p -> ordered b Q (of_controller p).
Proof.
  intros Hp. apply (orderly_embed Ctl _ _ _ controller_allowed _ controller_answer); [done|done|].
  by apply (orderly_zoom _ _ own_reconciler).
Qed.

(** ** The snapshot loop *)

Lemma controlled_exec b pod command :
  Containers (pod_spec pod) <> [] ->
  controlled b (fun _ o => (exists x, o = Ok x) \/ exists e, o = Err e) (execCommandOnPod pod command).
Proof.
  intros Hpod. unfold execCommandOnPod.
  split; [done|]. intros [config|e] _; [|right; by eexists].
  split; [done|]. intros [client|e] _; [|right; by eexists].
  destruct (Containers (pod_spec pod)) as [|c cs]; [done|].
  split; [done|]. intros [executor|e] _; [|right; by eexists].
  split; [done|]. intros [out|e] _; [left|right]; by eexists.
Qed.

Lemma controlled_round b cluster : controlled b (fun _ o => o = Ok tt) (snapshot_round cluster).
Proof.
  assert (forall b d, controlled b (fun _ o => o = Ok tt) (ask (Sleep d))) as Hsleep.
  { intros b' d. split; [done|]. by intros [] _. }
  assert (forall b x d, controlled b (fun _ o => o = Ok tt)
    (_ ← write_mem (fun r => r <| r_MasterGTIDSnapshot := x |>); ask (Sleep d))) as Hwrite.
  { intros b' x d m Hm _. split; [exact Hm|]. split; [done|]. apply Hsleep. }
  split; [done|]. intros [[|pod pods]|e] Hans; [apply Hwrite| |apply Hsleep].
  pose proof (Hans _ eq_refl) as [Hpod _]%Forall_cons.
  apply orderly_bind, orderly_attempt. eapply orderly_mono; [|by apply controlled_exec].
  intros b' o _ [[x ->]|[e ->]]; [apply Hwrite|apply Hsleep].
Qed.

Lemma controlled_snapshot_loop b n cluster : controlled b (fun _ => at_end) (snapshot_loop n cluster).
Proof.
  revert b. induction n as [|n IH]; intros b; [by right|].
  apply orderly_bind, orderly_bind. eapply orderly_mono; [|apply controlled_round].
  intros b' o _ ->. apply IH.
Qed.

(** ** The worker *)

Lemma own_holds m m' :
  own_reconciler m -> holds m m' -> own_reconciler m' /\ (has_manager m = true -> has_manager m' = true).
Proof.
  intros Hm Hh. split; [|by destruct (holds_keeps _ _ Hh) as [-> _]].
  destruct Hh as [[H|H] _]; intros rm Hrm; rewrite H in Hrm; [by apply Hm|].
  apply fmap_Some in Hrm as (rm0 & Hrm & ->). specialize (Hm _ Hrm). unfold forceElection.
  case_decide; [|done]. by destruct Hm as [? ? []].
Qed.

Lemma controlled_inits {A} b (Q : bool -> outcome A -> Prop) p :
  (forall b o, Q b o) -> within init_request holds p -> controlled b Q p.
Proof.
  intros HQ. apply orderly_within; [|apply own_holds|auto]. intros b' [[]|?|[]|[]| | | | | | | | | |]; by cbn.
Qed.

Lemma controlled_quiet {A} b (Q : bool -> outcome A -> Prop) p :
  (forall b o, Q b o) -> within quiet_request holds p -> controlled b Q p.
Proof.
  intros HQ. apply orderly_within; [|apply own_holds|auto]. intros b' [[]|?|[]|[]| | | | | | | | | |]; by cbn.
Qed.

Lemma controlled_enable_snapshots b local :
  controlled b (fun _ _ => True) (enable_snapshots local).
Proof.
  apply (orderly_within _ _ _ _ _ _ (fun r => forall b, controller_allowed b r)
    (fun m m' => r_RaftManager m' = r_RaftManager m)); [auto| |done|].
  - intros m m' Hm Heq. unfold own_reconciler, has_manager. by rewrite Heq.
  - unfold enable_snapshots, startAndUpdateGTIDSnapshot, read_cluster, the_manager. within; done.
Qed.

Lemma controlled_ensureRaft b cluster :
  key_of KMysqlCluster cluster = key -> controlled b (fun _ _ => True) (ensureRaft cluster).
Proof.
  intros Hkey m Hm _. split; [done|]. split; [done|]. cbn [fst]. destruct (r_RaftManager m); [done|].
  split; [done|]. intros rnd _. split; [done|]. intros now _ m' Hm' _. split.
  { intros rm [= <-]. split; [done| |by split]. unfold own_node. by rewrite <-Hkey. }
  split; [done|]. cbn. by repeat (split; [done|intros [] _]).
Qed.

Lemma controlled_maintain b cluster :
  key_of KMysqlCluster cluster = key -> controlled b (fun _ _ => True) (maintain fuel cluster).
Proof.
  intros Hkey. apply orderly_bind. eapply orderly_mono; [|by apply controlled_ensureRaft].
  intros b' [local|?|?|] _ _; try done. apply controlled_quiet; [done|].
  unfold ensureSemiSyncReplication. within; first [done | apply holds_same | apply quiet_read_cluster
    | apply quiet_reconcileReplicas | apply quiet_raft | apply quiet_semisync].
Qed.

Lemma controlled_initialize b cluster : controlled b (fun _ _ => True) (initialize fuel cluster).
Proof.
  apply orderly_bind. apply controlled_inits; [|apply init_inits].
  intros b' [[]|?|?|]; try done. split; [done|]. by intros [c|e] _.
Qed.

Lemma controlled_Reconcile b : controlled b (fun _ _ => True) (Reconcile fuel key).
Proof.
  split; [done|]. intros [cluster|e] Hans; [|cbn; by destruct (IsNotFound e)].
  specialize (Hans cluster eq_refl). apply orderly_bind.
  eapply (orderly_mono _ _ _ _ _ (fun _ _ => True)).
  - intros b' [local|?|?|] _ _; try done. apply controlled_enable_snapshots.
  - destruct (negb (initialized cluster)); [apply controlled_initialize|by apply controlled_maintain].
Qed.

Lemma controlled_process b n : controlled b (fun _ _ => True) (process fuel (replicate n key)).
Proof.
  revert b. induction n as [|n IH]; intros b; [done|]. apply orderly_bind, orderly_bind, orderly_attempt.
  eapply orderly_mono; [|apply controlled_Reconcile]. intros b' [[]|?|?|] _ _; try done; apply IH.
Qed.

(** ** The process *)

(** The worker may end as it likes, which is for the queue to see; the goroutines may not fail. *)
Definition fate (i : nat) (o : outcome unit) : Prop := i = 0%nat \/ at_end o.

Lemma ordered_goroutine b g : controller_allowed b (Go g) -> ordered b at_end (goroutine_program fuel g).
Proof.
  destruct g; cbn; try intros ->.
  - apply ordered_raft, raft_election_timer.
  - apply ordered_raft, raft_heartbeat_timer.
  - intros _. apply ordered_controller, controlled_snapshot_loop.
  - by apply ordered_monitor, (keeps_monitor_loops _ _ 0 fuel).
  - by apply ordered_monitor, (keeps_monitor_loops _ _ 1 fuel).
  - by apply ordered_monitor, (keeps_monitor_loops _ _ 2 fuel).
Qed.

Lemma ordered_spawn b r p :
  process_allowed b r -> process_effect fuel r = Spawn p -> ordered b at_end p.
Proof.
  intros Hr Hp. destruct r as [r|r|r]; [|destruct Hr as [-> Hr]|done].
  - destruct r; try discriminate Hp. injection Hp as <-. by apply ordered_goroutine.
  - destruct r; try discriminate Hp; injection Hp as <-; apply ordered_raft; [apply raft_vote_thread|apply raft_heartbeat_thread].
Qed.

Lemma process_in_order n st :
  process_reachable fuel n key st -> in_order process_admissible own made process_allowed fate 1 st.
Proof.
  intros Hst. refine (pool_orderly (process_effect fuel) _ (fun _ => True) _ _ _ _ _ _ _ _ Hst _).
  - intros b r p i Hr Hp Hi. eapply orderly_mono; [|by eapply ordered_spawn]. by right.
  - split; cbn; [by intros rm|lia| |done].
    intros i p Hi. apply list_lookup_singleton_Some in Hi as [-> <-]. exists false. split; [done|].
    eapply orderly_mono; [|by apply (ordered_controller false (fun _ => True)), controlled_process]. by left.
Qed.


End kept.

(** C15: a process of a cluster has the manager of that cluster's first node or none: in every interleaving
    of the worker, the Raft goroutines and the monitor, whatever the API answers, a manager that has
    been made keeps its node and its cluster, and the fields the monitor reports from (the leader, the
    peers, the counts) are never set. *)
Theorem process_manager fuel n key st rm :
  process_reachable fuel n key st -> r_RaftManager (ps_reconciler (shared st)) = Some rm ->
  rm_nodeId rm = key_Name key +:+ "-0" /\ key_of KMysqlCluster (rm_cluster rm) = key /\ unset rm.
Proof.
  intros Hst Hrm. pose proof (process_in_order fuel key n st Hst) as [Hown _ _ _].
  by destruct (Hown rm Hrm) as [? ? ?].
Qed.


(** What the requests of a process may be. *)
Definition process_request_ok (key : ObjectKey) (r : process_request) : Prop :=
  match r with
  | Ctl (StatusUpdate _) => False
  | Ctl _ => True
  | OfRaft r => raft_allowed key r
  | OfMonitor r => monitor_allowed key r
  end.

(** C22: who writes what: in every interleaving the messages that are created come from the process's
    own node and lie in the namespace of its cluster; the metrics are those of its cluster; the
    status that is updated is that of its cluster, and [Reconcile] updates none; and no partition is
    ever reported. *)
Theorem process_writers fuel n key st :
  process_reachable fuel n key st -> Forall (fun ev => process_request_ok key (projT1 ev)) (history st).
Proof.
  intros Hst. pose proof (process_in_order fuel key n st Hst) as [_ _ _ Hh].
  eapply Forall_impl; [exact Hh|]. intros [[r|r|r] x] [b Hb]; cbn in *; [by destruct r|apply Hb..].
Qed.

End process.

(** ** A concrete run *)

#[local] Existing Instance sim_extern.

(** A server that knows one cluster and grants what is created. *)
Definition known (cluster : MysqlCluster) (now : Time) (r : request) : response r :=
  match r return response r with
  | Get KMysqlCluster key =>
      if decide (key_of KMysqlCluster cluster = key) then Success cluster else Failure (Errorf "unavailable")
  | r => grant now r
  end.

Definition answers (cluster : MysqlCluster) (now : Time) (r : process_request) : process_response r :=
  match r return process_response r with
  | Ctl r => known cluster now r
  | OfRaft r => grant_all now r
  | OfMonitor r =>
      match r return monitor_response r with
      | MonitorApi r => grant now r
      | Tick _ => true
      | LogInfo _ | LogWarning _ => tt
      end
  end.

Lemma answers_admissible cluster now r : process_admissible r (answers cluster now r).
Proof.
  destruct r as [r|r|r]; [|apply grant_all_admissible|].
  - destruct r as [[]| | | | | | | | | | | | |]; cbn; try done; [|by intros c' [= ->]].
    case_decide; [|done]. by intros o [= <-].
  - destruct r as [[]| | |]; cbn; try done. by intros c' [= ->].
Qed.

#[local] Instance unbounded_dec (m : Process) : Decision True := left I.

Definition example_key : ObjectKey := key_of KMysqlCluster (example_cluster 3).

(** The worker reconciles the initialised cluster; a second later the goroutines take turns, each
    entry of [ts] a goroutine and how many. *)
Definition example_run (ts : list (nat * nat)) : pool process_response Process :=
  turns (process_effect 1) (fun _ => True)
    ((fun '(i, now) => (i, answers (mark_initialized (example_cluster 3)) now)) <$>
       (replicate 12 (0%nat, 0) ++ (ts ≫= fun '(i, n) => replicate n (i, Second))))
    (start_process 1 1 example_key).

Lemma example_run_reachable ts : process_reachable 1 1 example_key (example_run ts).
Proof.
  unfold process_reachable, example_run. apply turns_steps, Forall_fmap, Forall_true.
  intros [j now] r. apply answers_admissible.
Qed.

Definition example_process (i : nat) : pool process_response Process := example_run [(i, 30%nat)].

Lemma example_process_reachable i : process_reachable 1 1 example_key (example_process i).
Proof. apply example_run_reachable. Qed.



Lemma process_manager_witness :
  exists rm, r_RaftManager (ps_reconciler (shared (example_process 1))) = Some rm /\
    rm_state rm = RaftStateCandidate /\ rm_nodeId rm = "db-0".
Proof.
  destruct (r_RaftManager (ps_reconciler (shared (example_process 1)))) as [rm|] eqn:E.
  - exists rm. split; [done|]. split.
    + transitivity (default RaftStateFollower
        (rm_state <$> r_RaftManager (ps_reconciler (shared (example_process 1))))); [by rewrite E|].
      vm_compute. reflexivity.
    + apply (process_manager 1 1 example_key _ rm (example_process_reachable 1) E).
  - exfalso. apply (f_equal (fun o : option RaftManager => match o with Some _ => true | None => false end)) in E.
    vm_compute in E. discriminate.
Defined.

Lemma process_writers_witness :
  (6 < length (history (example_process 4)))%nat /\
  Forall (fun ev => process_request_ok example_key (projT1 ev)) (history (example_process 4)).
Proof.
  split; [apply Nat.ltb_lt; vm_compute; reflexivity|].
  exact (process_writers 1 1 example_key _ (example_process_reachable 4)).
Defined.
