(* ===== verification/Flag.v ===== *)
(** * Command lines (Go's [flag] package)

    What [main] uses of the standard library's [flag]: which arguments are flags, the syntax
    [-name], [-name=value], [--name], [-name value], the terminator [--], boolean values, and
    [flag.Parse] with the error handling of [flag.CommandLine]. *)

From S2P Require Import Prelude.

(** ** One argument *)

Inductive argument : Type :=
| Operand
| Terminator
| BadSyntax
| Flag (name : string) (value : option string).

(** [name=value] at its first [=]. *)
Fixpoint cut (s : string) : string * option string :=
  match s with
  | EmptyString => ("", None)
  | String c s' =>
      if Ascii.eqb c "=" then ("", Some s')
      else let '(name, value) := cut s' in (String c name, value)
  end.

Definition flag_of (s : string) : argument :=
  match s with
  | EmptyString => BadSyntax
  | String c _ =>
      if Ascii.eqb c "-" || Ascii.eqb c "=" then BadSyntax
      else let '(name, value) := cut s in Flag name value
  end.

Definition classify (s : string) : argument :=
  match s with
  | String "-" (String "-" EmptyString) => Terminator
  | String "-" (String "-" s') => flag_of s'
  | String "-" EmptyString => Operand
  | String "-" s' => flag_of s'
  | _ => Operand
  end.

(** [strconv.ParseBool] *)
Definition ParseBool (s : string) : option bool :=
  if decide (s ∈ ["1"; "t"; "T"; "TRUE"; "true"; "True"]) then Some true
  else if decide (s ∈ ["0"; "f"; "F"; "FALSE"; "false"; "False"]) then Some false
  else None.

Definition FormatBool (b : bool) : string := if b then "true" else "false".

Lemma ParseBool_FormatBool b : ParseBool (FormatBool b) = Some b.
Proof. by destruct b. Qed.

(** ** Parsing *)

Inductive flag_error : Type :=
| Syntax (arg : string)
| NotDefined (name : string)
| NeedsArgument (name : string)
| InvalidValue (name value : string).

Inductive parsed (S : Type) : Type :=
| Parsed (flags : S) (args : list string)
| Help
| Rejected (e : flag_error).
Arguments Parsed {S} flags args.
Arguments Help {S}.
Arguments Rejected {S} e.

Section parse.
  (** The flags defined, by name, with whether they are boolean; [set] gives a flag a value. *)
  Context {S : Type} (is_bool : string -> option bool) (set : string -> string -> S -> option S).

Fixpoint parse (args : list string) (s : S) : parsed S :=
  match args with
  | [] => Parsed s []
  | a :: rest =>
      match classify a with
      | Operand => Parsed s (a :: rest)
      | Terminator => Parsed s rest
      | BadSyntax => Rejected (Syntax a)
      | Flag name value =>
          match is_bool name with
          | None => if decide (name = "help" \/ name = "h") then Help else Rejected (NotDefined name)
          | Some true =>
              let v := default "true" value in
              match set name v s with
              | Some s' => parse rest s'
              | None => Rejected (InvalidValue name v)
              end
          | Some false =>
              match value, rest with
              | Some v, _ =>
                  match set name v s with
                  | Some s' => parse rest s'
                  | None => Rejected (InvalidValue name v)
                  end
              | None, v :: rest' =>
                  match set name v s with
                  | Some s' => parse rest' s'
                  | None => Rejected (InvalidValue name v)
                  end
              | None, [] => Rejected (NeedsArgument name)
              end
          end
      end
  end.

(** No argument of the list is the flag [name].  (An argument that is the value of the flag before it
    counts, so this is more than is needed.) *)
Definition unnamed (name : string) (args : list string) : Prop :=
  Forall (fun a => match classify a with Flag n _ => n <> name | _ => True end) args.

#[global] Instance unnamed_dec name args : Decision (unnamed name args).
Proof. apply Forall_dec. intros a. destruct (classify a); apply _. Defined.

(** What only the flag [name] changes is unchanged when no argument names it. *)
Lemma parse_unnamed {T} (f : S -> T) name args s flags rest :
  (forall n v s s', n <> name -> set n v s = Some s' -> f s' = f s) ->
  unnamed name args -> parse args s = Parsed flags rest -> f flags = f s.
Proof.
  intros Hset. remember (length args) as k eqn:Hk. revert args Hk s.
  induction k as [k IH] using lt_wf_ind. intros [|a args] -> s Hn Hp; [by simplify_eq/=|].
  apply Forall_cons in Hn as [Ha Hn]. cbn [parse] in Hp.
  destruct (classify a) as [| | |n value]; [by simplify_eq..|done|].
  assert (forall v args' s', set n v s = Some s' -> (length args' <= length args)%nat -> unnamed name args' ->
            parse args' s' = Parsed flags rest -> f flags = f s) as Hrec.
  { intros v args' s' Hv Hlen Hn' Hp'. rewrite <-(Hset n v s s') by done.
    eapply (IH (length args')); [cbn; lia|done|done|done]. }
  destruct (is_bool n) as [[]|].
  - destruct (set n (default "true" value) s) as [s'|] eqn:E; [|done]. by apply (Hrec _ args s' E).
  - destruct value as [v|].
    + destruct (set n v s) as [s'|] eqn:E; [|done]. by apply (Hrec _ args s' E).
    + destruct args as [|v args]; [done|]. destruct (set n v s) as [s'|] eqn:E; [|done].
      apply Forall_cons in Hn as [_ Hn]. apply (Hrec _ args s' E); [cbn; lia|done..].
  - by case_decide.
Qed.

End parse.

(** ** Writing a flag *)

Definition write_flag (name value : string) : string := "--" +:+ name +:+ "=" +:+ value.

(** A name without [=] that does not begin with a dash. *)
Fixpoint plain (s : string) : bool :=
  match s with
  | EmptyString => true
  | String c s' => negb (Ascii.eqb c "=") && plain s'
  end.

Definition flag_name (s : string) : bool :=
  match s with
  | EmptyString => false
  | String c _ => negb (Ascii.eqb c "-") && plain s
  end.

Lemma cut_plain name value : plain name = true -> cut (name +:+ "=" +:+ value) = (name, Some value).
Proof.
  induction name as [|c name IH]; [done|]. cbn [plain]. intros [Hc Hp]%andb_prop.
  change (String c name +:+ "=" +:+ value) with (String c (name +:+ "=" +:+ value)).
  cbn [cut]. by rewrite (proj1 (negb_true_iff _) Hc), IH.
Qed.

Lemma classify_write_flag name value :
  flag_name name = true -> classify (write_flag name value) = Flag name (Some value).
Proof.
  intros Hn. destruct name as [|c name]; [done|]. cbn in Hn.
  apply andb_prop in Hn as [Hc Hp]. unfold write_flag.
  change (classify _) with (flag_of (String c (name +:+ "=" +:+ value))).
  pose proof Hp as [He _]%andb_prop. cbn [flag_of].
  rewrite (proj1 (negb_true_iff _) Hc), (proj1 (negb_true_iff _) He). cbn [orb].
  change (String c (name +:+ "=" +:+ value)) with (String c name +:+ "=" +:+ value).
  by rewrite cut_plain.
Qed.
