(* ===== verification/Main.v ===== *)
(** * The entry of the program ([cmd/main.go], [api/v1/groupversion_info.go], [SetupWithManager])

    The command line, the options of the servers and of the manager made from it, and the calls into
    controller-runtime that set the process up, as a program over requests of its own: everything a
    library does is a request, with any answer. *)

From S2P Require Import Prelude Prog Flag Resources.

(** ** Data *)

Record GroupVersion := MkGroupVersion {
  gv_Group : string;
  gv_Version : string;
}.

(** [schema.GroupVersion.String] for a version and a group that are not empty. *)
Definition GroupVersion_String (gv : GroupVersion) : string := gv_Group gv +:+ "/" +:+ gv_Version gv.

(** The builder of [groupversion_info.go] with the types [init] of [mysqlcluster_types.go] registers. *)
Record Builder := MkBuilder {
  GroupVersion_of : GroupVersion;
  registered : list string;
}.

Definition GroupVersion_apps : GroupVersion := MkGroupVersion "apps.ryansu.com" "v1".
Definition SchemeBuilder : Builder := MkBuilder GroupVersion_apps [].
Definition Register (b : Builder) (types : list string) : Builder :=
  MkBuilder (GroupVersion_of b) (registered b ++ types).
Definition types_init (b : Builder) : Builder := Register b ["MysqlCluster"; "MysqlClusterList"].

(** Of a [tls.Config] the program sets [NextProtos]; [disableHTTP2] is its only option. *)
Record TLSConfig := MkTLSConfig {
  NextProtos : list string;
}.

Inductive TLSOption : Type := disableHTTP2.

Definition apply_option (o : TLSOption) (c : TLSConfig) : TLSConfig :=
  match o with disableHTTP2 => MkTLSConfig ["http/1.1"] end.

(** A server applies its options in order to its configuration. *)
Definition configure (opts : list TLSOption) (c : TLSConfig) : TLSConfig :=
  foldl (fun c o => apply_option o c) c opts.

Inductive Filter : Type := WithAuthenticationAndAuthorization.

Record MetricsOptions := MkMetricsOptions {
  BindAddress : string;
  SecureServing : bool;
  mo_TLSOpts : list TLSOption;
  FilterProvider : option Filter;
}.

#[export] Instance eta_MetricsOptions : Eta MetricsOptions := fun r =>
  MkMetricsOptions (BindAddress r) (SecureServing r) (mo_TLSOpts r) (FilterProvider r).

Class MainLib : Type := {
  Config : Type;
  Manager : Type;
  WebhookServer : Type;
  Signals : Type;
  (** Flags other packages define: controller-runtime's [kubeconfig] and those of zap. *)
  lib_is_bool : string -> option bool;
  lib_accepts : string -> string -> bool;
}.

Section main.
Context {lib : MainLib}.

Record ManagerOptions := MkManagerOptions {
  Metrics : MetricsOptions;
  Webhook : WebhookServer;
  HealthProbeBindAddress : string;
  LeaderElection : bool;
  LeaderElectionID : string;
}.

(** What [ctrl.NewControllerManagedBy(mgr).For(...).Owns(...)] has collected. *)
Record ControllerBuilder := MkControllerBuilder {
  cb_manager : Manager;
  cb_For : string;
  cb_Owns : list string;
}.

(** ** Requests *)

Inductive main_request : Type :=
| AddClientGoToScheme
| AddToScheme (b : Builder)
| SetLogger
| NewWebhookServer (tlsOpts : list TLSOption)
| GetConfigOrDie
| NewManager (c : Config) (o : ManagerOptions)
| Complete (b : ControllerBuilder)
| AddHealthzCheck (m : Manager) (name : string)
| AddReadyzCheck (m : Manager) (name : string)
| LogInfo (msg : string)
| LogError (e : error) (msg : string)
| SetupSignalHandler
| Start (m : Manager) (s : Signals)
| Exit (code : Z).

(** [GetConfigOrDie] may end the process, [None]. *)
Definition main_response (r : main_request) : Type :=
  match r with
  | AddClientGoToScheme | AddToScheme _ => result unit
  | SetLogger | LogInfo _ | LogError _ _ | Exit _ => unit
  | NewWebhookServer _ => WebhookServer
  | GetConfigOrDie => option Config
  | NewManager _ _ => result Manager
  | Complete _ | AddHealthzCheck _ _ | AddReadyzCheck _ _ | Start _ _ => result unit
  | SetupSignalHandler => Signals
  end.

Notation main_prog := (prog main_response unit).

(** How the process ends: [main] returns, or it exits with a code. *)
Inductive status : Type :=
| Returned
| Exited (code : Z).

Definition exit (code : Z) : main_prog status := _ ← ask (Exit code); mret (Exited code).

(** [setupLog.Error(err, msg); os.Exit(1)] *)
Definition fail (e : error) (msg : string) : main_prog status := _ ← ask (LogError e msg); exit 1.

(** [utilruntime.Must] *)
Definition must (r : result unit) : main_prog unit :=
  match r with Success _ => mret tt | Failure e => panic (Error e) end.

(** ** The command line *)

Record Flags := MkFlags {
  metricsAddr : string;
  probeAddr : string;
  enableLeaderElection : bool;
  secureMetrics : bool;
  enableHTTP2 : bool;
}.

#[global] Instance eta_Flags : Eta Flags := fun r =>
  MkFlags (metricsAddr r) (probeAddr r) (enableLeaderElection r) (secureMetrics r) (enableHTTP2 r).

Definition default_flags : Flags := MkFlags "0" ":8081" false true false.

Definition is_bool (name : string) : option bool :=
  if decide (name ∈ ["metrics-bind-address"; "health-probe-bind-address"]) then Some false
  else if decide (name ∈ ["leader-elect"; "metrics-secure"; "enable-http2"]) then Some true
  else lib_is_bool name.

Definition set_flag (name value : string) (f : Flags) : option Flags :=
  if decide (name = "metrics-bind-address") then Some (f <| metricsAddr := value |>)
  else if decide (name = "health-probe-bind-address") then Some (f <| probeAddr := value |>)
  else if decide (name = "leader-elect") then (fun b => f <| enableLeaderElection := b |>) <$> ParseBool value
  else if decide (name = "metrics-secure") then (fun b => f <| secureMetrics := b |>) <$> ParseBool value
  else if decide (name = "enable-http2") then (fun b => f <| enableHTTP2 := b |>) <$> ParseBool value
  else if lib_accepts name value then Some f else None.

Definition parse_flags (args : list string) : parsed Flags := parse is_bool set_flag args default_flags.

(** ** Setting up *)

Definition tls_options (f : Flags) : list TLSOption := if negb (enableHTTP2 f) then [disableHTTP2] else [].

Definition metrics_options (f : Flags) : MetricsOptions :=
  let o := MkMetricsOptions (metricsAddr f) (secureMetrics f) (tls_options f) None in
  if secureMetrics f then o <| FilterProvider := Some WithAuthenticationAndAuthorization |> else o.

Definition manager_options (f : Flags) (webhook : WebhookServer) : ManagerOptions := {|
  Metrics := metrics_options f;
  Webhook := webhook;
  HealthProbeBindAddress := probeAddr f;
  LeaderElection := enableLeaderElection f;
  LeaderElectionID := "bf19fbca.ryansu.com";
|}.

(** [init] of [main.go]; by then [types_init] has run. *)
Definition main_init : main_prog unit :=
  added ← ask AddClientGoToScheme;
  _ ← must added;
  added ← ask (AddToScheme (types_init SchemeBuilder));
  must added.

Definition SetupWithManager (mgr : Manager) : main_prog (result unit) :=
  ask (Complete (MkControllerBuilder mgr "MysqlCluster" ["Pod"])).

(** [main] once the manager is there. *)
Definition run_manager (mgr : Manager) : main_prog status :=
  controller ← SetupWithManager mgr;
  match controller with
  | Failure e => fail e "unable to create controller"
  | Success _ =>
      health ← ask (AddHealthzCheck mgr "healthz");
      match health with
      | Failure e => fail e "unable to set up health check"
      | Success _ =>
          ready ← ask (AddReadyzCheck mgr "readyz");
          match ready with
          | Failure e => fail e "unable to set up ready check"
          | Success _ =>
              _ ← ask (LogInfo "starting manager");
              signals ← ask SetupSignalHandler;
              started ← ask (Start mgr signals);
              match started with
              | Failure e => fail e "problem running manager"
              | Success _ => mret Returned
              end
          end
      end
  end.

(** [main] after [flag.Parse]. *)
Definition serve (f : Flags) : main_prog status :=
  _ ← ask SetLogger;
  webhook ← ask (NewWebhookServer (tls_options f));
  config ← ask GetConfigOrDie;
  match config with
  | None => mret (Exited 1)
  | Some config =>
      made ← ask (NewManager config (manager_options f webhook));
      match made with
      | Failure e => fail e "unable to start manager"
      | Success mgr => run_manager mgr
      end
  end.

(** [flag.Parse] of [flag.CommandLine] exits with 0 after [-help] and with 2 after an error. *)
Definition main (args : list string) : main_prog status :=
  match parse_flags args with
  | Parsed f _ => serve f
  | Help => exit 0
  | Rejected _ => exit 2
  end.

Definition program (args : list string) : main_prog status := _ ← main_init; main args.

(** ** The command line round trip *)

Definition write_flags (f : Flags) : list string := [
  write_flag "metrics-bind-address" (metricsAddr f);
  write_flag "health-probe-bind-address" (probeAddr f);
  write_flag "leader-elect" (FormatBool (enableLeaderElection f));
  write_flag "metrics-secure" (FormatBool (secureMetrics f));
  write_flag "enable-http2" (FormatBool (enableHTTP2 f))].

(** C27: every setting of the flags can be written as a command line that [flag.Parse] reads back: the
    five flags with their values give exactly that setting and leave no operands. *)
Theorem parse_write_flags f : parse_flags (write_flags f) = Parsed f [].
Proof.
  unfold parse_flags, write_flags. cbn [parse]. rewrite !classify_write_flag by done.
  destruct f as [addr probe [] [] []]; reflexivity.
Qed.

(** ** Secure by default *)

Lemma set_flag_others n v f f' :
  set_flag n v f = Some f' ->
  (n <> "metrics-bind-address" -> metricsAddr f' = metricsAddr f) /\
  (n <> "metrics-secure" -> secureMetrics f' = secureMetrics f) /\
  (n <> "enable-http2" -> enableHTTP2 f' = enableHTTP2 f).
Proof.
  unfold set_flag. intros H.
  repeat (case_decide; [|]); try (apply fmap_Some in H as (b & _ & H)); simplify_eq; try done.
  destruct (lib_accepts n v); by simplify_eq.
Qed.

Lemma parse_flags_unnamed args f rest :
  parse_flags args = Parsed f rest ->
  (unnamed "metrics-bind-address" args -> metricsAddr f = "0") /\
  (unnamed "metrics-secure" args -> secureMetrics f = true) /\
  (unnamed "enable-http2" args -> enableHTTP2 f = false).
Proof.
  intros H. split_and!; intros Hn.
  - refine (parse_unnamed _ _ metricsAddr _ _ _ _ _ _ Hn H). intros n v s s' Hne Hs.
    by apply (set_flag_others _ _ _ _ Hs).
  - refine (parse_unnamed _ _ secureMetrics _ _ _ _ _ _ Hn H). intros n v s s' Hne Hs.
    by apply (set_flag_others _ _ _ _ Hs).
  - refine (parse_unnamed _ _ enableHTTP2 _ _ _ _ _ _ Hn H). intros n v s s' Hne Hs.
    by apply (set_flag_others _ _ _ _ Hs).
Qed.

(** The options of the servers the process asks for. *)
Definition tls_of (r : main_request) : option (list TLSOption) :=
  match r with
  | NewWebhookServer opts => Some opts
  | NewManager _ o => Some (mo_TLSOpts (Metrics o))
  | _ => None
  end.

Definition metrics_of (r : main_request) : option MetricsOptions :=
  match r with NewManager _ o => Some (Metrics o) | _ => None end.

(** What [serve] asks of the servers. *)
Definition options_of (f : Flags) (r : main_request) : Prop :=
  (forall opts, tls_of r = Some opts -> opts = tls_options f) /\
  (forall o, metrics_of r = Some o -> o = metrics_options f).

Lemma no_options f r : tls_of r = None -> metrics_of r = None -> options_of f r.
Proof. intros H1 H2. split; intros o; congruence. Qed.

Lemma metrics_options_tls f : mo_TLSOpts (metrics_options f) = tls_options f.
Proof. unfold metrics_options. by destruct (secureMetrics f). Qed.

Ltac main_step :=
  match goal with
  | |- always _ _ (match ?x with _ => _ end) => destruct x; try done
  | |- always _ _ (ask _ ≫= _) => always_ask; [by apply no_options|]
  end.

Lemma serve_options f : always (options_of f) (fun _ => True) (serve f).
Proof.
  assert (forall msg e, always (options_of f) (fun _ : outcome status => True) (fail e msg)) as Hfail.
  { intros msg e. unfold fail, exit. by repeat main_step. }
  unfold serve, run_manager, SetupWithManager. main_step.
  always_ask; [by split; intros o; [intros [= <-]|]|]. do 2 main_step.
  always_ask; [split; intros o [= <-]; [apply metrics_options_tls|done]|].
  repeat first [apply Hfail | main_step].
Qed.

(** Requests that configure no server. *)
Definition plain_request (r : main_request) : Prop := tls_of r = None /\ metrics_of r = None.

Lemma main_init_plain : always plain_request (fun _ => True) main_init.
Proof.
  unfold main_init, must. split; [done|]. intros [[]|e]; [|done]. split; [done|]. by intros [[]|e].
Qed.

Lemma exit_plain code : always plain_request (fun _ => True) (exit code).
Proof. by split. Qed.

Lemma program_options args :
  always (fun r => match parse_flags args with Parsed f _ => options_of f r | _ => plain_request r end)
    (fun _ => True) (program args).
Proof.
  unfold program, main. apply always_bind.
  eapply always_mono; [| |apply main_init_plain].
  - intros r [? ?]. destruct (parse_flags args); [by apply no_options|done..].
  - intros [[]|?|?|] _; try done. cbn [bind_post].
    destruct (parse_flags args); [apply serve_options|apply exit_plain..].
Qed.

(** C26: the servers are safe unless a flag says otherwise: without the flag [enable-http2] among the
    arguments the webhook and the metrics server only negotiate HTTP/1.1, whatever configuration they
    start from; without [metrics-secure] the metrics are served over TLS and only to requests that are
    authenticated and authorised; without [metrics-bind-address] they are not served. *)
Theorem program_secure_by_default args t o :
  exec (program args) t o ->
  Forall (fun ev =>
    (unnamed "enable-http2" args -> forall opts c, tls_of (projT1 ev) = Some opts ->
       NextProtos (configure opts c) = ["http/1.1"]) /\
    (forall mo, metrics_of (projT1 ev) = Some mo ->
       (unnamed "metrics-secure" args ->
          SecureServing mo = true /\ FilterProvider mo = Some WithAuthenticationAndAuthorization) /\
       (unnamed "metrics-bind-address" args -> BindAddress mo = "0"))) t.
Proof.
  intros H. destruct (always_exec _ _ _ _ _ (program_options args) H) as [Ht _].
  eapply Forall_impl; [exact Ht|]. clear Ht H. intros ev Hev.
  destruct (parse_flags args) as [f rest| |e] eqn:Hp;
    [|destruct Hev as [Htls Hm]; split; intros; congruence..].
  destruct (parse_flags_unnamed args f rest Hp) as (Hbind & Hsecure & Hhttp2).
  destruct Hev as [Htls Hmetrics]. split.
  - intros Hn opts c Hopts. rewrite (Htls _ Hopts). unfold tls_options. by rewrite (Hhttp2 Hn).
  - intros mo Hmo. rewrite (Hmetrics _ Hmo). unfold metrics_options.
    split; intros Hn; [by rewrite (Hsecure Hn)|]. destruct (secureMetrics f); cbn; by apply Hbind.
Qed.

(** ** How the process ends *)

(** The order of the set up. *)
Definition stage (r : main_request) : option nat :=
  match r with
  | AddClientGoToScheme => Some 0%nat
  | AddToScheme _ => Some 1%nat
  | SetLogger => Some 2%nat
  | NewWebhookServer _ => Some 3%nat
  | GetConfigOrDie => Some 4%nat
  | NewManager _ _ => Some 5%nat
  | Complete _ => Some 6%nat
  | AddHealthzCheck _ _ => Some 7%nat
  | AddReadyzCheck _ _ => Some 8%nat
  | SetupSignalHandler => Some 9%nat
  | Start _ _ => Some 10%nat
  | LogInfo _ | LogError _ _ | Exit _ => None
  end.

Definition error_of {A} (x : result A) : option error :=
  match x with Failure e => Some e | Success _ => None end.

(** The error a call was answered with. *)
Definition failure (ev : event main_response) : option error :=
  match ev with
  | existT r x =>
      match r return main_response r -> option error with
      | AddClientGoToScheme | AddToScheme _ | Complete _ | AddHealthzCheck _ _ | AddReadyzCheck _ _
      | Start _ _ => error_of
      | NewManager _ _ => error_of
      | _ => fun _ => None
      end x
  end.

(** [t] did the first [n] stages of the set up, each with success. *)
Definition done_stages (n : nat) (t : list (event main_response)) : Prop :=
  omap (fun ev => stage (projT1 ev)) t = seq 0 n /\ Forall (fun ev => failure ev = None) t.

(** What [main] logs when a stage fails; the registrations panic instead, and the other stages cannot
    fail or end the process themselves. *)
Definition stage_message (n : nat) : option string :=
  match n with
  | 5%nat => Some "unable to start manager"
  | 6%nat => Some "unable to create controller"
  | 7%nat => Some "unable to set up health check"
  | 8%nat => Some "unable to set up ready check"
  | 10%nat => Some "problem running manager"
  | _ => None
  end.

(** The line logged before the manager is started. *)
Definition announced (t : list (event main_response)) : list string :=
  omap (fun ev => match projT1 ev with LogInfo msg => Some msg | _ => None end) t.

Inductive ending (args : list string) : list (event main_response) -> outcome status -> Prop :=
| ending_returned t : done_stages 11 t -> announced t = ["starting manager"] -> ending args t (Ok Returned)
| ending_failed n t ev e msg (x y : unit) :
    done_stages n t -> stage (projT1 ev) = Some n -> failure ev = Some e ->
    stage_message n = Some msg ->
    announced t = (if decide (9 <= n)%nat then ["starting manager"] else []) ->
    ending args (t ++ [ev; existT (LogError e msg) x; existT (Exit 1) y]) (Ok (Exited 1))
| ending_config t :
    done_stages 4 t -> ending args (t ++ [existT GetConfigOrDie None]) (Ok (Exited 1))
| ending_help t (x : unit) :
    done_stages 2 t -> parse_flags args = Help -> ending args (t ++ [existT (Exit 0) x]) (Ok (Exited 0))
| ending_rejected t e (x : unit) :
    done_stages 2 t -> parse_flags args = Rejected e ->
    ending args (t ++ [existT (Exit 2) x]) (Ok (Exited 2))
| ending_panic n t ev e :
    (n < 2)%nat -> done_stages n t -> stage (projT1 ev) = Some n -> failure ev = Some e ->
    ending args (t ++ [ev]) (Panic (Error e)).

(** The last [k] events of a trace on their own; the stages of a concrete trace. *)
Ltac split_last k :=
  match goal with
  | |- ending ?args ?t ?o =>
      let n := eval cbn in (length t - k)%nat in
      let u := eval cbn [take] in (take n t) in let v := eval cbn [drop] in (drop n t) in
      change (ending args (u ++ v) o)
  end.
Ltac solve_stages := split; [reflexivity|repeat constructor].

(** C20: the process sets itself up in one order and stops at the first call that fails: it returns only
    after the manager was announced, started and ended without an error, with every earlier step done
    once and with success; a step that fails is logged with its error and the message of that step,
    which is the last before the exit with code 1, and the manager is not started after it; wrong
    arguments exit with code 2 and help with 0, before anything but the registration of the types; a
    registration that fails panics. *)
Theorem program_ends args t o : exec (program args) t o -> ending args t o.
Proof.
  intros H. unfold program, main_init, must, main in H.
  destruct (parse_flags args) as [f rest| |e] eqn:Hp; unfold serve, run_manager, SetupWithManager, fail, exit in H.
  all: exec_inv; simplify_eq/=.
  all: try solve
    [ apply ending_returned; [solve_stages|reflexivity]
    | split_last 3%nat; eapply ending_failed;
        [|reflexivity|reflexivity|reflexivity|reflexivity]; solve_stages
    | split_last 1%nat; first
        [ apply ending_config; solve_stages
        | apply ending_help; [solve_stages|done]
        | eapply ending_rejected; [solve_stages|exact Hp]
        | eapply ending_panic; [| |reflexivity|reflexivity]; [lia|solve_stages] ] ].
Qed.

(** The kind whose changes call [Reconcile] is registered under the version that the operator writes
    into owner references. *)
Definition wired (r : main_request) : Prop :=
  match r with
  | AddToScheme b => GroupVersion_String (GroupVersion_of b) = MysqlClusterAPIVersion /\
                     MysqlClusterKind ∈ registered b
  | Complete b => cb_For b = MysqlClusterKind /\ cb_Owns b = ["Pod"]
  | _ => True
  end.

Lemma program_wired args t o : exec (program args) t o -> Forall (fun ev => wired (projT1 ev)) t.
Proof.
  intros H. unfold program, main_init, must, main in H.
  destruct (parse_flags args) as [f rest| |e]; unfold serve, run_manager, SetupWithManager, fail, exit in H.
  all: exec_inv; repeat constructor; cbn; set_solver.
Qed.

End main.

(** ** An instance: every call succeeds *)

#[local] Instance example_lib : MainLib := {|
  Config := unit; Manager := unit; WebhookServer := unit; Signals := unit;
  lib_is_bool name := if decide (name = "kubeconfig") then Some false
                      else if decide (name = "zap-devel") then Some true else None;
  lib_accepts _ _ := true;
|}.

Definition all_succeeds : handler main_response unit unit := fun r s =>
  (match r return main_response r with
   | AddClientGoToScheme | AddToScheme _ | Complete _ | AddHealthzCheck _ _ | AddReadyzCheck _ _
   | Start _ _ | NewManager _ _ => Success tt
   | GetConfigOrDie => Some tt
   | _ => tt
   end, s).

(** Without the address of the metrics [config/manager/manager.yaml] starts the process like this. *)
Definition deployed_args : list string := ["--leader-elect"; "--health-probe-bind-address=:8081"].

Lemma program_secure_by_default_witness :
  unnamed "enable-http2" deployed_args /\
  Forall (fun ev => forall opts c, tls_of (projT1 ev) = Some opts -> NextProtos (configure opts c) = ["http/1.1"])
    (trace (run all_succeeds (program deployed_args) tt tt)).
Proof.
  assert (unnamed "enable-http2" deployed_args) as Hn by (apply (bool_decide_unpack _); vm_compute; exact I).
  split; [exact Hn|].
  pose proof (program_secure_by_default deployed_args _ _
    (run_exec all_succeeds (program deployed_args) tt tt)) as Hall.
  eapply Forall_impl; [exact Hall|]. intros ev [Hev _]. exact (Hev Hn).
Defined.

Lemma program_ends_witness :
  out (run all_succeeds (program deployed_args) tt tt) = Ok Returned /\
  ending deployed_args (trace (run all_succeeds (program deployed_args) tt tt)) (Ok Returned).
Proof.
  assert (out (run all_succeeds (program deployed_args) tt tt) = Ok Returned) as Ho by (vm_compute; reflexivity).
  split; [exact Ho|].
  pose proof (program_ends deployed_args _ _ (run_exec all_succeeds (program deployed_args) tt tt)) as He.
  rewrite Ho in He. exact He.
Defined.
